(** * Worker task handlers: story-to-script and script-to-storyboard

    A shallow embedding of the two queue-backed task handlers
    [handleStoryToScriptTask] (src/lib/workers/handlers/story-to-script.ts)
    and [handleScriptToStoryboardTask] (the script-to-storyboard handler),
    together with the JavaScript values they manipulate.

    Conventions of the embedding:
    - a JavaScript string is a [string] of this file, the sequence of its
      UTF-16 code units, so [str_length] is the [.length] of the source;
    - a JavaScript number is a [number]: a rational that is a binary64
      value, or one of the non-finite values; the arithmetic operators round
      to nearest, ties to even, as IEEE 754 prescribes (the two zeros are
      identified);
    - asynchronous code is sequential code in a state-and-exception monad
      [M] over a [World] holding the database and the trace of the calls
      made to the collaborators. *)

From Stdlib Require Import ZArith NArith QArith Qround Qpower Lia Lqa Ascii String.
From Stdlib Require Import Floats.SpecFloat.
From stdpp Require Import base strings list gmap pretty.

Local Open Scope Z_scope.

(** ** JavaScript numbers *)

Inductive number : Type :=
| NaN
| Inf (negative : bool)
| Fin (q : Q).

(** [2 ^ e] for an integer exponent of any sign. *)
Definition pow2 (e : Z) : Q := Qpower 2 e.

(** [Qlog2 q] is the integer [k] with [2^k <= q < 2^(k+1)], for [0 < q]. *)
Definition Qlog2 (q : Q) : Z :=
  let k := Z.log2 (Qnum q) - Z.log2 (Zpos (Qden q)) in
  if Qle_bool (pow2 k) q then k else k - 1.

(** Exponent of the unit in the last place of the binary64 format at [q]:
    53 bits of precision, least exponent -1074 (subnormal numbers). *)
Definition ulp_exp (q : Q) : Z := Z.max (Qlog2 q - 52) (-1074).

(** Nearest integer, ties to the even one. *)
Definition rne (q : Q) : Z :=
  let f := Qfloor q in
  match Qcompare (q - inject_Z f) (1 # 2) with
  | Lt => f
  | Gt => f + 1
  | Eq => if Z.even f then f else f + 1
  end.

(** Rounding of a positive rational to the binary64 grid. *)
Definition round_pos (q : Q) : Q :=
  let e := ulp_exp q in
  Qred (inject_Z (rne (q / pow2 e)) * pow2 e).

(** The binary64 value of an exact result: round to nearest even, and
    overflow to an infinity from [2^1024] on. *)
Definition round64 (q : Q) : number :=
  match Qcompare q 0 with
  | Eq => Fin 0
  | Gt => let r := round_pos q in
          if Qle_bool (pow2 1024) r then Inf false else Fin r
  | Lt => let r := round_pos (- q) in
          if Qle_bool (pow2 1024) r then Inf true else Fin (Qred (- r))
  end.

(** A number literal or an integer counter used as a number. *)
Definition num_of_Z (z : Z) : number := round64 (inject_Z z).

(** [a / b] *)
Definition num_div (a b : number) : number :=
  match a, b with
  | NaN, _ | _, NaN => NaN
  | Inf _, Inf _ => NaN
  | Inf s, Fin y => Inf (xorb s (negb (Qle_bool 0 y)))
  | Fin _, Inf _ => Fin 0
  | Fin x, Fin y =>
      if Qeq_bool y 0
      then (if Qeq_bool x 0 then NaN else Inf (negb (Qle_bool 0 x)))
      else round64 (x / y)
  end.

(** [a * b] *)
Definition num_mul (a b : number) : number :=
  match a, b with
  | NaN, _ | _, NaN => NaN
  | Inf s, Inf t => Inf (xorb s t)
  | Inf s, Fin y =>
      if Qeq_bool y 0 then NaN else Inf (xorb s (negb (Qle_bool 0 y)))
  | Fin x, Inf t =>
      if Qeq_bool x 0 then NaN else Inf (xorb t (negb (Qle_bool 0 x)))
  | Fin x, Fin y => round64 (x * y)
  end.

(** [a + b] *)
Definition num_add (a b : number) : number :=
  match a, b with
  | NaN, _ | _, NaN => NaN
  | Inf s, Inf t => if Bool.eqb s t then Inf s else NaN
  | Inf s, Fin _ => Inf s
  | Fin _, Inf t => Inf t
  | Fin x, Fin y => round64 (x + y)
  end.

(** [Math.max(a, b)] *)
Definition num_max (a b : number) : number :=
  match a, b with
  | NaN, _ | _, NaN => NaN
  | Inf false, _ | _, Inf false => Inf false
  | Inf true, y => y
  | x, Inf true => x
  | Fin x, Fin y => if Qle_bool x y then Fin y else Fin x
  end.

(** [Math.min(a, b)] *)
Definition num_min (a b : number) : number :=
  match a, b with
  | NaN, _ | _, NaN => NaN
  | Inf true, _ | _, Inf true => Inf true
  | Inf false, y => y
  | x, Inf false => x
  | Fin x, Fin y => if Qle_bool x y then Fin x else Fin y
  end.

(** [Math.floor(a)] *)
Definition num_floor (a : number) : number :=
  match a with
  | Fin x => Fin (inject_Z (Qfloor x))
  | other => other
  end.

(** [Number.isFinite(a)] *)
Definition num_isFinite (a : number) : bool :=
  match a with Fin _ => true | _ => false end.

(** [a <= b] of the source language: false as soon as one side is NaN. *)
Definition num_leb (a b : number) : bool :=
  match a, b with
  | NaN, _ | _, NaN => false
  | Inf true, _ => true
  | _, Inf false => true
  | Inf false, _ => false
  | _, Inf true => false
  | Fin x, Fin y => Qle_bool x y
  end.

(** The order on numbers as a proposition. *)
Definition num_le (a b : number) : Prop := num_leb a b = true.

(** The literal [0.1] of the source: the binary64 value nearest to 1/10. *)
Definition num_0_1 : number := round64 (1 # 10).

(** ** JavaScript strings

    A string of the source is a sequence of UTF-16 code units. The type
    below takes the place of the library's strings of 8-bit characters: a
    literal ["..."] of this file is read as UTF-8 and stands for the code
    units of its text, a character outside the Basic Multilingual Plane
    for its two surrogates. *)

(** A code unit is a number below 65536; a larger number stands for no
    code unit, and is neither white space, nor a digit, nor a letter. *)
Definition codeUnit : Type := N.

Inductive string : Type :=
| EmptyString
| String (c : codeUnit) (rest : string).

Declare Scope js_scope.
Delimit Scope js_scope with js.
Bind Scope js_scope with string.

(** The six payload bits of a continuation byte of UTF-8. *)
Definition continuation (b : Byte.byte) : option N :=
  let n := Byte.to_N b in
  if ((128 <=? n) && (n <? 192))%N then Some (n - 128)%N else None.

(** The code unit of a code point of the Basic Multilingual Plane, the
    two surrogates of another one, before [rest]. *)
Definition unitsOfCodePoint (cp : N) (rest : string) : string :=
  if (cp <? 65536)%N then String cp rest
  else String (55296 + (cp - 65536) / 1024)%N
              (String (56320 + (cp - 65536) mod 1024)%N rest).

(** The code units of a text in UTF-8; a byte that does not begin a
    well-formed sequence stands for itself. *)
Fixpoint utf16 (bytes : list Byte.byte) : string :=
  match bytes with
  | [] => EmptyString
  | b :: rest =>
      let n := Byte.to_N b in
      let single := String n (utf16 rest) in
      if (n <? 192)%N then single
      else
        match rest with
        | b1 :: rest1 =>
            match continuation b1 with
            | None => single
            | Some c1 =>
                if (n <? 224)%N
                then String ((n - 192) * 64 + c1)%N (utf16 rest1)
                else
                  match rest1 with
                  | b2 :: rest2 =>
                      match continuation b2 with
                      | None => single
                      | Some c2 =>
                          if (n <? 240)%N
                          then String ((n - 224) * 4096 + c1 * 64 + c2)%N (utf16 rest2)
                          else
                            match rest2 with
                            | b3 :: rest3 =>
                                match continuation b3 with
                                | None => single
                                | Some c3 =>
                                    unitsOfCodePoint
                                      ((n - 240) * 262144 + c1 * 4096 + c2 * 64 + c3)%N
                                      (utf16 rest3)
                                end
                            | [] => single
                            end
                      end
                  | [] => single
                  end
            end
        | [] => single
        end
  end.

(** The way back, by which a string is displayed: each code unit on its
    own. *)
Definition utf8OfUnit (c : codeUnit) : list Byte.byte :=
  let byte n := default Byte.x3f (Byte.of_N n) in
  if (c <? 128)%N then [byte c]
  else if (c <? 2048)%N then [byte (192 + c / 64)%N; byte (128 + c mod 64)%N]
  else [byte (224 + c / 4096)%N; byte (128 + (c / 64) mod 64)%N;
        byte (128 + c mod 64)%N].

Fixpoint utf8 (s : string) : list Byte.byte :=
  match s with
  | EmptyString => []
  | String c rest => utf8OfUnit c ++ utf8 rest
  end.

String Notation string utf16 utf8 : js_scope.

Local Open Scope js_scope.

(** [a + b] on strings *)
Fixpoint append (a b : string) : string :=
  match a with
  | EmptyString => b
  | String c rest => String c (append rest b)
  end.

Infix "+:+" := append (at level 60, right associativity) : js_scope.

#[global] Instance string_eq_dec : EqDecision string.
Proof. solve_decision. Defined.

Fixpoint codeUnits (s : string) : list codeUnit :=
  match s with
  | EmptyString => []
  | String c rest => c :: codeUnits rest
  end.

Fixpoint ofCodeUnits (units : list codeUnit) : string :=
  match units with
  | [] => EmptyString
  | c :: rest => String c (ofCodeUnits rest)
  end.

#[global] Instance string_countable : Countable string.
Proof.
  refine (inj_countable' codeUnits ofCodeUnits _).
  intros s. induction s as [|c s IH]; simpl; [reflexivity | rewrite IH; reflexivity].
Defined.

(** The code unit of an ASCII character. *)
Definition unitOf (a : ascii) : codeUnit := N_of_ascii a.

(** The string of a text of ASCII characters. *)
Fixpoint ofAscii (s : Strings.String.string) : string :=
  match s with
  | Strings.String.EmptyString => EmptyString
  | Strings.String.String a rest => String (unitOf a) (ofAscii rest)
  end.

(** The number of code units. *)
Fixpoint str_len (s : string) : nat :=
  match s with
  | EmptyString => 0
  | String _ rest => S (str_len rest)
  end.

(** The first [n] code units. *)
Fixpoint str_take (n : nat) (s : string) : string :=
  match n, s with
  | S n', String c rest => String c (str_take n' rest)
  | _, _ => EmptyString
  end.

Fixpoint str_rev_app (s acc : string) : string :=
  match s with
  | EmptyString => acc
  | String c rest => str_rev_app rest (String c acc)
  end.

Definition str_rev (s : string) : string := str_rev_app s EmptyString.

(** [p] is a prefix of [s]. *)
Fixpoint str_prefix (p s : string) : bool :=
  match p, s with
  | EmptyString, _ => true
  | String a p', String b s' => (a =? b)%N && str_prefix p' s'
  | String _ _, EmptyString => false
  end.

(** The code units that [String.prototype.trim] removes, the white space
    and the line terminators of the language: U+0009 to U+000D, U+0020,
    U+00A0, U+1680, U+2000 to U+200A, U+2028, U+2029, U+202F, U+205F,
    U+3000 and U+FEFF. *)
Definition is_whitespace (c : codeUnit) : bool :=
  (((9 <=? c) && (c <=? 13)) || (c =? 32) || (c =? 160) || (c =? 5760)
   || ((8192 <=? c) && (c <=? 8202)) || (c =? 8232) || (c =? 8233)
   || (c =? 8239) || (c =? 8287) || (c =? 12288) || (c =? 65279))%N.

Fixpoint trimStart (s : string) : string :=
  match s with
  | String c rest => if is_whitespace c then trimStart rest else s
  | EmptyString => EmptyString
  end.

Definition trimEnd (s : string) : string := str_rev (trimStart (str_rev s)).

(** [s.trim()] *)
Definition trim (s : string) : string := trimEnd (trimStart s).

(** The ideographic space U+3000, the white space of a Chinese text. *)
Definition ideographicSpace : string := String 12288%N EmptyString.

(** [s.repeat(n)] *)
Fixpoint str_repeat (n : nat) (s : string) : string :=
  match n with
  | O => EmptyString
  | S n' => s +:+ str_repeat n' s
  end.

(** [s.length] *)
Definition str_length (s : string) : Z := Z.of_nat (str_len s).

(** [s.slice(0, n)] for [0 <= n] *)
Definition slice0 (n : Z) (s : string) : string := str_take (Z.to_nat n) s.

(** [!s] of a string: only the empty string is falsy. *)
Definition str_empty (s : string) : bool := bool_decide (s = "").

(** [a || b] on strings *)
Definition str_or (a b : string) : string := if str_empty a then b else a.

(** [items.join(sep)] *)
Fixpoint join (sep : string) (items : list string) : string :=
  match items with
  | [] => ""
  | [x] => x
  | x :: rest => x +:+ sep +:+ join sep rest
  end.

(** [s] occurs in [t] as a substring. *)
Definition contains (t s : string) : Prop := exists pre post, t = pre +:+ s +:+ post.

(** [t.startsWith(s)] as a proposition. *)
Definition starts_with (t s : string) : Prop := exists post, t = s +:+ post.

(** Lower-casing of one code unit: A-Z, and the capitals of Latin-1 other
    than the multiplication sign. The code units from U+0100 on are left
    as they are: Chinese text has no case, and the case pairs of the
    other scripts are not modelled. *)
Definition lower_unit (c : codeUnit) : codeUnit :=
  if (((65 <=? c) && (c <=? 90))
      || ((192 <=? c) && (c <=? 222) && negb (c =? 215)))%N
  then (c + 32)%N else c.

Fixpoint toLowerCase (s : string) : string :=
  match s with
  | String c rest => String (lower_unit c) (toLowerCase rest)
  | EmptyString => EmptyString
  end.

(** The decimal rendering of an integer inside a template literal. *)
Definition show (z : Z) : string := ofAscii (pretty z).

(** ** JavaScript values (job payloads and parsed JSON) *)

#[warnings="-register-all"]
Inductive JsValue : Type :=
| JUndefined
| JNull
| JBool (b : bool)
| JNum (n : number)
| JStr (s : string)
| JArr (items : list JsValue)
| JObj (fields : list (string * JsValue)).

(** A JSON object as the list of its properties; a key occurs once. *)
Definition JsonRecord : Type := list (string * JsValue).

Fixpoint assoc (key : string) (fields : JsonRecord) : option JsValue :=
  match fields with
  | [] => None
  | (k, v) :: rest => if bool_decide (k = key) then Some v else assoc key rest
  end.

(** [record.key]: [undefined] when the property is absent. *)
Definition field (record : JsonRecord) (key : string) : JsValue :=
  default JUndefined (assoc key record).

(** [value.key] on an arbitrary value of type [AnyObj]. *)
Definition prop (value : JsValue) (key : string) : JsValue :=
  match value with
  | JObj fields => field fields key
  | _ => JUndefined
  end.

Definition num_is_zero_or_nan (n : number) : bool :=
  match n with
  | NaN => true
  | Fin q => Qeq_bool q 0
  | Inf _ => false
  end.

(** Truthiness of a value. *)
Definition truthy (v : JsValue) : bool :=
  match v with
  | JUndefined | JNull => false
  | JBool b => b
  | JNum n => negb (num_is_zero_or_nan n)
  | JStr s => negb (str_empty s)
  | JArr _ | JObj _ => true
  end.

(** [a || b] on values *)
Definition js_or (a b : JsValue) : JsValue := if truthy a then a else b.

(** A [string | null] field as a value. *)
Definition of_nullable (s : option string) : JsValue :=
  match s with Some x => JStr x | None => JNull end.

(** [s || ''] for a [string | null] field *)
Definition nullable_or_empty (s : option string) : string := default "" s.

(** ** Errors and the handler monad *)

Inductive JsError : Type :=
| Error (message : string)
| TaskTerminatedError (message : string)
| JsonParseError (message rawText : string).

Definition error_message (e : JsError) : string :=
  match e with
  | Error m | TaskTerminatedError m | JsonParseError m _ => m
  end.

(** [e instanceof TaskTerminatedError] *)
Definition isTaskTerminated (e : JsError) : bool :=
  match e with TaskTerminatedError _ => true | _ => false end.

Inductive outcome (A : Type) : Type :=
| Ok (a : A)
| Throw (e : JsError).
Arguments Ok {A} a.
Arguments Throw {A} e.

(** *** Step metadata and LLM call options

    The counters of the source ([stepIndex], [stepTotal], [stepAttempt],
    the counts of a summary, a panel index) are numbers that hold
    integers: they are integers here, converted with [num_of_Z] where the
    source computes with them, and rendered with [show] inside a template
    literal. *)

Record StepMeta : Type := {
  stepId : string;
  stepTitle : string;
  stepIndex : Z;
  stepTotal : Z;
  stepAttempt : option Z;
}.

Record StepOutput : Type := {
  text : string;
  reasoning : string;
}.

Record ChatOptions : Type := {
  temperature : number;
  opt_reasoning : bool;
  reasoningEffort : string;
  opt_projectId : string;
  opt_action : string;
  streamStepId : string;
  streamStepAttempt : Z;
  streamStepTitle : string;
  streamStepIndex : Z;
  streamStepTotal : Z;
}.

(** The step part of a progress report. *)
Record StepReport : Type := {
  report_stepId : string;
  report_stepAttempt : Z;
  report_stepTitle : string;
  report_stepIndex : Z;
  report_stepTotal : Z;
}.

(** *** Database rows *)

Record Project : Type := {
  project_id : string;
  project_name : string;
  project_mode : string;
}.

Record Character : Type := {
  character_name : string;
  character_introduction : option string;
}.

Record Location : Type := {
  location_name : string;
}.

Record NovelPromotionProject : Type := {
  novel_id : string;
  novel_projectId : string;
  characters : list Character;
  locations : list Location;
}.

Record Clip : Type := {
  clip_id : string;
  clip_episodeId : string;
  clip_content : string;
  clip_characters : option string;
  clip_location : option string;
  clip_screenplay : option string;
}.

Record Episode : Type := {
  episode_id : string;
  novelPromotionProjectId : string;
  novelText : option string;
}.

(** The columns of a voice line written by [create]. *)
Record VoiceLineData : Type := {
  vl_episodeId : string;
  vl_lineIndex : Z;
  vl_speaker : string;
  vl_content : string;
  vl_emotionStrength : number;
  vl_matchedPanelId : option string;
  vl_matchedStoryboardId : option string;
  vl_matchedPanelIndex : option Z;
}.

(** A stored voice line: the identifier the store assigned, and the data. *)
Record VoiceLine : Type := {
  vl_id : N;
  vl_data : VoiceLineData;
}.

Record Db : Type := {
  projects : list Project;
  novelPromotionProjects : list NovelPromotionProject;
  episodes : list Episode;
  clips : list Clip;
  voiceLines : list VoiceLine;
  nextVoiceLineId : N;
}.

(** *** Trace of the calls made to the collaborators *)

Inductive Event : Type :=
| EvAssertTaskActive (label : string) (active : bool)
| EvReportTaskProgress (percent : number) (stage stageLabel : string)
                       (step : option StepReport)
| EvLogAIAnalysis (action : string)
| EvOnProjectNameAvailable (projectId name : string)
| EvGetProjectModelConfig (projectId userId : string)
| EvResolveCapabilityOptions (projectId userId modelType modelKey : string)
| EvChatCompletion (userId model prompt : string) (options : ChatOptions)
| EvFlush
| EvFindUnique (table key : string)
| EvPersist (helper : string)
| EvClipUpdate (clipId screenplay : string)
| EvTransactionBegin (timeout : Z)
| EvTransactionCommit
| EvTransactionRollback
| EvVoiceLineDeleteMany (episodeId : string)
| EvVoiceLineCreate (data : VoiceLineData).

(** The calls that write to the database. *)
Definition is_write (ev : Event) : bool :=
  match ev with
  | EvPersist _ | EvClipUpdate _ _
  | EvVoiceLineDeleteMany _ | EvVoiceLineCreate _ => true
  | _ => false
  end.

(** The billable calls to the LLM client. *)
Definition is_completion (ev : Event) : bool :=
  match ev with EvChatCompletion _ _ _ _ => true | _ => false end.

Record World : Type := {
  db : Db;
  trace : list Event;
}.

Definition M (A : Type) : Type := World -> outcome A * World.

Definition ret {A} (a : A) : M A := fun w => (Ok a, w).

Definition bind {A B} (m : M A) (k : A -> M B) : M B :=
  fun w =>
    match m w with
    | (Ok a, w') => k a w'
    | (Throw e, w') => (Throw e, w')
    end.

#[global] Instance M_ret : MRet M := @ret.
#[global] Instance M_bind : MBind M := fun A B k m => bind m k.

(** [throw e] *)
Definition throw {A} (e : JsError) : M A := fun w => (Throw e, w).

(** [try { body } catch (err) { handler err }] *)
Definition try_catch {A} (body : M A) (handler : JsError -> M A) : M A :=
  fun w =>
    match body w with
    | (Ok a, w') => (Ok a, w')
    | (Throw e, w') => handler e w'
    end.

(** [try { body } finally { cleanup }]: the clean-up runs on both exits; an
    exception of the clean-up replaces the outcome of the body. *)
Definition try_finally {A} (body : M A) (cleanup : M unit) : M A :=
  fun w =>
    match body w with
    | (r, w') =>
        match cleanup w' with
        | (Ok _, w'') => (r, w'')
        | (Throw e, w'') => (Throw e, w'')
        end
    end.

(** Record a call in the trace. *)
Definition emit (ev : Event) : M unit :=
  fun w => (Ok tt, {| db := db w; trace := trace w ++ [ev] |}).

Definition get_db : M Db := fun w => (Ok (db w), w).

Definition get_trace : M (list Event) := fun w => (Ok (trace w), w).

Definition put_db (d : Db) : M unit :=
  fun w => (Ok tt, {| db := d; trace := trace w |}).

#[global] Instance outcome_ret : MRet outcome := @Ok.
#[global] Instance outcome_bind : MBind outcome :=
  fun A B k o => match o with Ok a => k a | Throw e => Throw e end.

(** A computation that only returns or throws. *)
Definition lift {A} (o : outcome A) : M A := fun w => (o, w).

(** [for (const x of items) { await body(x) }] *)
Fixpoint forEach {A} (body : A -> M unit) (items : list A) : M unit :=
  match items with
  | [] => ret tt
  | x :: rest => bind (body x) (fun _ => forEach body rest)
  end.

(** [new Map(entries)] and repeated [map.set]: a later entry replaces an
    earlier one with the same key. *)
Definition map_of_entries (entries : list (string * string)) : gmap string string :=
  foldl (fun m kv => <[kv.1 := kv.2]> m) ∅ entries.

(** ** Orchestrators *)

(** Modelled from the spec: the orchestrator modules
    (novel-promotion/story-to-script/orchestrator and
    novel-promotion/script-to-storyboard/orchestrator) are not among the
    sources. Following section 4.2, an orchestrator is a terminating
    program whose only capability is the injected [runStep]: it returns,
    throws, or runs one step and goes on according to what the step
    returned or threw (so that it may record a failure as data). *)
Inductive Orch (R : Type) : Type :=
| OrchReturn (r : R)
| OrchThrow (e : JsError)
| OrchStep (meta : StepMeta) (prompt action : string) (maxOutputTokens : Z)
           (k : outcome StepOutput -> Orch R).
Arguments OrchReturn {R} r.
Arguments OrchThrow {R} e.
Arguments OrchStep {R} meta prompt action maxOutputTokens k.

Fixpoint runOrch {R} (runStep : StepMeta -> string -> string -> Z -> M StepOutput)
    (o : Orch R) : M R :=
  match o with
  | OrchReturn r => ret r
  | OrchThrow e => throw e
  | OrchStep meta prompt action maxOutputTokens k =>
      fun w =>
        match runStep meta prompt action maxOutputTokens w with
        | (r, w') => runOrch runStep (k r) w'
        end
  end.

(** *** Story-to-script orchestrator interface *)

Record ScreenplayResult : Type := {
  sr_clipId : string;
  sr_success : bool;
  sr_screenplay : option JsValue;
  sr_error : option string;
}.

Record StoryToScriptSummary : Type := {
  clipCount : Z;
  screenplaySuccessCount : Z;
  screenplayFailedCount : Z;
}.

Record StoryToScriptResult : Type := {
  analyzedCharacters : list JsValue;
  analyzedLocations : list JsValue;
  clipList : list JsValue;
  screenplayResults : list ScreenplayResult;
  s2s_summary : StoryToScriptSummary;
}.

Record StoryToScriptInput : Type := {
  in_content : string;
  baseCharacters : list string;
  baseLocations : list string;
  baseCharacterIntroductions : list (string * string);
  characterPromptTemplate : string;
  locationPromptTemplate : string;
  clipPromptTemplate : string;
  screenplayPromptTemplate : string;
}.

(** *** Script-to-storyboard orchestrator interface *)

Record ClipInput : Type := {
  ci_id : string;
  ci_content : string;
  ci_characters : option string;
  ci_location : option string;
  ci_screenplay : option string;
}.

Record ScriptToStoryboardSummary : Type := {
  totalStepCount : Z;
  totalPanelCount : Z;
}.

Record ScriptToStoryboardResult : Type := {
  clipPanels : list JsValue;
  s2b_summary : ScriptToStoryboardSummary;
}.

Record ScriptToStoryboardInput : Type := {
  in_clips : list ClipInput;
  in_characters : list Character;
  in_locations : list Location;
  phase1PlanTemplate : string;
  phase2CinematographyTemplate : string;
  phase2ActingTemplate : string;
  phase3DetailTemplate : string;
}.

Record PersistedPanel : Type := {
  panel_id : string;
  panelIndex : Z;
  panel_columns : JsonRecord;
}.

Record PersistedStoryboard : Type := {
  storyboardId : string;
  panels : list PersistedPanel;
}.

(** ** The job and the collaborators *)

Record TaskJobData : Type := {
  job_taskId : string;
  job_projectId : string;
  job_episodeId : option string;
  job_payload : JsValue;
  job_userId : string;
  job_locale : string;
}.

(** The members of [PROMPT_IDS] the two handlers use. *)
Inductive PromptId : Type :=
| NP_AGENT_CHARACTER_PROFILE
| NP_SELECT_LOCATION
| NP_AGENT_CLIP
| NP_SCREENPLAY_CONVERSION
| NP_AGENT_STORYBOARD_PLAN
| NP_AGENT_CINEMATOGRAPHER
| NP_AGENT_ACTING_DIRECTION
| NP_AGENT_STORYBOARD_DETAIL
| NP_VOICE_ANALYSIS.

(** The modules the handlers import and that are not among the sources,
    taken as parameters. What a call answers may depend on the calls made
    so far ([list Event]) and on the database. *)
Record Env : Type := {
  (* @/lib/workers/utils: [Some message] when the job has been cancelled or
     superseded at this checkpoint *)
  taskTerminated : list Event -> option string;
  (* @/lib/llm-client: chatCompletion followed by getCompletionParts *)
  completion : list Event -> outcome StepOutput;
  (* what other actors write to the database while a completion is in flight *)
  concurrentWrites : list Event -> Db -> Db;
  (* @/lib/config-service *)
  analysisModelOf : Db -> string -> string -> option string;
  capabilityReasoningEffort : Db -> string -> string -> string -> JsValue;
  (* @/lib/prompt-i18n *)
  getPromptTemplate : PromptId -> string -> string;
  buildPrompt : PromptId -> string -> list (string * string) -> string;
  (* @/lib/constants *)
  buildCharactersIntroduction : list Character -> string;
  (* JSON.stringify *)
  jsonStringify : JsValue -> string;
  (* ./story-to-script-helpers and ./script-to-storyboard-helpers *)
  asString : JsValue -> string;
  parseEffort : JsValue -> option string;
  parseTemperature : JsValue -> number;
  persistAnalyzedCharacters :
    string -> gset string -> list JsValue -> Db -> outcome (list string) * Db;
  persistAnalyzedLocations :
    string -> gset string -> list JsValue -> Db -> outcome (list string) * Db;
  persistClips : string -> list JsValue -> Db -> outcome (list (string * string)) * Db;
  resolveClipRecordId : gmap string string -> string -> option string;
  asJsonRecord : JsValue -> option JsonRecord;
  buildStoryboardJson : list PersistedStoryboard -> string;
  parseVoiceLinesJson : string -> outcome (list JsonRecord);
  persistStoryboardsAndPanels :
    string -> list JsValue -> Db -> outcome (list PersistedStoryboard) * Db;
  toPositiveInt : JsValue -> option Z;
  (* the orchestrators *)
  runStoryToScriptOrchestrator : StoryToScriptInput -> Orch StoryToScriptResult;
  runScriptToStoryboardOrchestrator :
    ScriptToStoryboardInput -> Orch ScriptToStoryboardResult;
}.

Section Handlers.

Context (E : Env).

(** ** Calls to the collaborators *)

(** Modelled from the spec: [assertTaskActive] of @/lib/workers/utils is
    not among the sources. Section 4.4: a gate that throws the cancellation
    signal when the job has been cancelled or superseded. *)
Definition assertTaskActive (label : string) : M unit :=
  tr ← get_trace;
  match taskTerminated E tr with
  | None => emit (EvAssertTaskActive label true)
  | Some message =>
      emit (EvAssertTaskActive label false);;
      throw (TaskTerminatedError message)
  end.

(** Modelled from the spec: [reportTaskProgress] of @/lib/workers/shared is
    not among the sources. Section 4.4: best effort, it never aborts the
    task. *)
Definition reportTaskProgress (percent : number) (stage stageLabel : string)
    (step : option StepReport) : M unit :=
  emit (EvReportTaskProgress percent stage stageLabel step).

Definition logAIAnalysis (action : string) : M unit :=
  emit (EvLogAIAnalysis action).

(** [chatCompletion] then [getCompletionParts]: the one outbound LLM call of
    a step. The database may have been changed by others when it returns. *)
Definition chatCompletion (userId model prompt : string) (options : ChatOptions)
    : M StepOutput :=
  emit (EvChatCompletion userId model prompt options);;
  tr ← get_trace;
  d ← get_db;
  put_db (concurrentWrites E tr d);;
  lift (completion E tr).

Definition getProjectModelConfig (projectId userId : string) : M (option string) :=
  emit (EvGetProjectModelConfig projectId userId);;
  d ← get_db;
  mret (analysisModelOf E d projectId userId).

Definition resolveProjectModelCapabilityGenerationOptions
    (projectId userId modelType modelKey : string) : M JsValue :=
  emit (EvResolveCapabilityOptions projectId userId modelType modelKey);;
  d ← get_db;
  mret (capabilityReasoningEffort E d projectId userId modelKey).

(** [prisma.project.findUnique({ where: { id } })] *)
Definition findProject (id : string) : M (option Project) :=
  emit (EvFindUnique "project" id);;
  d ← get_db;
  mret (List.find (fun p => bool_decide (project_id p = id)) (projects d)).

(** [prisma.novelPromotionProject.findUnique({ where: { projectId } })] *)
Definition findNovelPromotionProject (projectId : string)
    : M (option NovelPromotionProject) :=
  emit (EvFindUnique "novelPromotionProject" projectId);;
  d ← get_db;
  mret (List.find (fun p => bool_decide (novel_projectId p = projectId))
          (novelPromotionProjects d)).

(** [prisma.novelPromotionEpisode.findUnique({ where: { id } })] *)
Definition findEpisode (id : string) : M (option Episode) :=
  emit (EvFindUnique "novelPromotionEpisode" id);;
  d ← get_db;
  mret (List.find (fun e => bool_decide (episode_id e = id)) (episodes d)).

(** The same with [include: { clips: { orderBy: { createdAt: 'asc' } } }];
    the clip table is kept in creation order. *)
Definition findEpisodeWithClips (id : string) : M (option (Episode * list Clip)) :=
  emit (EvFindUnique "novelPromotionEpisode" id);;
  d ← get_db;
  mret (match List.find (fun e => bool_decide (episode_id e = id)) (episodes d) with
        | Some e =>
            Some (e, List.filter (fun c => bool_decide (clip_episodeId c = id)) (clips d))
        | None => None
        end).

(** A write made through one of the helper modules. *)
Definition persistWith {A} (helper : string) (write : Db -> outcome A * Db) : M A :=
  emit (EvPersist helper);;
  d ← get_db;
  match write d with
  | (r, d') => put_db d';; lift r
  end.

Definition set_screenplay (id screenplay : string) (c : Clip) : Clip :=
  if bool_decide (clip_id c = id)
  then {| clip_id := clip_id c; clip_episodeId := clip_episodeId c;
          clip_content := clip_content c; clip_characters := clip_characters c;
          clip_location := clip_location c; clip_screenplay := Some screenplay |}
  else c.

(** [prisma.novelPromotionClip.update({ where: { id }, data: { screenplay } })];
    the ORM rejects the update of a record that does not exist. *)
Definition clipUpdate (id screenplay : string) : M unit :=
  emit (EvClipUpdate id screenplay);;
  d ← get_db;
  if existsb (fun c => bool_decide (clip_id c = id)) (clips d)
  then put_db {| projects := projects d;
                 novelPromotionProjects := novelPromotionProjects d;
                 episodes := episodes d;
                 clips := map (set_screenplay id screenplay) (clips d);
                 voiceLines := voiceLines d;
                 nextVoiceLineId := nextVoiceLineId d |}
  else throw (Error "Record to update not found.").

(** Modelled from the spec: [prisma.$transaction] is not among the sources.
    Section 3: the transaction is all-or-nothing, the entities are left as
    they were before it when its body throws. The [timeout] option is
    recorded with the call. *)
Definition transaction {A} (timeout : Z) (body : M A) : M A :=
  emit (EvTransactionBegin timeout);;
  before ← get_db;
  try_catch (a ← body; emit EvTransactionCommit;; mret a)
            (fun e => put_db before;; emit EvTransactionRollback;; throw e).

(** The table without the voice lines of an episode. *)
Definition deleteVoiceLines (episodeId : string) (d : Db) : Db :=
  {| projects := projects d;
     novelPromotionProjects := novelPromotionProjects d;
     episodes := episodes d;
     clips := clips d;
     voiceLines :=
       List.filter (fun v => negb (bool_decide (vl_episodeId (vl_data v) = episodeId)))
                   (voiceLines d);
     nextVoiceLineId := nextVoiceLineId d |}.

(** The table with one more voice line, under a fresh identifier. *)
Definition insertVoiceLine (d : Db) (data : VoiceLineData) : Db :=
  {| projects := projects d;
     novelPromotionProjects := novelPromotionProjects d;
     episodes := episodes d;
     clips := clips d;
     voiceLines := voiceLines d ++ [{| vl_id := nextVoiceLineId d; vl_data := data |}];
     nextVoiceLineId := N.succ (nextVoiceLineId d) |}.

(** [tx.novelPromotionVoiceLine.deleteMany({ where: { episodeId } })] *)
Definition voiceLineDeleteMany (episodeId : string) : M unit :=
  emit (EvVoiceLineDeleteMany episodeId);;
  d ← get_db;
  put_db (deleteVoiceLines episodeId d).

(** [tx.novelPromotionVoiceLine.create({ data, select: { id: true } })] *)
Definition voiceLineCreate (data : VoiceLineData) : M N :=
  emit (EvVoiceLineCreate data);;
  d ← get_db;
  put_db (insertVoiceLine d data);;
  mret (nextVoiceLineId d).

(** ** The step runner of the two handlers *)

(** [value === 'minimal' || value === 'low' || value === 'medium' || value === 'high'] *)
Definition isReasoningEffort (value : JsValue) : option string :=
  match value with
  | JStr s =>
      if bool_decide (s = "minimal") || bool_decide (s = "low")
         || bool_decide (s = "medium") || bool_decide (s = "high")
      then Some s else None
  | _ => None
  end.

(** [requested || (isReasoningEffort(capability) ? capability : 'high')] *)
Definition resolveReasoningEffort (requested : option string) (capability : JsValue)
    : string :=
  match requested with
  | Some r => if str_empty r then default "high" (isReasoningEffort capability) else r
  | None => default "high" (isReasoningEffort capability)
  end.

(** [15 + Math.min(55, Math.floor((stepIndex / Math.max(1, stepTotal)) * 55))] *)
Definition stepProgress (stepIndex stepTotal : Z) : number :=
  num_add (num_of_Z 15)
    (num_min (num_of_Z 55)
       (num_floor
          (num_mul (num_div (num_of_Z stepIndex) (num_max (num_of_Z 1) (num_of_Z stepTotal)))
                   (num_of_Z 55)))).

(** [meta.stepAttempt || 1] *)
Definition attemptOf (meta : StepMeta) : Z :=
  match stepAttempt meta with
  | Some a => if (a =? 0)%Z then 1 else a
  | None => 1
  end.

(** What the two [runStep] closures capture from their handler. *)
Record StepContext : Type := {
  ctx_userId : string;
  ctx_projectId : string;
  ctx_model : string;
  ctx_temperature : number;
  ctx_reasoning : bool;
  ctx_reasoningEffort : string;
}.

(** The literals in which the two closures differ. *)
Record StepLabels : Type := {
  checkpointPrefix : string;
  stepStage : string;
  stepStageLabel : string;
  promptActionPrefix : string;
  outputActionPrefix : string;
}.

Definition storyToScriptLabels : StepLabels :=
  {| checkpointPrefix := "story_to_script_step:";
     stepStage := "story_to_script_step";
     stepStageLabel := "progress.stage.storyToScriptStep";
     promptActionPrefix := "STORY_TO_SCRIPT_PROMPT:";
     outputActionPrefix := "STORY_TO_SCRIPT_OUTPUT:" |}.

Definition scriptToStoryboardLabels : StepLabels :=
  {| checkpointPrefix := "script_to_storyboard_step:";
     stepStage := "script_to_storyboard_step";
     stepStageLabel := "progress.stage.scriptToStoryboardStep";
     promptActionPrefix := "SCRIPT_TO_STORYBOARD_PROMPT:";
     outputActionPrefix := "SCRIPT_TO_STORYBOARD_OUTPUT:" |}.

(** The step fields of the progress report of a step. *)
Definition stepReportOf (meta : StepMeta) : StepReport :=
  {| report_stepId := stepId meta;
     report_stepAttempt := attemptOf meta;
     report_stepTitle := stepTitle meta;
     report_stepIndex := stepIndex meta;
     report_stepTotal := stepTotal meta |}.

(** The options of the completion call of a step. *)
Definition chatOptionsOf (c : StepContext) (action : string) (meta : StepMeta)
    : ChatOptions :=
  {| temperature := ctx_temperature c;
     opt_reasoning := ctx_reasoning c;
     reasoningEffort := ctx_reasoningEffort c;
     opt_projectId := ctx_projectId c;
     opt_action := action;
     streamStepId := stepId meta;
     streamStepAttempt := attemptOf meta;
     streamStepTitle := stepTitle meta;
     streamStepIndex := stepIndex meta;
     streamStepTotal := stepTotal meta |}.

(** The [runStep] closure (story-to-script.ts lines 125-190, and lines
    169-233 of the script-to-storyboard handler): the same code up to the
    literals of [StepLabels]. *)
Definition runStep (L : StepLabels) (c : StepContext)
    (meta : StepMeta) (prompt action : string) (_maxOutputTokens : Z) : M StepOutput :=
  assertTaskActive (checkpointPrefix L +:+ stepId meta);;
  let progress := stepProgress (stepIndex meta) (stepTotal meta) in
  reportTaskProgress progress (stepStage L) (stepStageLabel L) (Some (stepReportOf meta));;
  logAIAnalysis (promptActionPrefix L +:+ action);;
  parts ← chatCompletion (ctx_userId c) (ctx_model c) prompt (chatOptionsOf c action meta);
  logAIAnalysis (outputActionPrefix L +:+ action);;
  mret {| text := text parts; reasoning := reasoning parts |}.

(** [callbacks.flush()] *)
Definition flush : M unit := emit EvFlush.

(** ** handleStoryToScriptTask (story-to-script.ts) *)

(** [(job.data.payload || {}) as AnyObj] *)
Definition payloadOf (job : TaskJobData) : JsValue := js_or (job_payload job) (JObj []).

(** [value !== false] *)
Definition not_false (value : JsValue) : bool :=
  match value with JBool false => false | _ => true end.

(** [inputModel || projectModelConfig.analysisModel || ''], then the
    [if (!model) throw] that follows (lines 90-93; lines 141-144 of the
    other handler). *)
Definition resolveAnalysisModel (inputModel : string) (analysisModel : option string)
    : outcome string :=
  let model := str_or (str_or inputModel (nullable_or_empty analysisModel)) "" in
  if str_empty model then Throw (Error "analysisModel is not configured") else Ok model.

(** Lines 104-109: the content handed to the orchestrator. *)
Definition analyzedContent (contentRaw : string) (episodeNovelText : option string)
    : outcome string :=
  let mergedContent := str_or (trim contentRaw) (nullable_or_empty episodeNovelText) in
  if str_empty (trim mergedContent) then Throw (Error "content is required")
  else
    let maxLength := 30000%Z in
    Ok (if (maxLength <? str_length mergedContent)%Z
        then slice0 maxLength mergedContent else mergedContent).

Record StoryToScriptPrepared : Type := {
  p_episodeId : string;
  p_project : Project;
  p_novelData : NovelPromotionProject;
  p_step : StepContext;
  p_content : string;
}.

(** Lines 36-37: [episodeId] *)
Definition storyToScript_episodeId (job : TaskJobData) : string :=
  let payload := payloadOf job in
  let episodeIdRaw :=
    asString E (js_or (js_or (prop payload "episodeId") (of_nullable (job_episodeId job)))
                      (JStr "")) in
  trim episodeIdRaw.

(** Line 39: [inputModel] *)
Definition storyToScript_inputModel (job : TaskJobData) : string :=
  trim (asString E (prop (payloadOf job) "model")).

(** Lines 34-109: validation, loading, model and content resolution. *)
Definition storyToScript_prepare (job : TaskJobData) : M StoryToScriptPrepared :=
  let payload := payloadOf job in
  let projectId := job_projectId job in
  let episodeId := storyToScript_episodeId job in
  let contentRaw := asString E (prop payload "content") in
  let inputModel := storyToScript_inputModel job in
  let reasoning := not_false (prop payload "reasoning") in
  let requestedReasoningEffort := parseEffort E (prop payload "reasoningEffort") in
  let temperature := parseTemperature E (prop payload "temperature") in
  if str_empty episodeId then throw (Error "episodeId is required") else
  project ← findProject projectId;
  match project with
  | None => throw (Error "Project not found")
  | Some project =>
  if negb (bool_decide (project_mode project = "novel-promotion"))
  then throw (Error "Not a novel promotion project") else
  emit (EvOnProjectNameAvailable projectId (project_name project));;
  novelData ← findNovelPromotionProject projectId;
  match novelData with
  | None => throw (Error "Novel promotion data not found")
  | Some novelData =>
  episode ← findEpisode episodeId;
  match episode with
  | None => throw (Error "Episode not found")
  | Some episode =>
  if negb (bool_decide (novelPromotionProjectId episode = novel_id novelData))
  then throw (Error "Episode not found") else
  analysisModel ← getProjectModelConfig projectId (job_userId job);
  model ← lift (resolveAnalysisModel inputModel analysisModel);
  capability ← resolveProjectModelCapabilityGenerationOptions
                 projectId (job_userId job) "llm" model;
  let reasoningEffort := resolveReasoningEffort requestedReasoningEffort capability in
  content ← lift (analyzedContent contentRaw (novelText episode));
  mret {| p_episodeId := episodeId;
          p_project := project;
          p_novelData := novelData;
          p_step := {| ctx_userId := job_userId job;
                       ctx_projectId := projectId;
                       ctx_model := model;
                       ctx_temperature := temperature;
                       ctx_reasoning := reasoning;
                       ctx_reasoningEffort := reasoningEffort |};
          p_content := content |}
  end end end.

(** Lines 197-211: the input handed to the orchestrator. *)
Definition storyToScriptInput (job : TaskJobData) (p : StoryToScriptPrepared)
    : StoryToScriptInput :=
  let novelData := p_novelData p in
  {| in_content := p_content p;
     baseCharacters := map character_name (characters novelData);
     baseLocations := map location_name (locations novelData);
     baseCharacterIntroductions :=
       map (fun item => (character_name item,
                         nullable_or_empty (character_introduction item)))
           (characters novelData);
     characterPromptTemplate :=
       getPromptTemplate E NP_AGENT_CHARACTER_PROFILE (job_locale job);
     locationPromptTemplate := getPromptTemplate E NP_SELECT_LOCATION (job_locale job);
     clipPromptTemplate := getPromptTemplate E NP_AGENT_CLIP (job_locale job);
     screenplayPromptTemplate :=
       getPromptTemplate E NP_SCREENPLAY_CONVERSION (job_locale job) |}.

(** Lines 111-217: the first progress report, the prompt templates and the
    orchestration, with [callbacks.flush()] in the [finally]. *)
Definition storyToScript_orchestrate (job : TaskJobData) (p : StoryToScriptPrepared)
    : M StoryToScriptResult :=
  reportTaskProgress (num_of_Z 10) "story_to_script_prepare"
    "progress.stage.storyToScriptPrepare" None;;
  try_finally
    (runOrch (runStep storyToScriptLabels (p_step p))
       (runStoryToScriptOrchestrator E (storyToScriptInput job p)))
    flush.

(** Lines 219-228: the message of the partial-failure error. *)
Definition partialFailureMessage (result : StoryToScriptResult) : string :=
  let failed := List.filter (fun item => negb (sr_success item)) (screenplayResults result) in
  let preview :=
    join " | "
      (map (fun item => sr_clipId item +:+ ":"
                        +:+ str_or (nullable_or_empty (sr_error item)) "unknown error")
           (take 3 failed)) in
  "STORY_TO_SCRIPT_PARTIAL_FAILED: "
  +:+ show (screenplayFailedCount (s2s_summary result)) +:+ "/"
  +:+ show (clipCount (s2s_summary result)) +:+ " screenplay steps failed. " +:+ preview.

Record StoryToScriptReturn : Type := {
  ret_episodeId : string;
  ret_clipCount : Z;
  ret_screenplaySuccessCount : Z;
  ret_screenplayFailedCount : Z;
  ret_persistedCharacters : nat;
  ret_persistedLocations : nat;
  ret_persistedClips : nat;
}.

(** Lines 273-283: one pass of the loop over [screenplayResults]. *)
Definition persistScreenplay (clipIdMap : gmap string string) (item : ScreenplayResult)
    : M unit :=
  if negb (sr_success item) || negb (from_option truthy false (sr_screenplay item))
  then ret tt
  else
    match resolveClipRecordId E clipIdMap (sr_clipId item) with
    | None => ret tt
    | Some clipRecordId =>
        if str_empty clipRecordId then ret tt
        else clipUpdate clipRecordId
               (jsonStringify E (default JUndefined (sr_screenplay item)))
    end.

(** Lines 219-299: the partial-failure check and the persistence. *)
Definition storyToScript_persist (p : StoryToScriptPrepared) (result : StoryToScriptResult)
    : M StoryToScriptReturn :=
  if (0 <? screenplayFailedCount (s2s_summary result))%Z
  then throw (Error (partialFailureMessage result))
  else
  reportTaskProgress (num_of_Z 80) "story_to_script_persist"
    "progress.stage.storyToScriptPersist" None;;
  assertTaskActive "story_to_script_persist";;
  episodeStillExists ← findEpisode (p_episodeId p);
  match episodeStillExists with
  | None =>
      throw (Error ("NOT_FOUND: Episode " +:+ p_episodeId p
                    +:+ " was deleted while the task was running"))
  | Some _ =>
  let novelData := p_novelData p in
  let existingCharacterNames : gset string :=
    list_to_set (map (fun item => toLowerCase (character_name item)) (characters novelData)) in
  let existingLocationNames : gset string :=
    list_to_set (map (fun item => toLowerCase (location_name item)) (locations novelData)) in
  createdCharacters ← persistWith "persistAnalyzedCharacters"
    (persistAnalyzedCharacters E (novel_id novelData) existingCharacterNames
       (analyzedCharacters result));
  createdLocations ← persistWith "persistAnalyzedLocations"
    (persistAnalyzedLocations E (novel_id novelData) existingLocationNames
       (analyzedLocations result));
  createdClipRows ← persistWith "persistClips"
    (persistClips E (p_episodeId p) (clipList result));
  let clipIdMap := map_of_entries createdClipRows in
  forEach (persistScreenplay clipIdMap) (screenplayResults result);;
  reportTaskProgress (num_of_Z 96) "story_to_script_persist_done"
    "progress.stage.storyToScriptPersistDone" None;;
  mret {| ret_episodeId := p_episodeId p;
          ret_clipCount := clipCount (s2s_summary result);
          ret_screenplaySuccessCount := screenplaySuccessCount (s2s_summary result);
          ret_screenplayFailedCount := screenplayFailedCount (s2s_summary result);
          ret_persistedCharacters := List.length createdCharacters;
          ret_persistedLocations := List.length createdLocations;
          ret_persistedClips := List.length createdClipRows |}
  end.

Definition handleStoryToScriptTask (job : TaskJobData) : M StoryToScriptReturn :=
  p ← storyToScript_prepare job;
  result ← storyToScript_orchestrate job p;
  storyToScript_persist p result.

(** ** handleScriptToStoryboardTask *)

Record ScriptToStoryboardPrepared : Type := {
  q_episodeId : string;
  q_project : Project;
  q_novelData : NovelPromotionProject;
  q_episode : Episode;
  q_clips : list Clip;
  q_step : StepContext;
}.

(** Lines 86-87: [episodeId] *)
Definition scriptToStoryboard_episodeId (job : TaskJobData) : string :=
  let episodeIdRaw :=
    match prop (payloadOf job) "episodeId" with
    | JStr s => s
    | _ => nullable_or_empty (job_episodeId job)
    end in
  trim episodeIdRaw.

(** Line 88: [inputModel] *)
Definition scriptToStoryboard_inputModel (job : TaskJobData) : string :=
  match prop (payloadOf job) "model" with
  | JStr s => trim s
  | _ => ""
  end.

(** Lines 84-153: validation, loading and model resolution. *)
Definition scriptToStoryboard_prepare (job : TaskJobData) : M ScriptToStoryboardPrepared :=
  let payload := payloadOf job in
  let projectId := job_projectId job in
  let episodeId := scriptToStoryboard_episodeId job in
  let inputModel := scriptToStoryboard_inputModel job in
  let reasoning := not_false (prop payload "reasoning") in
  let requestedReasoningEffort := parseEffort E (prop payload "reasoningEffort") in
  let temperature := parseTemperature E (prop payload "temperature") in
  if str_empty episodeId then throw (Error "episodeId is required") else
  project ← findProject projectId;
  match project with
  | None => throw (Error "Project not found")
  | Some project =>
  if negb (bool_decide (project_mode project = "novel-promotion"))
  then throw (Error "Not a novel promotion project") else
  emit (EvOnProjectNameAvailable projectId (project_name project));;
  novelData ← findNovelPromotionProject projectId;
  match novelData with
  | None => throw (Error "Novel promotion data not found")
  | Some novelData =>
  episode ← findEpisodeWithClips episodeId;
  match episode with
  | None => throw (Error "Episode not found")
  | Some (episode, episodeClips) =>
  if negb (bool_decide (novelPromotionProjectId episode = novel_id novelData))
  then throw (Error "Episode not found") else
  if (List.length episodeClips =? 0)%nat then throw (Error "No clips found") else
  analysisModel ← getProjectModelConfig projectId (job_userId job);
  model ← lift (resolveAnalysisModel inputModel analysisModel);
  capability ← resolveProjectModelCapabilityGenerationOptions
                 projectId (job_userId job) "llm" model;
  let reasoningEffort := resolveReasoningEffort requestedReasoningEffort capability in
  mret {| q_episodeId := episodeId;
          q_project := project;
          q_novelData := novelData;
          q_episode := episode;
          q_clips := episodeClips;
          q_step := {| ctx_userId := job_userId job;
                       ctx_projectId := projectId;
                       ctx_model := model;
                       ctx_temperature := temperature;
                       ctx_reasoning := reasoning;
                       ctx_reasoningEffort := reasoningEffort |} |}
  end end end.

(** Lines 240-258: the input handed to the orchestrator. *)
Definition scriptToStoryboardInput (job : TaskJobData) (p : ScriptToStoryboardPrepared)
    : ScriptToStoryboardInput :=
  let novelData := q_novelData p in
  {| in_clips :=
       map (fun clip => {| ci_id := clip_id clip;
                           ci_content := clip_content clip;
                           ci_characters := clip_characters clip;
                           ci_location := clip_location clip;
                           ci_screenplay := clip_screenplay clip |})
           (q_clips p);
     in_characters := characters novelData;
     in_locations := locations novelData;
     phase1PlanTemplate := getPromptTemplate E NP_AGENT_STORYBOARD_PLAN (job_locale job);
     phase2CinematographyTemplate :=
       getPromptTemplate E NP_AGENT_CINEMATOGRAPHER (job_locale job);
     phase2ActingTemplate :=
       getPromptTemplate E NP_AGENT_ACTING_DIRECTION (job_locale job);
     phase3DetailTemplate :=
       getPromptTemplate E NP_AGENT_STORYBOARD_DETAIL (job_locale job) |}.

(** Lines 155-279: the first progress report, the prompt templates and the
    orchestration; a [JsonParseError] is logged on its way out, and
    [callbacks.flush()] runs in the [finally]. *)
Definition scriptToStoryboard_orchestrate (job : TaskJobData)
    (p : ScriptToStoryboardPrepared) : M ScriptToStoryboardResult :=
  reportTaskProgress (num_of_Z 10) "script_to_storyboard_prepare"
    "progress.stage.scriptToStoryboardPrepare" None;;
  try_finally
    (try_catch
       (runOrch (runStep scriptToStoryboardLabels (q_step p))
          (runScriptToStoryboardOrchestrator E (scriptToStoryboardInput job p)))
       (fun err =>
          match err with
          | JsonParseError _ _ => logAIAnalysis "SCRIPT_TO_STORYBOARD_PARSE_ERROR"
          | _ => ret tt
          end;;
          throw err))
    flush.

(** Lines 281-291: the persistence of storyboards and panels. *)
Definition scriptToStoryboard_persistPanels (p : ScriptToStoryboardPrepared)
    (result : ScriptToStoryboardResult) : M (list PersistedStoryboard) :=
  reportTaskProgress (num_of_Z 80) "script_to_storyboard_persist"
    "progress.stage.scriptToStoryboardPersist" None;;
  assertTaskActive "script_to_storyboard_persist";;
  persistWith "persistStoryboardsAndPanels"
    (persistStoryboardsAndPanels E (q_episodeId p) (clipPanels result)).

(** The separator and the placeholder of the character list in the voice
    prompt: the ideographic comma U+3001 and the character U+65E0. *)
Definition ideographicComma : string := "、".
Definition noneLabel : string := "无".

(** Lines 293-308: the voice-analysis prompt. *)
Definition voicePromptOf (job : TaskJobData) (p : ScriptToStoryboardPrepared)
    (persistedStoryboards : list PersistedStoryboard) : outcome string :=
  match novelText (q_episode p) with
  | None => Throw (Error "No novel text to analyze")
  | Some episodeNovelText =>
      if str_empty episodeNovelText || str_empty (trim episodeNovelText)
      then Throw (Error "No novel text to analyze")
      else
        let novelCharacters := characters (q_novelData p) in
        Ok (buildPrompt E NP_VOICE_ANALYSIS (job_locale job)
              [("input", episodeNovelText);
               ("characters_lib_name",
                 if (0 <? List.length novelCharacters)%nat
                 then join ideographicComma (map character_name novelCharacters)
                 else noneLabel);
               ("characters_introduction", buildCharactersIntroduction E novelCharacters);
               ("storyboard_json", buildStoryboardJson E persistedStoryboards)])
  end.

(** Lines 312-317 *)
Definition voiceStepMeta (result : ScriptToStoryboardResult) : StepMeta :=
  {| stepId := "voice_analyze";
     stepTitle := "progress.streamStep.voiceAnalyze";
     stepIndex := totalStepCount (s2b_summary result);
     stepTotal := totalStepCount (s2b_summary result);
     stepAttempt := None |}.

(** Lines 319-325: the metadata of attempt number [voiceAttempt]. *)
Definition voiceAttemptMeta (base : StepMeta) (voiceAttempt : Z) : StepMeta :=
  if (voiceAttempt =? 1)%Z then base
  else {| stepId := "voice_analyze_r" +:+ show voiceAttempt;
          stepTitle := stepTitle base;
          stepIndex := stepIndex base;
          stepTotal := stepTotal base;
          stepAttempt := stepAttempt base |}.

(** Lines 327-328: the body of the [try], for attempt number [voiceAttempt]. *)
Definition voiceAttemptBody (c : StepContext) (base : StepMeta) (voicePrompt : string)
    (voiceAttempt : Z) : M (list JsonRecord) :=
  voiceOutput ← runStep scriptToStoryboardLabels c
                   (voiceAttemptMeta base voiceAttempt) voicePrompt
                   "voice_analyze" 2600;
  lift (parseVoiceLinesJson E (text voiceOutput)).

(** Lines 318-336: the loop over the attempts still to make, with the
    value of [voiceLastError] so far; it ends with the two variables
    [voiceLineRows] and [voiceLastError]. *)
Fixpoint voiceAnalysisLoop (c : StepContext) (base : StepMeta) (voicePrompt : string)
    (attempts : list Z) (voiceLastError : option JsError)
    : M (option (list JsonRecord) * option JsError) :=
  match attempts with
  | [] => ret (None, voiceLastError)
  | voiceAttempt :: later =>
      try_catch
        (rows ← voiceAttemptBody c base voicePrompt voiceAttempt;
         mret (Some rows, voiceLastError))
        (fun error =>
           if isTaskTerminated error then throw error
           else voiceAnalysisLoop c base voicePrompt later (Some error))
  end.

(** Lines 310-339: [for (let voiceAttempt = 1; voiceAttempt <= 2; voiceAttempt++)]
    and the [throw voiceLastError!] after it. *)
Definition analyzeVoiceLines (c : StepContext) (base : StepMeta) (voicePrompt : string)
    : M (list JsonRecord) :=
  final ← voiceAnalysisLoop c base voicePrompt [1; 2]%Z None;
  match final with
  | (Some voiceLineRows, _) => mret voiceLineRows
  | (None, Some voiceLastError) => throw voiceLastError
  | (None, None) => throw (Error "null")
  end.

(** Lines 342-347 *)
Definition panelIdByStoryboardPanel (persistedStoryboards : list PersistedStoryboard)
    : gmap string string :=
  map_of_entries
    (flat_map (fun storyboard =>
                 map (fun panel =>
                        (storyboardId storyboard +:+ ":" +:+ show (panelIndex panel),
                         panel_id panel))
                     (panels storyboard))
              persistedStoryboards).

(** Lines 354-371: the resolution of [row.matchedPanel]; it gives
    [matchedPanelId], [matchedStoryboardId] and [matchedPanelIndex]. *)
Definition resolveMatchedPanel (panelMap : gmap string string) (i : nat)
    (row : JsonRecord) : outcome (option string * option string * option Z) :=
  let matchedPanel := asJsonRecord E (field row "matchedPanel") in
  let matchedStoryboardId :=
    match matchedPanel with
    | Some mp =>
        match field mp "storyboardId" with
        | JStr s => Some (trim s)
        | _ => None
        end
    | None => None
    end in
  let matchedPanelIndex :=
    match matchedPanel with
    | Some mp => toPositiveInt E (field mp "panelIndex")
    | None => None
    end in
  match matchedPanel with
  | None => Ok (None, matchedStoryboardId, matchedPanelIndex)
  | Some _ =>
      match matchedStoryboardId, matchedPanelIndex with
      | Some sid, Some idx =>
          if str_empty sid
          then Throw (Error ("voice line " +:+ show (Z.of_nat i + 1)
                             +:+ " has invalid matchedPanel reference"))
          else
            let panelKey := sid +:+ ":" +:+ show idx in
            match panelMap !! panelKey with
            | Some resolvedPanelId =>
                if str_empty resolvedPanelId
                then Throw (Error ("voice line " +:+ show (Z.of_nat i + 1)
                                   +:+ " references non-existent panel " +:+ panelKey))
                else Ok (Some resolvedPanelId, matchedStoryboardId, matchedPanelIndex)
            | None =>
                Throw (Error ("voice line " +:+ show (Z.of_nat i + 1)
                              +:+ " references non-existent panel " +:+ panelKey))
            end
      | _, _ =>
          Throw (Error ("voice line " +:+ show (Z.of_nat i + 1)
                        +:+ " has invalid matchedPanel reference"))
      end
  end.

(** Lines 353-402: the validation of row [i] and the data of its insert. *)
Definition voiceLineDataOf (episodeId : string) (panelMap : gmap string string)
    (i : nat) (row : JsonRecord) : outcome VoiceLineData :=
  matched ← resolveMatchedPanel panelMap i row;
  let '(matchedPanelId, matchedStoryboardId, matchedPanelIndex) := matched in
  match field row "emotionStrength" with
  | JNum (Fin rowEmotionStrength) =>
      let emotionStrength :=
        num_min (num_of_Z 1) (num_max num_0_1 (Fin rowEmotionStrength)) in
      match field row "lineIndex" with
      | JNum (Fin rowLineIndex) =>
          let lineIndex := Qfloor rowLineIndex in
          if (lineIndex <=? 0)%Z
          then Throw (Error ("voice line " +:+ show (Z.of_nat i + 1)
                             +:+ " has invalid lineIndex"))
          else
            match field row "speaker" with
            | JStr speaker =>
                if str_empty (trim speaker)
                then Throw (Error ("voice line " +:+ show (Z.of_nat i + 1)
                                   +:+ " is missing valid speaker"))
                else
                  match field row "content" with
                  | JStr content =>
                      if str_empty (trim content)
                      then Throw (Error ("voice line " +:+ show (Z.of_nat i + 1)
                                         +:+ " is missing valid content"))
                      else
                        Ok {| vl_episodeId := episodeId;
                              vl_lineIndex := lineIndex;
                              vl_speaker := trim speaker;
                              vl_content := content;
                              vl_emotionStrength := emotionStrength;
                              vl_matchedPanelId := matchedPanelId;
                              vl_matchedStoryboardId :=
                                match matchedPanelId with
                                | Some _ => matchedStoryboardId
                                | None => None
                                end;
                              vl_matchedPanelIndex := matchedPanelIndex |}
                  | _ => Throw (Error ("voice line " +:+ show (Z.of_nat i + 1)
                                       +:+ " is missing valid content"))
                  end
            | _ => Throw (Error ("voice line " +:+ show (Z.of_nat i + 1)
                                 +:+ " is missing valid speaker"))
            end
      | _ => Throw (Error ("voice line " +:+ show (Z.of_nat i + 1)
                           +:+ " is missing valid lineIndex"))
      end
  | _ => Throw (Error ("voice line " +:+ show (Z.of_nat i + 1)
                       +:+ " is missing valid emotionStrength"))
  end.

(** Lines 352-406: the loop of the transaction body, from row [i] on. *)
Fixpoint createVoiceLines (episodeId : string) (panelMap : gmap string string)
    (i : nat) (rows : list JsonRecord) : M (list N) :=
  match rows with
  | [] => ret []
  | row :: later =>
      bind (lift (voiceLineDataOf episodeId panelMap i row)) (fun data =>
      bind (voiceLineCreate data) (fun createdRow =>
      bind (createVoiceLines episodeId panelMap (S i) later) (fun created =>
      ret (createdRow :: created))))
  end.

(** Lines 349-408: the voice-line transaction. *)
Definition voiceLineTransaction (episodeId : string) (panelMap : gmap string string)
    (voiceLineRows : list JsonRecord) : M (list N) :=
  transaction 15000
    (voiceLineDeleteMany episodeId;;
     createVoiceLines episodeId panelMap 0 voiceLineRows).

(** Lines 341-408 *)
Definition persistVoiceLines (episodeId : string)
    (persistedStoryboards : list PersistedStoryboard) (voiceLineRows : list JsonRecord)
    : M (list N) :=
  assertTaskActive "script_to_storyboard_voice_persist";;
  voiceLineTransaction episodeId (panelIdByStoryboardPanel persistedStoryboards)
    voiceLineRows.

Record ScriptToStoryboardReturn : Type := {
  out_episodeId : string;
  out_storyboardCount : nat;
  out_panelCount : Z;
  out_voiceLineCount : nat;
}.

(** Lines 281-421: all that follows the orchestration. *)
Definition scriptToStoryboard_persist (job : TaskJobData) (p : ScriptToStoryboardPrepared)
    (orchestratorResult : ScriptToStoryboardResult) : M ScriptToStoryboardReturn :=
  persistedStoryboards ← scriptToStoryboard_persistPanels p orchestratorResult;
  voicePrompt ← lift (voicePromptOf job p persistedStoryboards);
  voiceLineRows ← analyzeVoiceLines (q_step p) (voiceStepMeta orchestratorResult) voicePrompt;
  createdVoiceLines ← persistVoiceLines (q_episodeId p) persistedStoryboards voiceLineRows;
  reportTaskProgress (num_of_Z 96) "script_to_storyboard_persist_done"
    "progress.stage.scriptToStoryboardPersistDone" None;;
  mret {| out_episodeId := q_episodeId p;
          out_storyboardCount := List.length persistedStoryboards;
          out_panelCount := totalPanelCount (s2b_summary orchestratorResult);
          out_voiceLineCount := List.length createdVoiceLines |}.

Definition handleScriptToStoryboardTask (job : TaskJobData) : M ScriptToStoryboardReturn :=
  p ← scriptToStoryboard_prepare job;
  orchestratorResult ← scriptToStoryboard_orchestrate job p;
  scriptToStoryboard_persist job p orchestratorResult.

End Handlers.

(** ** Notions used in the statements *)

Definition is_Some_bool {A} (o : option A) : bool :=
  match o with Some _ => true | None => false end.

Section Notions.

Context (E : Env).

(** The identifiers and the lookups of lines 44-87 of the story-to-script
    handler all pass, and give these rows. *)
Definition storyToScript_loaded (job : TaskJobData) (d : Db)
    (project : Project) (novelData : NovelPromotionProject) (episode : Episode) : Prop :=
  storyToScript_episodeId E job <> ""
  /\ List.find (fun p => bool_decide (project_id p = job_projectId job)) (projects d)
     = Some project
  /\ project_mode project = "novel-promotion"
  /\ List.find (fun p => bool_decide (novel_projectId p = job_projectId job))
               (novelPromotionProjects d) = Some novelData
  /\ List.find (fun e => bool_decide (episode_id e = storyToScript_episodeId E job))
               (episodes d) = Some episode
  /\ novelPromotionProjectId episode = novel_id novelData.

(** The same for lines 93-138 of the script-to-storyboard handler, which
    also asks for at least one clip. *)
Definition scriptToStoryboard_loaded (job : TaskJobData) (d : Db)
    (project : Project) (novelData : NovelPromotionProject) (episode : Episode) : Prop :=
  scriptToStoryboard_episodeId job <> ""
  /\ List.find (fun p => bool_decide (project_id p = job_projectId job)) (projects d)
     = Some project
  /\ project_mode project = "novel-promotion"
  /\ List.find (fun p => bool_decide (novel_projectId p = job_projectId job))
               (novelPromotionProjects d) = Some novelData
  /\ List.find (fun e => bool_decide (episode_id e = scriptToStoryboard_episodeId job))
               (episodes d) = Some episode
  /\ novelPromotionProjectId episode = novel_id novelData
  /\ List.filter (fun c => bool_decide (clip_episodeId c = scriptToStoryboard_episodeId job))
                 (clips d) <> [].

(** The data of all the rows from row [i] on, or the first error. *)
Fixpoint voiceLineDataList (episodeId : string) (panelMap : gmap string string)
    (i : nat) (rows : list JsonRecord) : outcome (list VoiceLineData) :=
  match rows with
  | [] => Ok []
  | row :: later =>
      match voiceLineDataOf E episodeId panelMap i row with
      | Ok data =>
          match voiceLineDataList episodeId panelMap (Datatypes.S i) later with
          | Ok rest => Ok (data :: rest)
          | Throw e => Throw e
          end
      | Throw e => Throw e
      end
  end.

(** [row.matchedPanel] is not null and its composite key does not resolve
    against the lookup map: the key cannot be formed, or the map has no
    panel for it. *)
Definition unresolvedMatchedPanel (panelMap : gmap string string) (row : JsonRecord)
    : bool :=
  match asJsonRecord E (field row "matchedPanel") with
  | None => false
  | Some matchedPanel =>
      match field matchedPanel "storyboardId",
            toPositiveInt E (field matchedPanel "panelIndex") with
      | JStr sid, Some idx =>
          bool_decide (panelMap !! (trim sid +:+ ":" +:+ show idx) = None)
      | _, _ => true
      end
  end.

End Notions.

(** The calls of a step up to its completion call, when the job is active. *)
Definition stepEvents (L : StepLabels) (c : StepContext) (meta : StepMeta)
    (prompt action : string) : list Event :=
  [ EvAssertTaskActive (checkpointPrefix L +:+ stepId meta) true;
    EvReportTaskProgress (stepProgress (stepIndex meta) (stepTotal meta))
      (stepStage L) (stepStageLabel L) (Some (stepReportOf meta));
    EvLogAIAnalysis (promptActionPrefix L +:+ action);
    EvChatCompletion (ctx_userId c) (ctx_model c) prompt (chatOptionsOf c action meta) ].

(** The voice lines of an episode, and those of the other episodes. *)
Definition voiceLinesOf (episodeId : string) (d : Db) : list VoiceLine :=
  List.filter (fun v => bool_decide (vl_episodeId (vl_data v) = episodeId)) (voiceLines d).

Definition voiceLinesNotOf (episodeId : string) (d : Db) : list VoiceLine :=
  List.filter (fun v => negb (bool_decide (vl_episodeId (vl_data v) = episodeId)))
              (voiceLines d).

(** The finite number a value is, if it is one. *)
Definition finiteNumber (value : JsValue) : option Q :=
  match value with
  | JNum (Fin x) => Some x
  | _ => None
  end.

(** A text field that is missing, not a string, or empty once trimmed. *)
Definition blankText (value : JsValue) : bool :=
  match value with
  | JStr s => str_empty (trim s)
  | _ => true
  end.

(** A row that fails the shape validation of lines 373-390:
    [emotionStrength] missing or not a finite number, [lineIndex] missing,
    not a finite number or below 1, [speaker] or [content] blank. *)
Definition malformedRow (row : JsonRecord) : bool :=
  negb (is_Some_bool (finiteNumber (field row "emotionStrength")))
  || match finiteNumber (field row "lineIndex") with
     | Some x => (Qfloor x <? 1)%Z
     | None => true
     end
  || blankText (field row "speaker")
  || blankText (field row "content").

(** The lookups of an episode in a trace. *)
Definition is_episode_lookup (ev : Event) : bool :=
  match ev with
  | EvFindUnique table _ => bool_decide (table = "novelPromotionEpisode")
  | _ => false
  end.

(** The percentages reported along a trace, in order. *)
Definition reportedPercents (tr : list Event) : list number :=
  flat_map (fun ev => match ev with
                      | EvReportTaskProgress percent _ _ _ => [percent]
                      | _ => []
                      end) tr.

(** The step ids of the progress reports of the steps along a trace, in
    order. *)
Definition reportedStepIds (tr : list Event) : list string :=
  flat_map (fun ev => match ev with
                      | EvReportTaskProgress _ _ _ (Some step) => [report_stepId step]
                      | _ => []
                      end) tr.

(** No percentage of the list is above the one that follows it. *)
Fixpoint nonDecreasing (percents : list number) : bool :=
  match percents with
  | a :: rest =>
      match rest with
      | b :: _ => num_leb a b && nonDecreasing rest
      | [] => true
      end
  | [] => true
  end.

(** The number of completion calls in a trace. *)
Definition completions (tr : list Event) : nat :=
  List.length (List.filter is_completion tr).

(** ** Properties of traces *)

Section TraceAutomaton.

Context {S : Type} (step : S -> Event -> option S).

(** The state an automaton reaches by reading a trace, if it accepts it. *)
Fixpoint scan (s : S) (tr : list Event) : option S :=
  match tr with
  | [] => Some s
  | ev :: rest =>
      match step s ev with
      | Some s' => scan s' rest
      | None => None
      end
  end.

(** [wp m Q s]: from any world, [m] appends to the trace a list of events
    that the automaton accepts from state [s], and the outcome and the
    state reached satisfy [Q]. *)
Definition wp {A} (m : M A) (Q : outcome A -> S -> Prop) (s : S) : Prop :=
  forall w, exists suffix s',
    trace (m w).2 = (trace w ++ suffix)%list /\ scan s suffix = Some s' /\ Q (m w).1 s'.

End TraceAutomaton.

(** The checkpoint discipline: the state tells whether a liveness check
    has passed since the last completion call; a completion call and a
    database write are accepted only in that state. *)
Definition checkpointStep (cleared : bool) (ev : Event) : option bool :=
  match ev with
  | EvAssertTaskActive _ active => Some active
  | _ =>
      if is_completion ev then (if cleared then Some false else None)
      else if is_write ev then (if cleared then Some true else None)
      else Some cleared
  end.

(** A trace respects the discipline when the automaton accepts it from the
    state in which no check has passed yet. *)
Definition checkpointed (tr : list Event) : Prop :=
  is_Some (scan checkpointStep false tr).

(** The automaton that accepts the traces without a database write. *)
Definition noWriteStep (s : unit) (ev : Event) : option unit :=
  if is_write ev then None else Some s.

Definition writes_nothing (tr : list Event) : Prop :=
  is_Some (scan noWriteStep tt tr).

(** ** Numbers: bounds used in the statements *)

(** [Number.MAX_VALUE], the largest integer a number can hold. *)
Definition MAX_VALUE : Z := (2 ^ 1024 - 2 ^ 971)%Z.

(** [a] and [b] are finite, in this order, between [lo] and [hi]. *)
Definition between (lo hi : Q) (a b : number) : Prop :=
  exists x y, a = Fin x /\ b = Fin y /\ (lo <= x)%Q /\ (x <= y)%Q /\ (y <= hi)%Q.

(** ** A concrete environment

    The collaborators as the unit test of the story-to-script handler
    installs them (tests/unit: [asString], [parseEffort], [parseTemperature],
    the resolver, the persistence helpers), completed for the
    script-to-storyboard handler; the orchestrators run one step. What
    varies between the scenarios is taken as an argument. *)

Definition sampleMeta : StepMeta :=
  {| stepId := "step_1"; stepTitle := "progress.streamStep.one";
     stepIndex := 1; stepTotal := 1; stepAttempt := None |}.

Definition sampleRow : JsonRecord :=
  [ ("lineIndex", JNum (Fin 1));
    ("speaker", JStr "Hero");
    ("content", JStr "To the old town!");
    ("emotionStrength", JNum (Fin (1 # 2)));
    ("matchedPanel",
      JObj [("storyboardId", JStr "sb-1"); ("panelIndex", JNum (Fin 1))]) ].

Definition samplePersisted : list PersistedStoryboard :=
  [ {| storyboardId := "sb-1";
       panels := [ {| panel_id := "panel-1"; panelIndex := 1; panel_columns := [] |} ] |} ].

Definition sampleEnvWith
    (terminated : list Event -> option string)
    (writes : list Event -> Db -> Db)
    (analysisModel : option string)
    (storyResult : StoryToScriptResult)
    (voiceRows : outcome (list JsonRecord)) : Env :=
  {| taskTerminated := terminated;
     completion := fun _ => Ok {| text := "[]"; reasoning := "" |};
     concurrentWrites := writes;
     analysisModelOf := fun _ _ _ => analysisModel;
     capabilityReasoningEffort := fun _ _ _ _ => JStr "high";
     getPromptTemplate := fun _ _ => "prompt-template";
     buildPrompt := fun _ _ _ => "voice-prompt";
     buildCharactersIntroduction := fun _ => "";
     jsonStringify := fun _ => "{}";
     asString := fun value => match value with JStr s => s | _ => "" end;
     parseEffort := fun _ => None;
     parseTemperature := fun _ => round64 (7 # 10);
     persistAnalyzedCharacters := fun _ _ _ d => (Ok ["character-new-1"], d);
     persistAnalyzedLocations := fun _ _ _ d => (Ok ["location-new-1"], d);
     persistClips :=
       fun episodeId _ d =>
         (Ok [("clip-1", "clip-row-1")],
          {| projects := projects d;
             novelPromotionProjects := novelPromotionProjects d;
             episodes := episodes d;
             clips := clips d ++ [ {| clip_id := "clip-row-1"; clip_episodeId := episodeId;
                                      clip_content := "clip content";
                                      clip_characters := None; clip_location := None;
                                      clip_screenplay := None |} ];
             voiceLines := voiceLines d;
             nextVoiceLineId := nextVoiceLineId d |});
     resolveClipRecordId := fun clipIdMap clipId => clipIdMap !! clipId;
     asJsonRecord := fun value => match value with JObj fields => Some fields | _ => None end;
     buildStoryboardJson := fun _ => "[]";
     parseVoiceLinesJson := fun _ => voiceRows;
     persistStoryboardsAndPanels := fun _ _ d => (Ok samplePersisted, d);
     toPositiveInt :=
       fun value =>
         match value with
         | JNum (Fin q) => if (0 <? Qfloor q)%Z then Some (Qfloor q) else None
         | _ => None
         end;
     runStoryToScriptOrchestrator :=
       fun _ => OrchStep sampleMeta "prompt" "analyze" 1000 (fun _ => OrchReturn storyResult);
     runScriptToStoryboardOrchestrator :=
       fun _ => OrchStep sampleMeta "prompt" "plan" 1000
                  (fun _ => OrchReturn {| clipPanels := [];
                                          s2b_summary := {| totalStepCount := 1;
                                                            totalPanelCount := 1 |} |}) |}.

(** The orchestrator result of the partial-failure test: one failed
    screenplay out of one clip. *)
Definition failedStoryResult : StoryToScriptResult :=
  {| analyzedCharacters := [];
     analyzedLocations := [];
     clipList := [];
     screenplayResults :=
       [ {| sr_clipId := "clip-3"; sr_success := false;
            sr_screenplay := None; sr_error := Some "bad screenplay json" |} ];
     s2s_summary := {| clipCount := 1; screenplaySuccessCount := 0;
                       screenplayFailedCount := 1 |} |}.

(** The orchestrator result of the success test. *)
Definition successStoryResult : StoryToScriptResult :=
  {| analyzedCharacters := [JObj [("name", JStr "New Hero")]];
     analyzedLocations := [JObj [("name", JStr "Market")]];
     clipList := [JObj [("clipId", JStr "clip-1"); ("content", JStr "clip content")]];
     screenplayResults :=
       [ {| sr_clipId := "clip-1"; sr_success := true;
            sr_screenplay := Some (JObj [("scenes", JArr [])]); sr_error := None |} ];
     s2s_summary := {| clipCount := 1; screenplaySuccessCount := 1;
                       screenplayFailedCount := 0 |} |}.

Definition sampleEnv : Env :=
  sampleEnvWith (fun _ => None) (fun _ d => d) (Some "llm::analysis-1")
    successStoryResult (Ok [sampleRow]).

(** The same with the partial failure. *)
Definition failingEnv : Env :=
  sampleEnvWith (fun _ => None) (fun _ d => d) (Some "llm::analysis-1")
    failedStoryResult (Ok [sampleRow]).

(** The same, where the episodes are deleted by someone else while a
    completion is in flight. *)
Definition deletingEnv : Env :=
  sampleEnvWith (fun _ => None)
    (fun _ d => {| projects := projects d;
                   novelPromotionProjects := novelPromotionProjects d;
                   episodes := [];
                   clips := clips d;
                   voiceLines := voiceLines d;
                   nextVoiceLineId := nextVoiceLineId d |})
    (Some "llm::analysis-1") successStoryResult (Ok [sampleRow]).

Definition sampleJob : TaskJobData :=
  {| job_taskId := "task-1";
     job_projectId := "project-1";
     job_episodeId := Some "episode-1";
     job_payload := JObj [("episodeId", JStr "episode-1"); ("content", JStr "input content")];
     job_userId := "user-1";
     job_locale := "zh" |}.

Definition sampleDb : Db :=
  {| projects := [ {| project_id := "project-1"; project_name := "Project One";
                      project_mode := "novel-promotion" |} ];
     novelPromotionProjects :=
       [ {| novel_id := "np-project-1"; novel_projectId := "project-1";
            characters := [ {| character_name := "Hero";
                               character_introduction := Some "hero intro" |} ];
            locations := [ {| location_name := "Old Town" |} ] |} ];
     episodes := [ {| episode_id := "episode-1"; novelPromotionProjectId := "np-project-1";
                      novelText := Some "episode text" |} ];
     clips := [ {| clip_id := "clip-row-0"; clip_episodeId := "episode-1";
                   clip_content := "clip content"; clip_characters := None;
                   clip_location := None; clip_screenplay := None |} ];
     voiceLines := [];
     nextVoiceLineId := 0 |}.

Definition sampleWorld : World := {| db := sampleDb; trace := [] |}.

(** What the partial-failure scenario has prepared when the orchestration
    starts. *)
Definition failingPrepared : StoryToScriptPrepared :=
  {| p_episodeId := "episode-1";
     p_project := {| project_id := "project-1"; project_name := "Project One";
                     project_mode := "novel-promotion" |};
     p_novelData :=
       {| novel_id := "np-project-1"; novel_projectId := "project-1";
          characters := [ {| character_name := "Hero";
                             character_introduction := Some "hero intro" |} ];
          locations := [ {| location_name := "Old Town" |} ] |};
     p_step := {| ctx_userId := "user-1"; ctx_projectId := "project-1";
                  ctx_model := "llm::analysis-1";
                  ctx_temperature := round64 (7 # 10);
                  ctx_reasoning := true; ctx_reasoningEffort := "high" |};
     p_content := "input content" |}.

(** A row whose matched panel names a storyboard that was not persisted. *)
Definition orphanRow : JsonRecord :=
  [ ("lineIndex", JNum (Fin 2));
    ("speaker", JStr "Hero");
    ("content", JStr "Wait for me");
    ("emotionStrength", JNum (Fin (1 # 2)));
    ("matchedPanel",
      JObj [("storyboardId", JStr "sb-9"); ("panelIndex", JNum (Fin 1))]) ].

(** A row without [emotionStrength]. *)
Definition incompleteRow : JsonRecord :=
  [ ("lineIndex", JNum (Fin 2)); ("speaker", JStr "Hero"); ("content", JStr "Wait for me") ].

(** The context of the steps of the sample job, and the metadata of the
    voice analysis after an orchestration of one step. *)
Definition sampleContext : StepContext :=
  {| ctx_userId := "user-1"; ctx_projectId := "project-1";
     ctx_model := "llm::analysis-1";
     ctx_temperature := round64 (7 # 10);
     ctx_reasoning := true; ctx_reasoningEffort := "high" |}.

Definition sampleVoiceMeta : StepMeta :=
  {| stepId := "voice_analyze";
     stepTitle := "progress.streamStep.voiceAnalyze";
     stepIndex := 1; stepTotal := 1; stepAttempt := None |}.

(** The sample environment, where the first answer of the model is not the
    JSON of voice lines and the answers that follow are. *)
Definition retryEnv : Env :=
  {| taskTerminated := taskTerminated sampleEnv;
     completion :=
       fun tr => if (completions tr <=? 1)%nat
                 then Ok {| text := "not json"; reasoning := "" |}
                 else Ok {| text := "[]"; reasoning := "" |};
     concurrentWrites := concurrentWrites sampleEnv;
     analysisModelOf := analysisModelOf sampleEnv;
     capabilityReasoningEffort := capabilityReasoningEffort sampleEnv;
     getPromptTemplate := getPromptTemplate sampleEnv;
     buildPrompt := buildPrompt sampleEnv;
     buildCharactersIntroduction := buildCharactersIntroduction sampleEnv;
     jsonStringify := jsonStringify sampleEnv;
     asString := asString sampleEnv;
     parseEffort := parseEffort sampleEnv;
     parseTemperature := parseTemperature sampleEnv;
     persistAnalyzedCharacters := persistAnalyzedCharacters sampleEnv;
     persistAnalyzedLocations := persistAnalyzedLocations sampleEnv;
     persistClips := persistClips sampleEnv;
     resolveClipRecordId := resolveClipRecordId sampleEnv;
     asJsonRecord := asJsonRecord sampleEnv;
     buildStoryboardJson := buildStoryboardJson sampleEnv;
     parseVoiceLinesJson :=
       fun text => if bool_decide (text = "not json")
                   then Throw (Error "voice lines: invalid JSON")
                   else Ok [sampleRow];
     persistStoryboardsAndPanels := persistStoryboardsAndPanels sampleEnv;
     toPositiveInt := toPositiveInt sampleEnv;
     runStoryToScriptOrchestrator := runStoryToScriptOrchestrator sampleEnv;
     runScriptToStoryboardOrchestrator := runScriptToStoryboardOrchestrator sampleEnv |}.

(** ** The progress of a step on the reference binary64 operations

    The same expression on the operations of [SpecFloat], the executable
    IEEE 754 model of the standard library, for a comparison with
    [stepProgress]; [Math.max], [Math.min] and the final sum are exact on
    the integers at hand and are taken on [Z]. *)

Definition b64_of_Z (z : Z) : spec_float := binary_normalize 53 1024 z 0 false.

Definition b64_floor (x : spec_float) : Z :=
  match x with
  | S754_finite false m e =>
      if (0 <=? e)%Z then Z.shiftl (Zpos m) e else Z.shiftr (Zpos m) (- e)
  | _ => 0
  end.

Definition b64_stepProgress (stepIndex stepTotal : Z) : Z :=
  15 + Z.min 55
         (b64_floor
            (SFmul 53 1024
               (SFdiv 53 1024 (b64_of_Z stepIndex) (b64_of_Z (Z.max 1 stepTotal)))
               (b64_of_Z 55))).

Definition agrees_with_binary64 (stepIndex stepTotal : Z) : bool :=
  match stepProgress stepIndex stepTotal with
  | Fin q => Qeq_bool q (inject_Z (b64_stepProgress stepIndex stepTotal))
  | _ => false
  end.

(** The integers from 0 to [n - 1]. *)
Definition upto (n : Z) : list Z := map Z.of_nat (seq 0 (Z.to_nat n)).

(** * Further notions on the runs of the handlers *)

(** The automaton that accepts every trace and remembers it. *)
Definition recordStep (seen : list Event) (ev : Event) : option (list Event) :=
  Some (seen ++ [ev])%list.

(** The calls of the validation phase: reads of the database and of the
    configuration, and the registration of the project name for the logs. *)
Definition is_lookup (ev : Event) : bool :=
  match ev with
  | EvFindUnique _ _ | EvOnProjectNameAvailable _ _
  | EvGetProjectModelConfig _ _ | EvResolveCapabilityOptions _ _ _ _ => true
  | _ => false
  end.

Definition is_flush (ev : Event) : bool :=
  match ev with EvFlush => true | _ => false end.

(** The stage of a progress report. *)
Definition reportStage (ev : Event) : option string :=
  match ev with
  | EvReportTaskProgress _ stage _ _ => Some stage
  | _ => None
  end.

(** The last progress report of a handler. *)
Definition is_done_report (ev : Event) : bool :=
  match reportStage ev with
  | Some stage =>
      bool_decide (stage = "story_to_script_persist_done")
      || bool_decide (stage = "script_to_storyboard_persist_done")
  | None => false
  end.

(** A completion call made for the user, the project, the model and with
    the sampling options of [c]. *)
Definition completion_in_context (c : StepContext) (ev : Event) : Prop :=
  match ev with
  | EvChatCompletion userId model _ options =>
      userId = ctx_userId c /\ model = ctx_model c
      /\ temperature options = ctx_temperature c
      /\ opt_reasoning options = ctx_reasoning c
      /\ reasoningEffort options = ctx_reasoningEffort c
      /\ opt_projectId options = ctx_projectId c
  | _ => True
  end.

(** The action of a completion call. *)
Definition completionAction (ev : Event) : option string :=
  match ev with
  | EvChatCompletion _ _ _ options => Some (opt_action options)
  | _ => None
  end.

(** A call made by the step runner with the labels [L] for the context [c]. *)
Definition step_call (L : StepLabels) (c : StepContext) (ev : Event) : Prop :=
  match ev with
  | EvAssertTaskActive label _ => starts_with label (checkpointPrefix L)
  | EvReportTaskProgress percent stage _ (Some r) =>
      stage = stepStage L
      /\ percent = stepProgress (report_stepIndex r) (report_stepTotal r)
  | EvLogAIAnalysis action =>
      starts_with action (promptActionPrefix L)
      \/ starts_with action (outputActionPrefix L)
  | EvChatCompletion _ _ _ _ => completion_in_context c ev
  | _ => False
  end.

(** The errors with which the validation phases reject a job. *)
Definition storyToScript_rejections : list JsError :=
  [ Error "episodeId is required"; Error "Project not found";
    Error "Not a novel promotion project"; Error "Novel promotion data not found";
    Error "Episode not found"; Error "analysisModel is not configured";
    Error "content is required" ].

Definition scriptToStoryboard_rejections : list JsError :=
  [ Error "episodeId is required"; Error "Project not found";
    Error "Not a novel promotion project"; Error "Novel promotion data not found";
    Error "Episode not found"; Error "No clips found";
    Error "analysisModel is not configured" ].

(** What a step context owes to the job it was prepared for. *)
Definition context_of_job (E : Env) (job : TaskJobData) (c : StepContext) : Prop :=
  ctx_userId c = job_userId job
  /\ ctx_projectId c = job_projectId job
  /\ ctx_model c <> ""
  /\ ctx_reasoningEffort c <> ""
  /\ ctx_reasoning c = not_false (prop (payloadOf job) "reasoning")
  /\ ctx_temperature c = parseTemperature E (prop (payloadOf job) "temperature").

(** A call that is neither a completion, nor the flush of the stream
    callbacks, nor the last progress report. *)
Definition quiet_call (ev : Event) : bool :=
  negb (is_completion ev) && negb (is_flush ev) && negb (is_done_report ev).

(** A quiet call that is not a progress report either. *)
Definition silent_call (ev : Event) : bool :=
  quiet_call ev && negb (is_Some_bool (reportStage ev)).

(** A call of an attempt of the voice analysis, for a job of [n] steps. *)
Definition voice_call (c : StepContext) (n : Z) (ev : Event) : Prop :=
  step_call scriptToStoryboardLabels c ev
  /\ match ev with
     | EvChatCompletion _ _ _ options => opt_action options = "voice_analyze"
     | EvReportTaskProgress percent _ _ _ => percent = stepProgress n n
     | _ => True
     end.

(** The first progress reports of the two handlers, the reports that open
    their persistence phases and their last reports. *)
Definition storyToScript_report10 : Event :=
  EvReportTaskProgress (num_of_Z 10) "story_to_script_prepare"
    "progress.stage.storyToScriptPrepare" None.

Definition storyToScript_report80 : Event :=
  EvReportTaskProgress (num_of_Z 80) "story_to_script_persist"
    "progress.stage.storyToScriptPersist" None.

Definition storyToScript_report96 : Event :=
  EvReportTaskProgress (num_of_Z 96) "story_to_script_persist_done"
    "progress.stage.storyToScriptPersistDone" None.

Definition scriptToStoryboard_report10 : Event :=
  EvReportTaskProgress (num_of_Z 10) "script_to_storyboard_prepare"
    "progress.stage.scriptToStoryboardPrepare" None.

Definition scriptToStoryboard_report80 : Event :=
  EvReportTaskProgress (num_of_Z 80) "script_to_storyboard_persist"
    "progress.stage.scriptToStoryboardPersist" None.

Definition scriptToStoryboard_report96 : Event :=
  EvReportTaskProgress (num_of_Z 96) "script_to_storyboard_persist_done"
    "progress.stage.scriptToStoryboardPersistDone" None.

(** The log entry of a JSON parse error that leaves the orchestrator. *)
Definition parseErrorLog : Event := EvLogAIAnalysis "SCRIPT_TO_STORYBOARD_PARSE_ERROR".

(** [err instanceof JsonParseError] *)
Definition isJsonParseError (e : JsError) : bool :=
  match e with JsonParseError _ _ => true | _ => false end.

(** No call of the trace is of the kind [f]. *)
Definition none (f : Event -> bool) (t : list Event) : bool :=
  forallb (fun ev => negb (f ev)) t.

(** A job for a project that does not exist. *)
Definition strayJob : TaskJobData :=
  {| job_taskId := "task-2";
     job_projectId := "project-9";
     job_episodeId := Some "episode-1";
     job_payload := JObj [("episodeId", JStr "episode-1"); ("content", JStr "input content")];
     job_userId := "user-1";
     job_locale := "zh" |}.

(** [!episode.novelText || !episode.novelText.trim()] *)
Definition hasNoNovelText (episode : Episode) : bool :=
  match novelText episode with
  | None => true
  | Some episodeNovelText => str_empty (trim episodeNovelText)
  end.

(** The sample database, where the episode has no novel text. *)
Definition textlessWorld : World :=
  {| db := {| projects := projects sampleDb;
              novelPromotionProjects := novelPromotionProjects sampleDb;
              episodes := [ {| episode_id := "episode-1";
                               novelPromotionProjectId := "np-project-1";
                               novelText := None |} ];
              clips := clips sampleDb;
              voiceLines := voiceLines sampleDb;
              nextVoiceLineId := nextVoiceLineId sampleDb |};
     trace := [] |}.

(** The panel columns of a voice line are all null, or they name a panel
    persisted by the run: its identifier, with a storyboard identifier and
    a panel index that make the key of that panel. *)
Definition referencesPersistedPanel (persisted : list PersistedStoryboard)
    (data : VoiceLineData) : Prop :=
  match vl_matchedPanelId data with
  | None => vl_matchedStoryboardId data = None /\ vl_matchedPanelIndex data = None
  | Some panelId =>
      exists sid idx storyboard panel,
        vl_matchedStoryboardId data = Some sid
        /\ vl_matchedPanelIndex data = Some idx
        /\ In storyboard persisted
        /\ In panel (panels storyboard)
        /\ panel_id panel = panelId
        /\ sid +:+ ":" +:+ show idx
           = storyboardId storyboard +:+ ":" +:+ show (panelIndex panel)
  end.

(** The update that the loop of lines 273-283 makes for a screenplay
    result, if it makes one. *)
Definition writtenScreenplay (E : Env) (clipIdMap : gmap string string)
    (item : ScreenplayResult) (ev : Event) : Prop :=
  exists screenplay clipRecordId,
    sr_success item = true
    /\ sr_screenplay item = Some screenplay
    /\ truthy screenplay = true
    /\ resolveClipRecordId E clipIdMap (sr_clipId item) = Some clipRecordId
    /\ clipRecordId <> ""
    /\ ev = EvClipUpdate clipRecordId (jsonStringify E screenplay).

(** What the sample run of the script-to-storyboard handler has prepared,
    and the result of its orchestrator. *)
Definition sampleStoryboardPrepared : ScriptToStoryboardPrepared :=
  {| q_episodeId := "episode-1";
     q_project := p_project failingPrepared;
     q_novelData := p_novelData failingPrepared;
     q_episode := {| episode_id := "episode-1"; novelPromotionProjectId := "np-project-1";
                     novelText := Some "episode text" |};
     q_clips := clips sampleDb;
     q_step := p_step failingPrepared |}.

Definition sampleStoryboardResult : ScriptToStoryboardResult :=
  {| clipPanels := [];
     s2b_summary := {| totalStepCount := 1; totalPanelCount := 1 |} |}.

(** Every step of an orchestrator numbers itself within its total. *)
Fixpoint stepsWithinTotal {R} (o : Orch R) : Prop :=
  match o with
  | OrchStep meta _ _ _ k =>
      (0 <= stepIndex meta)%Z /\ (stepIndex meta <= stepTotal meta)%Z
      /\ (stepTotal meta <= MAX_VALUE)%Z
      /\ forall r, stepsWithinTotal (k r)
  | _ => True
  end.

(** A finite number between two bounds. *)
Definition within (lo hi : Q) (x : number) : Prop :=
  exists q, x = Fin q /\ (lo <= q)%Q /\ (q <= hi)%Q.

Definition is_Ok {A} (r : outcome A) : bool :=
  match r with Ok _ => true | Throw _ => false end.

(** * The locale of a task (lib/task/resolve-locale)

    The list [locales] of @/i18n/routing is not among the sources: it is a
    parameter. Of the request, the module reads two headers and a cookie;
    a header or a cookie that is absent is [None]. *)

(** The string begins with white space. *)
Definition untrimmedStart (s : string) : bool :=
  match s with
  | String c _ => is_whitespace c
  | EmptyString => false
  end.

(** [s.startsWith(prefix)] *)
Definition startsWith (s prefix : string) : bool := str_prefix prefix s.

(** [raw.split(',')[0]]: what comes before the first comma. *)
Fixpoint beforeComma (raw : string) : string :=
  match raw with
  | String c rest =>
      if bool_decide (c = unitOf ",") then "" else String c (beforeComma rest)
  | EmptyString => ""
  end.

Record LocaleRequest : Type := {
  header_x_app_locale : option string;
  cookie_NEXT_LOCALE : option string;
  header_accept_language : option string;
}.

(** [if (locale) return locale]: a locale that is the empty string does not
    count. *)
Definition truthyLocale (locale : option string) : option string :=
  match locale with
  | Some l => if str_empty l then None else Some l
  | None => None
  end.

(** The error thrown by the routes. *)
Record ApiError : Type := {
  api_code : string;
  api_details : list (string * string);
}.

Section Locale.

Context (locales : list string).

Definition toObject (value : JsValue) : JsonRecord :=
  match value with
  | JObj fields => fields
  | _ => []
  end.

Definition normalizeCandidate (raw : string) : option string :=
  let normalized := toLowerCase (trim raw) in
  if str_empty normalized then None
  else List.find (fun locale =>
                    bool_decide (normalized = locale)
                    || startsWith normalized (locale +:+ "-"))
                 locales.

(** One pass of the loop of [readLocaleFromPayload]: the locale it returns,
    if it returns. *)
Definition candidateLocale (candidate : JsValue) : option string :=
  match candidate with
  | JStr s => truthyLocale (normalizeCandidate s)
  | _ => None
  end.

Definition readLocaleFromPayload (body : JsValue) : option string :=
  let payload := toObject body in
  let meta := toObject (field payload "meta") in
  match candidateLocale (field meta "locale") with
  | Some locale => Some locale
  | None =>
      match candidateLocale (field payload "locale") with
      | Some locale => Some locale
      | None => None
      end
  end.

Definition readLocaleFromHeader (request : LocaleRequest) : option string :=
  let appLocale := nullable_or_empty (header_x_app_locale request) in
  match (if str_empty appLocale then None
         else truthyLocale (normalizeCandidate appLocale)) with
  | Some resolved => Some resolved
  | None =>
      let cookieLocale := nullable_or_empty (cookie_NEXT_LOCALE request) in
      match (if str_empty cookieLocale then None
             else truthyLocale (normalizeCandidate cookieLocale)) with
      | Some resolved => Some resolved
      | None =>
          let raw := nullable_or_empty (header_accept_language request) in
          if str_empty raw then None
          else
            let first := trim (beforeComma raw) in
            if str_empty first then None else normalizeCandidate first
      end
  end.

Definition resolveTaskLocaleFromBody (body : JsValue) : option string :=
  readLocaleFromPayload body.

Definition resolveTaskLocale (request : LocaleRequest) (body : JsValue) : option string :=
  match truthyLocale (resolveTaskLocaleFromBody body) with
  | Some payloadLocale => Some payloadLocale
  | None => readLocaleFromHeader request
  end.

Definition resolveRequiredTaskLocale (request : LocaleRequest) (body : JsValue)
    : ApiError + string :=
  match truthyLocale (resolveTaskLocale request body) with
  | Some locale => inr locale
  | None =>
      inl {| api_code := "INVALID_PARAMS";
             api_details := [("code", "TASK_LOCALE_REQUIRED"); ("field", "meta.locale")] |}
  end.

(** The sources of a locale, from the one that wins to the one that is
    read last: [meta.locale] and [locale] of the body, the header
    x-app-locale, the cookie NEXT_LOCALE, and the first language of the
    header accept-language. *)
Definition stringOf (value : JsValue) : option string :=
  match value with
  | JStr s => Some s
  | _ => None
  end.

Definition localeCandidates (request : LocaleRequest) (body : JsValue)
    : list (option string) :=
  [ stringOf (field (toObject (field (toObject body) "meta")) "locale");
    stringOf (field (toObject body) "locale");
    header_x_app_locale request;
    cookie_NEXT_LOCALE request;
    option_map (fun raw => trim (beforeComma raw)) (header_accept_language request) ].

(** The first candidate that names a supported locale. *)
Fixpoint firstSupported (candidates : list (option string)) : option string :=
  match candidates with
  | [] => None
  | Some raw :: rest =>
      match normalizeCandidate raw with
      | Some locale => Some locale
      | None => firstSupported rest
      end
  | None :: rest => firstSupported rest
  end.

End Locale.

(** A request from a browser set to American English, on a site in Chinese
    and English. *)
Definition sampleLocales : list string := ["zh"; "en"].

Definition sampleLocaleRequest : LocaleRequest :=
  {| header_x_app_locale := None;
     cookie_NEXT_LOCALE := None;
     header_accept_language := Some "en-US,en;q=0.9" |}.

(** * The story-to-script route
      (app/api/novel-promotion/[projectId]/story-to-script-stream/route.ts)

    [requireProjectAuth], [maybeSubmitLLMTask] and the constant
    [TASK_TYPE.STORY_TO_SCRIPT_RUN] are not among the sources: they are
    parameters. The calls of the route are recorded in the order in which
    it makes them. *)

Inductive AuthResult : Type :=
| AuthErrorResponse (response : JsValue)
| AuthSession (userId : string) (projectMode : string).

Record SubmitArgs : Type := {
  sub_request : LocaleRequest;
  sub_userId : string;
  sub_projectId : string;
  sub_episodeId : string;
  sub_type : string;
  sub_targetType : string;
  sub_targetId : string;
  sub_routePath : string;
  sub_body : JsValue;
  sub_dedupeKey : string;
  sub_priority : Z;
}.

Inductive RouteCall : Type :=
| RouteLog (message : string)
| RouteAuth (projectId : string)
| RouteSubmit (args : SubmitArgs).

Inductive RouteOutcome : Type :=
| RouteResponse (response : JsValue)
| RouteThrow (code : string).

(** The own properties that [{ ...value }] copies: those of an object, the
    elements of an array and the characters of a string under their
    indices, nothing for the other values. *)
Definition indexed {A} (f : A -> JsValue) (items : list A) : JsonRecord :=
  imap (fun i x => (show (Z.of_nat i), f x)) items.

Definition spread (value : JsValue) : JsonRecord :=
  match value with
  | JObj fields => fields
  | JArr items => indexed id items
  | JStr s => indexed (fun c => JStr (String c "")) (codeUnits s)
  | _ => []
  end.

(** [{ ...fields, key: v }]: the property keeps its place if it is there
    already, and comes last otherwise. *)
Fixpoint setField (fields : JsonRecord) (key : string) (v : JsValue) : JsonRecord :=
  match fields with
  | [] => [(key, v)]
  | (k, x) :: rest =>
      if bool_decide (k = key) then (k, v) :: rest else (k, x) :: setField rest key v
  end.

Section Route.

Context (locales : list string)
        (TASK_TYPE_STORY_TO_SCRIPT_RUN : string)
        (requireProjectAuth : string -> AuthResult)
        (maybeSubmitLLMTask : SubmitArgs -> option JsValue).

(** [typeof body?.key === 'string' ? body.key.trim() : ''] *)
Definition trimmedField (body : JsValue) (key : string) : string :=
  match prop body key with
  | JStr s => trim s
  | _ => ""
  end.

(** The handler of POST; [requestJson] is [None] when [request.json()]
    rejects. *)
Definition POST (request : LocaleRequest) (projectId : string)
    (requestJson : option JsValue) : RouteOutcome * list RouteCall :=
  let body := default (JObj []) requestJson in
  let episodeId := trimmedField body "episodeId" in
  let content := trimmedField body "content" in
  let locale := resolveTaskLocale locales request body in
  let logged :=
    [RouteLog ("[story-to-script] locale: "
               +:+ str_or (nullable_or_empty locale) "zh (default)")] in
  if str_empty episodeId then (RouteThrow "INVALID_PARAMS", logged)
  else if str_empty content then (RouteThrow "INVALID_PARAMS", logged)
  else
    let authorized := (logged ++ [RouteAuth projectId])%list in
    match requireProjectAuth projectId with
    | AuthErrorResponse response => (RouteResponse response, authorized)
    | AuthSession userId projectMode =>
        if negb (bool_decide (projectMode = "novel-promotion"))
        then (RouteThrow "INVALID_PARAMS", authorized)
        else
          let args :=
            {| sub_request := request;
               sub_userId := userId;
               sub_projectId := projectId;
               sub_episodeId := episodeId;
               sub_type := TASK_TYPE_STORY_TO_SCRIPT_RUN;
               sub_targetType := "NovelPromotionEpisode";
               sub_targetId := episodeId;
               sub_routePath :=
                 "/api/novel-promotion/" +:+ projectId +:+ "/story-to-script-stream";
               sub_body := JObj (setField (spread body) "displayMode" (JStr "detail"));
               sub_dedupeKey := "story_to_script_run:" +:+ episodeId;
               sub_priority := 2 |} in
          let submitted := (authorized ++ [RouteSubmit args])%list in
          match maybeSubmitLLMTask args with
          | Some asyncTaskResponse => (RouteResponse asyncTaskResponse, submitted)
          | None => (RouteThrow "INVALID_PARAMS", submitted)
          end
    end.

End Route.

Definition is_RouteSubmit (call : RouteCall) : bool :=
  match call with RouteSubmit _ => true | _ => false end.

Definition is_RouteAuth (call : RouteCall) : bool :=
  match call with RouteAuth _ => true | _ => false end.

(** A job made of what the route submitted: the payload is the submitted
    body. *)
Definition jobOf (args : SubmitArgs) (taskId locale : string) : TaskJobData :=
  {| job_taskId := taskId;
     job_projectId := sub_projectId args;
     job_episodeId := Some (sub_episodeId args);
     job_payload := sub_body args;
     job_userId := sub_userId args;
     job_locale := locale |}.

(** The body of a request of the workspace. *)
Definition sampleBody : JsValue :=
  JObj [("episodeId", JStr " episode-1 "); ("content", JStr "Once upon a time");
        ("meta", JObj [("locale", JStr "zh-CN")])].
(** A session on a project of the right kind, a task system that accepts,
    and what the route submits on [sampleBody] for the project
    "project-1". *)
Definition sampleAuth (projectId : string) : AuthResult :=
  AuthSession "user-1" "novel-promotion".

Definition sampleSubmit (args : SubmitArgs) : option JsValue :=
  Some (JObj [("async", JBool true); ("taskId", JStr "task-1")]).

Definition sampleArgs : SubmitArgs :=
  {| sub_request := sampleLocaleRequest;
     sub_userId := "user-1";
     sub_projectId := "project-1";
     sub_episodeId := "episode-1";
     sub_type := "story_to_script_run";
     sub_targetType := "NovelPromotionEpisode";
     sub_targetId := "episode-1";
     sub_routePath := "/api/novel-promotion/project-1/story-to-script-stream";
     sub_body :=
       JObj [("episodeId", JStr " episode-1 "); ("content", JStr "Once upon a time");
             ("meta", JObj [("locale", JStr "zh-CN")]); ("displayMode", JStr "detail")];
     sub_dedupeKey := "story_to_script_run:episode-1";
     sub_priority := 2 |}.

(** The content that the story-to-script handler analyses when the payload
    holds the content [content]: at most 30000 code units of it. *)
Definition cutContent (content : string) : string :=
  if (30000 <? str_length content)%Z then slice0 30000 content else content.

(** * The media route (app/m/[publicId]/route.ts): the Range header *)

(** [Number.isNaN(a)] *)
Definition num_isNaN (a : number) : bool :=
  match a with NaN => true | _ => false end.

(** [a < b] of the source language: false as soon as one side is NaN. *)
Definition num_ltb (a b : number) : bool :=
  match a, b with
  | NaN, _ | _, NaN => false
  | _, _ => negb (num_leb b a)
  end.

(** [s.split(sep)] for a separator of one code unit: the pieces between
    the separators; there is always one piece. *)
Fixpoint split (sep : codeUnit) (s : string) : list string :=
  match s with
  | EmptyString => [""]
  | String c rest =>
      if bool_decide (c = sep) then "" :: split sep rest
      else match split sep rest with
           | piece :: pieces => String c piece :: pieces
           | [] => [String c ""]
           end
  end.

(** [s.replace(pattern, '')] for a string pattern: the first occurrence of
    the pattern is removed. *)
Fixpoint dropFirst (n : nat) (s : string) : string :=
  match n, s with
  | S m, String _ rest => dropFirst m rest
  | _, _ => s
  end.

Fixpoint removeFirst (pattern s : string) : string :=
  if str_prefix pattern s then dropFirst (str_len pattern) s
  else match s with
       | String c rest => String c (removeFirst pattern rest)
       | EmptyString => EmptyString
       end.

Definition isDigit (c : codeUnit) : bool :=
  ((48 <=? c) && (c <=? 57))%N.

(** The value of the longest prefix of decimal digits of [s], after the
    digits of value [acc]. *)
Fixpoint digitsValue (acc : Z) (s : string) : Z :=
  match s with
  | String c rest =>
      if isDigit c then digitsValue (10 * acc + (Z.of_N c - 48)) rest
      else acc
  | EmptyString => acc
  end.

(** [parseInt(s, 10)]: leading white space and one sign are skipped, the
    longest prefix of digits is read, and what follows it is ignored; the
    result is NaN when there is no digit. The integer read is rounded to
    the nearest number; the sign of a zero is not kept. *)
Definition parseInt (s : string) : number :=
  let inputString := trimStart s in
  let signed :=
    match inputString with
    | String c rest =>
        if bool_decide (c = unitOf "-") then (true, rest)
        else if bool_decide (c = unitOf "+") then (false, rest)
        else (false, inputString)
    | EmptyString => (false, inputString)
    end in
  match signed.2 with
  | String c _ =>
      if isDigit c
      then num_of_Z (if signed.1 then - digitsValue 0 signed.2 else digitsValue 0 signed.2)
      else NaN
  | EmptyString => NaN
  end.

(** Lines 17-24; the header is [None] when the request has none. *)
Definition parseRange (rangeHeader : option string) (totalLength : number)
    : option (number * number) :=
  match rangeHeader with
  | None => None
  | Some header =>
      if negb (startsWith header "bytes=") then None
      else
        let part := split (unitOf "-") (trim (removeFirst "bytes=" header)) in
        let start :=
          match part with
          | part0 :: _ => if str_empty part0 then Fin 0 else parseInt part0
          | [] => Fin 0
          end in
        let end_ :=
          match part with
          | _ :: part1 :: _ =>
              if str_empty part1 then num_add totalLength (Fin (-1)) else parseInt part1
          | _ => num_add totalLength (Fin (-1))
          end in
        if num_isNaN start || num_ltb start (Fin 0) || num_ltb end_ start
           || num_leb totalLength end_
        then None
        else Some (start, end_)
  end.

(** A string of decimal digits. *)
Fixpoint all_digits (s : string) : bool :=
  match s with
  | String c rest => isDigit c && all_digits rest
  | EmptyString => true
  end.

(** * The object storage (lib/cos.ts)

    The calls to the file system and to the COS client are recorded in the
    order in which they are made; what they answer is a parameter. The log
    lines are not recorded. [CallMkdir key] is the call of [fs.mkdir] for
    the directory of the file of [key]. *)

Inductive StorageCall : Type :=
| CallMkdir (key : string)
| CallWriteFile (key : string)
| CallPutObject (key : string)
| CallWait (delayMs : number)
| CallUnlink (key : string)
| CallDeleteMultipleObject (keys : list string).

(** What [uploadToCOS] throws: the error that [putObject] gave to its
    callback, the error made on line 251 for the key, or the one made on
    line 187. *)
Inductive UploadError : Type :=
| PutObjectError (err : JsValue)
| UploadFailed (key : string)
| LocalUploadFailed (key : string).

(** What the two calls of the local mode do for a key: [fs.mkdir] throws,
    or it succeeds and [fs.writeFile] throws, or both succeed. *)
Inductive LocalWrite : Type :=
| MkdirFails
| WriteFileFails
| Written.

(** [COS_RETRY_DELAY_BASE_MS * Math.pow(2, attempt - 1)] *)
Definition retryDelay (attempt : Z) : number :=
  num_mul (num_of_Z 2000) (round64 (pow2 (attempt - 1))).

Definition COS_MAX_RETRIES : Z := 3.

(** [process.env.NEXTAUTH_URL || 'http://localhost:3000'] *)
Definition baseUrlOf (NEXTAUTH_URL : option string) : string :=
  str_or (nullable_or_empty NEXTAUTH_URL) "http://localhost:3000".

(** Lines 132-141 *)
Definition toFetchableUrl (NEXTAUTH_URL : option string) (inputUrl : string) : string :=
  if startsWith inputUrl "http://" || startsWith inputUrl "https://"
     || startsWith inputUrl "data:"
  then inputUrl
  else if startsWith inputUrl "/" then baseUrlOf NEXTAUTH_URL +:+ inputUrl
  else inputUrl.

Section Upload.

(** [writeLocal key] tells what [fs.mkdir] and [fs.writeFile] do for the
    file of the key; [putObject attempt] is the error that the call of
    [putObject] made by the attempt hands to its callback. *)
Context (isLocalStorage : bool)
        (writeLocal : string -> LocalWrite)
        (putObject : Z -> JsValue).

(** Lines 194-251: the loop from the attempt [attempt] on, with
    [remaining] attempts to go, and what follows the loop. *)
Fixpoint uploadAttempts (key : string) (maxRetries : Z) (remaining : nat) (attempt : Z)
    (lastError : JsValue) : (UploadError + string) * list StorageCall :=
  match remaining with
  | O =>
      (inl (if truthy lastError then PutObjectError lastError else UploadFailed key), [])
  | S remaining' =>
      let err := putObject attempt in
      if truthy err
      then
        let waited :=
          if (attempt <? maxRetries)%Z then [CallWait (retryDelay attempt)] else [] in
        let rest := uploadAttempts key maxRetries remaining' (attempt + 1) err in
        (rest.1, (CallPutObject key :: waited ++ rest.2)%list)
      else (inr key, [CallPutObject key])
  end.

(** Lines 175-252; [maxRetries] is an integer. *)
Definition uploadToCOS (key : string) (maxRetries : Z)
    : (UploadError + string) * list StorageCall :=
  if isLocalStorage
  then
    match writeLocal key with
    | MkdirFails => (inl (LocalUploadFailed key), [CallMkdir key])
    | WriteFileFails => (inl (LocalUploadFailed key), [CallMkdir key; CallWriteFile key])
    | Written => (inr key, [CallMkdir key; CallWriteFile key])
    end
  else uploadAttempts key maxRetries (Z.to_nat maxRetries) 1 JNull.

End Upload.

(** The calls of [putObject] and the waits of a run. *)
Definition putsOf (calls : list StorageCall) : list string :=
  omap (fun call => match call with CallPutObject key => Some key | _ => None end) calls.

Definition waitsOf (calls : list StorageCall) : list number :=
  omap (fun call => match call with CallWait delayMs => Some delayMs | _ => None end) calls.

(** ** deleteCOSObjects *)

(** What [fs.unlink] does: it succeeds, or it throws an error whose code,
    as [extractErrorInfo] reads it, is a string or is missing. *)
Inductive UnlinkResult : Type :=
| Unlinked
| UnlinkError (code : option string).

(** What [deleteMultipleObject] does: it throws, or it calls back with an
    error [err], or with the lists [Deleted] and [Error], given by their
    lengths (0 for a list that is missing). *)
Inductive DeleteResponse : Type :=
| DeleteThrows
| DeleteCallback (err : JsValue) (deletedCount errorCount : Z).

(** Line 304: [key && typeof key === 'string' && key.trim().length > 0] *)
Definition validKey (key : JsValue) : option string :=
  match key with
  | JStr s => if negb (str_empty s) && (0 <? str_length (trim s))%Z then Some s else None
  | _ => None
  end.

Section Delete.

(** [unlink i key] is what the unlink of the pass [i] of the loop does,
    and [deleteMultipleObject batch] how the batch is answered. *)
Context (isLocalStorage : bool)
        (unlink : nat -> string -> UnlinkResult)
        (deleteMultipleObject : list string -> DeleteResponse).

(** Lines 313-326, from the pass [i] on. *)
Fixpoint unlinkAll (i : nat) (keys : list string) (success failed : Z)
    : (Z * Z) * list StorageCall :=
  match keys with
  | [] => ((success, failed), [])
  | key :: rest =>
      let counted :=
        match unlink i key with
        | Unlinked => (success + 1, failed)
        | UnlinkError code =>
            if bool_decide (code = Some "ENOENT") then (success + 1, failed)
            else (success, failed + 1)
        end in
      let after := unlinkAll (S i) rest counted.1 counted.2 in
      (after.1, CallUnlink key :: after.2)
  end.

(** Lines 340-375, from the index [i] on; [remaining] bounds the number of
    passes. *)
Fixpoint deleteBatches (validKeys : list string) (remaining : nat) (i : nat)
    (success failed : Z) : (Z * Z) * list StorageCall :=
  match remaining with
  | O => ((success, failed), [])
  | S remaining' =>
      if (i <? List.length validKeys)%nat
      then
        let batch := take 1000 (drop i validKeys) in
        let counted :=
          match deleteMultipleObject batch with
          | DeleteThrows => (success, failed + Z.of_nat (List.length batch))
          | DeleteCallback err deletedCount errorCount =>
              if truthy err then (success, failed + Z.of_nat (List.length batch))
              else (success + deletedCount, failed + errorCount)
          end in
        let after := deleteBatches validKeys remaining' (i + 1000) counted.1 counted.2 in
        (after.1, CallDeleteMultipleObject batch :: after.2)
      else ((success, failed), [])
  end.

(** Lines 300-379 *)
Definition deleteCOSObjects (keys : list JsValue) : (Z * Z) * list StorageCall :=
  if (List.length keys =? 0)%nat then ((0, 0), [])
  else
    let validKeys := omap validKey keys in
    if (List.length validKeys =? 0)%nat then ((0, 0), [])
    else if isLocalStorage then unlinkAll 0 validKeys 0 0
    else deleteBatches validKeys (List.length validKeys) 0 0 0.

End Delete.

(** The batches of a run, in the order of the calls. *)
Definition batchesOf (calls : list StorageCall) : list (list string) :=
  omap (fun call => match call with CallDeleteMultipleObject keys => Some keys | _ => None end)
       calls.

Definition unlinkedOf (calls : list StorageCall) : list string :=
  omap (fun call => match call with CallUnlink key => Some key | _ => None end) calls.

(** A COS client that accounts for every key of a batch: without an error,
    the keys deleted and the keys in error are as many as the keys sent. *)
Definition accountsForEveryKey (deleteMultipleObject : list string -> DeleteResponse) : Prop :=
  forall batch err deletedCount errorCount,
    deleteMultipleObject batch = DeleteCallback err deletedCount errorCount ->
    truthy err = false ->
    deletedCount + errorCount = Z.of_nat (List.length batch).

(** * The OpenAI-compatible generators (lib/generators/openai-compatible):
      the size of an image or a video *)

(** The number of decimal digits at the head of [s], and what follows
    them. *)
Fixpoint leadingDigits (s : string) : nat * string :=
  match s with
  | String c rest =>
      if isDigit c
      then let counted := leadingDigits rest in (S counted.1, counted.2)
      else (0%nat, s)
  | EmptyString => (0%nat, EmptyString)
  end.

(** [/^\d{2,5}x\d{2,5}$/i.test(s)] *)
Definition isPixelSize (s : string) : bool :=
  let width := leadingDigits s in
  (2 <=? width.1)%nat && (width.1 <=? 5)%nat
  && match width.2 with
     | String c rest =>
         (bool_decide (c = unitOf "x") || bool_decide (c = unitOf "X"))
         && (let height := leadingDigits rest in
             (2 <=? height.1)%nat && (height.1 <=? 5)%nat && str_empty height.2)
     | EmptyString => false
     end.

(** Lines 111-120 *)
Definition normalizeSize (rawSize field errorPrefix : string) : outcome string :=
  let size := toLowerCase (trim rawSize) in
  if bool_decide (size = "auto") then Ok "auto"
  else if isPixelSize size then Ok size
  else Throw (Error (errorPrefix +:+ "_OPTION_VALUE_UNSUPPORTED: " +:+ field
                     +:+ "=" +:+ rawSize)).

(** Lines 122-135 *)
Definition mapAspectRatioToImageSize (aspectRatio : string) : outcome string :=
  let ratio := trim aspectRatio in
  if bool_decide (ratio = "1:1") then Ok "1024x1024"
  else if bool_decide (ratio = "3:4") then Ok "1024x1536"
  else if bool_decide (ratio = "3:2") then Ok "1792x1024"
  else if bool_decide (ratio = "4:3") then Ok "1536x1024"
  else Throw (Error ("OPENAI_COMPATIBLE_IMAGE_OPTION_VALUE_UNSUPPORTED: aspectRatio="
                     +:+ aspectRatio)).

(** Lines 149-162 *)
Definition mapAspectRatioToVideoSize (aspectRatio : string) : outcome string :=
  let ratio := trim aspectRatio in
  if bool_decide (ratio = "16:9") then Ok "1792x1024"
  else if bool_decide (ratio = "3:2") then Ok "1536x1024"
  else if bool_decide (ratio = "9:16") then Ok "1024x1792"
  else if bool_decide (ratio = "1:1") then Ok "1024x1024"
  else Throw (Error ("OPENAI_COMPATIBLE_VIDEO_OPTION_VALUE_UNSUPPORTED: aspectRatio="
                     +:+ aspectRatio)).

(** [typeof options.key === 'string' ? options.key : undefined], as far as
    the [if] that follows tells apart: a string that is not empty. *)
Definition stringOption (options : JsonRecord) (key : string) : option string :=
  match field options key with
  | JStr s => if str_empty s then None else Some s
  | _ => None
  end.

Definition some_of (r : outcome string) : outcome (option string) :=
  match r with
  | Ok size => Ok (Some size)
  | Throw e => Throw e
  end.

(** Lines 137-147 *)
Definition resolveImageSize (options : JsonRecord) : outcome (option string) :=
  match stringOption options "size" with
  | Some size => some_of (normalizeSize size "size" "OPENAI_COMPATIBLE_IMAGE")
  | None =>
      match stringOption options "resolution" with
      | Some resolution =>
          some_of (normalizeSize resolution "resolution" "OPENAI_COMPATIBLE_IMAGE")
      | None =>
          match stringOption options "aspectRatio" with
          | Some aspectRatio => some_of (mapAspectRatioToImageSize aspectRatio)
          | None => Ok None
          end
      end
  end.

(** Lines 164-177 *)
Definition resolveVideoSize (options : JsonRecord) : outcome (option string) :=
  match stringOption options "resolution" with
  | Some resolution =>
      some_of (normalizeSize resolution "resolution" "OPENAI_COMPATIBLE_VIDEO")
  | None =>
      match stringOption options "aspectRatio" with
      | Some aspectRatio => some_of (mapAspectRatioToVideoSize aspectRatio)
      | None => Ok None
      end
  end.

(** A size that the API accepts: 'auto', or a width and a height of two to
    five digits. *)
Definition wellFormedSize (size : string) : bool :=
  bool_decide (size = "auto") || isPixelSize size.

(** ** The options that the generators accept *)

Definition IMAGE_ALLOWED_OPTION_KEYS : list string :=
  ["provider"; "modelId"; "modelKey"; "aspectRatio"; "resolution"; "size"; "outputFormat"].

Definition VIDEO_ALLOWED_OPTION_KEYS : list string :=
  ["provider"; "modelId"; "modelKey"; "prompt"; "duration"; "fps"; "resolution";
   "aspectRatio"; "generateAudio"; "lastFrameImageUrl"].

(** [value === undefined] *)
Definition is_undefined (value : JsValue) : bool :=
  match value with JUndefined => true | _ => false end.

(** [allowedKeys.has(key)] *)
Definition has (allowedKeys : list string) (key : string) : bool :=
  bool_decide (key ∈ allowedKeys).

(** Lines 98-109; the properties are visited in the order of the record. *)
Fixpoint ensureAllowedOptionKeys (options : JsonRecord) (allowedKeys : list string)
    (errorPrefix : string) : outcome unit :=
  match options with
  | [] => Ok tt
  | (key, value) :: rest =>
      if is_undefined value then ensureAllowedOptionKeys rest allowedKeys errorPrefix
      else if negb (has allowedKeys key)
           then Throw (Error (errorPrefix +:+ "_OPTION_UNSUPPORTED: " +:+ key))
           else ensureAllowedOptionKeys rest allowedKeys errorPrefix
  end.

(** * The entry points of the generators (lib/generator-api): the options
      handed to a generator *)

Record ModelSelection : Type := {
  sel_provider : string;
  sel_modelId : string;
  sel_modelKey : string;
}.

(** [const { key, ...rest } = fields]: the properties other than [key]. *)
Definition withoutField (key : string) (fields : JsonRecord) : JsonRecord :=
  List.filter (fun entry => negb (bool_decide (entry.1 = key))) fields.

(** [{ ...fields, provider, modelId, modelKey }] of the selection *)
Definition withSelection (fields : JsonRecord) (selection : ModelSelection) : JsonRecord :=
  setField
    (setField (setField fields "provider" (JStr (sel_provider selection)))
       "modelId" (JStr (sel_modelId selection)))
    "modelKey" (JStr (sel_modelKey selection)).

(** Lines 41-51 of [generateImage]: the [options] of the parameters given
    to the generator; the argument is [None] when the caller gives no
    options. *)
Definition imageGeneratorOptions (options : option JsonRecord) (selection : ModelSelection)
    : JsonRecord :=
  withSelection (withoutField "referenceImages" (default [] options)) selection.

(** Lines 82-93 of [generateVideo] *)
Definition videoGeneratorOptions (options : option JsonRecord) (selection : ModelSelection)
    : JsonRecord :=
  withSelection (withoutField "prompt" (default [] options)) selection.

(** The options that the types of [generateImage] and [generateVideo]
    declare. *)
Definition generateImage_declared : list string :=
  ["referenceImages"; "aspectRatio"; "resolution"; "outputFormat";
   "keepOriginalAspectRatio"; "size"].

Definition generateVideo_declared : list string :=
  ["prompt"; "duration"; "fps"; "resolution"; "aspectRatio"; "generateAudio";
   "lastFrameImageUrl"].

(** The properties of [options] that are defined have their keys in
    [keys]. *)
Definition definedWithin (keys : list string) (options : JsonRecord) : Prop :=
  forall key value, In (key, value) options -> value <> JUndefined -> In key keys.

(** * The configuration route of a project
      (app/api/novel-promotion/[projectId]/route.ts): capability selections

    A record lists its properties in the order in which [Object.entries]
    visits them. *)

(** Lines 36-38 *)
Definition isRecord (value : JsValue) : bool :=
  match value with JObj _ => true | _ => false end.

(** [new ApiError('INVALID_PARAMS', { code, field })] *)
Definition invalidParams (code field : string) : ApiError :=
  {| api_code := "INVALID_PARAMS"; api_details := [("code", code); ("field", field)] |}.

(** [typeof value] is 'string', 'number' or 'boolean'. *)
Definition isPrimitive (value : JsValue) : bool :=
  match value with
  | JStr _ | JNum _ | JBool _ => true
  | _ => false
  end.

(** [record[key] = value] on a record made by an object literal: the
    assignment to the key __proto__ creates no property (for an object
    value it replaces the prototype, which the records do not model). *)
Definition assign (record : JsonRecord) (key : string) (value : JsValue) : JsonRecord :=
  if bool_decide (key = "__proto__") then record else setField record key value.

(** Lines 60-73: the loop over the fields of one selection, from the
    selection gathered so far. *)
Fixpoint normalizeSelection (allowLegacyAspectRatio : bool) (modelKey : string)
    (entries : JsonRecord) (selection : JsonRecord) : ApiError + JsonRecord :=
  match entries with
  | [] => inr selection
  | (field, value) :: rest =>
      if bool_decide (field = "aspectRatio")
      then
        if allowLegacyAspectRatio
        then normalizeSelection allowLegacyAspectRatio modelKey rest selection
        else inl (invalidParams "CAPABILITY_FIELD_INVALID"
                    ("capabilityOverrides." +:+ modelKey +:+ "." +:+ field))
      else if negb (isPrimitive value)
      then inl (invalidParams "CAPABILITY_SELECTION_INVALID"
                  ("capabilityOverrides." +:+ modelKey +:+ "." +:+ field))
      else normalizeSelection allowLegacyAspectRatio modelKey rest
             (assign selection field value)
  end.

(** Lines 52-78: the loop over the model keys. *)
Fixpoint normalizeSelections (allowLegacyAspectRatio : bool) (entries : JsonRecord)
    (normalized : JsonRecord) : ApiError + JsonRecord :=
  match entries with
  | [] => inr normalized
  | (modelKey, rawSelection) :: rest =>
      match rawSelection with
      | JObj fields =>
          match normalizeSelection allowLegacyAspectRatio modelKey fields [] with
          | inl e => inl e
          | inr selection =>
              normalizeSelections allowLegacyAspectRatio rest
                (if (0 <? List.length selection)%nat
                 then assign normalized modelKey (JObj selection)
                 else normalized)
          end
      | _ =>
          inl (invalidParams "CAPABILITY_SELECTION_INVALID"
                 ("capabilityOverrides." +:+ modelKey))
      end
  end.

(** Lines 40-81; [allowLegacyAspectRatio] is [options?.allowLegacyAspectRatio]
    as a truth value. *)
Definition normalizeCapabilitySelectionsInput (raw : JsValue)
    (allowLegacyAspectRatio : bool) : ApiError + JsonRecord :=
  match raw with
  | JUndefined | JNull => inr []
  | JObj entries => normalizeSelections allowLegacyAspectRatio entries []
  | _ => inl (invalidParams "CAPABILITY_SELECTION_INVALID" "capabilityOverrides")
  end.

(** The keys of a record. *)
Definition keysOf (record : JsonRecord) : list string := map fst record.

(** A field as the function leaves it: a primitive value under a key
    other than [aspectRatio]. *)
Definition goodField (entry : string * JsValue) : Prop :=
  entry.1 <> "aspectRatio" /\ entry.1 <> "__proto__" /\ isPrimitive entry.2 = true.

(** A selection as the function leaves it: at least one field, no key
    twice, good fields only. *)
Definition cleanSelection (selection : JsonRecord) : Prop :=
  selection <> [] /\ NoDup (keysOf selection) /\ Forall goodField selection.

Definition goodSelection (entry : string * JsValue) : Prop :=
  entry.1 <> "__proto__"
  /\ exists selection, entry.2 = JObj selection /\ cleanSelection selection.

Definition cleanSelections (normalized : JsonRecord) : Prop :=
  NoDup (keysOf normalized) /\ Forall goodSelection normalized.

(** * Proofs *)

Local Open Scope Q_scope.

(** ** Powers of two *)

Lemma pow2_pos e : 0 < pow2 e.
Proof. unfold pow2. apply Qpower_0_lt. reflexivity. Qed.

Lemma pow2_add a b : pow2 (a + b) == pow2 a * pow2 b.
Proof. unfold pow2. apply Qpower_plus. discriminate. Qed.

Lemma pow2_le a b : (a <= b)%Z -> pow2 a <= pow2 b.
Proof. intros H. unfold pow2. apply Qpower_le_compat_l; [exact H | discriminate]. Qed.

Lemma pow2_lt a b : (a < b)%Z -> pow2 a < pow2 b.
Proof. intros H. unfold pow2. apply Qpower_lt_compat_l; [exact H | reflexivity]. Qed.

Lemma pow2_Z n : (0 <= n)%Z -> pow2 n == inject_Z (2 ^ n).
Proof. intros H. unfold pow2. symmetry. apply (Zpower_Qpower 2 n H). Qed.

Lemma pow2_sub a b : pow2 (a - b) == pow2 a / pow2 b.
Proof. unfold pow2. apply Qpower_minus. discriminate. Qed.

(** ** The binary logarithm of a positive rational *)

Lemma Qlog2_bounds q :
  0 < q ->
  let k := (Z.log2 (Qnum q) - Z.log2 (Zpos (Qden q)))%Z in
  pow2 (k - 1) < q /\ q < pow2 (k + 1).
Proof.
  intros Hq. cbv zeta.
  destruct q as [n d]. cbn [Qnum Qden].
  assert (Hn : (0 < n)%Z).
  { unfold Qlt in Hq. cbn [Qnum Qden] in Hq. lia. }
  set (a := Z.log2 n) in *. set (b := Z.log2 (Zpos d)) in *.
  set (k := (a - b)%Z).
  destruct (Z.log2_spec n Hn) as [Ha1 Ha2]. fold a in Ha1, Ha2.
  destruct (Z.log2_spec (Zpos d) eq_refl) as [Hb1 Hb2]. fold b in Hb1, Hb2.
  assert (Ha0 : (0 <= a)%Z) by apply Z.log2_nonneg.
  assert (Hb0 : (0 <= b)%Z) by apply Z.log2_nonneg.
  assert (Hd : 0 < inject_Z (Zpos d)) by reflexivity.
  assert (Hnd : (n # d) * inject_Z (Zpos d) == inject_Z n).
  { rewrite (Qmake_Qdiv n d). field. discriminate. }
  split.
  - (* 2^(a-b-1) < n/d, from 2^a <= n and d < 2^(b+1) *)
    replace (k - 1)%Z with (a - (b + 1))%Z by (unfold k; lia).
    rewrite pow2_sub.
    apply Qlt_shift_div_r; [apply pow2_pos|].
    apply Qle_lt_trans with (inject_Z n).
    + rewrite pow2_Z by exact Ha0. rewrite <- Zle_Qle. exact Ha1.
    + rewrite <- Hnd.
      apply Qmult_lt_l; [exact Hq|].
      rewrite pow2_Z by lia. rewrite <- Zlt_Qlt. exact Hb2.
  - (* n/d < 2^(a+1-b), from n < 2^(a+1) and 2^b <= d *)
    replace (k + 1)%Z with (a + 1 - b)%Z by (unfold k; lia).
    rewrite pow2_sub.
    apply Qlt_shift_div_l; [apply pow2_pos|].
    apply Qle_lt_trans with (inject_Z n).
    + rewrite <- Hnd.
      apply Qmult_le_l; [exact Hq|].
      rewrite pow2_Z by exact Hb0. rewrite <- Zle_Qle. exact Hb1.
    + rewrite pow2_Z by lia. rewrite <- Zlt_Qlt. exact Ha2.
Qed.

Lemma Qlog2_spec q : 0 < q -> pow2 (Qlog2 q) <= q /\ q < pow2 (Qlog2 q + 1).
Proof.
  intros Hq. destruct (Qlog2_bounds q Hq) as [Hlo Hhi].
  unfold Qlog2.
  set (k := (Z.log2 (Qnum q) - Z.log2 (Zpos (Qden q)))%Z) in *.
  destruct (Qle_bool (pow2 k) q) eqn:Hk.
  - apply Qle_bool_iff in Hk. split; assumption.
  - split.
    + apply Qlt_le_weak. exact Hlo.
    + replace (k - 1 + 1)%Z with k by lia.
      apply Qnot_le_lt. intros Hc. apply Qle_bool_iff in Hc. congruence.
Qed.

Lemma Qlog2_mono p q : 0 < p -> p <= q -> (Qlog2 p <= Qlog2 q)%Z.
Proof.
  intros Hp Hpq.
  assert (Hq : 0 < q) by (eapply Qlt_le_trans; eassumption).
  destruct (Qlog2_spec p Hp) as [Hp1 _].
  destruct (Qlog2_spec q Hq) as [_ Hq2].
  destruct (Z_lt_le_dec (Qlog2 q) (Qlog2 p)) as [Hlt|Hle]; [|exact Hle].
  exfalso.
  assert (H : pow2 (Qlog2 q + 1) <= pow2 (Qlog2 p)) by (apply pow2_le; lia).
  apply (Qlt_irrefl q).
  eapply Qlt_le_trans; [exact Hq2|].
  eapply Qle_trans; [exact H|].
  eapply Qle_trans; eassumption.
Qed.

(** ** Rounding to the nearest integer *)

Lemma rne_cases q : rne q = Qfloor q \/ rne q = (Qfloor q + 1)%Z.
Proof.
  unfold rne. destruct (Qcompare _ _); [destruct (Z.even _)|..]; auto.
Qed.

Lemma rne_mono p q : p <= q -> (rne p <= rne q)%Z.
Proof.
  intros Hpq.
  pose proof (Qfloor_resp_le p q Hpq) as Hf.
  destruct (Z.eq_dec (Qfloor p) (Qfloor q)) as [Heq|Hne].
  - unfold rne. rewrite <- Heq.
    assert (Hfrac : p - inject_Z (Qfloor p) <= q - inject_Z (Qfloor p)).
    { apply Qplus_le_l with (z := inject_Z (Qfloor p)). ring_simplify. exact Hpq. }
    destruct (Qcompare_spec (p - inject_Z (Qfloor p)) (1 # 2)) as [Hp|Hp|Hp];
      destruct (Qcompare_spec (q - inject_Z (Qfloor p)) (1 # 2)) as [Hq|Hq|Hq];
      try destruct (Z.even (Qfloor p)); try lia; exfalso; lra.
  - destruct (rne_cases p) as [-> | ->]; destruct (rne_cases q) as [-> | ->]; lia.
Qed.

Lemma rne_Z z : rne (inject_Z z) = z.
Proof.
  unfold rne. rewrite Qfloor_Z.
  destruct (Qcompare_spec (inject_Z z - inject_Z z) (1 # 2)) as [H|H|H];
    [exfalso; lra | reflexivity | exfalso; lra].
Qed.

Lemma rne_le_Z q z : q <= inject_Z z -> (rne q <= z)%Z.
Proof. intros H. rewrite <- (rne_Z z). apply rne_mono. exact H. Qed.

Lemma rne_ge_Z q z : inject_Z z <= q -> (z <= rne q)%Z.
Proof. intros H. rewrite <- (rne_Z z). apply rne_mono. exact H. Qed.

(** ** Rounding to binary64 is monotone *)

Lemma ulp_exp_mono p q : 0 < p -> p <= q -> (ulp_exp p <= ulp_exp q)%Z.
Proof.
  intros Hp Hpq. unfold ulp_exp.
  pose proof (Qlog2_mono p q Hp Hpq). lia.
Qed.

Lemma round_pos_eq q :
  round_pos q == inject_Z (rne (q / pow2 (ulp_exp q))) * pow2 (ulp_exp q).
Proof. unfold round_pos. apply Qred_correct. Qed.

Lemma round_pos_nonneg q : 0 < q -> 0 <= round_pos q.
Proof.
  intros Hq. rewrite round_pos_eq.
  apply Qmult_le_0_compat; [|apply Qlt_le_weak, pow2_pos].
  change 0 with (inject_Z 0). rewrite <- Zle_Qle.
  apply rne_ge_Z. change (inject_Z 0) with 0.
  apply Qle_shift_div_l; [apply pow2_pos|]. lra.
Qed.

Lemma round_pos_mono p q : 0 < p -> p <= q -> round_pos p <= round_pos q.
Proof.
  intros Hp Hpq.
  assert (Hq : 0 < q) by lra.
  rewrite !round_pos_eq.
  pose proof (ulp_exp_mono p q Hp Hpq) as He.
  set (ep := ulp_exp p) in *. set (eq := ulp_exp q) in *.
  pose proof (pow2_pos ep) as Hep. pose proof (pow2_pos eq) as Heq.
  destruct (Z.eq_dec ep eq) as [Hsame|Hdiff].
  - rewrite <- Hsame.
    apply Qmult_le_compat_r; [|lra].
    rewrite <- Zle_Qle. apply rne_mono.
    apply Qmult_le_compat_r; [exact Hpq|].
    apply Qinv_le_0_compat. lra.
  - assert (Hlt : (ep < eq)%Z) by lia.
    (* q is normal: its significand is at least 2^52 *)
    assert (Heq' : eq = (Qlog2 q - 52)%Z).
    { unfold eq, ep, ulp_exp in *. lia. }
    destruct (Qlog2_spec q Hq) as [Hq1 _].
    destruct (Qlog2_spec p Hp) as [_ Hp2].
    assert (Hmq : (2 ^ 52 <= rne (q / pow2 eq))%Z).
    { apply rne_ge_Z. rewrite <- pow2_Z by lia.
      apply Qle_shift_div_l; [exact Heq|].
      rewrite <- pow2_add. replace (52 + eq)%Z with (Qlog2 q) by lia. exact Hq1. }
    (* the significand of p is at most 2^53 *)
    assert (Hmp : (rne (p / pow2 ep) <= 2 ^ 53)%Z).
    { apply rne_le_Z. rewrite <- pow2_Z by lia.
      apply Qle_shift_div_r; [exact Hep|].
      rewrite <- pow2_add. apply Qlt_le_weak.
      eapply Qlt_le_trans; [exact Hp2|].
      apply pow2_le. unfold ep, ulp_exp. lia. }
    apply Qle_trans with (inject_Z (2 ^ 53) * pow2 ep).
    { apply Qmult_le_compat_r; [|lra]. rewrite <- Zle_Qle. exact Hmp. }
    apply Qle_trans with (inject_Z (2 ^ 52) * pow2 eq).
    2:{ apply Qmult_le_compat_r; [|lra]. rewrite <- Zle_Qle. exact Hmq. }
    rewrite <- !pow2_Z by lia. rewrite <- !pow2_add.
    apply pow2_le. lia.
Qed.

Lemma round64_zero q : q == 0 -> round64 q = Fin 0.
Proof.
  intros H. unfold round64.
  destruct (Qcompare_spec q 0) as [_|Hc|Hc]; [reflexivity | exfalso; lra | exfalso; lra].
Qed.

Lemma round64_pos q :
  0 < q ->
  round64 q = if Qle_bool (pow2 1024) (round_pos q) then Inf false else Fin (round_pos q).
Proof.
  intros H. unfold round64.
  destruct (Qcompare_spec q 0) as [Hc|Hc|Hc]; [exfalso; lra | exfalso; lra | reflexivity].
Qed.

Lemma round64_mono p q : 0 <= p -> p <= q -> num_le (round64 p) (round64 q).
Proof.
  intros Hp Hpq. unfold num_le.
  destruct (Qlt_le_dec 0 p) as [Hp0|Hp0].
  - assert (Hq0 : 0 < q) by lra.
    rewrite (round64_pos p Hp0), (round64_pos q Hq0).
    pose proof (round_pos_mono p q Hp0 Hpq) as Hr.
    destruct (Qle_bool (pow2 1024) (round_pos p)) eqn:Ep;
      destruct (Qle_bool (pow2 1024) (round_pos q)) eqn:Eq; simpl; try reflexivity.
    + apply Qle_bool_iff in Ep.
      assert (Hc : pow2 1024 <= round_pos q) by lra.
      apply Qle_bool_iff in Hc. congruence.
    + apply Qle_bool_iff. exact Hr.
  - rewrite (round64_zero p) by lra.
    destruct (Qlt_le_dec 0 q) as [Hq0|Hq0].
    + rewrite (round64_pos q Hq0).
      destruct (Qle_bool (pow2 1024) (round_pos q)); simpl; [reflexivity|].
      apply Qle_bool_iff. apply round_pos_nonneg. exact Hq0.
    + rewrite (round64_zero q) by lra. reflexivity.
Qed.

Lemma round64_between lo hi lo' hi' p q :
  0 <= lo -> lo <= p -> p <= q -> q <= hi ->
  round64 lo = Fin lo' -> round64 hi = Fin hi' ->
  between lo' hi' (round64 p) (round64 q).
Proof.
  intros H0 H1 H2 H3 Hlo Hhi.
  pose proof (round64_mono lo p H0 H1) as A.
  pose proof (round64_mono p q ltac:(lra) H2) as B.
  pose proof (round64_mono q hi ltac:(lra) H3) as C.
  rewrite Hlo in A. rewrite Hhi in C. unfold num_le in *.
  destruct (round64 p) as [|[]|x]; destruct (round64 q) as [|[]|y];
    simpl in A, B, C; try discriminate.
  apply Qle_bool_iff in A, B, C.
  exists x, y. repeat split; assumption.
Qed.

(** ** The progress of a step *)

Lemma num_of_Z_1 : num_of_Z 1 = Fin 1.
Proof. vm_compute. reflexivity. Qed.

Lemma num_of_Z_15 : num_of_Z 15 = Fin 15.
Proof. vm_compute. reflexivity. Qed.

Lemma num_of_Z_55 : num_of_Z 55 = Fin 55.
Proof. vm_compute. reflexivity. Qed.

Lemma round64_MAX_VALUE : round64 (inject_Z MAX_VALUE) = Fin (inject_Z MAX_VALUE).
Proof. vm_compute. reflexivity. Qed.

Lemma num_of_Z_between i j :
  (0 <= i)%Z -> (i <= j)%Z -> (j <= MAX_VALUE)%Z ->
  between 0 (inject_Z MAX_VALUE) (num_of_Z i) (num_of_Z j).
Proof.
  intros Hi Hij Hj. unfold num_of_Z.
  apply (round64_between 0 (inject_Z MAX_VALUE)).
  - lra.
  - change 0 with (inject_Z 0). rewrite <- Zle_Qle. exact Hi.
  - rewrite <- Zle_Qle. exact Hij.
  - rewrite <- Zle_Qle. exact Hj.
  - reflexivity.
  - exact round64_MAX_VALUE.
Qed.

Lemma num_max_1 b :
  0 <= b -> exists d, num_max (num_of_Z 1) (Fin b) = Fin d /\ 1 <= d /\ b <= d.
Proof.
  intros Hb. rewrite num_of_Z_1. simpl.
  destruct (Qle_bool 1 b) eqn:H1.
  - apply Qle_bool_iff in H1. exists b. repeat split; lra.
  - exists 1. repeat split; try lra.
    destruct (Qlt_le_dec b 1) as [H|H]; [lra|].
    apply Qle_bool_iff in H. congruence.
Qed.

Lemma num_div_between x y d :
  0 <= x -> x <= y -> y <= d -> 1 <= d ->
  between 0 1 (num_div (Fin x) (Fin d)) (num_div (Fin y) (Fin d)).
Proof.
  intros Hx Hxy Hyd Hd. simpl.
  assert (Hnz : Qeq_bool d 0 = false).
  { destruct (Qeq_bool d 0) eqn:E; [|reflexivity].
    apply Qeq_bool_iff in E. lra. }
  rewrite Hnz.
  assert (Hinv : 0 <= / d) by (apply Qinv_le_0_compat; lra).
  apply (round64_between 0 1).
  - lra.
  - apply Qle_shift_div_l; lra.
  - apply Qmult_le_compat_r; assumption.
  - apply Qle_shift_div_r; lra.
  - reflexivity.
  - vm_compute. reflexivity.
Qed.

Lemma num_mul_55_between x y :
  0 <= x -> x <= y -> y <= 1 ->
  between 0 55 (num_mul (Fin x) (num_of_Z 55)) (num_mul (Fin y) (num_of_Z 55)).
Proof.
  intros Hx Hxy Hy. rewrite num_of_Z_55. simpl.
  apply (round64_between 0 55); try lra.
  - reflexivity.
  - vm_compute. reflexivity.
Qed.

Lemma num_floor_min_55_between x y :
  0 <= x -> x <= y -> y <= 55 ->
  between 0 55 (num_min (num_of_Z 55) (num_floor (Fin x)))
               (num_min (num_of_Z 55) (num_floor (Fin y))).
Proof.
  intros Hx Hxy Hy. rewrite num_of_Z_55. simpl.
  assert (Fx : (0 <= Qfloor x)%Z) by exact (Qfloor_resp_le 0 x Hx).
  pose proof (Qfloor_resp_le _ _ Hxy) as Fxy.
  assert (Fy : (Qfloor y <= 55)%Z) by exact (Qfloor_resp_le y 55 Hy).
  assert (Hcase : forall k : Z, (0 <= k <= 55)%Z ->
            exists r, (if Qle_bool 55 (inject_Z k) then Fin 55 else Fin (inject_Z k)) = Fin r
                      /\ r == inject_Z k).
  { intros k Hk. destruct (Qle_bool 55 (inject_Z k)) eqn:E.
    - apply Qle_bool_iff in E. change 55 with (inject_Z 55) in E.
      rewrite <- Zle_Qle in E. exists 55. split; [reflexivity|].
      replace k with 55%Z by lia. reflexivity.
    - exists (inject_Z k). split; reflexivity. }
  destruct (Hcase (Qfloor x) ltac:(lia)) as (rx & -> & Ex).
  destruct (Hcase (Qfloor y) ltac:(lia)) as (ry & -> & Ey).
  assert (Qx : inject_Z 0 <= inject_Z (Qfloor x)) by (rewrite <- Zle_Qle; exact Fx).
  assert (Qxy : inject_Z (Qfloor x) <= inject_Z (Qfloor y))
    by (rewrite <- Zle_Qle; exact Fxy).
  assert (Qy : inject_Z (Qfloor y) <= inject_Z 55) by (rewrite <- Zle_Qle; exact Fy).
  change (inject_Z 0) with 0 in Qx. change (inject_Z 55) with 55 in Qy.
  exists rx, ry. repeat split; try reflexivity; lra.
Qed.

Lemma num_add_15_between x y :
  0 <= x -> x <= y -> y <= 55 ->
  between 15 70 (num_add (num_of_Z 15) (Fin x)) (num_add (num_of_Z 15) (Fin y)).
Proof.
  intros Hx Hxy Hy. rewrite num_of_Z_15. simpl.
  apply (round64_between 15 70); try lra.
  - vm_compute. reflexivity.
  - vm_compute. reflexivity.
Qed.

Lemma stepProgress_between i j t :
  (0 <= i)%Z -> (i <= j)%Z -> (j <= t)%Z -> (t <= MAX_VALUE)%Z ->
  between 15 70 (stepProgress i t) (stepProgress j t).
Proof.
  intros Hi Hij Hjt Ht. unfold stepProgress.
  destruct (num_of_Z_between i j Hi Hij ltac:(lia)) as (a & a' & Ea & Ea' & Ha & Haa & _).
  destruct (num_of_Z_between j t ltac:(lia) Hjt Ht) as (a2 & b & Ea2 & Eb & _ & Hab & _).
  rewrite Ea' in Ea2. injection Ea2 as <-.
  rewrite Ea, Ea', Eb.
  destruct (num_max_1 b ltac:(lra)) as (d & -> & Hd1 & Hbd).
  destruct (num_div_between a a' d Ha Haa ltac:(lra) Hd1)
    as (c & c' & -> & -> & Hc & Hcc & Hc1).
  destruct (num_mul_55_between c c' Hc Hcc Hc1) as (m & m' & -> & -> & Hm & Hmm & Hm1).
  destruct (num_floor_min_55_between m m' Hm Hmm Hm1)
    as (k & k' & -> & -> & Hk & Hkk & Hk1).
  apply num_add_15_between; assumption.
Qed.

Local Close Scope Q_scope.

(** ** Rules of the trace logic *)

Section WpRules.

Context {S : Type} (step : S -> Event -> option S).

Lemma scan_app (s : S) (t1 t2 : list Event) :
  scan step s (t1 ++ t2)%list = match scan step s t1 with
                                | Some s1 => scan step s1 t2
                                | None => None
                                end.
Proof.
  revert s. induction t1 as [|ev t1 IH]; intros s; simpl; [reflexivity|].
  destruct (step s ev); [apply IH | reflexivity].
Qed.

Lemma wp_mono {A} (m : M A) (Q Q' : outcome A -> S -> Prop) s :
  wp step m Q s -> (forall r s', Q r s' -> Q' r s') -> wp step m Q' s.
Proof.
  intros H HQ w. destruct (H w) as (suffix & s' & Ht & Hs & Hq).
  exists suffix, s'. auto.
Qed.

Lemma wp_ret {A} (a : A) (Q : outcome A -> S -> Prop) s :
  Q (Ok a) s -> wp step (ret a) Q s.
Proof.
  intros H w. exists [], s. simpl. rewrite app_nil_r. auto.
Qed.

Lemma wp_mret {A} (a : A) (Q : outcome A -> S -> Prop) s :
  Q (Ok a) s -> wp step (mret a) Q s.
Proof. apply wp_ret. Qed.

Lemma wp_throw {A} (e : JsError) (Q : outcome A -> S -> Prop) s :
  Q (Throw e) s -> wp step (throw e) Q s.
Proof.
  intros H w. exists [], s. simpl. rewrite app_nil_r. auto.
Qed.

Lemma wp_lift {A} (o : outcome A) (Q : outcome A -> S -> Prop) s :
  Q o s -> wp step (lift o) Q s.
Proof.
  intros H w. exists [], s. simpl. rewrite app_nil_r. auto.
Qed.

Lemma wp_get_db (Q : outcome Db -> S -> Prop) s :
  (forall d, Q (Ok d) s) -> wp step get_db Q s.
Proof.
  intros H w. exists [], s. simpl. rewrite app_nil_r. auto.
Qed.

Lemma wp_get_trace (Q : outcome (list Event) -> S -> Prop) s :
  (forall tr, Q (Ok tr) s) -> wp step get_trace Q s.
Proof.
  intros H w. exists [], s. simpl. rewrite app_nil_r. auto.
Qed.

Lemma wp_put_db d (Q : outcome unit -> S -> Prop) s :
  Q (Ok tt) s -> wp step (put_db d) Q s.
Proof.
  intros H w. exists [], s. simpl. rewrite app_nil_r. auto.
Qed.

Lemma wp_emit ev (Q : outcome unit -> S -> Prop) s s' :
  step s ev = Some s' -> Q (Ok tt) s' -> wp step (emit ev) Q s.
Proof.
  intros Hs H w. exists [ev], s'. simpl. rewrite Hs. auto.
Qed.

Lemma wp_bind {A B} (m : M A) (k : A -> M B) (Q : outcome B -> S -> Prop) s :
  wp step m (fun r s1 => match r with
                         | Ok a => wp step (k a) Q s1
                         | Throw e => Q (Throw e) s1
                         end) s ->
  wp step (bind m k) Q s.
Proof.
  intros H w. destruct (H w) as (t1 & s1 & Ht1 & Hs1 & Hq).
  unfold bind. destruct (m w) as [[a|e] w1]; simpl in *.
  - destruct (Hq w1) as (t2 & s2 & Ht2 & Hs2 & Hq2).
    exists (t1 ++ t2)%list, s2. rewrite Ht2, Ht1, scan_app, Hs1, app_assoc. auto.
  - exists t1, s1. auto.
Qed.

Lemma wp_mbind {A B} (m : M A) (k : A -> M B) (Q : outcome B -> S -> Prop) s :
  wp step m (fun r s1 => match r with
                         | Ok a => wp step (k a) Q s1
                         | Throw e => Q (Throw e) s1
                         end) s ->
  wp step (m ≫= k) Q s.
Proof. apply wp_bind. Qed.

Lemma wp_try_catch {A} (body : M A) (handler : JsError -> M A)
    (Q : outcome A -> S -> Prop) s :
  wp step body (fun r s1 => match r with
                            | Ok a => Q (Ok a) s1
                            | Throw e => wp step (handler e) Q s1
                            end) s ->
  wp step (try_catch body handler) Q s.
Proof.
  intros H w. destruct (H w) as (t1 & s1 & Ht1 & Hs1 & Hq).
  unfold try_catch. destruct (body w) as [[a|e] w1]; simpl in *.
  - exists t1, s1. auto.
  - destruct (Hq w1) as (t2 & s2 & Ht2 & Hs2 & Hq2).
    exists (t1 ++ t2)%list, s2. rewrite Ht2, Ht1, scan_app, Hs1, app_assoc. auto.
Qed.

Lemma wp_try_finally {A} (body : M A) (cleanup : M unit)
    (Q : outcome A -> S -> Prop) s :
  wp step body (fun r s1 =>
                  wp step cleanup (fun r2 s2 => match r2 with
                                                | Ok _ => Q r s2
                                                | Throw e => Q (Throw e) s2
                                                end) s1) s ->
  wp step (try_finally body cleanup) Q s.
Proof.
  intros H w. destruct (H w) as (t1 & s1 & Ht1 & Hs1 & Hq).
  unfold try_finally. destruct (body w) as [r w1]; simpl in *.
  destruct (Hq w1) as (t2 & s2 & Ht2 & Hs2 & Hq2).
  exists (t1 ++ t2)%list, s2.
  destruct (cleanup w1) as [[u|e] w2]; simpl in *;
    rewrite Ht2, Ht1, scan_app, Hs1, app_assoc; auto.
Qed.

Lemma wp_forEach {A} (body : A -> M unit) (items : list A)
    (I : S -> Prop) (Q : outcome unit -> S -> Prop) s :
  I s ->
  (forall x s1, I s1 ->
     wp step (body x) (fun r s2 => match r with
                                   | Ok _ => I s2
                                   | Throw e => Q (Throw e) s2
                                   end) s1) ->
  (forall s1, I s1 -> Q (Ok tt) s1) ->
  wp step (forEach body items) Q s.
Proof.
  intros Hs Hbody Hend. revert s Hs.
  induction items as [|x rest IH]; intros s Hs; simpl.
  - apply wp_ret. auto.
  - apply wp_bind. eapply wp_mono; [apply Hbody; exact Hs|].
    intros [[]|e] s'; simpl; auto.
Qed.

Lemma wp_runOrch {R} (runStep : StepMeta -> string -> string -> Z -> M StepOutput)
    (o : Orch R) (I : S -> Prop) (Q : outcome R -> S -> Prop) s :
  I s ->
  (forall meta prompt action n s1, I s1 ->
     wp step (runStep meta prompt action n) (fun _ s2 => I s2) s1) ->
  (forall r s1, I s1 -> Q r s1) ->
  wp step (runOrch runStep o) Q s.
Proof.
  intros Hs Hstep Hend. revert s Hs.
  induction o as [r|e|meta prompt action n k IH]; intros s Hs; simpl.
  - apply wp_ret. auto.
  - apply wp_throw. auto.
  - intros w.
    destruct (Hstep meta prompt action n s Hs w) as (t1 & s1 & Ht1 & Hs1 & Hi).
    destruct (runStep meta prompt action n w) as [r w1]; simpl in *.
    destruct (IH r s1 Hi w1) as (t2 & s2 & Ht2 & Hs2 & Hq).
    exists (t1 ++ t2)%list, s2. rewrite Ht2, Ht1, scan_app, Hs1, app_assoc. auto.
Qed.

End WpRules.

(** ** The trace logic on the collaborator calls *)

(** One backward step through the structure of a computation. *)
Ltac wp_rule :=
  first
    [ apply wp_mbind | apply wp_bind | apply wp_mret | apply wp_ret
    | apply wp_throw | apply wp_lift
    | apply wp_get_db; intros ? | apply wp_get_trace; intros ?
    | apply wp_put_db
    | eapply wp_emit; [reflexivity|]
    | apply wp_try_catch | apply wp_try_finally ].

Ltac wp_case :=
  match goal with
  | |- wp _ (match ?x with _ => _ end) _ _ => destruct x
  | |- wp _ (if ?x then _ else _) _ _ => destruct x
  | |- wp _ (let (_, _) := ?x in _) _ _ => destruct x
  | |- match ?x with _ => _ end => destruct x
  end.

Ltac wp_auto := repeat first [ wp_rule | wp_case | progress cbn beta iota ].

Section Checkpoints.

Context (E : Env).

Lemma cp_assertTaskActive label (Q : outcome unit -> bool -> Prop) c :
  Q (Ok tt) true ->
  (forall m, Q (Throw (TaskTerminatedError m)) false) ->
  wp checkpointStep (assertTaskActive E label) Q c.
Proof.
  intros Hok Hthrow. unfold assertTaskActive. wp_auto; auto.
Qed.

Lemma cp_reportTaskProgress percent stage stageLabel step
    (Q : outcome unit -> bool -> Prop) c :
  Q (Ok tt) c -> wp checkpointStep (reportTaskProgress percent stage stageLabel step) Q c.
Proof. intros H. unfold reportTaskProgress. wp_auto. exact H. Qed.

Lemma cp_logAIAnalysis action (Q : outcome unit -> bool -> Prop) c :
  Q (Ok tt) c -> wp checkpointStep (logAIAnalysis action) Q c.
Proof. intros H. unfold logAIAnalysis. wp_auto. exact H. Qed.

Lemma cp_flush (Q : outcome unit -> bool -> Prop) c :
  Q (Ok tt) c -> wp checkpointStep flush Q c.
Proof. intros H. unfold flush. wp_auto. exact H. Qed.

Lemma cp_chatCompletion userId model prompt options
    (Q : outcome StepOutput -> bool -> Prop) :
  (forall r, Q r false) ->
  wp checkpointStep (chatCompletion E userId model prompt options) Q true.
Proof. intros H. unfold chatCompletion. wp_auto. apply H. Qed.

(** A step is accepted in every state: it starts with the check. *)
Lemma cp_runStep L ctx meta prompt action n (Q : outcome StepOutput -> bool -> Prop) c :
  (forall r c', Q r c') ->
  wp checkpointStep (runStep E L ctx meta prompt action n) Q c.
Proof.
  intros H. unfold runStep.
  apply wp_mbind. apply cp_assertTaskActive; [|intros; apply H].
  apply wp_mbind. apply cp_reportTaskProgress.
  apply wp_mbind. apply cp_logAIAnalysis.
  apply wp_mbind. apply cp_chatCompletion. intros [parts|e]; [|apply H].
  apply wp_mbind. apply cp_logAIAnalysis.
  apply wp_mret. apply H.
Qed.

Lemma cp_findProject id (Q : outcome (option Project) -> bool -> Prop) c :
  (forall r, Q (Ok r) c) -> wp checkpointStep (findProject id) Q c.
Proof. intros H. unfold findProject. wp_auto. apply H. Qed.

Lemma cp_findNovelPromotionProject id
    (Q : outcome (option NovelPromotionProject) -> bool -> Prop) c :
  (forall r, Q (Ok r) c) -> wp checkpointStep (findNovelPromotionProject id) Q c.
Proof. intros H. unfold findNovelPromotionProject. wp_auto. apply H. Qed.

Lemma cp_findEpisode id (Q : outcome (option Episode) -> bool -> Prop) c :
  (forall r, Q (Ok r) c) -> wp checkpointStep (findEpisode id) Q c.
Proof. intros H. unfold findEpisode. wp_auto. apply H. Qed.

Lemma cp_findEpisodeWithClips id
    (Q : outcome (option (Episode * list Clip)) -> bool -> Prop) c :
  (forall r, Q (Ok r) c) -> wp checkpointStep (findEpisodeWithClips id) Q c.
Proof. intros H. unfold findEpisodeWithClips. wp_auto. apply H. Qed.

Lemma cp_getProjectModelConfig projectId userId
    (Q : outcome (option string) -> bool -> Prop) c :
  (forall r, Q (Ok r) c) -> wp checkpointStep (getProjectModelConfig E projectId userId) Q c.
Proof. intros H. unfold getProjectModelConfig. wp_auto. apply H. Qed.

Lemma cp_resolveCapability projectId userId modelType modelKey
    (Q : outcome JsValue -> bool -> Prop) c :
  (forall r, Q (Ok r) c) ->
  wp checkpointStep
     (resolveProjectModelCapabilityGenerationOptions E projectId userId modelType modelKey)
     Q c.
Proof.
  intros H. unfold resolveProjectModelCapabilityGenerationOptions. wp_auto. apply H.
Qed.

Lemma cp_persistWith {A} helper (write : Db -> outcome A * Db)
    (Q : outcome A -> bool -> Prop) :
  (forall r, Q r true) -> wp checkpointStep (persistWith helper write) Q true.
Proof. intros H. unfold persistWith. wp_auto; apply H. Qed.

Lemma cp_clipUpdate id screenplay (Q : outcome unit -> bool -> Prop) :
  (forall r, Q r true) -> wp checkpointStep (clipUpdate id screenplay) Q true.
Proof. intros H. unfold clipUpdate. wp_auto; apply H. Qed.

Lemma cp_voiceLineDeleteMany episodeId (Q : outcome unit -> bool -> Prop) :
  Q (Ok tt) true -> wp checkpointStep (voiceLineDeleteMany episodeId) Q true.
Proof. intros H. unfold voiceLineDeleteMany. wp_auto; apply H. Qed.

Lemma cp_voiceLineCreate data (Q : outcome N -> bool -> Prop) :
  (forall r, Q r true) -> wp checkpointStep (voiceLineCreate data) Q true.
Proof. intros H. unfold voiceLineCreate. wp_auto; apply H. Qed.

(** Backward reasoning through a phase of a handler. *)
Ltac cp_prim :=
  first
    [ apply cp_assertTaskActive | apply cp_reportTaskProgress | apply cp_logAIAnalysis
    | apply cp_flush | apply cp_chatCompletion | apply cp_runStep
    | apply cp_findProject | apply cp_findNovelPromotionProject | apply cp_findEpisode
    | apply cp_findEpisodeWithClips | apply cp_getProjectModelConfig
    | apply cp_resolveCapability | apply cp_persistWith | apply cp_clipUpdate
    | apply cp_voiceLineDeleteMany | apply cp_voiceLineCreate ].

Ltac wp_intro :=
  match goal with
  | |- forall r : outcome _, _ => intros [?|?]
  | |- forall _, _ => intros ?
  end.

Ltac cp_auto := repeat first [ cp_prim | wp_rule | wp_case | wp_intro | progress cbn beta iota ].

Lemma cp_storyToScript_prepare job (Q : outcome StoryToScriptPrepared -> bool -> Prop) c :
  (forall r, Q r c) -> wp checkpointStep (storyToScript_prepare E job) Q c.
Proof. intros H. unfold storyToScript_prepare. cp_auto; apply H. Qed.

Lemma cp_scriptToStoryboard_prepare job
    (Q : outcome ScriptToStoryboardPrepared -> bool -> Prop) c :
  (forall r, Q r c) -> wp checkpointStep (scriptToStoryboard_prepare E job) Q c.
Proof. intros H. unfold scriptToStoryboard_prepare. cp_auto; apply H. Qed.

Lemma cp_runOrch {R} L ctx (o : Orch R) (Q : outcome R -> bool -> Prop) c :
  (forall r c', Q r c') -> wp checkpointStep (runOrch (runStep E L ctx) o) Q c.
Proof.
  intros H. apply (wp_runOrch checkpointStep _ _ (fun _ => True)); auto.
  intros. apply cp_runStep. auto.
Qed.

Lemma cp_storyToScript_orchestrate job p (Q : outcome StoryToScriptResult -> bool -> Prop) c :
  (forall r c', Q r c') -> wp checkpointStep (storyToScript_orchestrate E job p) Q c.
Proof.
  intros H. unfold storyToScript_orchestrate.
  apply wp_mbind. apply cp_reportTaskProgress.
  apply wp_try_finally. apply cp_runOrch. intros r c'.
  apply cp_flush. apply H.
Qed.

Lemma cp_scriptToStoryboard_orchestrate job p
    (Q : outcome ScriptToStoryboardResult -> bool -> Prop) c :
  (forall r c', Q r c') -> wp checkpointStep (scriptToStoryboard_orchestrate E job p) Q c.
Proof.
  intros H. unfold scriptToStoryboard_orchestrate.
  apply wp_mbind. apply cp_reportTaskProgress.
  apply wp_try_finally. apply wp_try_catch. apply cp_runOrch. intros [r|e] c'.
  - apply cp_flush. apply H.
  - apply wp_mbind.
    destruct e; cbn beta iota; cp_auto; apply H.
Qed.

Lemma cp_persistScreenplay clipIdMap item (Q : outcome unit -> bool -> Prop) :
  (forall r, Q r true) -> wp checkpointStep (persistScreenplay E clipIdMap item) Q true.
Proof. intros H. unfold persistScreenplay. cp_auto; apply H. Qed.

Lemma cp_storyToScript_persist p result (Q : outcome StoryToScriptReturn -> bool -> Prop) c :
  (forall r c', Q r c') -> wp checkpointStep (storyToScript_persist E p result) Q c.
Proof.
  intros H. unfold storyToScript_persist.
  destruct (0 <? _)%Z; [apply wp_throw, H|].
  apply wp_mbind. apply cp_reportTaskProgress.
  apply wp_mbind. apply cp_assertTaskActive; [|intros; apply H].
  apply wp_mbind. apply cp_findEpisode. intros [ep|]; [|apply wp_throw, H].
  apply wp_mbind. apply cp_persistWith. intros [createdCharacters|e]; [|apply H].
  apply wp_mbind. apply cp_persistWith. intros [createdLocations|e]; [|apply H].
  apply wp_mbind. apply cp_persistWith. intros [createdClipRows|e]; [|apply H].
  apply wp_mbind.
  apply (wp_forEach checkpointStep _ _ (fun s => s = true)); [reflexivity| |].
  - intros item s1 ->. apply cp_persistScreenplay. intros [[]|e]; [reflexivity|apply H].
  - intros s1 ->. cp_auto. apply H.
Qed.

(** The story-to-script handler respects the checkpoint discipline. *)
Lemma cp_handleStoryToScriptTask job c :
  wp checkpointStep (handleStoryToScriptTask E job) (fun _ _ => True) c.
Proof.
  unfold handleStoryToScriptTask.
  apply wp_mbind. apply cp_storyToScript_prepare. intros [p|e]; [|exact I].
  apply wp_mbind. apply cp_storyToScript_orchestrate. intros [result|e] c'; [|exact I].
  apply cp_storyToScript_persist. auto.
Qed.

Lemma cp_voiceAnalysisLoop ctx base voicePrompt attempts lastError
    (Q : outcome (option (list JsonRecord) * option JsError) -> bool -> Prop) c :
  (forall r c', Q r c') ->
  wp checkpointStep (voiceAnalysisLoop E ctx base voicePrompt attempts lastError) Q c.
Proof.
  intros H. revert lastError c.
  induction attempts as [|voiceAttempt later IH]; intros lastError c; simpl.
  - apply wp_ret, H.
  - apply wp_try_catch. unfold voiceAttemptBody.
    apply wp_mbind, wp_mbind, cp_runStep. intros [voiceOutput|e] c'.
    + cp_auto; first [apply H | apply IH].
    + destruct (isTaskTerminated e); [apply wp_throw, H | apply IH].
Qed.

Lemma cp_analyzeVoiceLines ctx base voicePrompt
    (Q : outcome (list JsonRecord) -> bool -> Prop) c :
  (forall r c', Q r c') -> wp checkpointStep (analyzeVoiceLines E ctx base voicePrompt) Q c.
Proof.
  intros H. unfold analyzeVoiceLines.
  apply wp_mbind. apply cp_voiceAnalysisLoop. intros [[[rows|] [e|]]|e] c'; cp_auto; apply H.
Qed.

Lemma cp_createVoiceLines episodeId panelMap i rows (Q : outcome (list N) -> bool -> Prop) :
  (forall r, Q r true) ->
  wp checkpointStep (createVoiceLines E episodeId panelMap i rows) Q true.
Proof.
  intros H. revert i Q H. induction rows as [|row later IH]; intros i Q H; simpl.
  - apply wp_ret, H.
  - apply wp_bind, wp_lift. destruct (voiceLineDataOf _ _ _ _ _) as [data|e]; [|apply H].
    apply wp_bind, cp_voiceLineCreate. intros [createdRow|e]; [|apply H].
    apply wp_bind, IH. intros [created|e]; [|apply H].
    apply wp_ret, H.
Qed.

Lemma cp_persistVoiceLines episodeId persisted rows (Q : outcome (list N) -> bool -> Prop) c :
  (forall r c', Q r c') ->
  wp checkpointStep (persistVoiceLines E episodeId persisted rows) Q c.
Proof.
  intros H. unfold persistVoiceLines, voiceLineTransaction, transaction.
  apply wp_mbind. apply cp_assertTaskActive; [|intros; apply H].
  apply wp_mbind. eapply wp_emit; [reflexivity|].
  apply wp_mbind, wp_get_db. intros before.
  apply wp_try_catch.
  apply wp_mbind, wp_mbind, cp_voiceLineDeleteMany.
  apply cp_createVoiceLines. intros [created|e].
  - cp_auto. apply H.
  - cp_auto. apply H.
Qed.

Lemma cp_scriptToStoryboard_persist job p result
    (Q : outcome ScriptToStoryboardReturn -> bool -> Prop) c :
  (forall r c', Q r c') -> wp checkpointStep (scriptToStoryboard_persist E job p result) Q c.
Proof.
  intros H. unfold scriptToStoryboard_persist, scriptToStoryboard_persistPanels.
  apply wp_mbind, wp_mbind, cp_reportTaskProgress.
  apply wp_mbind, cp_assertTaskActive; [|intros; apply H].
  apply cp_persistWith. intros [persistedStoryboards|e]; [|apply H].
  apply wp_mbind, wp_lift. destruct (voicePromptOf _ _ _ _) as [voicePrompt|e]; [|apply H].
  apply wp_mbind, cp_analyzeVoiceLines. intros [voiceLineRows|e] c1; [|apply H].
  apply wp_mbind, cp_persistVoiceLines. intros [createdVoiceLines|e] c2; [|apply H].
  cp_auto. apply H.
Qed.

(** The script-to-storyboard handler respects the checkpoint discipline. *)
Lemma cp_handleScriptToStoryboardTask job c :
  wp checkpointStep (handleScriptToStoryboardTask E job) (fun _ _ => True) c.
Proof.
  unfold handleScriptToStoryboardTask.
  apply wp_mbind. apply cp_scriptToStoryboard_prepare. intros [p|e]; [|exact I].
  apply wp_mbind. apply cp_scriptToStoryboard_orchestrate. intros [result|e] c'; [|exact I].
  apply cp_scriptToStoryboard_persist. auto.
Qed.

End Checkpoints.

(** ** Evaluation of the step runner and of the voice-analysis loop *)

Ltac unfold_m :=
  unfold mbind, mret, M_bind, M_ret, bind, ret, throw, lift, emit, get_db, get_trace, put_db,
         try_catch, try_finally in *.

Section Evaluation.

Context (E : Env).

Lemma runStep_eval L c meta prompt action n w :
  runStep E L c meta prompt action n w =
  match taskTerminated E (trace w) with
  | Some message =>
      (Throw (TaskTerminatedError message),
       {| db := db w;
          trace := (trace w ++ [EvAssertTaskActive (checkpointPrefix L +:+ stepId meta) false])%list |})
  | None =>
      let tr := (trace w ++ stepEvents L c meta prompt action)%list in
      match completion E tr with
      | Ok parts =>
          (Ok {| text := text parts; reasoning := reasoning parts |},
           {| db := concurrentWrites E tr (db w);
              trace := (tr ++ [EvLogAIAnalysis (outputActionPrefix L +:+ action)])%list |})
      | Throw e => (Throw e, {| db := concurrentWrites E tr (db w); trace := tr |})
      end
  end.
Proof.
  unfold runStep, assertTaskActive, reportTaskProgress, logAIAnalysis, chatCompletion,
    stepEvents.
  unfold_m. cbn [db trace].
  destruct (taskTerminated E (trace w)); cbn [db trace]; [reflexivity|].
  rewrite <- !app_assoc. cbn [app].
  destruct (completion E _); reflexivity.
Qed.

(** The loop from attempt 2 on. *)
Lemma voiceAnalysisLoop_last c base voicePrompt lastError w :
  voiceAnalysisLoop E c base voicePrompt [2] lastError w =
  match voiceAttemptBody E c base voicePrompt 2 w with
  | (Ok rows, w') => (Ok (Some rows, lastError), w')
  | (Throw e, w') =>
      if isTaskTerminated e then (Throw e, w') else (Ok (None, Some e), w')
  end.
Proof.
  cbn [voiceAnalysisLoop]. unfold try_catch at 1.
  change ((voiceAttemptBody E c base voicePrompt 2
             ≫= λ rows, mret (Some rows, lastError)) w)
    with (bind (voiceAttemptBody E c base voicePrompt 2)
               (fun rows => ret (Some rows, lastError)) w).
  unfold bind at 1.
  destruct (voiceAttemptBody E c base voicePrompt 2 w) as [[rows|e] w']; [reflexivity|].
  destruct (isTaskTerminated e); reflexivity.
Qed.

Lemma analyzeVoiceLines_eval c base voicePrompt w :
  analyzeVoiceLines E c base voicePrompt w =
  match voiceAttemptBody E c base voicePrompt 1 w with
  | (Ok rows, w1) => (Ok rows, w1)
  | (Throw e, w1) =>
      if isTaskTerminated e then (Throw e, w1)
      else voiceAttemptBody E c base voicePrompt 2 w1
  end.
Proof.
  unfold analyzeVoiceLines.
  change (_ ≫= _) with
    (bind (voiceAnalysisLoop E c base voicePrompt [1; 2] None)
       (fun final =>
          match final with
          | (Some voiceLineRows, _) => mret voiceLineRows
          | (None, Some voiceLastError) => throw voiceLastError
          | (None, None) => throw (Error "null")
          end)).
  unfold bind at 1.
  change (voiceAnalysisLoop E c base voicePrompt [1; 2] None w)
    with (try_catch
            (bind (voiceAttemptBody E c base voicePrompt 1)
                  (fun rows => ret (Some rows, None)))
            (fun error =>
               if isTaskTerminated error then throw error
               else voiceAnalysisLoop E c base voicePrompt [2] (Some error)) w).
  unfold try_catch at 1. unfold bind at 1.
  destruct (voiceAttemptBody E c base voicePrompt 1 w) as [[rows|e] w1]; [reflexivity|].
  destruct (isTaskTerminated e) eqn:He; [reflexivity|].
  rewrite voiceAnalysisLoop_last.
  destruct (voiceAttemptBody E c base voicePrompt 2 w1) as [[rows|e2] w2]; [reflexivity|].
  destruct (isTaskTerminated e2); reflexivity.
Qed.

(** One attempt: the step, then the parsing of its text. *)
Lemma voiceAttemptBody_eval c base voicePrompt k w :
  voiceAttemptBody E c base voicePrompt k w
  = match runStep E scriptToStoryboardLabels c (voiceAttemptMeta base k) voicePrompt
            "voice_analyze" 2600 w with
    | (Ok voiceOutput, w1) => (parseVoiceLinesJson E (text voiceOutput), w1)
    | (Throw e, w1) => (Throw e, w1)
    end.
Proof. reflexivity. Qed.

(** The calls of one attempt. *)
Lemma voiceAttemptBody_trace c base voicePrompt k w :
  let meta := voiceAttemptMeta base k in
  let called :=
    (trace w ++ stepEvents scriptToStoryboardLabels c meta voicePrompt "voice_analyze")%list in
  trace (voiceAttemptBody E c base voicePrompt k w).2
  = match taskTerminated E (trace w) with
    | Some _ =>
        (trace w
         ++ [EvAssertTaskActive ("script_to_storyboard_step:" +:+ stepId meta) false])%list
    | None =>
        match completion E called with
        | Ok _ =>
            (called ++ [EvLogAIAnalysis "SCRIPT_TO_STORYBOARD_OUTPUT:voice_analyze"])%list
        | Throw _ => called
        end
    end.
Proof.
  intros meta called. rewrite voiceAttemptBody_eval, runStep_eval.
  destruct (taskTerminated E (trace w)); [reflexivity|].
  cbv zeta. fold meta. fold called.
  destruct (completion E called); reflexivity.
Qed.

(** One attempt makes at most one completion call. *)
Lemma voiceAttemptBody_completions c base voicePrompt k w :
  exists suffix,
    trace (voiceAttemptBody E c base voicePrompt k w).2 = (trace w ++ suffix)%list
    /\ (completions suffix <= 1)%nat.
Proof.
  unfold voiceAttemptBody.
  change (_ ≫= _) with
    (bind (runStep E scriptToStoryboardLabels c (voiceAttemptMeta base k) voicePrompt
             "voice_analyze" 2600)
          (fun voiceOutput => lift (parseVoiceLinesJson E (text voiceOutput)))).
  unfold bind. rewrite runStep_eval.
  destruct (taskTerminated E (trace w)).
  - eexists. split; [reflexivity|]. cbn. lia.
  - cbv zeta. destruct (completion E _).
    + unfold lift. cbn [snd trace]. rewrite <- app_assoc.
      eexists. split; [reflexivity|]. cbn. lia.
    + eexists. split; [reflexivity|]. cbn. lia.
Qed.

End Evaluation.

(** ** The voice-line transaction *)

Section VoiceLines.

Context (E : Env).

Lemma Ok_inj {A} (a b : A) : Ok a = Ok b -> a = b.
Proof. intros H. injection H as H. exact H. Qed.

Lemma voiceLineDataOf_episode episodeId panelMap i row data :
  voiceLineDataOf E episodeId panelMap i row = Ok data -> vl_episodeId data = episodeId.
Proof.
  unfold voiceLineDataOf. unfold mbind, outcome_bind.
  destruct (resolveMatchedPanel E panelMap i row) as [[[pid sid] idx]|]; [|discriminate].
  destruct (field row "emotionStrength") as [| | |[| |x]| | |]; try discriminate.
  destruct (field row "lineIndex") as [| | |[| |y]| | |]; try discriminate.
  destruct (Qfloor y <=? 0)%Z; [discriminate|].
  destruct (field row "speaker") as [| | | |speaker| |]; try discriminate.
  destruct (str_empty (trim speaker)); [discriminate|].
  destruct (field row "content") as [| | | |content| |]; try discriminate.
  destruct (str_empty (trim content)); [discriminate|].
  intros H. apply Ok_inj in H. subst data. reflexivity.
Qed.

Lemma voiceLineDataList_ok episodeId panelMap rows i datas :
  voiceLineDataList E episodeId panelMap i rows = Ok datas ->
  List.length datas = List.length rows
  /\ Forall (fun data => vl_episodeId data = episodeId) datas.
Proof.
  revert i datas. induction rows as [|row later IH]; intros i datas; simpl.
  - intros [= <-]. split; [reflexivity | constructor].
  - destruct (voiceLineDataOf E episodeId panelMap i row) as [data|] eqn:Hd; [|discriminate].
    destruct (voiceLineDataList E episodeId panelMap (Datatypes.S i) later) as [rest|] eqn:Hr;
      [|discriminate].
    intros [= <-]. destruct (IH _ _ Hr) as [Hlen Hall]. split.
    + simpl. congruence.
    + constructor; [|exact Hall]. eapply voiceLineDataOf_episode; exact Hd.
Qed.

Lemma voiceLineDataList_lookup episodeId panelMap rows i datas :
  voiceLineDataList E episodeId panelMap i rows = Ok datas ->
  forall k row,
    rows !! k = Some row ->
    exists data,
      datas !! k = Some data
      /\ voiceLineDataOf E episodeId panelMap (i + k) row = Ok data.
Proof.
  revert i datas. induction rows as [|r later IH]; intros i datas; simpl.
  - intros _ k row Hk. destruct k; discriminate Hk.
  - destruct (voiceLineDataOf E episodeId panelMap i r) as [data|] eqn:Hd; [|discriminate].
    destruct (voiceLineDataList E episodeId panelMap (Datatypes.S i) later) as [rest|] eqn:Hr;
      [|discriminate].
    intros [= <-] k row Hk. destruct k as [|k]; simpl in Hk.
    + injection Hk as <-. exists data. rewrite Nat.add_0_r. auto.
    + destruct (IH _ _ Hr k row Hk) as (data' & Hk' & Hd').
      exists data'. split; [exact Hk'|].
      replace (i + Datatypes.S k)%nat with (Datatypes.S i + k)%nat by lia. exact Hd'.
Qed.

Lemma map_lookup_Some {A B} (f : A -> B) (l : list A) (k : nat) (y : B) :
  map f l !! k = Some y -> exists x, l !! k = Some x /\ f x = y.
Proof.
  revert k. induction l as [|a l IH]; intros k; simpl.
  - destruct k; discriminate.
  - destruct k as [|k]; simpl.
    + intros [= <-]. eauto.
    + apply IH.
Qed.

Lemma voiceLineDataList_throw episodeId panelMap rows i row :
  In row rows ->
  (forall j, exists e, voiceLineDataOf E episodeId panelMap j row = Throw e) ->
  exists e, voiceLineDataList E episodeId panelMap i rows = Throw e.
Proof.
  revert i. induction rows as [|r later IH]; intros i Hin Hbad; [destruct Hin|].
  simpl. destruct (voiceLineDataOf E episodeId panelMap i r) as [data|e] eqn:Hd.
  - destruct Hin as [->|Hin].
    + destruct (Hbad i) as [e He]. congruence.
    + destruct (IH (Datatypes.S i) Hin Hbad) as [e ->]. eauto.
  - eauto.
Qed.

Lemma createVoiceLines_cons episodeId panelMap row later i w :
  createVoiceLines E episodeId panelMap i (row :: later) w =
  match voiceLineDataOf E episodeId panelMap i row with
  | Ok data =>
      match createVoiceLines E episodeId panelMap (Datatypes.S i) later
              {| db := insertVoiceLine (db w) data;
                 trace := (trace w ++ [EvVoiceLineCreate data])%list |} with
      | (Ok created, w') => (Ok (nextVoiceLineId (db w) :: created), w')
      | (Throw e, w') => (Throw e, w')
      end
  | Throw e => (Throw e, w)
  end.
Proof.
  cbn [createVoiceLines]. unfold voiceLineCreate. unfold_m. cbn [db trace].
  destruct (voiceLineDataOf E episodeId panelMap i row); reflexivity.
Qed.

(** The loop of the transaction body creates the data of all rows, or
    throws the first validation error. *)
Lemma createVoiceLines_eval episodeId panelMap rows i w :
  match voiceLineDataList E episodeId panelMap i rows with
  | Ok datas =>
      exists ids,
        (createVoiceLines E episodeId panelMap i rows w).1 = Ok ids
        /\ List.length ids = List.length datas
        /\ db (createVoiceLines E episodeId panelMap i rows w).2
           = foldl insertVoiceLine (db w) datas
  | Throw e => (createVoiceLines E episodeId panelMap i rows w).1 = Throw e
  end.
Proof.
  revert i w. induction rows as [|row later IH]; intros i w.
  - exists []. auto.
  - rewrite createVoiceLines_cons. cbn [voiceLineDataList].
    destruct (voiceLineDataOf E episodeId panelMap i row) as [data|e]; [|reflexivity].
    specialize (IH (Datatypes.S i)
      {| db := insertVoiceLine (db w) data;
         trace := (trace w ++ [EvVoiceLineCreate data])%list |}).
    destruct (voiceLineDataList E episodeId panelMap (Datatypes.S i) later) as [rest|e].
    + destruct IH as (ids & Hr & Hlen & Hdb).
      destruct (createVoiceLines E episodeId panelMap (Datatypes.S i) later _)
        as [[created|e] w']; simpl in Hr; [|discriminate].
      injection Hr as ->. exists (nextVoiceLineId (db w) :: ids).
      simpl in *. rewrite Hlen. auto.
    + destruct (createVoiceLines E episodeId panelMap (Datatypes.S i) later _)
        as [[created|e'] w']; simpl in IH; [discriminate|].
      simpl. exact IH.
Qed.

Lemma createVoiceLines_trace episodeId panelMap rows i w :
  exists suffix,
    trace (createVoiceLines E episodeId panelMap i rows w).2 = (trace w ++ suffix)%list.
Proof.
  revert i w. induction rows as [|row later IH]; intros i w.
  - exists []. simpl. rewrite app_nil_r. reflexivity.
  - rewrite createVoiceLines_cons.
    destruct (voiceLineDataOf E episodeId panelMap i row) as [data|e].
    + destruct (IH (Datatypes.S i)
        {| db := insertVoiceLine (db w) data;
           trace := (trace w ++ [EvVoiceLineCreate data])%list |}) as [suffix Hs].
      destruct (createVoiceLines E episodeId panelMap (Datatypes.S i) later _)
        as [[created|e] w']; simpl in *; rewrite Hs, <- app_assoc; eauto.
    + exists []. simpl. rewrite app_nil_r. reflexivity.
Qed.

Lemma voiceLineTransaction_unfold episodeId panelMap rows w :
  voiceLineTransaction E episodeId panelMap rows w =
  match createVoiceLines E episodeId panelMap 0 rows
          {| db := deleteVoiceLines episodeId (db w);
             trace := (trace w ++ [EvTransactionBegin 15000;
                                   EvVoiceLineDeleteMany episodeId])%list |} with
  | (Ok created, w') =>
      (Ok created, {| db := db w'; trace := (trace w' ++ [EvTransactionCommit])%list |})
  | (Throw e, w') =>
      (Throw e, {| db := db w; trace := (trace w' ++ [EvTransactionRollback])%list |})
  end.
Proof.
  unfold voiceLineTransaction, transaction, voiceLineDeleteMany.
  unfold_m. cbn [db trace]. rewrite <- app_assoc. cbn [app].
  destruct (createVoiceLines E episodeId panelMap 0 rows _) as [[created|e] w'];
    reflexivity.
Qed.

(** The transaction commits the full replacement, or leaves the database
    as it was. *)
Lemma voiceLineTransaction_eval episodeId panelMap rows w :
  match voiceLineDataList E episodeId panelMap 0 rows with
  | Ok datas =>
      exists ids,
        (voiceLineTransaction E episodeId panelMap rows w).1 = Ok ids
        /\ List.length ids = List.length datas
        /\ db (voiceLineTransaction E episodeId panelMap rows w).2
           = foldl insertVoiceLine (deleteVoiceLines episodeId (db w)) datas
  | Throw e =>
      (voiceLineTransaction E episodeId panelMap rows w).1 = Throw e
      /\ db (voiceLineTransaction E episodeId panelMap rows w).2 = db w
  end.
Proof.
  rewrite voiceLineTransaction_unfold.
  pose proof (createVoiceLines_eval episodeId panelMap rows 0
    {| db := deleteVoiceLines episodeId (db w);
       trace := (trace w ++ [EvTransactionBegin 15000;
                             EvVoiceLineDeleteMany episodeId])%list |}) as H.
  destruct (voiceLineDataList E episodeId panelMap 0 rows) as [datas|e].
  - destruct H as (ids & Hr & Hlen & Hdb).
    destruct (createVoiceLines E episodeId panelMap 0 rows _) as [[created|e] w'];
      simpl in Hr; [|discriminate].
    injection Hr as ->. exists ids. simpl in *. auto.
  - destruct (createVoiceLines E episodeId panelMap 0 rows _) as [[created|e'] w'];
      simpl in H; [discriminate|].
    injection H as ->. simpl. auto.
Qed.

Lemma voiceLineTransaction_trace episodeId panelMap rows w :
  exists rest,
    trace (voiceLineTransaction E episodeId panelMap rows w).2
    = (trace w ++ EvTransactionBegin 15000 :: EvVoiceLineDeleteMany episodeId :: rest)%list.
Proof.
  rewrite voiceLineTransaction_unfold.
  destruct (createVoiceLines_trace episodeId panelMap rows 0
    {| db := deleteVoiceLines episodeId (db w);
       trace := (trace w ++ [EvTransactionBegin 15000;
                             EvVoiceLineDeleteMany episodeId])%list |}) as [suffix Hs].
  destruct (createVoiceLines E episodeId panelMap 0 rows _) as [[created|e] w'];
    simpl in *; rewrite Hs, <- !app_assoc; simpl; eauto.
Qed.

End VoiceLines.

(** *** The table after the inserts *)

Lemma voiceLinesOf_foldl_insert episodeId datas d :
  Forall (fun data => vl_episodeId data = episodeId) datas ->
  map vl_data (voiceLinesOf episodeId (foldl insertVoiceLine d datas))
  = (map vl_data (voiceLinesOf episodeId d) ++ datas)%list.
Proof.
  revert d. induction datas as [|data rest IH]; intros d Hall; simpl.
  - rewrite app_nil_r. reflexivity.
  - inversion Hall as [|? ? Hd Hrest]; subst.
    rewrite (IH _ Hrest). unfold voiceLinesOf. simpl.
    rewrite List.filter_app, map_app. simpl.
    rewrite bool_decide_true by reflexivity. simpl.
    rewrite <- app_assoc. reflexivity.
Qed.

Lemma voiceLinesNotOf_foldl_insert episodeId datas d :
  Forall (fun data => vl_episodeId data = episodeId) datas ->
  voiceLinesNotOf episodeId (foldl insertVoiceLine d datas) = voiceLinesNotOf episodeId d.
Proof.
  revert d. induction datas as [|data rest IH]; intros d Hall; simpl; [reflexivity|].
  inversion Hall as [|? ? Hd Hrest]; subst.
  rewrite (IH _ Hrest). unfold voiceLinesNotOf. simpl.
  rewrite List.filter_app. simpl.
  rewrite bool_decide_true by reflexivity. simpl.
  rewrite app_nil_r. reflexivity.
Qed.

Lemma voiceLinesOf_delete episodeId d :
  voiceLinesOf episodeId (deleteVoiceLines episodeId d) = [].
Proof.
  unfold voiceLinesOf, deleteVoiceLines. simpl.
  induction (voiceLines d) as [|v rest IH]; simpl; [reflexivity|].
  destruct (bool_decide (vl_episodeId (vl_data v) = episodeId)) eqn:Hv; simpl.
  - exact IH.
  - rewrite Hv. exact IH.
Qed.

Lemma voiceLinesNotOf_delete episodeId d :
  voiceLinesNotOf episodeId (deleteVoiceLines episodeId d) = voiceLinesNotOf episodeId d.
Proof.
  unfold voiceLinesNotOf, deleteVoiceLines. simpl.
  induction (voiceLines d) as [|v rest IH]; simpl; [reflexivity|].
  destruct (bool_decide (vl_episodeId (vl_data v) = episodeId)) eqn:Hv; simpl.
  - exact IH.
  - rewrite Hv. simpl. rewrite IH. reflexivity.
Qed.

(** Every insert of the loop carries the data that the validation of a
    row gave. *)
Lemma createVoiceLines_inserts (E : Env) episodeId panelMap rows i w :
  exists suffix,
    trace (createVoiceLines E episodeId panelMap i rows w).2 = (trace w ++ suffix)%list
    /\ forall ev, In ev suffix ->
         exists data k row,
           ev = EvVoiceLineCreate data
           /\ rows !! k = Some row
           /\ voiceLineDataOf E episodeId panelMap (i + k) row = Ok data.
Proof.
  revert i w. induction rows as [|row later IH]; intros i w.
  - exists []. simpl. rewrite app_nil_r. split; [reflexivity | intros ev []].
  - rewrite createVoiceLines_cons.
    destruct (voiceLineDataOf E episodeId panelMap i row) as [data|e] eqn:Hd.
    + destruct (IH (Datatypes.S i)
        {| db := insertVoiceLine (db w) data;
           trace := (trace w ++ [EvVoiceLineCreate data])%list |}) as (suffix & Hs & Hin).
      exists (EvVoiceLineCreate data :: suffix). split.
      * destruct (createVoiceLines E episodeId panelMap (Datatypes.S i) later _)
          as [[created|e] w']; simpl in *; rewrite Hs, <- app_assoc; reflexivity.
      * intros ev [<-|Hev].
        -- exists data, 0%nat, row. rewrite Nat.add_0_r. auto.
        -- destruct (Hin ev Hev) as (data' & k & row' & -> & Hk & Hrow').
           exists data', (Datatypes.S k), row'. split; [reflexivity|]. split; [exact Hk|].
           replace (i + Datatypes.S k)%nat with (Datatypes.S i + k)%nat by lia. exact Hrow'.
    + exists []. simpl. rewrite app_nil_r. split; [reflexivity | intros ev []].
Qed.

(** The calls of the transaction: it begins, deletes the voice lines of
    the episode, inserts validated data, and commits or rolls back. *)
Lemma voiceLineTransaction_inserts (E : Env) episodeId panelMap rows w :
  exists inserts,
    trace (voiceLineTransaction E episodeId panelMap rows w).2
    = (trace w ++ EvTransactionBegin 15000 :: EvVoiceLineDeleteMany episodeId
         :: inserts
         ++ [match (voiceLineTransaction E episodeId panelMap rows w).1 with
             | Ok _ => EvTransactionCommit
             | Throw _ => EvTransactionRollback
             end])%list
    /\ forall ev, In ev inserts ->
         exists data k row,
           ev = EvVoiceLineCreate data
           /\ rows !! k = Some row
           /\ voiceLineDataOf E episodeId panelMap k row = Ok data.
Proof.
  rewrite voiceLineTransaction_unfold.
  destruct (createVoiceLines_inserts E episodeId panelMap rows 0
    {| db := deleteVoiceLines episodeId (db w);
       trace := (trace w ++ [EvTransactionBegin 15000;
                             EvVoiceLineDeleteMany episodeId])%list |})
    as (inserts & Hs & Hin).
  exists inserts. split; [|exact Hin].
  destruct (createVoiceLines E episodeId panelMap 0 rows _) as [[created|e] w'];
    simpl in *; rewrite Hs, <- !app_assoc; reflexivity.
Qed.

(** After a transaction that returns, the voice lines of the episode are
    the rows of the output, each with the data that its validation gave. *)
Lemma voiceLineTransaction_stored (E : Env) episodeId panelMap rows w ids :
  (voiceLineTransaction E episodeId panelMap rows w).1 = Ok ids ->
  let stored :=
    voiceLinesOf episodeId (db (voiceLineTransaction E episodeId panelMap rows w).2) in
  List.length stored = List.length rows
  /\ forall k row,
       rows !! k = Some row ->
       exists line,
         stored !! k = Some line
         /\ voiceLineDataOf E episodeId panelMap k row = Ok (vl_data line).
Proof.
  intros Hok stored.
  pose proof (voiceLineTransaction_eval E episodeId panelMap rows w) as H.
  destruct (voiceLineDataList E episodeId panelMap 0 rows) as [datas|e] eqn:Hd.
  2:{ destruct H as [H _]. rewrite H in Hok. discriminate. }
  destruct (voiceLineDataList_ok E _ _ _ _ _ Hd) as [Hlen Hall].
  destruct H as (ids1 & _ & _ & Hdb).
  assert (Hof : map vl_data stored = datas).
  { unfold stored. rewrite Hdb, (voiceLinesOf_foldl_insert _ _ _ Hall), voiceLinesOf_delete.
    reflexivity. }
  split.
  - rewrite <- (length_map vl_data), Hof. exact Hlen.
  - intros k row Hk.
    destruct (voiceLineDataList_lookup E _ _ _ _ _ Hd k row Hk) as (data & Hdk & Hrow).
    rewrite <- Hof in Hdk. destruct (map_lookup_Some _ _ _ _ Hdk) as (line & Hline & <-).
    exists line. auto.
Qed.

(** ** Validation of one voice-line row *)

Section Rows.

Context (E : Env).

Lemma str_empty_true s : str_empty s = true <-> s = "".
Proof. unfold str_empty. apply bool_decide_eq_true. Qed.

Lemma str_empty_false s : str_empty s = false <-> s <> "".
Proof. unfold str_empty. apply bool_decide_eq_false. Qed.

Lemma resolveMatchedPanel_unresolved panelMap i row :
  unresolvedMatchedPanel E panelMap row = true ->
  exists e, resolveMatchedPanel E panelMap i row = Throw e.
Proof.
  unfold unresolvedMatchedPanel, resolveMatchedPanel.
  destruct (asJsonRecord E (field row "matchedPanel")) as [mp|]; [|discriminate].
  destruct (field mp "storyboardId") as [| | | |sid| |] eqn:Hsid; eauto.
  destruct (toPositiveInt E (field mp "panelIndex")) as [idx|] eqn:Hidx; eauto.
  intros Hkey. apply bool_decide_eq_true in Hkey. rewrite Hkey.
  destruct (str_empty (trim sid)); eauto.
Qed.

Lemma voiceLineDataOf_unresolved episodeId panelMap i row :
  unresolvedMatchedPanel E panelMap row = true ->
  exists e, voiceLineDataOf E episodeId panelMap i row = Throw e.
Proof.
  intros H. destruct (resolveMatchedPanel_unresolved panelMap i row H) as [e He].
  unfold voiceLineDataOf. rewrite He. simpl. eauto.
Qed.

Lemma voiceLineDataOf_fields episodeId panelMap i row data :
  voiceLineDataOf E episodeId panelMap i row = Ok data ->
  exists x y speaker content,
    field row "emotionStrength" = JNum (Fin x)
    /\ field row "lineIndex" = JNum (Fin y)
    /\ field row "speaker" = JStr speaker
    /\ field row "content" = JStr content
    /\ vl_emotionStrength data = num_min (num_of_Z 1) (num_max num_0_1 (Fin x))
    /\ vl_lineIndex data = Qfloor y /\ (1 <= Qfloor y)%Z
    /\ vl_speaker data = trim speaker /\ trim speaker <> ""
    /\ vl_content data = content /\ trim content <> "".
Proof.
  unfold voiceLineDataOf. unfold mbind, outcome_bind.
  destruct (resolveMatchedPanel E panelMap i row) as [[[pid sid] idx]|]; [|discriminate].
  destruct (field row "emotionStrength") as [| | |[| |x]| | |]; try discriminate.
  destruct (field row "lineIndex") as [| | |[| |y]| | |]; try discriminate.
  destruct (Qfloor y <=? 0)%Z eqn:Hy; [discriminate|].
  destruct (field row "speaker") as [| | | |speaker| |]; try discriminate.
  destruct (str_empty (trim speaker)) eqn:Hs; [discriminate|].
  destruct (field row "content") as [| | | |content| |]; try discriminate.
  destruct (str_empty (trim content)) eqn:Hc; [discriminate|].
  intros H. apply Ok_inj in H. subst data.
  exists x, y, speaker, content.
  cbn [vl_emotionStrength vl_lineIndex vl_speaker vl_content].
  apply str_empty_false in Hs, Hc. apply Z.leb_gt in Hy.
  repeat split; auto. lia.
Qed.

Lemma voiceLineDataOf_malformed episodeId panelMap i row :
  malformedRow row = true ->
  exists e, voiceLineDataOf E episodeId panelMap i row = Throw e.
Proof.
  intros Hbad.
  destruct (voiceLineDataOf E episodeId panelMap i row) as [data|e] eqn:Hd; [|eauto].
  exfalso.
  destruct (voiceLineDataOf_fields _ _ _ _ _ Hd)
    as (x & y & speaker & content & Hx & Hy & Hs & Hc & _ & _ & Hy1 & _ & Hs1 & _ & Hc1).
  unfold malformedRow in Hbad. rewrite Hx, Hy, Hs, Hc in Hbad. cbn in Hbad.
  apply str_empty_false in Hs1, Hc1. rewrite Hs1, Hc1 in Hbad.
  rewrite !orb_false_r in Hbad. apply Z.ltb_lt in Hbad. lia.
Qed.

(** A row that cannot be persisted makes the whole transaction throw and
    leaves the database as it was. *)
Lemma voiceLineTransaction_aborts episodeId panelMap rows row w :
  In row rows ->
  (forall j, exists e, voiceLineDataOf E episodeId panelMap j row = Throw e) ->
  exists e,
    (voiceLineTransaction E episodeId panelMap rows w).1 = Throw e
    /\ db (voiceLineTransaction E episodeId panelMap rows w).2 = db w.
Proof.
  intros Hin Hbad.
  destruct (voiceLineDataList_throw E episodeId panelMap rows 0 row Hin Hbad) as [e He].
  pose proof (voiceLineTransaction_eval E episodeId panelMap rows w) as H.
  rewrite He in H. eauto.
Qed.

Lemma persistVoiceLines_unfold episodeId persisted rows w :
  persistVoiceLines E episodeId persisted rows w =
  match taskTerminated E (trace w) with
  | Some message =>
      (Throw (TaskTerminatedError message),
       {| db := db w;
          trace := (trace w ++ [EvAssertTaskActive "script_to_storyboard_voice_persist" false])%list |})
  | None =>
      voiceLineTransaction E episodeId (panelIdByStoryboardPanel persisted) rows
        {| db := db w;
           trace := (trace w ++ [EvAssertTaskActive "script_to_storyboard_voice_persist" true])%list |}
  end.
Proof.
  unfold persistVoiceLines, assertTaskActive. unfold_m. cbn [db trace].
  destruct (taskTerminated E (trace w)); reflexivity.
Qed.

Lemma persistVoiceLines_aborts episodeId persisted rows row w :
  In row rows ->
  (forall j, exists e,
      voiceLineDataOf E episodeId (panelIdByStoryboardPanel persisted) j row = Throw e) ->
  exists e,
    (persistVoiceLines E episodeId persisted rows w).1 = Throw e
    /\ db (persistVoiceLines E episodeId persisted rows w).2 = db w.
Proof.
  intros Hin Hbad. rewrite persistVoiceLines_unfold.
  destruct (taskTerminated E (trace w)) as [message|]; [simpl; eauto|].
  destruct (voiceLineTransaction_aborts episodeId (panelIdByStoryboardPanel persisted)
              rows row
              {| db := db w;
                 trace := (trace w ++ [EvAssertTaskActive "script_to_storyboard_voice_persist" true])%list |}
              Hin Hbad) as (e & Hr & Hdb).
  exists e. split; [exact Hr | exact Hdb].
Qed.

End Rows.

(** ** Model resolution and the preparation phases *)

Lemma str_or_empty a b : str_or a b = "" <-> a = "" /\ b = "".
Proof.
  unfold str_or. destruct (str_empty a) eqn:Ha.
  - apply str_empty_true in Ha. subst. tauto.
  - apply str_empty_false in Ha. tauto.
Qed.

Lemma resolveAnalysisModel_spec inputModel analysisModel :
  (inputModel = "" /\ nullable_or_empty analysisModel = ""
   /\ resolveAnalysisModel inputModel analysisModel
      = Throw (Error "analysisModel is not configured"))
  \/ (exists model,
        resolveAnalysisModel inputModel analysisModel = Ok model
        /\ model = str_or inputModel (nullable_or_empty analysisModel)
        /\ model <> ""
        /\ ~ (inputModel = "" /\ nullable_or_empty analysisModel = "")).
Proof.
  unfold resolveAnalysisModel.
  set (model := str_or (str_or inputModel (nullable_or_empty analysisModel)) "").
  assert (Hm : model = str_or inputModel (nullable_or_empty analysisModel)).
  { unfold model. unfold str_or at 1.
    destruct (str_empty (str_or inputModel (nullable_or_empty analysisModel))) eqn:H;
      [|reflexivity].
    apply str_empty_true in H. congruence. }
  destruct (str_empty model) eqn:He.
  - left. apply str_empty_true in He. rewrite Hm in He.
    apply str_or_empty in He. tauto.
  - right. apply str_empty_false in He. exists model.
    repeat split; auto. intros Hc. apply He. rewrite Hm. apply str_or_empty. exact Hc.
Qed.

(** Case analysis on what a phase evaluates. *)
Ltac eval_case :=
  match goal with
  | |- context [if ?c then _ else _] => destruct c eqn:?
  | |- context [match ?x with Some _ => _ | None => _ end] => destruct x eqn:?
  | |- context [match ?x with Ok _ => _ | Throw _ => _ end] => destruct x eqn:?
  | |- context [let (_, _) := ?x in _] => destruct x eqn:?
  end.

Ltac eval_cases := repeat (eval_case; cbn [db trace fst snd]).

Section Preparation.

Context (E : Env).

Ltac unfold_prepare :=
  unfold storyToScript_prepare, scriptToStoryboard_prepare, findProject,
    findNovelPromotionProject, findEpisode, findEpisodeWithClips,
    getProjectModelConfig, resolveProjectModelCapabilityGenerationOptions;
  unfold_m; cbn [db trace fst snd].

(** The preparation phases only read the database. *)
Lemma storyToScript_prepare_db job w : db (storyToScript_prepare E job w).2 = db w.
Proof. unfold_prepare. eval_cases; reflexivity. Qed.

Lemma scriptToStoryboard_prepare_db job w : db (scriptToStoryboard_prepare E job w).2 = db w.
Proof. unfold_prepare. eval_cases; reflexivity. Qed.

Lemma storyToScript_prepare_not_configured job w :
  (storyToScript_prepare E job w).1 = Throw (Error "analysisModel is not configured")
  <-> (exists project novelData episode,
         storyToScript_loaded E job (db w) project novelData episode)
      /\ storyToScript_inputModel E job = ""
      /\ nullable_or_empty (analysisModelOf E (db w) (job_projectId job) (job_userId job)) = "".
Proof.
  split.
  - unfold_prepare.
    destruct (str_empty (storyToScript_episodeId E job)) eqn:Hid; [discriminate|].
    destruct (List.find _ (projects (db w))) as [project|] eqn:Hp; [|discriminate].
    destruct (bool_decide (project_mode project = "novel-promotion")) eqn:Hmode;
      cbn [negb]; [|discriminate].
    cbn [db trace].
    destruct (List.find _ (novelPromotionProjects (db w))) as [novelData|] eqn:Hn;
      [|discriminate].
    cbn [db trace].
    destruct (List.find _ (episodes (db w))) as [episode|] eqn:He; [|discriminate].
    destruct (bool_decide (novelPromotionProjectId episode = novel_id novelData)) eqn:Hown;
      cbn [negb]; [|discriminate].
    cbn [db trace].
    destruct (resolveAnalysisModel_spec (storyToScript_inputModel E job)
                (analysisModelOf E (db w) (job_projectId job) (job_userId job)))
      as [(Hi & Ha & Hr)|(model & Hr & _)]; rewrite Hr.
    + intros _. split; [|auto].
      exists project, novelData, episode. unfold storyToScript_loaded.
      apply str_empty_false in Hid.
      apply bool_decide_eq_true in Hmode, Hown. auto 10.
    + cbn [db trace].
      destruct (analyzedContent _ _) as [content|e] eqn:Hc; cbn [fst]; [discriminate|].
      unfold analyzedContent in Hc. destruct (str_empty _) in Hc; [|discriminate].
      injection Hc as <-. discriminate.
  - intros ((project & novelData & episode & Hid & Hp & Hmode & Hn & He & Hown) & Hi & Ha).
    unfold_prepare.
    apply str_empty_false in Hid. rewrite Hid, Hp.
    rewrite (bool_decide_true _ Hmode). cbn [negb db trace].
    rewrite Hn. cbn [db trace]. rewrite He.
    rewrite (bool_decide_true _ Hown). cbn [negb db trace].
    destruct (resolveAnalysisModel_spec (storyToScript_inputModel E job)
                (analysisModelOf E (db w) (job_projectId job) (job_userId job)))
      as [(_ & _ & Hr)|(model & _ & _ & _ & Hc)]; [rewrite Hr; reflexivity|].
    exfalso. apply Hc. auto.
Qed.

Lemma scriptToStoryboard_prepare_not_configured job w :
  (scriptToStoryboard_prepare E job w).1 = Throw (Error "analysisModel is not configured")
  <-> (exists project novelData episode,
         scriptToStoryboard_loaded job (db w) project novelData episode)
      /\ scriptToStoryboard_inputModel job = ""
      /\ nullable_or_empty (analysisModelOf E (db w) (job_projectId job) (job_userId job)) = "".
Proof.
  split.
  - unfold_prepare.
    destruct (str_empty (scriptToStoryboard_episodeId job)) eqn:Hid; [discriminate|].
    destruct (List.find _ (projects (db w))) as [project|] eqn:Hp; [|discriminate].
    destruct (bool_decide (project_mode project = "novel-promotion")) eqn:Hmode;
      cbn [negb]; [|discriminate].
    cbn [db trace].
    destruct (List.find _ (novelPromotionProjects (db w))) as [novelData|] eqn:Hn;
      [|discriminate].
    cbn [db trace].
    destruct (List.find _ (episodes (db w))) as [episode|] eqn:He; [|discriminate].
    destruct (bool_decide (novelPromotionProjectId episode = novel_id novelData)) eqn:Hown;
      cbn [negb]; [|discriminate].
    destruct (List.filter _ (clips (db w))) as [|clip episodeClips] eqn:Hclips;
      cbn [List.length Nat.eqb]; [discriminate|].
    cbn [db trace].
    destruct (resolveAnalysisModel_spec (scriptToStoryboard_inputModel job)
                (analysisModelOf E (db w) (job_projectId job) (job_userId job)))
      as [(Hi & Ha & Hr)|(model & Hr & _)]; rewrite Hr; [|discriminate].
    intros _. split; [|auto].
    exists project, novelData, episode. unfold scriptToStoryboard_loaded.
    apply str_empty_false in Hid.
    apply bool_decide_eq_true in Hmode, Hown. rewrite Hclips. auto 10.
  - intros ((project & novelData & episode & Hid & Hp & Hmode & Hn & He & Hown & Hclips)
            & Hi & Ha).
    unfold_prepare.
    apply str_empty_false in Hid. rewrite Hid, Hp.
    rewrite (bool_decide_true _ Hmode). cbn [negb db trace].
    rewrite Hn. cbn [db trace]. rewrite He.
    rewrite (bool_decide_true _ Hown). cbn [negb].
    destruct (List.filter _ (clips (db w))) as [|clip episodeClips]; [congruence|].
    cbn [List.length Nat.eqb db trace].
    destruct (resolveAnalysisModel_spec (scriptToStoryboard_inputModel job)
                (analysisModelOf E (db w) (job_projectId job) (job_userId job)))
      as [(_ & _ & Hr)|(model & _ & _ & _ & Hc)]; [rewrite Hr; reflexivity|].
    exfalso. apply Hc. auto.
Qed.

(** What a successful preparation has established. *)
Lemma storyToScript_prepare_ok job w p :
  (storyToScript_prepare E job w).1 = Ok p ->
  exists episode,
    (exists project novelData, storyToScript_loaded E job (db w) project novelData episode)
    /\ resolveAnalysisModel (storyToScript_inputModel E job)
         (analysisModelOf E (db w) (job_projectId job) (job_userId job))
       = Ok (ctx_model (p_step p))
    /\ analyzedContent (asString E (prop (payloadOf job) "content")) (novelText episode)
       = Ok (p_content p)
    /\ p_episodeId p = storyToScript_episodeId E job
    /\ In (EvGetProjectModelConfig (job_projectId job) (job_userId job))
          (trace (storyToScript_prepare E job w).2).
Proof.
  unfold_prepare.
  destruct (str_empty (storyToScript_episodeId E job)) eqn:Hid; [discriminate|].
  destruct (List.find _ (projects (db w))) as [project|] eqn:Hp; [|discriminate].
  destruct (bool_decide (project_mode project = "novel-promotion")) eqn:Hmode;
    cbn [negb]; [|discriminate].
  cbn [db trace].
  destruct (List.find _ (novelPromotionProjects (db w))) as [novelData|] eqn:Hn;
    [|discriminate].
  cbn [db trace].
  destruct (List.find _ (episodes (db w))) as [episode|] eqn:He; [|discriminate].
  destruct (bool_decide (novelPromotionProjectId episode = novel_id novelData)) eqn:Hown;
    cbn [negb]; [|discriminate].
  cbn [db trace].
  destruct (resolveAnalysisModel _ _) as [model|e] eqn:Hr; [|discriminate].
  cbn [db trace].
  destruct (analyzedContent _ _) as [content|e] eqn:Hc; [|discriminate].
  cbn [fst snd trace]. intros [= <-]. cbn.
  exists episode. repeat split; auto.
  - exists project, novelData. unfold storyToScript_loaded.
    apply str_empty_false in Hid. apply bool_decide_eq_true in Hmode, Hown. auto 10.
  - rewrite !in_app_iff. simpl. auto.
Qed.

Lemma scriptToStoryboard_prepare_ok job w p :
  (scriptToStoryboard_prepare E job w).1 = Ok p ->
  (exists project novelData episode,
      scriptToStoryboard_loaded job (db w) project novelData episode)
  /\ resolveAnalysisModel (scriptToStoryboard_inputModel job)
       (analysisModelOf E (db w) (job_projectId job) (job_userId job))
     = Ok (ctx_model (q_step p))
  /\ q_episodeId p = scriptToStoryboard_episodeId job
  /\ In (EvGetProjectModelConfig (job_projectId job) (job_userId job))
        (trace (scriptToStoryboard_prepare E job w).2).
Proof.
  unfold_prepare.
  destruct (str_empty (scriptToStoryboard_episodeId job)) eqn:Hid; [discriminate|].
  destruct (List.find _ (projects (db w))) as [project|] eqn:Hp; [|discriminate].
  destruct (bool_decide (project_mode project = "novel-promotion")) eqn:Hmode;
    cbn [negb]; [|discriminate].
  cbn [db trace].
  destruct (List.find _ (novelPromotionProjects (db w))) as [novelData|] eqn:Hn;
    [|discriminate].
  cbn [db trace].
  destruct (List.find _ (episodes (db w))) as [episode|] eqn:He; [|discriminate].
  destruct (bool_decide (novelPromotionProjectId episode = novel_id novelData)) eqn:Hown;
    cbn [negb]; [|discriminate].
  destruct (List.filter _ (clips (db w))) as [|clip episodeClips] eqn:Hclips;
    cbn [List.length Nat.eqb]; [discriminate|].
  cbn [db trace].
  destruct (resolveAnalysisModel _ _) as [model|e] eqn:Hr; [|discriminate].
  cbn [fst snd db trace]. intros [= <-]. cbn.
  repeat split; auto.
  - exists project, novelData, episode. unfold scriptToStoryboard_loaded.
    apply str_empty_false in Hid. apply bool_decide_eq_true in Hmode, Hown.
    rewrite Hclips. auto 10.
  - rewrite !in_app_iff. simpl. auto.
Qed.

End Preparation.

(** ** Strings: slices and substrings *)

Lemma append_assoc (a b c : string) : (a +:+ b) +:+ c = a +:+ (b +:+ c).
Proof.
  induction a as [|x a IH]; [reflexivity|].
  change (String x ((a +:+ b) +:+ c) = String x (a +:+ (b +:+ c))).
  f_equal. exact IH.
Qed.

Lemma append_nil_r (a : string) : a +:+ "" = a.
Proof.
  induction a as [|x a IH]; [reflexivity|].
  change (String x (a +:+ "") = String x a). f_equal. exact IH.
Qed.

Lemma str_take_prefix (n : nat) (s : string) :
  exists rest, s = str_take n s +:+ rest
               /\ str_len (str_take n s) = Nat.min n (str_len s).
Proof.
  revert n. induction s as [|c s IH]; intros n.
  - exists "". destruct n; simpl; auto.
  - destruct n as [|n]; simpl.
    + exists (String c s). auto.
    + destruct (IH n) as (rest & Hs & Hlen). exists rest. split.
      * change (String c s = String c (str_take n s +:+ rest)).
        f_equal. exact Hs.
      * rewrite Hlen. reflexivity.
Qed.

Lemma slice0_prefix (n : Z) (s : string) :
  (0 <= n)%Z ->
  exists rest, s = slice0 n s +:+ rest
               /\ str_length (slice0 n s) = Z.min n (str_length s).
Proof.
  intros Hn. unfold slice0, str_length.
  destruct (str_take_prefix (Z.to_nat n) s) as (rest & Hs & Hlen).
  exists rest. split; [exact Hs|]. rewrite Hlen. lia.
Qed.

Lemma contains_append_l (a t s : string) : contains t s -> contains (a +:+ t) s.
Proof.
  intros (pre & post & ->). exists (a +:+ pre), post. rewrite append_assoc. reflexivity.
Qed.

Lemma contains_append_r (t b s : string) : contains t s -> contains (t +:+ b) s.
Proof.
  intros (pre & post & ->). exists pre, (post +:+ b).
  rewrite !append_assoc. reflexivity.
Qed.

Lemma contains_refl (s : string) : contains s s.
Proof. exists "", "". simpl. rewrite append_nil_r. reflexivity. Qed.

(** ** The analyzed content *)

Lemma analyzedContent_spec contentRaw episodeNovelText :
  let mergedContent := str_or (trim contentRaw) (nullable_or_empty episodeNovelText) in
  (trim mergedContent = ""
   /\ analyzedContent contentRaw episodeNovelText = Throw (Error "content is required"))
  \/ (trim mergedContent <> ""
      /\ exists content dropped,
           analyzedContent contentRaw episodeNovelText = Ok content
           /\ mergedContent = content +:+ dropped
           /\ str_length content = Z.min 30000 (str_length mergedContent)).
Proof.
  intros mergedContent. unfold analyzedContent. fold mergedContent.
  destruct (str_empty (trim mergedContent)) eqn:He.
  - left. apply str_empty_true in He. auto.
  - right. apply str_empty_false in He. split; [exact He|].
    destruct (30000 <? str_length mergedContent)%Z eqn:Hlen.
    + destruct (slice0_prefix 30000 mergedContent ltac:(lia)) as (rest & Hs & Hl).
      exists (slice0 30000 mergedContent), rest. auto.
    + apply Z.ltb_ge in Hlen. exists mergedContent, "".
      rewrite append_nil_r. repeat split; auto. lia.
Qed.

(** A content of ideographic spaces is empty once trimmed. *)
Example analyzedContent_ideographic_space :
  analyzedContent (ideographicSpace +:+ " " +:+ ideographicSpace) None
  = Throw (Error "content is required").
Proof. vm_compute. reflexivity. Qed.

(** The limit counts code units: of 30001 Chinese characters the first
    30000 are kept, and 30000 of them are passed on whole. *)
Example analyzedContent_cuts_code_units :
  str_length "无、" = 2
  /\ match analyzedContent (str_repeat (Z.to_nat 30001) "无") None with
     | Ok content => bool_decide (content = str_repeat (Z.to_nat 30000) "无")
     | Throw _ => false
     end = true
  /\ match analyzedContent (str_repeat (Z.to_nat 30000) "无") None with
     | Ok content => bool_decide (content = str_repeat (Z.to_nat 30000) "无")
     | Throw _ => false
     end = true.
Proof. split; [reflexivity|]. split; vm_compute; reflexivity. Qed.

(** ** The partial-failure message *)

Lemma partialFailureMessage_marker result :
  starts_with (partialFailureMessage result) "STORY_TO_SCRIPT_PARTIAL_FAILED".
Proof.
  unfold partialFailureMessage. eexists.
  change "STORY_TO_SCRIPT_PARTIAL_FAILED: " with ("STORY_TO_SCRIPT_PARTIAL_FAILED" +:+ ": ").
  rewrite append_assoc. reflexivity.
Qed.

(** ** Nothing is written before the persistence phase *)

Section NoWrite.

Context (E : Env).

Lemma nw_runStep L ctx meta prompt action n (Q : outcome StepOutput -> unit -> Prop) :
  (forall r, Q r tt) -> wp noWriteStep (runStep E L ctx meta prompt action n) Q tt.
Proof.
  intros H. unfold runStep, assertTaskActive, reportTaskProgress, logAIAnalysis,
    chatCompletion.
  wp_auto; apply H.
Qed.

Lemma nw_storyToScript_prepare job (Q : outcome StoryToScriptPrepared -> unit -> Prop) :
  (forall r, Q r tt) -> wp noWriteStep (storyToScript_prepare E job) Q tt.
Proof.
  intros H. unfold storyToScript_prepare, findProject, findNovelPromotionProject,
    findEpisode, getProjectModelConfig, resolveProjectModelCapabilityGenerationOptions.
  wp_auto; apply H.
Qed.

Lemma nw_storyToScript_orchestrate job p (Q : outcome StoryToScriptResult -> unit -> Prop) :
  (forall r, Q r tt) -> wp noWriteStep (storyToScript_orchestrate E job p) Q tt.
Proof.
  intros H. unfold storyToScript_orchestrate, reportTaskProgress.
  apply wp_mbind. eapply wp_emit; [reflexivity|].
  apply wp_try_finally.
  apply (wp_runOrch noWriteStep _ _ (fun _ => True)); [exact I | |].
  - intros meta prompt action n [] _. apply nw_runStep. auto.
  - intros r [] _. unfold flush. eapply wp_emit; [reflexivity|]. apply H.
Qed.

(** When the orchestration reports a failed screenplay, the handler throws
    the partial-failure error right after it: the world is the one the
    orchestration left, and no write has been made. *)
Lemma handleStoryToScriptTask_partial_failure job w p result w1 w2 :
  storyToScript_prepare E job w = (Ok p, w1) ->
  storyToScript_orchestrate E job p w1 = (Ok result, w2) ->
  (0 < screenplayFailedCount (s2s_summary result))%Z ->
  handleStoryToScriptTask E job w = (Throw (Error (partialFailureMessage result)), w2)
  /\ exists suffix, trace w2 = (trace w ++ suffix)%list /\ writes_nothing suffix.
Proof.
  intros Hp Ho Hf. split.
  - unfold handleStoryToScriptTask.
    change (_ ≫= _) with
      (bind (storyToScript_prepare E job)
            (fun p => bind (storyToScript_orchestrate E job p)
                           (fun result => storyToScript_persist E p result))).
    unfold bind. rewrite Hp, Ho. unfold storyToScript_persist.
    apply Z.ltb_lt in Hf. rewrite Hf. reflexivity.
  - destruct (nw_storyToScript_prepare job (fun _ _ => True) (fun _ => I) w)
      as (t1 & [] & Ht1 & Hs1 & _).
    destruct (nw_storyToScript_orchestrate job p (fun _ _ => True) (fun _ => I) w1)
      as (t2 & [] & Ht2 & Hs2 & _).
    rewrite Hp in Ht1. rewrite Ho in Ht2. simpl in Ht1, Ht2.
    exists (t1 ++ t2)%list. split.
    + rewrite Ht2, Ht1, app_assoc. reflexivity.
    + unfold writes_nothing. rewrite scan_app, Hs1, Hs2. eauto.
Qed.

(** ** The re-verification of the episode *)

Lemma storyToScript_persist_eval p result w :
  (0 <? screenplayFailedCount (s2s_summary result))%Z = false ->
  let tr1 := (trace w ++ [EvReportTaskProgress (num_of_Z 80) "story_to_script_persist"
                            "progress.stage.storyToScriptPersist" None])%list in
  taskTerminated E tr1 = None ->
  List.find (fun e => bool_decide (episode_id e = p_episodeId p)) (episodes (db w)) = None ->
  storyToScript_persist E p result w =
  (Throw (Error ("NOT_FOUND: Episode " +:+ p_episodeId p
                 +:+ " was deleted while the task was running")),
   {| db := db w;
      trace := (tr1 ++ [EvAssertTaskActive "story_to_script_persist" true;
                        EvFindUnique "novelPromotionEpisode" (p_episodeId p)])%list |}).
Proof.
  intros Hf tr1 Ha He.
  unfold storyToScript_persist. rewrite Hf.
  unfold reportTaskProgress, assertTaskActive, findEpisode.
  unfold_m. cbn [db trace]. fold tr1. rewrite Ha. cbn [db trace]. rewrite He.
  rewrite <- app_assoc. reflexivity.
Qed.

(** The script-to-storyboard handler goes from its checkpoint straight to
    the persistence helper, whatever has become of the episode. *)
Lemma scriptToStoryboard_persistPanels_eval p result w :
  let tr1 := (trace w ++ [EvReportTaskProgress (num_of_Z 80) "script_to_storyboard_persist"
                            "progress.stage.scriptToStoryboardPersist" None])%list in
  taskTerminated E tr1 = None ->
  scriptToStoryboard_persistPanels E p result w =
  ((persistStoryboardsAndPanels E (q_episodeId p) (clipPanels result) (db w)).1,
   {| db := (persistStoryboardsAndPanels E (q_episodeId p) (clipPanels result) (db w)).2;
      trace := (tr1 ++ [EvAssertTaskActive "script_to_storyboard_persist" true;
                        EvPersist "persistStoryboardsAndPanels"])%list |}).
Proof.
  intros tr1 Ha.
  unfold scriptToStoryboard_persistPanels, reportTaskProgress, assertTaskActive, persistWith.
  unfold_m. cbn [db trace]. fold tr1. rewrite Ha. cbn [db trace].
  destruct (persistStoryboardsAndPanels E _ _ _) as [[r|e] d']; cbn [db trace fst snd];
    rewrite <- app_assoc; reflexivity.
Qed.

End NoWrite.

(** * The claims *)

(** ** Voice-line persistence *)

(** C1. In the script-to-storyboard handler, when a voice line has a
    non-null [matchedPanel] whose composite key (storyboardId, panelIndex)
    does not resolve against the map built from the panels persisted in
    this run, the voice-line persistence throws and the transaction is
    rolled back as a whole: the database, and so the voice-line table, is
    as it was before, whatever rows came before the offending one. *)
Theorem C1_unresolved_panel_aborts (E : Env) (episodeId : string)
    (persisted : list PersistedStoryboard) (rows : list JsonRecord)
    (row : JsonRecord) (w : World) :
  In row rows ->
  unresolvedMatchedPanel E (panelIdByStoryboardPanel persisted) row = true ->
  let tx := voiceLineTransaction E episodeId (panelIdByStoryboardPanel persisted) rows w in
  let r := persistVoiceLines E episodeId persisted rows w in
  (exists e, tx.1 = Throw e) /\ db tx.2 = db w
  /\ (exists e, r.1 = Throw e) /\ db r.2 = db w
  /\ voiceLinesOf episodeId (db r.2) = voiceLinesOf episodeId (db w).
Proof.
  intros Hin Hbad tx r.
  assert (Hrow : forall j, exists e,
             voiceLineDataOf E episodeId (panelIdByStoryboardPanel persisted) j row = Throw e).
  { intros j. apply voiceLineDataOf_unresolved. exact Hbad. }
  destruct (voiceLineTransaction_aborts E episodeId _ rows row w Hin Hrow) as (e1 & H1 & H2).
  destruct (persistVoiceLines_aborts E episodeId persisted rows row w Hin Hrow)
    as (e2 & H3 & H4).
  subst tx r. repeat split; eauto. rewrite H4. reflexivity.
Qed.

Lemma C1_witness :
  In orphanRow [sampleRow; orphanRow]
  /\ unresolvedMatchedPanel sampleEnv (panelIdByStoryboardPanel samplePersisted) orphanRow
     = true
  /\ let tx := voiceLineTransaction sampleEnv "episode-1"
                 (panelIdByStoryboardPanel samplePersisted) [sampleRow; orphanRow]
                 sampleWorld in
     let r := persistVoiceLines sampleEnv "episode-1" samplePersisted
                [sampleRow; orphanRow] sampleWorld in
     (exists e, tx.1 = Throw e) /\ db tx.2 = db sampleWorld
     /\ (exists e, r.1 = Throw e) /\ db r.2 = db sampleWorld
     /\ voiceLinesOf "episode-1" (db r.2) = voiceLinesOf "episode-1" (db sampleWorld).
Proof.
  split; [right; left; reflexivity|].
  split; [vm_compute; reflexivity|].
  apply (C1_unresolved_panel_aborts sampleEnv "episode-1" samplePersisted
           [sampleRow; orphanRow] orphanRow sampleWorld).
  - right; left; reflexivity.
  - vm_compute; reflexivity.
Defined.

(** C4. The voice-line persistence is a full replacement inside one
    transaction opened with a timeout of 15000 ms: it first deletes the
    voice lines of the episode and then inserts the new set. Running it
    twice with the same output leaves, for that episode, the rows of one
    generation (the data of the second run, equal to that of the first and
    as many as there are rows in the output), and never touches the voice
    lines of the other episodes. *)
Theorem C4_voice_lines_full_replace (E : Env) (episodeId : string)
    (panelMap : gmap string string) (rows : list JsonRecord) (w : World)
    (ids : list N) :
  (voiceLineTransaction E episodeId panelMap rows w).1 = Ok ids ->
  let w1 := (voiceLineTransaction E episodeId panelMap rows w).2 in
  let second := voiceLineTransaction E episodeId panelMap rows w1 in
  let w2 := second.2 in
  (exists ids2, second.1 = Ok ids2 /\ List.length ids2 = List.length rows)
  /\ map vl_data (voiceLinesOf episodeId (db w2)) = map vl_data (voiceLinesOf episodeId (db w1))
  /\ List.length (voiceLinesOf episodeId (db w2)) = List.length rows
  /\ voiceLinesNotOf episodeId (db w2) = voiceLinesNotOf episodeId (db w)
  /\ (exists rest,
        trace w1 = (trace w ++ EvTransactionBegin 15000
                            :: EvVoiceLineDeleteMany episodeId :: rest)%list).
Proof.
  intros Hok w1 second w2.
  pose proof (voiceLineTransaction_eval E episodeId panelMap rows w) as H1.
  pose proof (voiceLineTransaction_eval E episodeId panelMap rows w1) as H2.
  destruct (voiceLineDataList E episodeId panelMap 0 rows) as [datas|e] eqn:Hd.
  2:{ destruct H1 as [H1 _]. rewrite H1 in Hok. discriminate. }
  destruct (voiceLineDataList_ok E _ _ _ _ _ Hd) as [Hlen Hall].
  destruct H1 as (ids1 & _ & _ & Hdb1). destruct H2 as (ids2 & Hr2 & Hlen2 & Hdb2).
  fold w1 in Hdb1. fold second in Hr2, Hdb2. fold w2 in Hdb2.
  assert (Hof : forall d,
             map vl_data (voiceLinesOf episodeId
                            (foldl insertVoiceLine (deleteVoiceLines episodeId d) datas))
             = datas).
  { intros d. rewrite (voiceLinesOf_foldl_insert _ _ _ Hall), voiceLinesOf_delete.
    reflexivity. }
  assert (Hnot : forall d,
             voiceLinesNotOf episodeId
               (foldl insertVoiceLine (deleteVoiceLines episodeId d) datas)
             = voiceLinesNotOf episodeId d).
  { intros d. rewrite (voiceLinesNotOf_foldl_insert _ _ _ Hall).
    apply voiceLinesNotOf_delete. }
  repeat split.
  - exists ids2. split; [exact Hr2 | congruence].
  - rewrite Hdb2, Hdb1, !Hof. reflexivity.
  - rewrite <- (length_map vl_data), Hdb2, Hof. exact Hlen.
  - rewrite Hdb2, Hnot, Hdb1, Hnot. reflexivity.
  - apply voiceLineTransaction_trace.
Qed.

Lemma C4_witness :
  (voiceLineTransaction sampleEnv "episode-1" (panelIdByStoryboardPanel samplePersisted)
     [sampleRow] sampleWorld).1 = Ok [0%N]
  /\ let w1 := (voiceLineTransaction sampleEnv "episode-1"
                  (panelIdByStoryboardPanel samplePersisted) [sampleRow] sampleWorld).2 in
     let second := voiceLineTransaction sampleEnv "episode-1"
                     (panelIdByStoryboardPanel samplePersisted) [sampleRow] w1 in
     let w2 := second.2 in
     (exists ids2, second.1 = Ok ids2 /\ List.length ids2 = List.length [sampleRow])
     /\ map vl_data (voiceLinesOf "episode-1" (db w2))
        = map vl_data (voiceLinesOf "episode-1" (db w1))
     /\ List.length (voiceLinesOf "episode-1" (db w2)) = List.length [sampleRow]
     /\ voiceLinesNotOf "episode-1" (db w2) = voiceLinesNotOf "episode-1" (db sampleWorld)
     /\ (exists rest,
           trace w1 = (trace sampleWorld ++ EvTransactionBegin 15000
                         :: EvVoiceLineDeleteMany "episode-1" :: rest)%list).
Proof.
  split; [vm_compute; reflexivity|].
  apply (C4_voice_lines_full_replace sampleEnv "episode-1"
           (panelIdByStoryboardPanel samplePersisted) [sampleRow] sampleWorld [0%N]).
  vm_compute; reflexivity.
Defined.

(** C7. The fields of a voice line are validated before its insert, and a
    malformed field aborts the transaction instead of being replaced by a
    default: a row whose [emotionStrength] is missing or not a finite
    number, whose [lineIndex] is missing, not a finite number or below 1,
    or whose [speaker] or [content] is missing or empty once trimmed makes
    the whole transaction throw and leaves the database as it was. The
    data that the validation gives for a row comes from the fields of the
    row ([emotionStrength] clamped to [0.1, 1], [lineIndex] rounded down,
    [speaker] trimmed), and nothing else is ever inserted: for every
    output, each insert of the transaction, also one that is rolled back
    afterwards, carries the data of a row of the output that is not
    malformed; when the transaction returns, the voice lines of the
    episode are the rows of the output, in order, each with the data of
    its validation; when it throws, the database is as it was. *)
Theorem C7_malformed_row_aborts (E : Env) (episodeId : string)
    (panelMap : gmap string string) (rows : list JsonRecord) (row : JsonRecord)
    (w : World) :
  In row rows ->
  malformedRow row = true ->
  let tx := voiceLineTransaction E episodeId panelMap rows w in
  (forall i, exists e, voiceLineDataOf E episodeId panelMap i row = Throw e)
  /\ (exists e, tx.1 = Throw e) /\ db tx.2 = db w
  /\ (forall i good data,
        voiceLineDataOf E episodeId panelMap i good = Ok data ->
        malformedRow good = false
        /\ exists x y speaker content,
             field good "emotionStrength" = JNum (Fin x)
             /\ field good "lineIndex" = JNum (Fin y)
             /\ field good "speaker" = JStr speaker
             /\ field good "content" = JStr content
             /\ vl_emotionStrength data = num_min (num_of_Z 1) (num_max num_0_1 (Fin x))
             /\ vl_lineIndex data = Qfloor y /\ (1 <= Qfloor y)%Z
             /\ vl_speaker data = trim speaker /\ trim speaker <> ""
             /\ vl_content data = content /\ trim content <> "")
  /\ (forall output w0,
        let run := voiceLineTransaction E episodeId panelMap output w0 in
        (exists inserts,
            trace run.2
            = (trace w0 ++ EvTransactionBegin 15000 :: EvVoiceLineDeleteMany episodeId
                 :: inserts
                 ++ [match run.1 with
                     | Ok _ => EvTransactionCommit
                     | Throw _ => EvTransactionRollback
                     end])%list
            /\ forall ev, In ev inserts ->
                 exists data k good,
                   ev = EvVoiceLineCreate data
                   /\ output !! k = Some good
                   /\ malformedRow good = false
                   /\ voiceLineDataOf E episodeId panelMap k good = Ok data)
        /\ match run.1 with
           | Ok _ =>
               let stored := voiceLinesOf episodeId (db run.2) in
               List.length stored = List.length output
               /\ forall k good,
                    output !! k = Some good ->
                    exists line,
                      stored !! k = Some line
                      /\ malformedRow good = false
                      /\ voiceLineDataOf E episodeId panelMap k good = Ok (vl_data line)
           | Throw _ => db run.2 = db w0
           end).
Proof.
  intros Hin Hbad tx.
  assert (Hrow : forall j, exists e, voiceLineDataOf E episodeId panelMap j row = Throw e).
  { intros j. apply voiceLineDataOf_malformed. exact Hbad. }
  assert (Hgood : forall i good data,
             voiceLineDataOf E episodeId panelMap i good = Ok data ->
             malformedRow good = false).
  { intros i good data Hd. destruct (malformedRow good) eqn:Hg; [|reflexivity].
    destruct (voiceLineDataOf_malformed E episodeId panelMap i good Hg) as [e' He'].
    congruence. }
  destruct (voiceLineTransaction_aborts E episodeId panelMap rows row w Hin Hrow)
    as (e & H1 & H2).
  subst tx. split; [exact Hrow|]. split; [eauto|]. split; [exact H2|]. split.
  - intros i good data Hd. split; [exact (Hgood _ _ _ Hd)|].
    eapply voiceLineDataOf_fields. exact Hd.
  - intros output w0 run. split.
    + destruct (voiceLineTransaction_inserts E episodeId panelMap output w0)
        as (inserts & Ht & Hins).
      exists inserts. split; [exact Ht|]. intros ev Hev.
      destruct (Hins ev Hev) as (data & k & good & -> & Hk & Hd).
      exists data, k, good. repeat split; auto. exact (Hgood _ _ _ Hd).
    + destruct (run.1) as [ids|e0] eqn:Hrun.
      * destruct (voiceLineTransaction_stored E episodeId panelMap output w0 ids Hrun)
          as [Hlen Hstored].
        split; [exact Hlen|]. intros k good Hk.
        destruct (Hstored k good Hk) as (line & Hline & Hd).
        exists line. repeat split; auto. exact (Hgood _ _ _ Hd).
      * pose proof (voiceLineTransaction_eval E episodeId panelMap output w0) as Hev.
        destruct (voiceLineDataList E episodeId panelMap 0 output).
        -- destruct Hev as (ids & Hok & _). unfold run in Hrun. congruence.
        -- exact (proj2 Hev).
Qed.

Lemma C7_witness :
  In incompleteRow [sampleRow; incompleteRow]
  /\ malformedRow incompleteRow = true
  /\ let tx := voiceLineTransaction sampleEnv "episode-1"
                 (panelIdByStoryboardPanel samplePersisted) [sampleRow; incompleteRow]
                 sampleWorld in
     (forall i, exists e, voiceLineDataOf sampleEnv "episode-1" (panelIdByStoryboardPanel samplePersisted) i incompleteRow = Throw e)
     /\ (exists e, tx.1 = Throw e) /\ db tx.2 = db sampleWorld
     /\ (forall i good data,
           voiceLineDataOf sampleEnv "episode-1" (panelIdByStoryboardPanel samplePersisted) i good = Ok data ->
           malformedRow good = false
           /\ exists x y speaker content,
                field good "emotionStrength" = JNum (Fin x)
                /\ field good "lineIndex" = JNum (Fin y)
                /\ field good "speaker" = JStr speaker
                /\ field good "content" = JStr content
                /\ vl_emotionStrength data = num_min (num_of_Z 1) (num_max num_0_1 (Fin x))
                /\ vl_lineIndex data = Qfloor y /\ (1 <= Qfloor y)%Z
                /\ vl_speaker data = trim speaker /\ trim speaker <> ""
                /\ vl_content data = content /\ trim content <> "")
     /\ (forall output w0,
           let run := voiceLineTransaction sampleEnv "episode-1" (panelIdByStoryboardPanel samplePersisted) output w0 in
           (exists inserts,
               trace run.2
               = (trace w0 ++ EvTransactionBegin 15000 :: EvVoiceLineDeleteMany "episode-1"
                    :: inserts
                    ++ [match run.1 with
                        | Ok _ => EvTransactionCommit
                        | Throw _ => EvTransactionRollback
                        end])%list
               /\ forall ev, In ev inserts ->
                    exists data k good,
                      ev = EvVoiceLineCreate data
                      /\ output !! k = Some good
                      /\ malformedRow good = false
                      /\ voiceLineDataOf sampleEnv "episode-1" (panelIdByStoryboardPanel samplePersisted) k good = Ok data)
           /\ match run.1 with
              | Ok _ =>
                  let stored := voiceLinesOf "episode-1" (db run.2) in
                  List.length stored = List.length output
                  /\ forall k good,
                       output !! k = Some good ->
                       exists line,
                         stored !! k = Some line
                         /\ malformedRow good = false
                         /\ voiceLineDataOf sampleEnv "episode-1" (panelIdByStoryboardPanel samplePersisted) k good = Ok (vl_data line)
              | Throw _ => db run.2 = db w0
              end).
Proof.
  split; [right; left; reflexivity|].
  split; [vm_compute; reflexivity|].
  apply (C7_malformed_row_aborts sampleEnv "episode-1"
           (panelIdByStoryboardPanel samplePersisted) [sampleRow; incompleteRow]
           incompleteRow sampleWorld).
  - right; left; reflexivity.
  - vm_compute; reflexivity.
Defined.

(** A speaker made of ideographic spaces is blank once trimmed: the row is
    malformed and the transaction throws. *)
Example blank_speaker_is_malformed :
  malformedRow [ ("lineIndex", JNum (Fin 1)); ("speaker", JStr (ideographicSpace +:+ ideographicSpace));
                 ("content", JStr "To the old town!");
                 ("emotionStrength", JNum (Fin (1 # 2))) ] = true.
Proof. vm_compute. reflexivity. Qed.

(** ** Partial failure *)

(** C2. When the orchestration of the story-to-script handler returns a
    summary with [screenplayFailedCount > 0], the handler throws, once the
    orchestration is over and before any write, one error whose message
    starts with STORY_TO_SCRIPT_PARTIAL_FAILED, gives the failed and total
    counts and previews at most the first 3 failed items as clipId:reason;
    with a single failed item the message contains its clip id. The world
    the handler leaves is the one the orchestration left. *)
Theorem C2_partial_failure (E : Env) (job : TaskJobData) (w : World)
    (p : StoryToScriptPrepared) (result : StoryToScriptResult) :
  (storyToScript_prepare E job w).1 = Ok p ->
  (storyToScript_orchestrate E job p (storyToScript_prepare E job w).2).1 = Ok result ->
  (0 < screenplayFailedCount (s2s_summary result))%Z ->
  let afterOrchestration :=
    (storyToScript_orchestrate E job p (storyToScript_prepare E job w).2).2 in
  let message := partialFailureMessage result in
  let failed := List.filter (fun item => negb (sr_success item)) (screenplayResults result) in
  let reason := fun item => str_or (nullable_or_empty (sr_error item)) "unknown error" in
  handleStoryToScriptTask E job w = (Throw (Error message), afterOrchestration)
  /\ (exists suffix,
        trace afterOrchestration = (trace w ++ suffix)%list /\ writes_nothing suffix)
  /\ starts_with message "STORY_TO_SCRIPT_PARTIAL_FAILED"
  /\ message = "STORY_TO_SCRIPT_PARTIAL_FAILED: "
               +:+ show (screenplayFailedCount (s2s_summary result)) +:+ "/"
               +:+ show (clipCount (s2s_summary result)) +:+ " screenplay steps failed. "
               +:+ join " | " (map (fun item => sr_clipId item +:+ ":" +:+ reason item)
                                   (take 3 failed))
  /\ (List.length (take 3 failed) <= 3)%nat
  /\ (forall item,
        screenplayResults result = [item] -> sr_success item = false ->
        contains message (sr_clipId item) /\ contains message (reason item)).
Proof.
  intros Hp Ho Hf afterOrchestration message failed reason.
  destruct (storyToScript_prepare E job w) as [r1 w1] eqn:E1. cbn [fst snd] in *. subst r1.
  destruct (storyToScript_orchestrate E job p w1) as [r2 w2] eqn:E2.
  cbn [fst snd] in *. subst r2.
  destruct (handleStoryToScriptTask_partial_failure E job w p result w1 w2 E1 E2 Hf)
    as [Hh Hw].
  split; [exact Hh|]. split; [exact Hw|].
  split; [apply partialFailureMessage_marker|].
  split; [reflexivity|].
  split; [rewrite length_take; lia|].
  intros item Hitems Hfailed.
  assert (Hm : message
               = "STORY_TO_SCRIPT_PARTIAL_FAILED: "
                 +:+ show (screenplayFailedCount (s2s_summary result)) +:+ "/"
                 +:+ show (clipCount (s2s_summary result)) +:+ " screenplay steps failed. "
                 +:+ (sr_clipId item +:+ ":" +:+ reason item)).
  { unfold message, partialFailureMessage. rewrite Hitems.
    cbn [List.filter]. rewrite Hfailed. reflexivity. }
  rewrite Hm. split.
  - do 5 apply contains_append_l. exists "", (":" +:+ reason item). reflexivity.
  - do 6 apply contains_append_l. apply contains_append_l, contains_refl.
Qed.

Lemma C2_witness :
  (storyToScript_prepare failingEnv sampleJob sampleWorld).1 = Ok failingPrepared
  /\ (storyToScript_orchestrate failingEnv sampleJob failingPrepared
        (storyToScript_prepare failingEnv sampleJob sampleWorld).2).1 = Ok failedStoryResult
  /\ (0 < screenplayFailedCount (s2s_summary failedStoryResult))%Z
  /\ let afterOrchestration :=
       (storyToScript_orchestrate failingEnv sampleJob failingPrepared
          (storyToScript_prepare failingEnv sampleJob sampleWorld).2).2 in
     let message := partialFailureMessage failedStoryResult in
     let failed := List.filter (fun item => negb (sr_success item))
                               (screenplayResults failedStoryResult) in
     let reason := fun item => str_or (nullable_or_empty (sr_error item)) "unknown error" in
     handleStoryToScriptTask failingEnv sampleJob sampleWorld
     = (Throw (Error message), afterOrchestration)
     /\ (exists suffix,
           trace afterOrchestration = (trace sampleWorld ++ suffix)%list
           /\ writes_nothing suffix)
     /\ starts_with message "STORY_TO_SCRIPT_PARTIAL_FAILED"
     /\ message = "STORY_TO_SCRIPT_PARTIAL_FAILED: "
                  +:+ show (screenplayFailedCount (s2s_summary failedStoryResult)) +:+ "/"
                  +:+ show (clipCount (s2s_summary failedStoryResult))
                  +:+ " screenplay steps failed. "
                  +:+ join " | " (map (fun item => sr_clipId item +:+ ":" +:+ reason item)
                                      (take 3 failed))
     /\ (List.length (take 3 failed) <= 3)%nat
     /\ (forall item,
           screenplayResults failedStoryResult = [item] -> sr_success item = false ->
           contains message (sr_clipId item) /\ contains message (reason item)).
Proof.
  split; [vm_compute; reflexivity|].
  split; [vm_compute; reflexivity|].
  split; [reflexivity|].
  apply (C2_partial_failure failingEnv sampleJob sampleWorld failingPrepared
           failedStoryResult).
  - vm_compute; reflexivity.
  - vm_compute; reflexivity.
  - reflexivity.
Defined.

(** ** Retry of the voice analysis *)

(** C3. The voice-analysis step of the script-to-storyboard handler is
    attempted at most twice. When the first attempt succeeds its rows are
    the result; when it throws a [TaskTerminatedError] that error is thrown
    again at once and nothing is retried; when it throws anything else, the
    outcome is that of one second attempt, made from where the first one
    ended, thrown errors included (the cancellation as it is, another error
    as the last error). An attempt is one call of [runStep] under the
    metadata of the attempt, followed by the parsing of its text: it
    appends to the trace the failed checkpoint of the step when the job is
    terminated, and otherwise the checkpoint, the progress report, the
    prompt log and the completion call of the step, and the output log
    when the completion returns. The calls of the second attempt carry
    the step id voice_analyze_r2, in the checkpoint, in the progress
    report and in the options of the completion, with the step index and
    the step total of the first. *)
Theorem C3_voice_analysis_retry (E : Env) (c : StepContext) (base : StepMeta)
    (voicePrompt : string) (w : World) :
  analyzeVoiceLines E c base voicePrompt w
  = match voiceAttemptBody E c base voicePrompt 1 w with
    | (Ok rows, w1) => (Ok rows, w1)
    | (Throw e, w1) =>
        if isTaskTerminated e then (Throw e, w1)
        else voiceAttemptBody E c base voicePrompt 2 w1
    end
  /\ (forall voiceAttempt w0,
        voiceAttemptBody E c base voicePrompt voiceAttempt w0
        = match runStep E scriptToStoryboardLabels c (voiceAttemptMeta base voiceAttempt)
                  voicePrompt "voice_analyze" 2600 w0 with
          | (Ok voiceOutput, w1) => (parseVoiceLinesJson E (text voiceOutput), w1)
          | (Throw e, w1) => (Throw e, w1)
          end)
  /\ (forall voiceAttempt w0,
        let meta := voiceAttemptMeta base voiceAttempt in
        let called :=
          (trace w0 ++ stepEvents scriptToStoryboardLabels c meta voicePrompt
                         "voice_analyze")%list in
        trace (voiceAttemptBody E c base voicePrompt voiceAttempt w0).2
        = match taskTerminated E (trace w0) with
          | Some _ =>
              (trace w0
               ++ [EvAssertTaskActive ("script_to_storyboard_step:" +:+ stepId meta)
                     false])%list
          | None =>
              match completion E called with
              | Ok _ =>
                  (called
                   ++ [EvLogAIAnalysis "SCRIPT_TO_STORYBOARD_OUTPUT:voice_analyze"])%list
              | Throw _ => called
              end
          end)
  /\ stepEvents scriptToStoryboardLabels c (voiceAttemptMeta base 2) voicePrompt
       "voice_analyze"
     = [ EvAssertTaskActive "script_to_storyboard_step:voice_analyze_r2" true;
         EvReportTaskProgress (stepProgress (stepIndex base) (stepTotal base))
           "script_to_storyboard_step" "progress.stage.scriptToStoryboardStep"
           (Some {| report_stepId := "voice_analyze_r2";
                    report_stepAttempt := attemptOf base;
                    report_stepTitle := stepTitle base;
                    report_stepIndex := stepIndex base;
                    report_stepTotal := stepTotal base |});
         EvLogAIAnalysis "SCRIPT_TO_STORYBOARD_PROMPT:voice_analyze";
         EvChatCompletion (ctx_userId c) (ctx_model c) voicePrompt
           {| temperature := ctx_temperature c;
              opt_reasoning := ctx_reasoning c;
              reasoningEffort := ctx_reasoningEffort c;
              opt_projectId := ctx_projectId c;
              opt_action := "voice_analyze";
              streamStepId := "voice_analyze_r2";
              streamStepAttempt := attemptOf base;
              streamStepTitle := stepTitle base;
              streamStepIndex := stepIndex base;
              streamStepTotal := stepTotal base |} ]
  /\ (exists suffix,
        trace (analyzeVoiceLines E c base voicePrompt w).2 = (trace w ++ suffix)%list
        /\ (completions suffix <= 2)%nat)
  /\ voiceAttemptMeta base 1 = base
  /\ stepId (voiceAttemptMeta base 2) = "voice_analyze_r2"
  /\ stepIndex (voiceAttemptMeta base 2) = stepIndex base
  /\ stepTotal (voiceAttemptMeta base 2) = stepTotal base
  /\ (forall result, stepId (voiceStepMeta result) = "voice_analyze").
Proof.
  split; [apply analyzeVoiceLines_eval|].
  split; [intros; apply voiceAttemptBody_eval|].
  split; [intros; apply voiceAttemptBody_trace|].
  split; [reflexivity|].
  split; [|repeat split].
  rewrite analyzeVoiceLines_eval.
  destruct (voiceAttemptBody_completions E c base voicePrompt 1 w) as (s1 & Ht1 & Hc1).
  destruct (voiceAttemptBody E c base voicePrompt 1 w) as [[rows|e] w1]; cbn [snd] in *.
  - exists s1. split; [exact Ht1 | lia].
  - destruct (isTaskTerminated e); cbn [snd].
    + exists s1. split; [exact Ht1 | lia].
    + destruct (voiceAttemptBody_completions E c base voicePrompt 2 w1) as (s2 & Ht2 & Hc2).
      exists (s1 ++ s2)%list. split.
      * rewrite Ht2, Ht1, app_assoc. reflexivity.
      * unfold completions in *. rewrite List.filter_app, length_app. lia.
Qed.

(** A run in which the first answer cannot be parsed: the analysis makes
    two completion calls, reports the step under voice_analyze and then
    under voice_analyze_r2, both times with the percentage of step 1 of 1,
    and returns the rows of the second answer. *)
Example voice_analysis_retry_run :
  let run := analyzeVoiceLines retryEnv sampleContext sampleVoiceMeta "voice-prompt"
               sampleWorld in
  run.1 = Ok [sampleRow]
  /\ reportedStepIds (trace run.2) = ["voice_analyze"; "voice_analyze_r2"]
  /\ reportedPercents (trace run.2) = [Fin 70; Fin 70]
  /\ completions (trace run.2) = 2%nat.
Proof. vm_compute. repeat split; reflexivity. Qed.

(** ** Resolution of the analysis model *)

(** C5. Both handlers take the analysis model from the trimmed
    [payload.model] when it is not empty, and otherwise from the
    [analysisModel] that [getProjectModelConfig] returns for
    (projectId, userId). A job that has passed the checks on its
    identifiers and rows fails with "analysisModel is not configured"
    exactly when both are empty; the error is never raised when the
    resolver returns a model. *)
Theorem C5_analysis_model_resolution (E : Env) (job : TaskJobData) (w : World) :
  let resolved := analysisModelOf E (db w) (job_projectId job) (job_userId job) in
  (forall inputModel analysisModel,
      (resolveAnalysisModel inputModel analysisModel
       = Throw (Error "analysisModel is not configured")
       <-> inputModel = "" /\ nullable_or_empty analysisModel = "")
      /\ (forall model,
            resolveAnalysisModel inputModel analysisModel = Ok model ->
            model <> ""
            /\ model = (if str_empty inputModel then nullable_or_empty analysisModel
                        else inputModel)))
  /\ ((storyToScript_prepare E job w).1 = Throw (Error "analysisModel is not configured")
      <-> (exists project novelData episode,
             storyToScript_loaded E job (db w) project novelData episode)
          /\ storyToScript_inputModel E job = ""
          /\ nullable_or_empty resolved = "")
  /\ ((scriptToStoryboard_prepare E job w).1
      = Throw (Error "analysisModel is not configured")
      <-> (exists project novelData episode,
             scriptToStoryboard_loaded job (db w) project novelData episode)
          /\ scriptToStoryboard_inputModel job = ""
          /\ nullable_or_empty resolved = "")
  /\ (forall p,
        (storyToScript_prepare E job w).1 = Ok p ->
        resolveAnalysisModel (storyToScript_inputModel E job) resolved
        = Ok (ctx_model (p_step p))
        /\ In (EvGetProjectModelConfig (job_projectId job) (job_userId job))
              (trace (storyToScript_prepare E job w).2))
  /\ (forall p,
        (scriptToStoryboard_prepare E job w).1 = Ok p ->
        resolveAnalysisModel (scriptToStoryboard_inputModel job) resolved
        = Ok (ctx_model (q_step p))
        /\ In (EvGetProjectModelConfig (job_projectId job) (job_userId job))
              (trace (scriptToStoryboard_prepare E job w).2)).
Proof.
  intros resolved. split; [|split; [|split; [|split]]].
  - intros inputModel analysisModel.
    destruct (resolveAnalysisModel_spec inputModel analysisModel)
      as [(Hi & Ha & Hr)|(model & Hr & Hm & Hne & Hnot)]; rewrite Hr.
    + split; [tauto|]. intros model [=].
    + split; [split; [discriminate | tauto]|].
      intros model' [= <-]. split; [exact Hne|].
      rewrite Hm. reflexivity.
  - apply storyToScript_prepare_not_configured.
  - apply scriptToStoryboard_prepare_not_configured.
  - intros p Hp. destruct (storyToScript_prepare_ok E job w p Hp) as (ep & _ & Hr & _ & _ & Hin).
    auto.
  - intros p Hp. destruct (scriptToStoryboard_prepare_ok E job w p Hp) as (_ & Hr & _ & Hin).
    auto.
Qed.

(** ** Re-verification of the episode *)

(** C6. The episode is deleted by someone else while the one
    orchestration step of [deletingEnv] waits for its completion. The
    story-to-script handler then fails with the NOT_FOUND error and writes
    nothing; the script-to-storyboard handler does not look the episode up
    again: it returns normally and leaves a voice line of the episode that
    no longer exists. *)
Theorem C6_episode_deleted_mid_run :
  let story := handleStoryToScriptTask deletingEnv sampleJob sampleWorld in
  let board := handleScriptToStoryboardTask deletingEnv sampleJob sampleWorld in
  story.1 = Throw (Error "NOT_FOUND: Episode episode-1 was deleted while the task was running")
  /\ List.filter is_write (trace story.2) = []
  /\ board.1 = Ok {| out_episodeId := "episode-1"; out_storyboardCount := 1;
                     out_panelCount := 1; out_voiceLineCount := 1 |}
  /\ episodes (db board.2) = []
  /\ List.length (voiceLinesOf "episode-1" (db board.2)) = 1%nat
  /\ List.length (List.filter is_episode_lookup (trace story.2)) = 2%nat
  /\ List.length (List.filter is_episode_lookup (trace board.2)) = 1%nat.
Proof. vm_compute. repeat split; reflexivity. Qed.

(** ** Liveness checkpoints *)

Lemma storyToScript_persist_cancelled (E : Env) p result w message :
  (0 <? screenplayFailedCount (s2s_summary result))%Z = false ->
  let tr1 := (trace w ++ [EvReportTaskProgress (num_of_Z 80) "story_to_script_persist"
                            "progress.stage.storyToScriptPersist" None])%list in
  taskTerminated E tr1 = Some message ->
  storyToScript_persist E p result w =
  (Throw (TaskTerminatedError message),
   {| db := db w;
      trace := (tr1 ++ [EvAssertTaskActive "story_to_script_persist" false])%list |}).
Proof.
  intros Hf tr1 Ha.
  unfold storyToScript_persist. rewrite Hf.
  unfold reportTaskProgress, assertTaskActive.
  unfold_m. cbn [db trace]. fold tr1. rewrite Ha. reflexivity.
Qed.

Lemma scriptToStoryboard_persist_cancelled (E : Env) job p result w message :
  let tr1 := (trace w ++ [EvReportTaskProgress (num_of_Z 80) "script_to_storyboard_persist"
                            "progress.stage.scriptToStoryboardPersist" None])%list in
  taskTerminated E tr1 = Some message ->
  scriptToStoryboard_persist E job p result w =
  (Throw (TaskTerminatedError message),
   {| db := db w;
      trace := (tr1 ++ [EvAssertTaskActive "script_to_storyboard_persist" false])%list |}).
Proof.
  intros tr1 Ha.
  unfold scriptToStoryboard_persist, scriptToStoryboard_persistPanels,
    reportTaskProgress, assertTaskActive.
  unfold_m. cbn [db trace]. fold tr1. rewrite Ha. reflexivity.
Qed.

(** C8. In both handlers [assertTaskActive] is the first call of every
    step, before the progress report and the completion call, and it is
    called again before the persistence: along every run, a completion
    call or a database write only happens after a liveness check that has
    passed since the last completion call. A step whose check fails makes
    no other call and throws the cancellation; a handler cancelled at its
    persistence checkpoint throws it and writes nothing. *)
Theorem C8_liveness_checkpoints (E : Env) (job : TaskJobData) (w : World) :
  (exists suffix,
      trace (handleStoryToScriptTask E job w).2 = (trace w ++ suffix)%list
      /\ checkpointed suffix)
  /\ (exists suffix,
        trace (handleScriptToStoryboardTask E job w).2 = (trace w ++ suffix)%list
        /\ checkpointed suffix)
  /\ (forall L c meta prompt action n,
        runStep E L c meta prompt action n w
        = match taskTerminated E (trace w) with
          | Some message =>
              (Throw (TaskTerminatedError message),
               {| db := db w;
                  trace := (trace w ++ [EvAssertTaskActive
                                          (checkpointPrefix L +:+ stepId meta) false])%list |})
          | None =>
              let tr := (trace w ++ stepEvents L c meta prompt action)%list in
              match completion E tr with
              | Ok parts =>
                  (Ok {| text := text parts; reasoning := reasoning parts |},
                   {| db := concurrentWrites E tr (db w);
                      trace := (tr ++ [EvLogAIAnalysis
                                         (outputActionPrefix L +:+ action)])%list |})
              | Throw e => (Throw e, {| db := concurrentWrites E tr (db w); trace := tr |})
              end
          end)
  /\ (forall p result message,
        (0 <? screenplayFailedCount (s2s_summary result))%Z = false ->
        taskTerminated E
          (trace w ++ [EvReportTaskProgress (num_of_Z 80) "story_to_script_persist"
                         "progress.stage.storyToScriptPersist" None])%list = Some message ->
        (storyToScript_persist E p result w).1 = Throw (TaskTerminatedError message)
        /\ db (storyToScript_persist E p result w).2 = db w
        /\ List.filter is_write (trace (storyToScript_persist E p result w).2)
           = List.filter is_write (trace w))
  /\ (forall p result message,
        taskTerminated E
          (trace w ++ [EvReportTaskProgress (num_of_Z 80) "script_to_storyboard_persist"
                         "progress.stage.scriptToStoryboardPersist" None])%list
        = Some message ->
        (scriptToStoryboard_persist E job p result w).1 = Throw (TaskTerminatedError message)
        /\ db (scriptToStoryboard_persist E job p result w).2 = db w
        /\ List.filter is_write (trace (scriptToStoryboard_persist E job p result w).2)
           = List.filter is_write (trace w)).
Proof.
  split; [|split; [|split; [|split]]].
  - destruct (cp_handleStoryToScriptTask E job false w) as (suffix & s' & Ht & Hs & _).
    exists suffix. split; [exact Ht|]. unfold checkpointed. rewrite Hs. eauto.
  - destruct (cp_handleScriptToStoryboardTask E job false w) as (suffix & s' & Ht & Hs & _).
    exists suffix. split; [exact Ht|]. unfold checkpointed. rewrite Hs. eauto.
  - intros. apply runStep_eval.
  - intros p result message Hf Ha.
    rewrite (storyToScript_persist_cancelled E p result w message Hf Ha). cbn [fst snd db trace].
    repeat split. rewrite !List.filter_app. cbn. rewrite !app_nil_r. reflexivity.
  - intros p result message Ha.
    rewrite (scriptToStoryboard_persist_cancelled E job p result w message Ha).
    cbn [fst snd db trace].
    repeat split. rewrite !List.filter_app. cbn. rewrite !app_nil_r. reflexivity.
Qed.

(** ** Progress of a step *)

(** The expression of the source on the reference binary64 operations and
    [stepProgress] give the same percentage for every step of every job of
    up to 40 steps. *)
Lemma stepProgress_agrees_with_binary64 :
  forallb (fun t => forallb (fun i => agrees_with_binary64 i t) (upto (t + 1))) (upto 41)
  = true.
Proof. vm_compute. reflexivity. Qed.

(** Rounding shows: at step 3 of 11 the quotient 3/11 rounds below its
    exact value and the progress is 29, where exact arithmetic gives 30. *)
Example stepProgress_3_11 : stepProgress 3 11 = Fin 29.
Proof. vm_compute. reflexivity. Qed.

(** C9. The percentages that a job reports are not in non-decreasing
    order in the script-to-storyboard handler. On the sample job both
    handlers return normally; the story-to-script handler reports 10, the
    step at 70, 80 and 96, which do not decrease; the script-to-storyboard
    handler reports 10, the step at 70, 80, then the voice analysis, a
    step numbered 1 of 1 that runs after the report of 80 and reports
    through [runStep] inside the band of the steps, at 70, and 96. *)
Theorem C9_progress_falls_after_80 :
  let story := handleStoryToScriptTask sampleEnv sampleJob sampleWorld in
  let board := handleScriptToStoryboardTask sampleEnv sampleJob sampleWorld in
  board.1 = Ok {| out_episodeId := "episode-1"; out_storyboardCount := 1;
                  out_panelCount := 1; out_voiceLineCount := 1 |}
  /\ reportedPercents (trace board.2) = [Fin 10; Fin 70; Fin 80; Fin 70; Fin 96]
  /\ reportedStepIds (trace board.2) = ["step_1"; "voice_analyze"]
  /\ nonDecreasing (reportedPercents (trace board.2)) = false
  /\ (exists returned, story.1 = Ok returned)
  /\ reportedPercents (trace story.2) = [Fin 10; Fin 70; Fin 80; Fin 96]
  /\ nonDecreasing (reportedPercents (trace story.2)) = true.
Proof. vm_compute. repeat split; try reflexivity. eexists. reflexivity. Qed.

(** ** The analyzed content *)

(** C10. The story-to-script handler analyzes the trimmed payload content
    or, when that is empty, the novel text of the episode; when the merged
    content is empty once trimmed it throws "content is required";
    otherwise the content handed to the orchestrator is the merged content
    cut after its first 30000 characters, counted as [.length] and
    [.slice] count them, in UTF-16 code units: what follows is dropped. *)
Theorem C10_content_limit (E : Env) (job : TaskJobData) (w : World) :
  (forall contentRaw episodeNovelText,
      let mergedContent := str_or (trim contentRaw) (nullable_or_empty episodeNovelText) in
      (trim mergedContent = ""
       /\ analyzedContent contentRaw episodeNovelText = Throw (Error "content is required"))
      \/ (trim mergedContent <> ""
          /\ exists content dropped,
               analyzedContent contentRaw episodeNovelText = Ok content
               /\ mergedContent = content +:+ dropped
               /\ str_length content = Z.min 30000 (str_length mergedContent)))
  /\ (forall p,
        (storyToScript_prepare E job w).1 = Ok p ->
        exists episode,
          (exists project novelData,
              storyToScript_loaded E job (db w) project novelData episode)
          /\ analyzedContent (asString E (prop (payloadOf job) "content")) (novelText episode)
             = Ok (p_content p)
          /\ (str_length (p_content p) <= 30000)%Z
          /\ in_content (storyToScriptInput E job p) = p_content p).
Proof.
  split; [intros; apply analyzedContent_spec|].
  intros p Hp.
  destruct (storyToScript_prepare_ok E job w p Hp) as (episode & Hl & _ & Hc & _).
  exists episode. repeat split; auto.
  destruct (analyzedContent_spec (asString E (prop (payloadOf job) "content"))
              (novelText episode)) as [[_ Hthrow]|(_ & content & dropped & Hok & _ & Hlen)].
  - congruence.
  - rewrite Hc in Hok. injection Hok as <-. lia.
Qed.

(** * Further properties *)

(** ** The calls of a run *)

Lemma scan_recordStep (s t : list Event) : scan recordStep s t = Some (s ++ t)%list.
Proof.
  revert s. induction t as [|ev t IH]; intros s; simpl.
  - rewrite app_nil_r. reflexivity.
  - rewrite IH, <- app_assoc. reflexivity.
Qed.

(** What the recording automaton proves about a computation is a property
    of the calls it appends to the trace. *)
Lemma wp_record {A} (m : M A) (Q : outcome A -> list Event -> Prop) :
  wp recordStep m Q [] ->
  forall w, exists t, trace (m w).2 = (trace w ++ t)%list /\ Q (m w).1 t.
Proof.
  intros H w. destruct (H w) as (t & s' & Ht & Hs & Hq).
  rewrite scan_recordStep in Hs. injection Hs as <-. exists t. auto.
Qed.

Lemma wp_record_intro {A} (m : M A) (P : outcome A -> list Event -> Prop)
    (Q : outcome A -> list Event -> Prop) s :
  (forall w, exists t, trace (m w).2 = (trace w ++ t)%list /\ P (m w).1 t) ->
  (forall r t, P r t -> Q r (s ++ t)%list) ->
  wp recordStep m Q s.
Proof.
  intros H HQ w. destruct (H w) as (t & Ht & Hp).
  exists t, (s ++ t)%list. rewrite scan_recordStep. auto.
Qed.

(** The suffix a computation appends is unique. *)
Lemma suffix_unique (tr t1 t2 : list Event) :
  (tr ++ t1)%list = (tr ++ t2)%list -> t1 = t2.
Proof. apply app_inv_head. Qed.

(** ** The validation phases *)

Lemma isReasoningEffort_nonempty value s : isReasoningEffort value = Some s -> s <> "".
Proof.
  destruct value; simpl; try discriminate.
  destruct (_ || _) eqn:Hs; [|discriminate]. intros [= <-] ->. discriminate.
Qed.

Lemma resolveReasoningEffort_nonempty requested capability :
  resolveReasoningEffort requested capability <> "".
Proof.
  assert (Hd : default "high" (isReasoningEffort capability) <> "").
  { destruct (isReasoningEffort capability) eqn:Hc; simpl; [|discriminate].
    eapply isReasoningEffort_nonempty; eauto. }
  unfold resolveReasoningEffort. destruct requested as [r|]; [|exact Hd].
  destruct (str_empty r) eqn:Hr; [exact Hd|]. apply str_empty_false. exact Hr.
Qed.

Lemma resolveAnalysisModel_Ok inputModel analysisModel model :
  resolveAnalysisModel inputModel analysisModel = Ok model -> model <> "".
Proof.
  unfold resolveAnalysisModel. destruct (str_empty _) eqn:Hm; [discriminate|].
  intros [= <-]. apply str_empty_false. exact Hm.
Qed.

Lemma resolveAnalysisModel_Throw inputModel analysisModel e :
  resolveAnalysisModel inputModel analysisModel = Throw e ->
  e = Error "analysisModel is not configured".
Proof.
  unfold resolveAnalysisModel. destruct (str_empty _); [|discriminate].
  intros [= <-]. reflexivity.
Qed.

Lemma analyzedContent_Throw contentRaw episodeNovelText e :
  analyzedContent contentRaw episodeNovelText = Throw e -> e = Error "content is required".
Proof.
  unfold analyzedContent. destruct (str_empty _); [|discriminate].
  intros [= <-]. reflexivity.
Qed.

(** Backward reasoning that keeps the equation of each case. *)
Ltac wp_case_eq :=
  match goal with
  | |- wp _ (match ?x with _ => _ end) _ _ => destruct x eqn:?
  | |- wp _ (if ?x then _ else _) _ _ => destruct x eqn:?
  | |- wp _ (let (_, _) := ?x in _) _ _ => destruct x eqn:?
  | |- match ?x with _ => _ end => destruct x eqn:?
  end.

Ltac rec_auto := repeat first [ wp_rule | wp_case_eq | progress cbn beta iota ].

(** Bring the recorded calls to the form [s ++ t]. *)
Ltac rec_done H s :=
  first [ apply H
        | rewrite <- !app_assoc; apply H
        | rewrite <- (app_nil_r s); apply H ].

(** The error of a failed resolution of the model or of the content. *)
Ltac rejected :=
  try match goal with
      | Hx : resolveAnalysisModel _ _ = Throw _ |- _ =>
          apply resolveAnalysisModel_Throw in Hx; subst
      end;
  try match goal with
      | Hx : analyzedContent _ _ = Throw _ |- _ =>
          apply analyzedContent_Throw in Hx; subst
      end.

Section Shapes.

Context (E : Env).

Lemma rec_storyToScript_prepare job
    (Q : outcome StoryToScriptPrepared -> list Event -> Prop) s :
  (forall r t,
      forallb is_lookup t = true ->
      match r with
      | Throw e => In e storyToScript_rejections
      | Ok p => context_of_job E job (p_step p)
      end ->
      Q r (s ++ t)%list) ->
  wp recordStep (storyToScript_prepare E job) Q s.
Proof.
  intros H. unfold storyToScript_prepare, findProject, findNovelPromotionProject,
    findEpisode, getProjectModelConfig, resolveProjectModelCapabilityGenerationOptions.
  rec_auto; rec_done H s; try reflexivity; rejected;
    try (unfold storyToScript_rejections; simpl; tauto).
  repeat split; cbn [p_step ctx_userId ctx_projectId ctx_model ctx_reasoningEffort
                         ctx_reasoning ctx_temperature].
  - eapply resolveAnalysisModel_Ok; eauto.
  - apply resolveReasoningEffort_nonempty.
Qed.

Lemma rec_scriptToStoryboard_prepare job
    (Q : outcome ScriptToStoryboardPrepared -> list Event -> Prop) s :
  (forall r t,
      forallb is_lookup t = true ->
      match r with
      | Throw e => In e scriptToStoryboard_rejections
      | Ok p => context_of_job E job (q_step p)
      end ->
      Q r (s ++ t)%list) ->
  wp recordStep (scriptToStoryboard_prepare E job) Q s.
Proof.
  intros H. unfold scriptToStoryboard_prepare, findProject, findNovelPromotionProject,
    findEpisodeWithClips, getProjectModelConfig,
    resolveProjectModelCapabilityGenerationOptions.
  rec_auto; rec_done H s; try reflexivity; rejected;
    try (unfold scriptToStoryboard_rejections; simpl; tauto).
  repeat split; cbn [q_step ctx_userId ctx_projectId ctx_model ctx_reasoningEffort
                         ctx_reasoning ctx_temperature].
  - eapply resolveAnalysisModel_Ok; eauto.
  - apply resolveReasoningEffort_nonempty.
Qed.

End Shapes.

(** ** The orchestration phases *)

Section Orchestration.

Context (E : Env).

Lemma starts_with_append (a b : string) : starts_with (a +:+ b) a.
Proof. exists b. reflexivity. Qed.

Lemma step_call_stepEvents L c meta prompt action :
  Forall (step_call L c) (stepEvents L c meta prompt action).
Proof.
  unfold stepEvents. repeat constructor; simpl; auto using starts_with_append.
Qed.

Lemma step_call_assert L c meta b :
  step_call L c (EvAssertTaskActive (checkpointPrefix L +:+ stepId meta) b).
Proof. simpl. apply starts_with_append. Qed.

Lemma step_call_output L c action :
  step_call L c (EvLogAIAnalysis (outputActionPrefix L +:+ action)).
Proof. simpl. right. apply starts_with_append. Qed.

(** The calls of one step, by the way it ends. *)
Lemma runStep_calls L c meta prompt action n w :
  exists t,
    trace (runStep E L c meta prompt action n w).2 = (trace w ++ t)%list
    /\ ((t = [EvAssertTaskActive (checkpointPrefix L +:+ stepId meta) false]
         /\ exists message,
              (runStep E L c meta prompt action n w).1
              = Throw (TaskTerminatedError message))
        \/ (t = stepEvents L c meta prompt action
            /\ is_Ok (runStep E L c meta prompt action n w).1 = false)
        \/ (t = (stepEvents L c meta prompt action
                   ++ [EvLogAIAnalysis (outputActionPrefix L +:+ action)])%list
            /\ is_Ok (runStep E L c meta prompt action n w).1 = true)).
Proof.
  rewrite runStep_eval. destruct (taskTerminated E (trace w)) as [message|].
  - eexists. split; [reflexivity|]. left. eauto.
  - cbv zeta. destruct (completion E _) as [parts|e]; cbn [fst snd trace].
    + eexists. split; [rewrite <- app_assoc; reflexivity|]. right. right. auto.
    + eexists. split; [reflexivity|]. right. left. auto.
Qed.

Lemma rec_runStep L c meta prompt action n (Q : outcome StepOutput -> list Event -> Prop) s :
  (forall r t, Forall (step_call L c) t -> Q r (s ++ t)%list) ->
  wp recordStep (runStep E L c meta prompt action n) Q s.
Proof.
  intros H.
  apply (wp_record_intro _ (fun _ t => Forall (step_call L c) t)); [|exact H].
  intros w. destruct (runStep_calls L c meta prompt action n w) as (t & Ht & Hc).
  exists t. split; [exact Ht|].
  destruct Hc as [[-> _]|[[-> _]|[-> _]]].
  - constructor; [apply step_call_assert | constructor].
  - apply step_call_stepEvents.
  - apply Forall_app. split; [apply step_call_stepEvents|].
    constructor; [apply step_call_output | constructor].
Qed.

Lemma rec_runOrch {R} L c (o : Orch R) (Q : outcome R -> list Event -> Prop) s :
  (forall r t, Forall (step_call L c) t -> Q r (s ++ t)%list) ->
  wp recordStep (runOrch (runStep E L c) o) Q s.
Proof.
  intros H.
  apply (wp_runOrch recordStep _ _
           (fun s' => exists t, s' = (s ++ t)%list /\ Forall (step_call L c) t)).
  - exists []. rewrite app_nil_r. auto.
  - intros meta prompt action n s1 (t1 & -> & Ht1).
    apply rec_runStep. intros r t Ht. exists (t1 ++ t)%list.
    rewrite app_assoc. split; [reflexivity|]. apply Forall_app. auto.
  - intros r s1 (t1 & -> & Ht1). apply H. exact Ht1.
Qed.

Lemma rec_storyToScript_orchestrate job p
    (Q : outcome StoryToScriptResult -> list Event -> Prop) s :
  (forall r steps,
      Forall (step_call storyToScriptLabels (p_step p)) steps ->
      Q r (s ++ storyToScript_report10 :: steps ++ [EvFlush])%list) ->
  wp recordStep (storyToScript_orchestrate E job p) Q s.
Proof.
  intros H. unfold storyToScript_orchestrate, reportTaskProgress, flush.
  apply wp_mbind. eapply wp_emit; [reflexivity|].
  apply wp_try_finally. apply rec_runOrch. intros r steps Hsteps.
  eapply wp_emit; [reflexivity|].
  rewrite <- !app_assoc. apply H. exact Hsteps.
Qed.

Lemma rec_scriptToStoryboard_orchestrate job p
    (Q : outcome ScriptToStoryboardResult -> list Event -> Prop) s :
  (forall r steps,
      Forall (step_call scriptToStoryboardLabels (q_step p)) steps ->
      Q r (s ++ scriptToStoryboard_report10 :: steps
             ++ (if match r with Ok _ => false | Throw e => isJsonParseError e end
                 then [parseErrorLog] else [])
             ++ [EvFlush])%list) ->
  wp recordStep (scriptToStoryboard_orchestrate E job p) Q s.
Proof.
  intros H. unfold scriptToStoryboard_orchestrate, reportTaskProgress, flush, logAIAnalysis.
  apply wp_mbind. eapply wp_emit; [reflexivity|].
  apply wp_try_finally. apply wp_try_catch. apply rec_runOrch. intros [r|e] steps Hsteps.
  - eapply wp_emit; [reflexivity|].
    rewrite <- !app_assoc. apply (H (Ok r)). exact Hsteps.
  - apply wp_mbind. destruct e; cbn beta iota.
    + apply wp_ret. apply wp_throw. eapply wp_emit; [reflexivity|].
      rewrite <- !app_assoc. apply (H (Throw (Error message))). exact Hsteps.
    + apply wp_ret. apply wp_throw. eapply wp_emit; [reflexivity|].
      rewrite <- !app_assoc. apply (H (Throw (TaskTerminatedError message))). exact Hsteps.
    + eapply wp_emit; [reflexivity|]. apply wp_throw. eapply wp_emit; [reflexivity|].
      rewrite <- !app_assoc. apply (H (Throw (JsonParseError message rawText))).
      exact Hsteps.
Qed.

End Orchestration.

(** ** The persistence phases *)

Lemma reportedPercents_app (t1 t2 : list Event) :
  reportedPercents (t1 ++ t2) = (reportedPercents t1 ++ reportedPercents t2)%list.
Proof. unfold reportedPercents. apply flat_map_app. Qed.

Lemma reportedPercents_cons (ev : Event) (t : list Event) :
  reportedPercents (ev :: t) = (reportedPercents [ev] ++ reportedPercents t)%list.
Proof. apply (reportedPercents_app [ev] t). Qed.

Lemma completions_app (t1 t2 : list Event) :
  completions (t1 ++ t2) = (completions t1 + completions t2)%nat.
Proof. unfold completions. rewrite List.filter_app, length_app. reflexivity. Qed.

Lemma silent_quiet (t : list Event) :
  forallb silent_call t = true -> forallb quiet_call t = true.
Proof.
  induction t as [|ev t IH]; simpl; [reflexivity|].
  intros [Hev Ht]%andb_prop. rewrite IH by exact Ht.
  unfold silent_call in Hev. apply andb_prop in Hev as [-> _]. reflexivity.
Qed.

Lemma silent_reportedPercents (t : list Event) :
  forallb silent_call t = true -> reportedPercents t = [].
Proof.
  induction t as [|ev t IH]; simpl; [reflexivity|].
  intros [Hev Ht]%andb_prop. rewrite IH by exact Ht.
  destruct ev; try reflexivity. unfold silent_call in Hev. simpl in Hev.
  rewrite andb_false_r in Hev. discriminate.
Qed.

Lemma quiet_completions (t : list Event) :
  forallb quiet_call t = true -> completions t = 0%nat.
Proof.
  unfold completions. induction t as [|ev t IH]; simpl; [reflexivity|].
  intros [Hev Ht]%andb_prop. unfold quiet_call in Hev.
  destruct (is_completion ev); [discriminate|]. apply IH, Ht.
Qed.

Section Persistence.

Context (E : Env).

Lemma rec_persistScreenplay clipIdMap item (Q : outcome unit -> list Event -> Prop) s :
  (forall r t, forallb silent_call t = true -> Q r (s ++ t)%list) ->
  wp recordStep (persistScreenplay E clipIdMap item) Q s.
Proof.
  intros H. unfold persistScreenplay, clipUpdate.
  rec_auto; rec_done H s; reflexivity.
Qed.

Lemma rec_storyToScript_persist p result
    (Q : outcome StoryToScriptReturn -> list Event -> Prop) s :
  (forall r body,
      (body = [] /\ is_Ok r = false)
      \/ (exists rest, body = storyToScript_report80 :: rest
                       /\ forallb silent_call rest = true) ->
      Q r (s ++ body ++ (if is_Ok r then [storyToScript_report96] else []))%list) ->
  wp recordStep (storyToScript_persist E p result) Q s.
Proof.
  intros H. unfold storyToScript_persist.
  destruct (0 <? _)%Z.
  { apply wp_throw. rewrite <- (app_nil_r s).
    exact (H (Throw _) [] (or_introl (conj eq_refl eq_refl))). }
  assert (H' : forall r rest, forallb silent_call rest = true ->
             Q r ((s ++ [storyToScript_report80]) ++ rest
                    ++ (if is_Ok r then [storyToScript_report96] else []))%list).
  { intros r rest Hrest. rewrite <- app_assoc.
    apply (H r (storyToScript_report80 :: rest)). right. eauto. }
  clear H. unfold reportTaskProgress at 1.
  apply wp_mbind. eapply wp_emit; [reflexivity|].
  fold storyToScript_report80.
  set (s0 := (s ++ [storyToScript_report80])%list) in *.
  assert (Hthrow : forall e rest, forallb silent_call rest = true ->
             Q (Throw e) (s0 ++ rest)%list).
  { intros e rest Hrest. specialize (H' (Throw e) rest Hrest).
    simpl in H'. rewrite app_nil_r in H'. exact H'. }
  unfold assertTaskActive, findEpisode, persistWith.
  apply wp_mbind, wp_mbind, wp_get_trace. intros tr.
  destruct (taskTerminated E tr).
  { rec_auto. apply Hthrow. reflexivity. }
  eapply wp_emit; [reflexivity|].
  apply wp_mbind, wp_mbind. eapply wp_emit; [reflexivity|].
  apply wp_mbind, wp_get_db. intros d. apply wp_mret.
  destruct (List.find _ _) as [episodeStillExists|].
  2:{ apply wp_throw. rewrite <- !app_assoc. apply Hthrow. reflexivity. }
  apply wp_mbind, wp_mbind. eapply wp_emit; [reflexivity|].
  apply wp_mbind, wp_get_db. intros d1. destruct (persistAnalyzedCharacters _ _ _ _ _) as [r1 d1'].
  apply wp_mbind, wp_put_db. apply wp_lift. destruct r1 as [createdCharacters|e1].
  2:{ rewrite <- !app_assoc. apply Hthrow. reflexivity. }
  apply wp_mbind, wp_mbind. eapply wp_emit; [reflexivity|].
  apply wp_mbind, wp_get_db. intros d2. destruct (persistAnalyzedLocations _ _ _ _ _) as [r2 d2'].
  apply wp_mbind, wp_put_db. apply wp_lift. destruct r2 as [createdLocations|e2].
  2:{ rewrite <- !app_assoc. apply Hthrow. reflexivity. }
  apply wp_mbind, wp_mbind. eapply wp_emit; [reflexivity|].
  apply wp_mbind, wp_get_db. intros d3. destruct (persistClips _ _ _ _) as [r3 d3'].
  apply wp_mbind, wp_put_db. apply wp_lift. destruct r3 as [createdClipRows|e3].
  2:{ rewrite <- !app_assoc. apply Hthrow. reflexivity. }
  apply wp_mbind.
  apply (wp_forEach recordStep _ _
           (fun s' => exists rest, s' = (s0 ++ rest)%list
                                   /\ forallb silent_call rest = true)).
  - eexists. rewrite <- !app_assoc. split; [reflexivity|]. reflexivity.
  - intros item s1 (rest & -> & Hrest). apply rec_persistScreenplay.
    intros [[]|e] t Ht.
    + exists (rest ++ t)%list. rewrite app_assoc. split; [reflexivity|].
      rewrite forallb_app, Hrest, Ht. reflexivity.
    + rewrite <- app_assoc. apply Hthrow. rewrite forallb_app, Hrest, Ht. reflexivity.
  - intros s1 (rest & -> & Hrest).
    unfold reportTaskProgress. apply wp_mbind. eapply wp_emit; [reflexivity|].
    apply wp_mret. rewrite <- app_assoc. apply (H' (Ok _) rest Hrest).
Qed.

End Persistence.

(** ** The voice analysis and the voice lines *)

Section VoiceAnalysis.

Context (E : Env).

Lemma voiceAttemptMeta_counters result k :
  stepIndex (voiceAttemptMeta (voiceStepMeta result) k) = totalStepCount (s2b_summary result)
  /\ stepTotal (voiceAttemptMeta (voiceStepMeta result) k)
     = totalStepCount (s2b_summary result).
Proof. unfold voiceAttemptMeta. destruct (k =? 1)%Z; auto. Qed.

Lemma voice_call_stepEvents c result voicePrompt k :
  Forall (voice_call c (totalStepCount (s2b_summary result)))
    (stepEvents scriptToStoryboardLabels c (voiceAttemptMeta (voiceStepMeta result) k)
       voicePrompt "voice_analyze").
Proof.
  destruct (voiceAttemptMeta_counters result k) as [Hi Ht].
  pose proof (step_call_stepEvents scriptToStoryboardLabels c
                (voiceAttemptMeta (voiceStepMeta result) k) voicePrompt "voice_analyze") as H.
  unfold stepEvents in *.
  repeat match goal with
         | H : Forall _ (_ :: _) |- _ => apply Forall_cons_1 in H as [? H]
         end.
  repeat (constructor; [split; [assumption|]|]); try exact I; try constructor.
  rewrite Hi, Ht. reflexivity.
Qed.

(** One attempt: its calls are calls of the voice analysis, with at most
    one completion; it reports its progress once, unless the job was
    found terminated before. *)
Lemma voiceAttemptBody_calls c result voicePrompt k w :
  exists t j,
    trace (voiceAttemptBody E c (voiceStepMeta result) voicePrompt k w).2
    = (trace w ++ t)%list
    /\ Forall (voice_call c (totalStepCount (s2b_summary result))) t
    /\ completions t = j
    /\ reportedPercents t
       = repeat (stepProgress (totalStepCount (s2b_summary result))
                              (totalStepCount (s2b_summary result))) j
    /\ (j <= 1)%nat
    /\ (is_Ok (voiceAttemptBody E c (voiceStepMeta result) voicePrompt k w).1 = true
        -> j = 1%nat)
    /\ (j = 0%nat ->
        isTaskTerminated
          match (voiceAttemptBody E c (voiceStepMeta result) voicePrompt k w).1 with
          | Ok _ => Error ""
          | Throw e => e
          end = true).
Proof.
  destruct (voiceAttemptMeta_counters result k) as [Hi Ht].
  unfold voiceAttemptBody.
  change (_ ≫= _) with
    (bind (runStep E scriptToStoryboardLabels c (voiceAttemptMeta (voiceStepMeta result) k)
             voicePrompt "voice_analyze" 2600)
          (fun voiceOutput => lift (parseVoiceLinesJson E (text voiceOutput)))).
  unfold bind.
  destruct (runStep_calls E scriptToStoryboardLabels c
              (voiceAttemptMeta (voiceStepMeta result) k) voicePrompt "voice_analyze" 2600 w)
    as (t & Htr & Hc).
  destruct (runStep E _ _ _ _ _ _ w) as [[voiceOutput|e] w1]; cbn [fst snd] in *.
  - destruct Hc as [[_ (m & Hm)]|[[_ Hm]|[-> _]]]; try discriminate.
    eexists; exists 1%nat. unfold lift. cbn [fst snd].
    split; [exact Htr|]. repeat split.
    + apply Forall_app. split; [apply voice_call_stepEvents|].
      constructor; [|constructor]. split; [apply step_call_output | exact I].
    + unfold stepEvents. simpl. rewrite Hi, Ht. reflexivity.
    + lia.
    + discriminate.
  - destruct Hc as [[-> (m & Hm)]|[[-> _]|[_ Hm]]]; try discriminate.
    + eexists; exists 0%nat. split; [exact Htr|]. repeat split; try lia; try discriminate.
      * constructor; [|constructor]. split; [apply step_call_assert | exact I].
      * intros _. injection Hm as ->. reflexivity.
    + eexists; exists 1%nat. split; [exact Htr|]. repeat split; try lia; try discriminate.
      * apply voice_call_stepEvents.
      * unfold stepEvents. simpl. rewrite Hi, Ht. reflexivity.
Qed.

(** The voice analysis: at most two attempts. *)
Lemma analyzeVoiceLines_calls c result voicePrompt w :
  exists t k,
    trace (analyzeVoiceLines E c (voiceStepMeta result) voicePrompt w).2
    = (trace w ++ t)%list
    /\ Forall (voice_call c (totalStepCount (s2b_summary result))) t
    /\ (completions t <= 2)%nat
    /\ reportedPercents t
       = repeat (stepProgress (totalStepCount (s2b_summary result))
                              (totalStepCount (s2b_summary result))) k
    /\ (k <= 2)%nat
    /\ (is_Ok (analyzeVoiceLines E c (voiceStepMeta result) voicePrompt w).1 = true
        -> (1 <= k)%nat).
Proof.
  rewrite analyzeVoiceLines_eval.
  destruct (voiceAttemptBody_calls c result voicePrompt 1 w)
    as (t1 & j1 & Htr1 & Hv1 & Hc1 & Hp1 & Hj1 & Hok1 & Hz1).
  destruct (voiceAttemptBody E c (voiceStepMeta result) voicePrompt 1 w)
    as [[rows|e] w1]; cbn [fst snd] in *.
  - exists t1, j1. repeat split; auto; try lia.
    intros _. rewrite Hok1; auto.
  - destruct (isTaskTerminated e) eqn:He; cbn [fst snd].
    + exists t1, j1. repeat split; auto; try lia.
      intros Hx. simpl in Hx. discriminate Hx.
    + assert (j1 = 1%nat) as ->.
      { destruct j1 as [|[|]]; [|reflexivity|lia].
        discriminate (Hz1 eq_refl). }
      destruct (voiceAttemptBody_calls c result voicePrompt 2 w1)
        as (t2 & j2 & Htr2 & Hv2 & Hc2 & Hp2 & Hj2 & Hok2 & Hz2).
      exists (t1 ++ t2)%list, (1 + j2)%nat.
      rewrite Htr2, Htr1, app_assoc. split; [reflexivity|].
      rewrite completions_app, reportedPercents_app, Hp1, Hp2, Hc1, Hc2.
      repeat split; try lia.
      apply Forall_app. auto.
Qed.

Lemma rec_createVoiceLines episodeId panelMap i rows
    (Q : outcome (list N) -> list Event -> Prop) s :
  (forall r t, forallb silent_call t = true -> Q r (s ++ t)%list) ->
  wp recordStep (createVoiceLines E episodeId panelMap i rows) Q s.
Proof.
  revert i Q s. induction rows as [|row later IH]; intros i Q s H; simpl.
  - apply wp_ret. rewrite <- (app_nil_r s). apply H. reflexivity.
  - apply wp_bind, wp_lift. destruct (voiceLineDataOf _ _ _ _ _) as [data|e].
    2:{ rewrite <- (app_nil_r s). apply H. reflexivity. }
    unfold voiceLineCreate.
    apply wp_bind, wp_mbind. eapply wp_emit; [reflexivity|].
    apply wp_mbind, wp_get_db. intros d. apply wp_mbind, wp_put_db. apply wp_mret.
    apply wp_bind, IH. intros [created|e] t Ht.
    + apply wp_ret. rewrite <- app_assoc. apply H. simpl. exact Ht.
    + rewrite <- app_assoc. apply H. simpl. exact Ht.
Qed.

Lemma rec_persistVoiceLines episodeId persisted rows
    (Q : outcome (list N) -> list Event -> Prop) s :
  (forall r t, forallb silent_call t = true -> Q r (s ++ t)%list) ->
  wp recordStep (persistVoiceLines E episodeId persisted rows) Q s.
Proof.
  intros H. unfold persistVoiceLines, voiceLineTransaction, transaction, assertTaskActive,
    voiceLineDeleteMany.
  apply wp_mbind, wp_mbind, wp_get_trace. intros tr.
  destruct (taskTerminated E tr).
  { rec_auto. apply H. reflexivity. }
  eapply wp_emit; [reflexivity|].
  apply wp_mbind. eapply wp_emit; [reflexivity|].
  apply wp_mbind, wp_get_db. intros before.
  apply wp_try_catch.
  apply wp_mbind, wp_mbind, wp_mbind. eapply wp_emit; [reflexivity|].
  apply wp_mbind, wp_get_db. intros d. apply wp_put_db.
  apply rec_createVoiceLines. intros [created|e] t Ht.
  - apply wp_mbind. eapply wp_emit; [reflexivity|]. apply wp_mret.
    rewrite <- !app_assoc. apply H. simpl. rewrite forallb_app, Ht. reflexivity.
  - apply wp_mbind, wp_put_db. apply wp_mbind. eapply wp_emit; [reflexivity|].
    apply wp_throw.
    rewrite <- !app_assoc. apply H. simpl. rewrite forallb_app, Ht. reflexivity.
Qed.

Lemma rec_scriptToStoryboard_persist job p result
    (Q : outcome ScriptToStoryboardReturn -> list Event -> Prop) s :
  (forall r pre voice post k,
      forallb silent_call pre = true ->
      Forall (voice_call (q_step p) (totalStepCount (s2b_summary result))) voice ->
      (completions voice <= 2)%nat ->
      reportedPercents voice
      = repeat (stepProgress (totalStepCount (s2b_summary result))
                             (totalStepCount (s2b_summary result))) k ->
      (k <= 2)%nat ->
      (is_Ok r = true -> (1 <= k)%nat) ->
      forallb silent_call post = true ->
      Q r (s ++ scriptToStoryboard_report80 :: pre ++ voice ++ post
             ++ (if is_Ok r then [scriptToStoryboard_report96] else []))%list) ->
  wp recordStep (scriptToStoryboard_persist E job p result) Q s.
Proof.
  intros H. unfold scriptToStoryboard_persist, scriptToStoryboard_persistPanels.
  unfold reportTaskProgress at 1.
  apply wp_mbind, wp_mbind. eapply wp_emit; [reflexivity|].
  fold scriptToStoryboard_report80.
  assert (Hearly : forall e pre, forallb silent_call pre = true ->
             Q (Throw e) ((s ++ [scriptToStoryboard_report80]) ++ pre)%list).
  { intros e pre Hpre.
    assert (Hno : is_Ok (Throw e : outcome ScriptToStoryboardReturn) = true -> (1 <= 0)%nat)
      by (intros Hx; discriminate Hx).
    pose proof (H (Throw e) pre [] [] 0%nat Hpre (List.Forall_nil _) (Nat.le_0_l _)
                  eq_refl (Nat.le_0_l _) Hno eq_refl) as H0.
    simpl in H0. rewrite !app_nil_r in H0. rewrite <- app_assoc. simpl. exact H0. }
  unfold assertTaskActive, persistWith.
  apply wp_mbind, wp_mbind, wp_get_trace. intros tr.
  destruct (taskTerminated E tr).
  { rec_auto. apply Hearly. reflexivity. }
  eapply wp_emit; [reflexivity|].
  apply wp_mbind. eapply wp_emit; [reflexivity|].
  apply wp_mbind, wp_get_db. intros d.
  destruct (persistStoryboardsAndPanels _ _ _ _) as [r0 d'].
  apply wp_mbind, wp_put_db. apply wp_lift. destruct r0 as [persistedStoryboards|e0].
  2:{ rewrite <- !app_assoc. rewrite app_assoc. apply Hearly. reflexivity. }
  apply wp_mbind, wp_lift. destruct (voicePromptOf _ _ _ _) as [voicePrompt|e1].
  2:{ rewrite <- !app_assoc. rewrite app_assoc. apply Hearly. reflexivity. }
  apply wp_mbind.
  apply (wp_record_intro _
           (fun r t => exists k,
                Forall (voice_call (q_step p) (totalStepCount (s2b_summary result))) t
                /\ (completions t <= 2)%nat
                /\ reportedPercents t
                   = repeat (stepProgress (totalStepCount (s2b_summary result))
                                          (totalStepCount (s2b_summary result))) k
                /\ (k <= 2)%nat
                /\ (is_Ok r = true -> (1 <= k)%nat))).
  { intros w. destruct (analyzeVoiceLines_calls (q_step p) result voicePrompt w)
      as (t & k & Ht & Hrest). exists t. split; [exact Ht|]. exists k. exact Hrest. }
  intros [voiceLineRows|e2] voice (k & Hv & Hc & Hp & Hk & Hok).
  2:{ pose proof (H (Throw e2) _ voice [] k (eq_refl : forallb silent_call
                      [EvAssertTaskActive "script_to_storyboard_persist" true;
                       EvPersist "persistStoryboardsAndPanels"] = true)
                    Hv Hc Hp Hk) as H0.
      simpl in H0. rewrite !app_nil_r in H0. rewrite <- !app_assoc. simpl.
      apply H0; [intros Hx; discriminate Hx | reflexivity]. }
  apply wp_mbind. apply rec_persistVoiceLines. intros [createdVoiceLines|e3] post Hpost.
  2:{ pose proof (H (Throw e3) _ voice post k (eq_refl : forallb silent_call
                      [EvAssertTaskActive "script_to_storyboard_persist" true;
                       EvPersist "persistStoryboardsAndPanels"] = true)
                    Hv Hc Hp Hk) as H0.
      simpl in H0. rewrite app_nil_r in H0. rewrite <- !app_assoc. simpl.
      apply H0; [intros Hx; discriminate Hx | exact Hpost]. }
  unfold reportTaskProgress. apply wp_mbind. eapply wp_emit; [reflexivity|].
  apply wp_mret.
  pose proof (H (Ok {| out_episodeId := q_episodeId p;
                       out_storyboardCount := List.length persistedStoryboards;
                       out_panelCount := totalPanelCount (s2b_summary result);
                       out_voiceLineCount := List.length createdVoiceLines |})
                _ voice post k
                (eq_refl : forallb silent_call
                   [EvAssertTaskActive "script_to_storyboard_persist" true;
                    EvPersist "persistStoryboardsAndPanels"] = true)
                Hv Hc Hp Hk) as H0.
  simpl in H0. rewrite <- !app_assoc. simpl.
  apply H0; [intros _; apply (Hok eq_refl) | exact Hpost].
Qed.

End VoiceAnalysis.

(** ** The calls of a whole run *)

Ltac list_eq :=
  repeat first [ rewrite <- app_assoc | progress simpl ]; reflexivity.

Section Runs.

Context (E : Env).

(** A run of the story-to-script handler: either the job is rejected by
    the validation, which only looks things up, or it goes through the
    orchestration, the flush of the stream callbacks and, when the
    orchestration succeeded, the persistence. *)
Lemma handleStoryToScriptTask_calls job w :
  exists t,
    trace (handleStoryToScriptTask E job w).2 = (trace w ++ t)%list
    /\ ((forallb is_lookup t = true
         /\ exists e, (handleStoryToScriptTask E job w).1 = Throw e
                      /\ In e storyToScript_rejections)
        \/ (exists c lookups steps body,
              context_of_job E job c
              /\ t = (lookups ++ storyToScript_report10 :: steps ++ EvFlush :: body
                        ++ (if is_Ok (handleStoryToScriptTask E job w).1
                            then [storyToScript_report96] else []))%list
              /\ forallb is_lookup lookups = true
              /\ Forall (step_call storyToScriptLabels c) steps
              /\ (body = []
                  \/ exists rest, body = storyToScript_report80 :: rest
                                  /\ forallb silent_call rest = true))).
Proof.
  refine (wp_record _
            (fun r t =>
               (forallb is_lookup t = true
                /\ exists e, r = Throw e /\ In e storyToScript_rejections)
               \/ (exists c lookups steps body,
                     context_of_job E job c
                     /\ t = (lookups ++ storyToScript_report10 :: steps ++ EvFlush :: body
                               ++ (if is_Ok r then [storyToScript_report96] else []))%list
                     /\ forallb is_lookup lookups = true
                     /\ Forall (step_call storyToScriptLabels c) steps
                     /\ (body = []
                         \/ exists rest, body = storyToScript_report80 :: rest
                                         /\ forallb silent_call rest = true))) _ w).
  unfold handleStoryToScriptTask.
  apply wp_mbind. apply rec_storyToScript_prepare. intros [p|e] lookups Hl Hp.
  2:{ left. simpl. split; [exact Hl|]. eauto. }
  apply wp_mbind. apply rec_storyToScript_orchestrate. intros [result|e] steps Hsteps.
  2:{ right. exists (p_step p), lookups, steps, [].
      split; [exact Hp|]. split; [list_eq|]. auto. }
  apply rec_storyToScript_persist. intros r body Hbody.
  right. exists (p_step p), lookups, steps, body.
  split; [exact Hp|]. split; [list_eq|].
  destruct Hbody as [[-> _]|Hbody]; auto.
Qed.

(** A run of the script-to-storyboard handler: the same phases, with the
    log of a parse error before the flush, and the voice analysis in the
    middle of the persistence. *)
Lemma handleScriptToStoryboardTask_calls job w :
  exists t,
    trace (handleScriptToStoryboardTask E job w).2 = (trace w ++ t)%list
    /\ ((forallb is_lookup t = true
         /\ exists e, (handleScriptToStoryboardTask E job w).1 = Throw e
                      /\ In e scriptToStoryboard_rejections)
        \/ (exists c lookups steps logs tail,
              context_of_job E job c
              /\ t = (lookups ++ scriptToStoryboard_report10 :: steps ++ logs
                        ++ EvFlush :: tail)%list
              /\ forallb is_lookup lookups = true
              /\ Forall (step_call scriptToStoryboardLabels c) steps
              /\ (logs = [] \/ logs = [parseErrorLog])
              /\ ((tail = [] /\ is_Ok (handleScriptToStoryboardTask E job w).1 = false)
                  \/ exists n pre voice post k,
                       tail = (scriptToStoryboard_report80 :: pre ++ voice ++ post
                                 ++ (if is_Ok (handleScriptToStoryboardTask E job w).1
                                     then [scriptToStoryboard_report96] else []))%list
                       /\ forallb silent_call pre = true
                       /\ Forall (voice_call c n) voice
                       /\ (completions voice <= 2)%nat
                       /\ reportedPercents voice = repeat (stepProgress n n) k
                       /\ (k <= 2)%nat
                       /\ (is_Ok (handleScriptToStoryboardTask E job w).1 = true
                           -> (1 <= k)%nat)
                       /\ forallb silent_call post = true))).
Proof.
  refine (wp_record _
            (fun r t =>
               (forallb is_lookup t = true
                /\ exists e, r = Throw e /\ In e scriptToStoryboard_rejections)
               \/ (exists c lookups steps logs tail,
                     context_of_job E job c
                     /\ t = (lookups ++ scriptToStoryboard_report10 :: steps ++ logs
                               ++ EvFlush :: tail)%list
                     /\ forallb is_lookup lookups = true
                     /\ Forall (step_call scriptToStoryboardLabels c) steps
                     /\ (logs = [] \/ logs = [parseErrorLog])
                     /\ ((tail = [] /\ is_Ok r = false)
                         \/ exists n pre voice post k,
                              tail = (scriptToStoryboard_report80 :: pre ++ voice ++ post
                                        ++ (if is_Ok r
                                            then [scriptToStoryboard_report96] else []))%list
                              /\ forallb silent_call pre = true
                              /\ Forall (voice_call c n) voice
                              /\ (completions voice <= 2)%nat
                              /\ reportedPercents voice = repeat (stepProgress n n) k
                              /\ (k <= 2)%nat
                              /\ (is_Ok r = true -> (1 <= k)%nat)
                              /\ forallb silent_call post = true))) _ w).
  unfold handleScriptToStoryboardTask.
  apply wp_mbind. apply rec_scriptToStoryboard_prepare. intros [p|e] lookups Hl Hp.
  2:{ left. simpl. split; [exact Hl|]. eauto. }
  apply wp_mbind. apply rec_scriptToStoryboard_orchestrate.
  intros [result|e] steps Hsteps.
  2:{ right. exists (q_step p), lookups, steps,
        (if isJsonParseError e then [parseErrorLog] else []), [].
      split; [exact Hp|]. split; [list_eq|].
      split; [exact Hl|]. split; [exact Hsteps|].
      split; [destruct (isJsonParseError e); auto|]. left. auto. }
  apply rec_scriptToStoryboard_persist. intros r pre voice post k Hpre Hv Hc Hp' Hk Hok Hpost.
  right. exists (q_step p), lookups, steps, [].
  exists (scriptToStoryboard_report80 :: pre ++ voice ++ post
            ++ (if is_Ok r then [scriptToStoryboard_report96] else []))%list.
  split; [exact Hp|].
  split; [list_eq|].
  split; [exact Hl|]. split; [exact Hsteps|]. split; [left; reflexivity|].
  right. exists (totalStepCount (s2b_summary result)), pre, voice, post, k. auto 10.
Qed.

End Runs.

(** *** What the kinds of calls exclude *)

Lemma lookup_quiet t : forallb is_lookup t = true -> forallb quiet_call t = true.
Proof.
  induction t as [|ev t IH]; simpl; [reflexivity|].
  intros [Hev Ht]%andb_prop. rewrite IH by exact Ht.
  destruct ev; try discriminate; reflexivity.
Qed.

Lemma quiet_no_flush t :
  forallb quiet_call t = true -> forallb (fun ev => negb (is_flush ev)) t = true.
Proof.
  induction t as [|ev t IH]; simpl; [reflexivity|].
  intros [Hev Ht]%andb_prop. rewrite IH by exact Ht.
  unfold quiet_call in Hev. destruct (is_flush ev); [|reflexivity].
  rewrite andb_false_r in Hev. discriminate.
Qed.

Lemma quiet_no_done t :
  forallb quiet_call t = true -> forallb (fun ev => negb (is_done_report ev)) t = true.
Proof.
  induction t as [|ev t IH]; simpl; [reflexivity|].
  intros [Hev Ht]%andb_prop. rewrite IH by exact Ht.
  unfold quiet_call in Hev. destruct (is_done_report ev); [|reflexivity].
  rewrite andb_false_r in Hev. discriminate.
Qed.

Lemma quiet_in_context c t :
  forallb quiet_call t = true -> Forall (completion_in_context c) t.
Proof.
  induction t as [|ev t IH]; simpl; [constructor|].
  intros [Hev Ht]%andb_prop. constructor; [|apply IH, Ht].
  destruct ev; try exact I. discriminate.
Qed.

Lemma step_call_in_context L c t :
  Forall (step_call L c) t -> Forall (completion_in_context c) t.
Proof.
  induction 1 as [|ev t Hev _ IH]; constructor; [|exact IH].
  destruct ev; try exact I. exact Hev.
Qed.

Lemma step_call_no_flush L c t :
  Forall (step_call L c) t -> forallb (fun ev => negb (is_flush ev)) t = true.
Proof.
  induction 1 as [|ev t Hev _ IH]; simpl; [reflexivity|]. rewrite IH.
  destruct ev; try reflexivity. destruct Hev.
Qed.

Lemma storyToScript_step_no_done c t :
  Forall (step_call storyToScriptLabels c) t ->
  forallb (fun ev => negb (is_done_report ev)) t = true.
Proof.
  induction 1 as [|ev t Hev _ IH]; simpl; [reflexivity|]. rewrite IH.
  destruct ev; try reflexivity. simpl in Hev. destruct step; [|destruct Hev].
  destruct Hev as [-> _]. reflexivity.
Qed.

Lemma scriptToStoryboard_step_no_done c t :
  Forall (step_call scriptToStoryboardLabels c) t ->
  forallb (fun ev => negb (is_done_report ev)) t = true.
Proof.
  induction 1 as [|ev t Hev _ IH]; simpl; [reflexivity|]. rewrite IH.
  destruct ev; try reflexivity. simpl in Hev. destruct step; [|destruct Hev].
  destruct Hev as [-> _]. reflexivity.
Qed.

Lemma voice_call_step_call c n t :
  Forall (voice_call c n) t -> Forall (step_call scriptToStoryboardLabels c) t.
Proof. intros H. eapply Forall_impl; [exact H|]. intros ev [Hs _]. exact Hs. Qed.

Lemma forallb_app_true {A} (f : A -> bool) (l1 l2 : list A) :
  forallb f l1 = true -> forallb f l2 = true -> forallb f (l1 ++ l2) = true.
Proof. intros H1 H2. rewrite forallb_app, H1, H2. reflexivity. Qed.

(** ** Jobs rejected by the validation *)

Lemma none_app (f : Event -> bool) (t1 t2 : list Event) :
  none f t1 = true -> none f t2 = true -> none f (t1 ++ t2) = true.
Proof. apply forallb_app_true. Qed.

Lemma none_completions (t : list Event) : none is_completion t = true -> completions t = 0%nat.
Proof.
  unfold completions. induction t as [|ev t IH]; simpl; [reflexivity|].
  intros [Hev Ht]%andb_prop. destruct (is_completion ev); [discriminate|]. apply IH, Ht.
Qed.

Lemma quiet_none_completion (t : list Event) :
  forallb quiet_call t = true -> none is_completion t = true.
Proof.
  induction t as [|ev t IH]; simpl; [reflexivity|].
  intros [Hev Ht]%andb_prop. rewrite IH by exact Ht.
  unfold quiet_call in Hev. destruct (is_completion ev); [discriminate|reflexivity].
Qed.

Section Rejections.

Context (E : Env).

Lemma handleStoryToScriptTask_rejected job w e :
  (storyToScript_prepare E job w).1 = Throw e ->
  handleStoryToScriptTask E job w = (Throw e, (storyToScript_prepare E job w).2).
Proof.
  intros H. unfold handleStoryToScriptTask.
  change (_ ≫= _) with
    (bind (storyToScript_prepare E job)
          (fun p => bind (storyToScript_orchestrate E job p)
                         (fun result => storyToScript_persist E p result))).
  unfold bind. destruct (storyToScript_prepare E job w) as [[p|e'] w1]; simpl in *.
  - discriminate H.
  - injection H as ->. reflexivity.
Qed.

Lemma handleScriptToStoryboardTask_rejected job w e :
  (scriptToStoryboard_prepare E job w).1 = Throw e ->
  handleScriptToStoryboardTask E job w = (Throw e, (scriptToStoryboard_prepare E job w).2).
Proof.
  intros H. unfold handleScriptToStoryboardTask.
  change (_ ≫= _) with
    (bind (scriptToStoryboard_prepare E job)
          (fun p => bind (scriptToStoryboard_orchestrate E job p)
                         (fun result => scriptToStoryboard_persist E job p result))).
  unfold bind. destruct (scriptToStoryboard_prepare E job w) as [[p|e'] w1]; simpl in *.
  - discriminate H.
  - injection H as ->. reflexivity.
Qed.

Lemma storyToScript_prepare_calls job w :
  exists t,
    trace (storyToScript_prepare E job w).2 = (trace w ++ t)%list
    /\ forallb is_lookup t = true
    /\ match (storyToScript_prepare E job w).1 with
       | Throw e => In e storyToScript_rejections
       | Ok p => context_of_job E job (p_step p)
       end.
Proof.
  refine (wp_record _
            (fun r t => forallb is_lookup t = true
                        /\ match r with
                           | Throw e => In e storyToScript_rejections
                           | Ok p => context_of_job E job (p_step p)
                           end) _ w).
  apply rec_storyToScript_prepare. auto.
Qed.

Lemma scriptToStoryboard_prepare_calls job w :
  exists t,
    trace (scriptToStoryboard_prepare E job w).2 = (trace w ++ t)%list
    /\ forallb is_lookup t = true
    /\ match (scriptToStoryboard_prepare E job w).1 with
       | Throw e => In e scriptToStoryboard_rejections
       | Ok p => context_of_job E job (q_step p)
       end.
Proof.
  refine (wp_record _
            (fun r t => forallb is_lookup t = true
                        /\ match r with
                           | Throw e => In e scriptToStoryboard_rejections
                           | Ok p => context_of_job E job (q_step p)
                           end) _ w).
  apply rec_scriptToStoryboard_prepare. auto.
Qed.

End Rejections.

(** X1. When the validation of the story-to-script handler (lines 34-109)
    rejects a job, the handler throws that very error, which is one of
    the seven errors of the validation; up to then it has only looked
    things up (findUnique, the model configuration, the registration of
    the project name): no progress report, no completion call, no write,
    and the database is as it was. *)
Theorem storyToScript_rejection_reads_only (E : Env) (job : TaskJobData) (w : World)
    (e : JsError) :
  (storyToScript_prepare E job w).1 = Throw e ->
  In e storyToScript_rejections
  /\ (handleStoryToScriptTask E job w).1 = Throw e
  /\ db (handleStoryToScriptTask E job w).2 = db w
  /\ exists t,
       trace (handleStoryToScriptTask E job w).2 = (trace w ++ t)%list
       /\ forallb is_lookup t = true.
Proof.
  intros H. rewrite (handleStoryToScriptTask_rejected E job w e H). cbn [fst snd].
  destruct (storyToScript_prepare_calls E job w) as (t & Ht & Hl & Hr).
  rewrite H in Hr. repeat split; auto.
  - apply storyToScript_prepare_db.
  - exists t. auto.
Qed.

Lemma storyToScript_rejection_witness :
  (storyToScript_prepare sampleEnv strayJob sampleWorld).1 = Throw (Error "Project not found")
  /\ (handleStoryToScriptTask sampleEnv strayJob sampleWorld).1
     = Throw (Error "Project not found").
Proof.
  split; [vm_compute; reflexivity|].
  apply (storyToScript_rejection_reads_only sampleEnv strayJob sampleWorld).
  vm_compute. reflexivity.
Defined.

(** X2. The same for the script-to-storyboard handler (lines 84-153 of
    its file), whose validation also rejects an episode without clips. *)
Theorem scriptToStoryboard_rejection_reads_only (E : Env) (job : TaskJobData) (w : World)
    (e : JsError) :
  (scriptToStoryboard_prepare E job w).1 = Throw e ->
  In e scriptToStoryboard_rejections
  /\ (handleScriptToStoryboardTask E job w).1 = Throw e
  /\ db (handleScriptToStoryboardTask E job w).2 = db w
  /\ exists t,
       trace (handleScriptToStoryboardTask E job w).2 = (trace w ++ t)%list
       /\ forallb is_lookup t = true.
Proof.
  intros H. rewrite (handleScriptToStoryboardTask_rejected E job w e H). cbn [fst snd].
  destruct (scriptToStoryboard_prepare_calls E job w) as (t & Ht & Hl & Hr).
  rewrite H in Hr. repeat split; auto.
  - apply scriptToStoryboard_prepare_db.
  - exists t. auto.
Qed.

Lemma scriptToStoryboard_rejection_witness :
  (scriptToStoryboard_prepare sampleEnv strayJob sampleWorld).1
  = Throw (Error "Project not found")
  /\ (handleScriptToStoryboardTask sampleEnv strayJob sampleWorld).1
     = Throw (Error "Project not found").
Proof.
  split; [vm_compute; reflexivity|].
  apply (scriptToStoryboard_rejection_reads_only sampleEnv strayJob sampleWorld).
  vm_compute. reflexivity.
Defined.

(** ** The flush of the stream callbacks, the context of the completion
       calls and the last progress report *)

Lemma lookup_none_completion t : forallb is_lookup t = true -> none is_completion t = true.
Proof. intros H. apply quiet_none_completion, lookup_quiet, H. Qed.

Lemma lookup_none_flush t : forallb is_lookup t = true -> none is_flush t = true.
Proof. intros H. apply quiet_no_flush, lookup_quiet, H. Qed.

Lemma lookup_none_done t : forallb is_lookup t = true -> none is_done_report t = true.
Proof. intros H. apply quiet_no_done, lookup_quiet, H. Qed.

Lemma silent_none_flush t : forallb silent_call t = true -> none is_flush t = true.
Proof. intros H. apply quiet_no_flush, silent_quiet, H. Qed.

Lemma silent_none_done t : forallb silent_call t = true -> none is_done_report t = true.
Proof. intros H. apply quiet_no_done, silent_quiet, H. Qed.

Lemma silent_none_completion t : forallb silent_call t = true -> none is_completion t = true.
Proof. intros H. apply quiet_none_completion, silent_quiet, H. Qed.

Lemma silent_in_context c t :
  forallb silent_call t = true -> Forall (completion_in_context c) t.
Proof. intros H. apply quiet_in_context, silent_quiet, H. Qed.

Lemma voice_call_actions c n t :
  Forall (voice_call c n) t ->
  Forall (fun ev => is_completion ev = true -> completionAction ev = Some "voice_analyze") t.
Proof.
  intros H. eapply Forall_impl; [exact H|]. intros ev [_ Hev] Hc.
  destruct ev; try discriminate Hc. simpl. rewrite Hev. reflexivity.
Qed.

Lemma silent_actions t :
  forallb silent_call t = true ->
  Forall (fun ev => is_completion ev = true -> completionAction ev = Some "voice_analyze") t.
Proof.
  intros H. apply silent_none_completion in H.
  induction t as [|ev t IH]; [constructor|]. simpl in H.
  apply andb_prop in H as [Hev Ht]. constructor; [|apply IH, Ht].
  intros Hc. rewrite Hc in Hev. discriminate Hev.
Qed.

Lemma completions_cons (ev : Event) (t : list Event) :
  completions (ev :: t) = ((if is_completion ev then 1 else 0) + completions t)%nat.
Proof. unfold completions. simpl. destruct (is_completion ev); reflexivity. Qed.

Lemma none_completions_le (t : list Event) n :
  none is_completion t = true -> (completions t <= n)%nat.
Proof. intros H. rewrite (none_completions t H). lia. Qed.

(** The events after the persistence phase has finished. *)
Lemma done_none_flush (b : bool) (ev : Event) :
  is_flush ev = false -> none is_flush (if b then [ev] else []) = true.
Proof. intros H. destruct b; simpl; [rewrite H|]; reflexivity. Qed.

Lemma done_none_completion (b : bool) (ev : Event) :
  is_completion ev = false -> none is_completion (if b then [ev] else []) = true.
Proof. intros H. destruct b; simpl; [rewrite H|]; reflexivity. Qed.

(** X3. The stream callbacks are flushed at most once in a run, and
    exactly once when the validation has passed ([finally] of lines
    192-217, resp. 235-279). In the story-to-script handler no completion
    call follows the flush. In the script-to-storyboard handler the
    completion calls of the voice analysis, at most two, are made after
    the flush (lines 318-336), and no other. *)
Theorem completions_and_the_flush (E : Env) (job : TaskJobData) (w : World) :
  (exists t,
     trace (handleStoryToScriptTask E job w).2 = (trace w ++ t)%list
     /\ ((none is_flush t = true /\ none is_completion t = true)
         \/ exists before after,
              t = (before ++ EvFlush :: after)%list
              /\ none is_flush before = true /\ none is_flush after = true
              /\ none is_completion after = true))
  /\ (exists t,
        trace (handleScriptToStoryboardTask E job w).2 = (trace w ++ t)%list
        /\ ((none is_flush t = true /\ none is_completion t = true)
            \/ exists before after,
                 t = (before ++ EvFlush :: after)%list
                 /\ none is_flush before = true /\ none is_flush after = true
                 /\ (completions after <= 2)%nat
                 /\ Forall (fun ev => is_completion ev = true ->
                                      completionAction ev = Some "voice_analyze") after)).
Proof.
  split.
  - destruct (handleStoryToScriptTask_calls E job w) as (t & Ht & [[Hl _]|Hrun]).
    + exists t. split; [exact Ht|]. left.
      auto using lookup_none_flush, lookup_none_completion.
    + destruct Hrun as (c & lookups & steps & body & _ & -> & Hl & Hs & Hb).
      eexists. split; [exact Ht|]. right.
      exists (lookups ++ storyToScript_report10 :: steps)%list,
             (body ++ (if is_Ok (handleStoryToScriptTask E job w).1
                       then [storyToScript_report96] else []))%list.
      split; [list_eq|].
      split; [apply none_app; [apply lookup_none_flush, Hl|];
              apply (none_app _ [_]); [reflexivity | eapply step_call_no_flush, Hs]|].
      destruct Hb as [->|(rest & -> & Hrest)].
      * split; [apply done_none_flush | apply done_none_completion]; reflexivity.
      * split; apply none_app;
          first [ apply done_none_flush; reflexivity
                | apply done_none_completion; reflexivity
                | apply (none_app _ [_]); [reflexivity|];
                  first [apply silent_none_flush, Hrest
                        | apply silent_none_completion, Hrest] ].
  - destruct (handleScriptToStoryboardTask_calls E job w) as (t & Ht & [[Hl _]|Hrun]).
    + exists t. split; [exact Ht|]. left.
      auto using lookup_none_flush, lookup_none_completion.
    + destruct Hrun as (c & lookups & steps & logs & tail & _ & -> & Hl & Hs & Hlogs & Htail).
      eexists. split; [exact Ht|]. right.
      exists (lookups ++ scriptToStoryboard_report10 :: steps ++ logs)%list, tail.
      split; [list_eq|].
      split.
      { apply none_app; [apply lookup_none_flush, Hl|].
        apply (none_app _ [_]); [reflexivity|].
        apply none_app; [eapply step_call_no_flush, Hs|].
        destruct Hlogs as [->| ->]; reflexivity. }
      destruct Htail as [[-> _]|(n & pre & voice & post & k & -> & Hpre & Hv & Hc & _ & _ & _ & Hpost)].
      { repeat split; [unfold completions; simpl; lia | constructor]. }
      split.
      { apply (none_app _ [_]); [reflexivity|].
        apply none_app; [apply silent_none_flush, Hpre|].
        apply none_app; [eapply step_call_no_flush, voice_call_step_call, Hv|].
        apply none_app; [apply silent_none_flush, Hpost|].
        apply done_none_flush. reflexivity. }
      split.
      { rewrite completions_cons, !completions_app.
        rewrite (none_completions pre) by apply silent_none_completion, Hpre.
        rewrite (none_completions post) by apply silent_none_completion, Hpost.
        assert (Hd : forall b : bool,
                   completions (if b then [scriptToStoryboard_report96] else []) = 0%nat)
          by (intros []; reflexivity).
        rewrite Hd. change (is_completion scriptToStoryboard_report80) with false.
        cbv iota. lia. }
      { constructor; [discriminate|].
        apply Forall_app. split; [apply silent_actions, Hpre|].
        apply Forall_app. split; [eapply voice_call_actions, Hv|].
        apply Forall_app. split; [apply silent_actions, Hpost|].
        destruct (is_Ok _); repeat constructor. discriminate. }
Qed.

(** X4. All the completion calls of a run are made for the user and the
    project of the job, with one model, which is not empty, one reasoning
    effort, which is not empty, the temperature parsed from the payload
    and the reasoning flag [payload.reasoning !== false]: the context that
    the two [runStep] closures capture. *)
Theorem completions_share_the_job_context (E : Env) (job : TaskJobData) (w : World) :
  (exists t,
     trace (handleStoryToScriptTask E job w).2 = (trace w ++ t)%list
     /\ (none is_completion t = true
         \/ exists c, context_of_job E job c /\ Forall (completion_in_context c) t))
  /\ (exists t,
        trace (handleScriptToStoryboardTask E job w).2 = (trace w ++ t)%list
        /\ (none is_completion t = true
            \/ exists c, context_of_job E job c /\ Forall (completion_in_context c) t)).
Proof.
  split.
  - destruct (handleStoryToScriptTask_calls E job w) as (t & Ht & [[Hl _]|Hrun]).
    + exists t. split; [exact Ht|]. left. apply lookup_none_completion, Hl.
    + destruct Hrun as (c & lookups & steps & body & Hc & -> & Hl & Hs & Hb).
      eexists. split; [exact Ht|]. right. exists c. split; [exact Hc|].
      apply Forall_app. split; [apply quiet_in_context, lookup_quiet, Hl|].
      constructor; [exact I|].
      apply Forall_app. split; [eapply step_call_in_context, Hs|].
      constructor; [exact I|].
      apply Forall_app. split.
      * destruct Hb as [->|(rest & -> & Hrest)]; [constructor|].
        constructor; [exact I|]. apply silent_in_context, Hrest.
      * destruct (is_Ok _); repeat constructor.
  - destruct (handleScriptToStoryboardTask_calls E job w) as (t & Ht & [[Hl _]|Hrun]).
    + exists t. split; [exact Ht|]. left. apply lookup_none_completion, Hl.
    + destruct Hrun as (c & lookups & steps & logs & tail & Hc & -> & Hl & Hs & Hlogs & Htail).
      eexists. split; [exact Ht|]. right. exists c. split; [exact Hc|].
      apply Forall_app. split; [apply quiet_in_context, lookup_quiet, Hl|].
      constructor; [exact I|].
      apply Forall_app. split; [eapply step_call_in_context, Hs|].
      apply Forall_app. split; [destruct Hlogs as [->| ->]; repeat constructor|].
      constructor; [exact I|].
      destruct Htail as [[-> _]|(n & pre & voice & post & k & -> & Hpre & Hv & _ & _ & _ & _ & Hpost)];
        [constructor|].
      constructor; [exact I|].
      apply Forall_app. split; [apply silent_in_context, Hpre|].
      apply Forall_app. split; [eapply step_call_in_context, voice_call_step_call, Hv|].
      apply Forall_app. split; [apply silent_in_context, Hpost|].
      destruct (is_Ok _); repeat constructor.
Qed.

(** X5. The last progress report of a handler (96, stage
    [..._persist_done]) is made exactly when the handler returns normally,
    and it is then its last call: a run that throws never reports it, a
    run that returns has reported it and has called nothing after. *)
Theorem done_report_iff_success (E : Env) (job : TaskJobData) (w : World) :
  (exists body,
     trace (handleStoryToScriptTask E job w).2
     = (trace w ++ body ++ (if is_Ok (handleStoryToScriptTask E job w).1
                            then [storyToScript_report96] else []))%list
     /\ none is_done_report body = true)
  /\ (exists body,
        trace (handleScriptToStoryboardTask E job w).2
        = (trace w ++ body ++ (if is_Ok (handleScriptToStoryboardTask E job w).1
                               then [scriptToStoryboard_report96] else []))%list
        /\ none is_done_report body = true).
Proof.
  split.
  - destruct (handleStoryToScriptTask_calls E job w) as (t & Ht & [[Hl (e & He & _)]|Hrun]).
    + exists t. rewrite He. simpl. rewrite app_nil_r. split; [exact Ht|].
      apply lookup_none_done, Hl.
    + destruct Hrun as (c & lookups & steps & body & _ & -> & Hl & Hs & Hb).
      exists (lookups ++ storyToScript_report10 :: steps ++ EvFlush :: body)%list.
      split; [rewrite Ht; f_equal; list_eq|].
      apply none_app; [apply lookup_none_done, Hl|].
      apply (none_app _ [_]); [reflexivity|].
      apply none_app; [apply storyToScript_step_no_done with (c := c), Hs|].
      apply (none_app _ [_]); [reflexivity|].
      destruct Hb as [->|(rest & -> & Hrest)]; [reflexivity|].
      apply (none_app _ [_]); [reflexivity|]. apply silent_none_done, Hrest.
  - destruct (handleScriptToStoryboardTask_calls E job w)
      as (t & Ht & [[Hl (e & He & _)]|Hrun]).
    + exists t. rewrite He. simpl. rewrite app_nil_r. split; [exact Ht|].
      apply lookup_none_done, Hl.
    + destruct Hrun as (c & lookups & steps & logs & tail & _ & -> & Hl & Hs & Hlogs & Htail).
      destruct Htail as [[-> Hr]|(n & pre & voice & post & k & -> & Hpre & Hv & _ & _ & _ & _ & Hpost)].
      * exists (lookups ++ scriptToStoryboard_report10 :: steps ++ logs ++ [EvFlush])%list.
        rewrite Hr. split; [rewrite Ht; f_equal; list_eq|].
        apply none_app; [apply lookup_none_done, Hl|].
        apply (none_app _ [_]); [reflexivity|].
        apply none_app; [apply scriptToStoryboard_step_no_done with (c := c), Hs|].
        apply none_app; [destruct Hlogs as [->| ->]; reflexivity | reflexivity].
      * exists (lookups ++ scriptToStoryboard_report10 :: steps ++ logs ++ EvFlush
                  :: scriptToStoryboard_report80 :: pre ++ voice ++ post)%list.
        split; [rewrite Ht; f_equal; list_eq|].
        apply none_app; [apply lookup_none_done, Hl|].
        apply (none_app _ [_]); [reflexivity|].
        apply none_app; [apply scriptToStoryboard_step_no_done with (c := c), Hs|].
        apply none_app; [destruct Hlogs as [->| ->]; reflexivity|].
        apply (none_app _ [_; _]); [reflexivity|].
        apply none_app; [apply silent_none_done, Hpre|].
        apply none_app; [|apply silent_none_done, Hpost].
        apply scriptToStoryboard_step_no_done with (c := c).
        eapply voice_call_step_call, Hv.
Qed.

(** ** The episode without novel text *)

Lemma voicePromptOf_no_text (E : Env) job p persisted :
  hasNoNovelText (q_episode p) = true ->
  voicePromptOf E job p persisted = Throw (Error "No novel text to analyze").
Proof.
  unfold hasNoNovelText, voicePromptOf. destruct (novelText (q_episode p)) as [s|];
    [|reflexivity].
  intros ->. rewrite orb_true_r. reflexivity.
Qed.

(** X6. The script-to-storyboard handler looks at the novel text of the
    episode only after the storyboards and panels have been persisted
    (lines 288-295): a job for an episode without novel text passes the
    validation, runs the whole orchestration with its completion calls,
    persists the storyboards and panels, and only then throws
    'No novel text to analyze'. What the persistence helper wrote stays
    written, and the voice lines are not touched. *)
Theorem novel_text_checked_after_storyboards (E : Env) (job : TaskJobData) (w : World)
    (p : ScriptToStoryboardPrepared) (w1 : World) (result : ScriptToStoryboardResult)
    (w2 : World) (persisted : list PersistedStoryboard) (d' : Db) :
  scriptToStoryboard_prepare E job w = (Ok p, w1) ->
  scriptToStoryboard_orchestrate E job p w1 = (Ok result, w2) ->
  hasNoNovelText (q_episode p) = true ->
  taskTerminated E (trace w2 ++ [scriptToStoryboard_report80])%list = None ->
  persistStoryboardsAndPanels E (q_episodeId p) (clipPanels result) (db w2)
  = (Ok persisted, d') ->
  handleScriptToStoryboardTask E job w
  = (Throw (Error "No novel text to analyze"),
     {| db := d';
        trace := (trace w2 ++ [ scriptToStoryboard_report80;
                                EvAssertTaskActive "script_to_storyboard_persist" true;
                                EvPersist "persistStoryboardsAndPanels" ])%list |}).
Proof.
  intros Hp Ho Htext Hactive Hpersist.
  unfold handleScriptToStoryboardTask.
  change (_ ≫= _) with
    (bind (scriptToStoryboard_prepare E job)
          (fun p => bind (scriptToStoryboard_orchestrate E job p)
                         (fun result => scriptToStoryboard_persist E job p result))).
  unfold bind. rewrite Hp, Ho.
  unfold scriptToStoryboard_persist.
  change (_ ≫= _) with
    (bind (scriptToStoryboard_persistPanels E p result)
          (fun persistedStoryboards =>
             bind (lift (voicePromptOf E job p persistedStoryboards))
                  (fun voicePrompt =>
                     bind (analyzeVoiceLines E (q_step p) (voiceStepMeta result) voicePrompt)
                          (fun voiceLineRows =>
                             bind (persistVoiceLines E (q_episodeId p) persistedStoryboards
                                     voiceLineRows)
                                  (fun createdVoiceLines =>
                                     bind (reportTaskProgress (num_of_Z 96)
                                             "script_to_storyboard_persist_done"
                                             "progress.stage.scriptToStoryboardPersistDone"
                                             None)
                                          (fun _ =>
                                             ret {| out_episodeId := q_episodeId p;
                                                    out_storyboardCount :=
                                                      List.length persistedStoryboards;
                                                    out_panelCount :=
                                                      totalPanelCount (s2b_summary result);
                                                    out_voiceLineCount :=
                                                      List.length createdVoiceLines |})))))).
  unfold bind at 1.
  rewrite (scriptToStoryboard_persistPanels_eval E p result w2 Hactive).
  rewrite Hpersist. cbn [fst snd].
  unfold bind at 1. unfold lift. rewrite voicePromptOf_no_text by exact Htext.
  rewrite <- app_assoc. reflexivity.
Qed.

Lemma novel_text_witness :
  (handleScriptToStoryboardTask sampleEnv sampleJob textlessWorld).1
  = Throw (Error "No novel text to analyze")
  /\ completions (trace (handleScriptToStoryboardTask sampleEnv sampleJob textlessWorld).2)
     = 1%nat
  /\ List.filter is_write
       (trace (handleScriptToStoryboardTask sampleEnv sampleJob textlessWorld).2)
     = [EvPersist "persistStoryboardsAndPanels"].
Proof.
  pose proof (novel_text_checked_after_storyboards sampleEnv sampleJob textlessWorld
                _ _ _ _ _ _ eq_refl eq_refl eq_refl eq_refl eq_refl) as H.
  rewrite H. vm_compute. auto.
Defined.

(** ** The panel references of the voice lines *)

Lemma foldl_insert_lookup (entries : list (string * string)) (m : gmap string string)
    (k v : string) :
  foldl (fun m kv => <[kv.1 := kv.2]> m) m entries !! k = Some v ->
  m !! k = Some v \/ In (k, v) entries.
Proof.
  revert m. induction entries as [|[k' v'] entries IH]; intros m; simpl; [auto|].
  intros H. destruct (IH _ H) as [Hm|Hin]; [|auto].
  destruct (decide (k' = k)) as [->|Hne].
  - rewrite lookup_insert in Hm. 
    destruct (decide (k = k)); [|congruence]. injection Hm as ->. auto.
  - rewrite lookup_insert_ne in Hm by exact Hne. auto.
Qed.

Lemma map_of_entries_lookup (entries : list (string * string)) (k v : string) :
  map_of_entries entries !! k = Some v -> In (k, v) entries.
Proof.
  intros H. apply foldl_insert_lookup in H as [H|H]; [|exact H].
  rewrite lookup_empty in H. discriminate H.
Qed.

Lemma panelIdByStoryboardPanel_lookup persisted key panelId :
  panelIdByStoryboardPanel persisted !! key = Some panelId ->
  exists storyboard panel,
    In storyboard persisted /\ In panel (panels storyboard)
    /\ panel_id panel = panelId
    /\ key = storyboardId storyboard +:+ ":" +:+ show (panelIndex panel).
Proof.
  intros H. apply map_of_entries_lookup in H.
  apply in_flat_map in H as (storyboard & Hs & H).
  apply in_map_iff in H as (panel & Heq & Hp).
  injection Heq as <- <-. eauto 10.
Qed.

Section PanelReferences.

Context (E : Env).

Lemma resolveMatchedPanel_Ok panelMap i row panelId sid idx :
  resolveMatchedPanel E panelMap i row = Ok (panelId, sid, idx) ->
  (panelId = None /\ sid = None /\ idx = None)
  \/ (exists p s n,
        panelId = Some p /\ sid = Some s /\ idx = Some n
        /\ panelMap !! (s +:+ ":" +:+ show n) = Some p).
Proof.
  unfold resolveMatchedPanel.
  destruct (asJsonRecord E (field row "matchedPanel")) as [mp|].
  2:{ intros [= <- <- <-]. auto. }
  destruct (field mp "storyboardId") as [| |b0|n0|s|items0|fields0];
    try discriminate; try (destruct (toPositiveInt E _); discriminate).
  destruct (toPositiveInt E (field mp "panelIndex")) as [n|]; [|discriminate].
  destruct (str_empty (trim s)); [discriminate|].
  destruct (panelMap !! _) as [p|] eqn:Hlook; [|discriminate].
  destruct (str_empty p); [discriminate|].
  intros [= <- <- <-]. right. eauto 10.
Qed.

Lemma voiceLineDataOf_reference persisted episodeId i row data :
  voiceLineDataOf E episodeId (panelIdByStoryboardPanel persisted) i row = Ok data ->
  referencesPersistedPanel persisted data.
Proof.
  unfold voiceLineDataOf.
  destruct (resolveMatchedPanel E _ i row) as [[[panelId sid] idx]|e] eqn:Hr;
    [|discriminate].
  change (Ok (panelId, sid, idx) ≫= _) with
    (match field row "emotionStrength" with
     | JNum (Fin rowEmotionStrength) =>
         match field row "lineIndex" with
         | JNum (Fin rowLineIndex) =>
             if (Qfloor rowLineIndex <=? 0)%Z
             then Throw (Error ("voice line " +:+ show (Z.of_nat i + 1)
                                +:+ " has invalid lineIndex"))
             else
               match field row "speaker" with
               | JStr speaker =>
                   if str_empty (trim speaker)
                   then Throw (Error ("voice line " +:+ show (Z.of_nat i + 1)
                                      +:+ " is missing valid speaker"))
                   else
                     match field row "content" with
                     | JStr content =>
                         if str_empty (trim content)
                         then Throw (Error ("voice line " +:+ show (Z.of_nat i + 1)
                                            +:+ " is missing valid content"))
                         else
                           Ok {| vl_episodeId := episodeId;
                                 vl_lineIndex := Qfloor rowLineIndex;
                                 vl_speaker := trim speaker;
                                 vl_content := content;
                                 vl_emotionStrength :=
                                   num_min (num_of_Z 1)
                                     (num_max num_0_1 (Fin rowEmotionStrength));
                                 vl_matchedPanelId := panelId;
                                 vl_matchedStoryboardId :=
                                   match panelId with
                                   | Some _ => sid
                                   | None => None
                                   end;
                                 vl_matchedPanelIndex := idx |}
                     | _ => Throw (Error ("voice line " +:+ show (Z.of_nat i + 1)
                                          +:+ " is missing valid content"))
                     end
               | _ => Throw (Error ("voice line " +:+ show (Z.of_nat i + 1)
                                    +:+ " is missing valid speaker"))
               end
         | _ => Throw (Error ("voice line " +:+ show (Z.of_nat i + 1)
                              +:+ " is missing valid lineIndex"))
         end
     | _ => Throw (Error ("voice line " +:+ show (Z.of_nat i + 1)
                          +:+ " is missing valid emotionStrength"))
     end).
  destruct (field row "emotionStrength") as [| |b1|[|neg1|x]|s1|items1|fields1];
    try discriminate.
  destruct (field row "lineIndex") as [| |b2|[|neg2|y]|s2|items2|fields2];
    try discriminate.
  destruct (Qfloor y <=? 0)%Z; [discriminate|].
  destruct (field row "speaker") as [| |b3|n3|speaker|items3|fields3]; try discriminate.
  destruct (str_empty (trim speaker)); [discriminate|].
  destruct (field row "content") as [| |b4|n4|content|items4|fields4]; try discriminate.
  destruct (str_empty (trim content)); [discriminate|].
  intros Hd. apply Ok_inj in Hd. subst data.
  unfold referencesPersistedPanel.
  cbn [vl_matchedPanelId vl_matchedStoryboardId vl_matchedPanelIndex].
  apply resolveMatchedPanel_Ok in Hr as [(-> & -> & ->)|(p & s & n & -> & -> & -> & Hl)].
  - auto.
  - apply panelIdByStoryboardPanel_lookup in Hl
      as (storyboard & panel & Hs & Hp & Hid & Hkey).
    exists s, n, storyboard, panel. auto 10.
Qed.

Lemma voiceLineDataList_reference persisted episodeId rows i datas :
  voiceLineDataList E episodeId (panelIdByStoryboardPanel persisted) i rows = Ok datas ->
  Forall (referencesPersistedPanel persisted) datas.
Proof.
  revert i datas. induction rows as [|row later IH]; intros i datas; simpl.
  - intros [= <-]. constructor.
  - destruct (voiceLineDataOf E _ _ i row) as [data|e] eqn:Hd; [|discriminate].
    destruct (voiceLineDataList E _ _ _ later) as [rest|e] eqn:Hl; [|discriminate].
    intros [= <-]. constructor; [|eapply IH, Hl].
    eapply voiceLineDataOf_reference, Hd.
Qed.

End PanelReferences.

(** X7. After the voice-line persistence of lines 341-408 has succeeded,
    every voice line of the episode either has its three panel columns
    ([matchedPanelId], [matchedStoryboardId], [matchedPanelIndex]) null, or
    carries the identifier of a panel that this run persisted, together
    with a storyboard identifier and a panel index whose key
    [storyboardId:panelIndex] is the key of that panel. *)
Theorem voice_lines_reference_persisted_panels (E : Env) (episodeId : string)
    (persisted : list PersistedStoryboard) (rows : list JsonRecord) (w : World)
    (ids : list N) :
  (persistVoiceLines E episodeId persisted rows w).1 = Ok ids ->
  Forall (fun v => referencesPersistedPanel persisted (vl_data v))
    (voiceLinesOf episodeId (db (persistVoiceLines E episodeId persisted rows w).2)).
Proof.
  rewrite persistVoiceLines_unfold.
  destruct (taskTerminated E (trace w)); [discriminate|].
  set (w' := {| db := db w; trace := _ |}).
  pose proof (voiceLineTransaction_eval E episodeId (panelIdByStoryboardPanel persisted)
                rows w') as H.
  destruct (voiceLineDataList E episodeId _ 0 rows) as [datas|e] eqn:Hd.
  2:{ destruct H as [-> _]. discriminate. }
  destruct H as (ids' & _ & _ & Hdb). intros _. rewrite Hdb.
  destruct (voiceLineDataList_ok E _ _ _ _ _ Hd) as [_ Hep].
  apply Forall_map with (f := vl_data) (P := referencesPersistedPanel persisted).
  rewrite (voiceLinesOf_foldl_insert episodeId datas _ Hep).
  rewrite voiceLinesOf_delete. simpl.
  eapply voiceLineDataList_reference, Hd.
Qed.

Lemma voice_lines_reference_witness :
  Forall (fun v => referencesPersistedPanel samplePersisted (vl_data v))
    (voiceLinesOf "episode-1"
       (db (persistVoiceLines sampleEnv "episode-1" samplePersisted [sampleRow]
              sampleWorld).2))
  /\ map (fun v => vl_matchedPanelId (vl_data v))
       (voiceLinesOf "episode-1"
          (db (persistVoiceLines sampleEnv "episode-1" samplePersisted [sampleRow]
                 sampleWorld).2))
     = [Some "panel-1"].
Proof.
  split; [|vm_compute; reflexivity].
  apply (voice_lines_reference_persisted_panels sampleEnv "episode-1" samplePersisted
           [sampleRow] sampleWorld [0%N]).
  vm_compute. reflexivity.
Defined.

(** ** The screenplays written by the story-to-script handler *)

Section Screenplays.

Context (E : Env).

(** One pass of the loop: no call, or the update of one clip. *)
Lemma persistScreenplay_calls clipIdMap item w :
  persistScreenplay E clipIdMap item w = (Ok tt, w)
  \/ exists ev,
       writtenScreenplay E clipIdMap item ev
       /\ trace (persistScreenplay E clipIdMap item w).2 = (trace w ++ [ev])%list.
Proof.
  unfold persistScreenplay, writtenScreenplay.
  destruct (sr_success item); [|left; reflexivity].
  destruct (sr_screenplay item) as [screenplay|]; [|left; reflexivity].
  cbn [negb orb from_option default].
  destruct (truthy screenplay) eqn:Ht; [|left; reflexivity].
  cbn [negb].
  destruct (resolveClipRecordId E clipIdMap (sr_clipId item)) as [clipRecordId|] eqn:Hr;
    [|left; reflexivity].
  destruct (str_empty clipRecordId) eqn:Hc; [left; reflexivity|].
  right. exists (EvClipUpdate clipRecordId (jsonStringify E screenplay)). split.
  - exists screenplay, clipRecordId. apply str_empty_false in Hc. auto 10.
  - unfold clipUpdate. unfold_m. cbn [db trace].
    destruct (existsb _ _); reflexivity.
Qed.

Lemma persistScreenplay_unresolved clipIdMap item w :
  resolveClipRecordId E clipIdMap (sr_clipId item) = None ->
  persistScreenplay E clipIdMap item w = (Ok tt, w).
Proof.
  intros H. unfold persistScreenplay. rewrite H.
  destruct (_ || _); reflexivity.
Qed.

End Screenplays.

(** X8. The loop of lines 273-283 updates a clip only for a screenplay
    result that succeeded, carries a screenplay and whose clip identifier
    resolves to a record: each call it makes is the update of such a
    record with the serialized screenplay of such a result, and it makes
    at most one call per result. A result whose clip identifier does not
    resolve is skipped without an error: when none resolves the loop
    returns normally and has written nothing. *)
Theorem only_resolved_screenplays_are_written (E : Env) (clipIdMap : gmap string string)
    (results : list ScreenplayResult) (w : World) :
  (exists t,
     trace (forEach (persistScreenplay E clipIdMap) results w).2 = (trace w ++ t)%list
     /\ Forall (fun ev => exists item,
                    In item results /\ writtenScreenplay E clipIdMap item ev) t
     /\ (List.length t <= List.length results)%nat)
  /\ ((forall item, In item results ->
         resolveClipRecordId E clipIdMap (sr_clipId item) = None) ->
      forEach (persistScreenplay E clipIdMap) results w = (Ok tt, w)).
Proof.
  split.
  - revert w. induction results as [|item rest IH]; intros w; simpl.
    + exists []. rewrite app_nil_r.
      split; [reflexivity|]. split; [apply List.Forall_nil | simpl; lia].
    + unfold bind.
      destruct (persistScreenplay_calls E clipIdMap item w) as [Hskip|(ev & Hev & Htr)].
      * rewrite Hskip. destruct (IH w) as (t & Ht & Hall & Hlen).
        exists t. split; [exact Ht|]. split; [|lia].
        eapply Forall_impl; [exact Hall|].
        intros ev' (item' & Hin & Hw). exists item'. auto.
      * destruct (persistScreenplay E clipIdMap item w) as [[[]|e] w1]; cbn [snd] in Htr.
        -- destruct (IH w1) as (t & Ht & Hall & Hlen).
           exists (ev :: t). rewrite Ht, Htr, <- app_assoc.
           split; [reflexivity|]. split; [|simpl; lia].
           constructor; [exists item; auto|].
           eapply Forall_impl; [exact Hall|].
           intros ev' (item' & Hin & Hw). exists item'. auto.
        -- exists [ev]. cbn [snd]. split; [exact Htr|]. split; [|simpl; lia].
           constructor; [exists item; auto | constructor].
  - revert w. induction results as [|item rest IH]; intros w Hnone; simpl; [reflexivity|].
    unfold bind. rewrite persistScreenplay_unresolved by (apply Hnone; left; reflexivity).
    apply IH. intros item' Hin. apply Hnone. right. exact Hin.
Qed.

(** ** The progress reported by the voice analysis *)

(** The last step of a job reports 70. *)
Lemma stepProgress_last (n : Z) :
  (1 <= n)%Z -> (n <= MAX_VALUE)%Z -> stepProgress n n = Fin 70.
Proof.
  intros H1 Hmax. unfold stepProgress.
  destruct (round64_between 1 (inject_Z MAX_VALUE) 1 (inject_Z MAX_VALUE)
              (inject_Z n) (inject_Z n)) as (x & y & Hx & _ & Hx1 & _ & _).
  { discriminate. }
  { change 1%Q with (inject_Z 1). rewrite <- Zle_Qle. exact H1. }
  { apply Qle_refl. }
  { rewrite <- Zle_Qle. exact Hmax. }
  { vm_compute. reflexivity. }
  { exact round64_MAX_VALUE. }
  change (num_of_Z n) with (round64 (inject_Z n)). rewrite Hx, num_of_Z_1.
  assert (Hmaxx : num_max (Fin 1) (Fin x) = Fin x).
  { simpl. apply Qle_bool_iff in Hx1. rewrite Hx1. reflexivity. }
  rewrite Hmaxx.
  assert (Hnz : Qeq_bool x 0 = false).
  { destruct (Qeq_bool x 0) eqn:Hq; [|reflexivity].
    apply Qeq_bool_iff in Hq. lra. }
  assert (Hxx : (x / x == 1)%Q) by (field; lra).
  destruct (round64_between 1 1 1 1 (x / x) (x / x)) as (c & c' & Hc & _ & Hc1 & Hcc & Hc2).
  { lra. }
  { lra. }
  { lra. }
  { lra. }
  { vm_compute. reflexivity. }
  { vm_compute. reflexivity. }
  assert (Hdiv : num_div (Fin x) (Fin x) = Fin c).
  { simpl. rewrite Hnz. exact Hc. }
  rewrite Hdiv, num_of_Z_55.
  destruct (round64_between 55 55 55 55 (c * 55) (c * 55))
    as (m & m' & Hm & _ & Hm1 & Hmm & Hm2).
  { lra. }
  { lra. }
  { lra. }
  { lra. }
  { vm_compute. reflexivity. }
  { vm_compute. reflexivity. }
  assert (Hmul : num_mul (Fin c) (Fin 55) = Fin m) by exact Hm.
  rewrite Hmul.
  assert (Hfloor : Qfloor m = 55%Z).
  { apply Z.le_antisymm.
    - change 55%Z with (Qfloor (inject_Z 55)). apply Qfloor_resp_le.
      unfold inject_Z. lra.
    - change 55%Z with (Qfloor (inject_Z 55)). apply Qfloor_resp_le.
      unfold inject_Z. lra. }
  cbn [num_floor]. rewrite Hfloor. vm_compute. reflexivity.
Qed.

Lemma reportedPercents_done (b : bool) (ev : Event) (x : number) :
  reportedPercents [ev] = [x] ->
  reportedPercents (if b then [ev] else []) = (if b then [x] else []).
Proof. intros H. destruct b; [exact H | reflexivity]. Qed.

(** X9. In the script-to-storyboard handler, what follows the
    orchestration reports 80, then the progress of the voice-analysis
    step, then 96 (lines 281-414). The voice-analysis step is the step
    [totalStepCount] of [totalStepCount] (lines 312-317), so that it
    reports 70 whenever the orchestrator counted at least one step: once
    per attempt, at most twice, and at least once when the handler
    returns normally. The percentage of a successful run thus goes from 80
    back to 70 before it reaches 96. *)
Theorem voice_analysis_reports_70_after_80 (E : Env) (job : TaskJobData)
    (p : ScriptToStoryboardPrepared) (result : ScriptToStoryboardResult) (w : World) :
  (1 <= totalStepCount (s2b_summary result))%Z ->
  (totalStepCount (s2b_summary result) <= MAX_VALUE)%Z ->
  exists t k,
    trace (scriptToStoryboard_persist E job p result w).2 = (trace w ++ t)%list
    /\ (k <= 2)%nat
    /\ (is_Ok (scriptToStoryboard_persist E job p result w).1 = true -> (1 <= k)%nat)
    /\ reportedPercents t
       = (Fin 80 :: repeat (Fin 70) k
            ++ (if is_Ok (scriptToStoryboard_persist E job p result w).1
                then [Fin 96] else []))%list.
Proof.
  intros H1 Hmax.
  assert (Hwp : wp recordStep (scriptToStoryboard_persist E job p result)
    (fun r t => exists k,
         (k <= 2)%nat /\ (is_Ok r = true -> (1 <= k)%nat)
         /\ reportedPercents t
            = (Fin 80 :: repeat (Fin 70) k ++ (if is_Ok r then [Fin 96] else []))%list)
    []).
  { apply rec_scriptToStoryboard_persist.
    intros r pre voice post k Hpre Hv Hc Hp Hk Hok Hpost. exists k.
    split; [exact Hk|]. split; [exact Hok|].
    cbn [app]. rewrite reportedPercents_cons, !reportedPercents_app, Hp.
    rewrite (silent_reportedPercents pre Hpre), (silent_reportedPercents post Hpost).
    rewrite (stepProgress_last _ H1 Hmax).
    rewrite (reportedPercents_done _ _ (Fin 96)) by (vm_compute; reflexivity).
    vm_compute (reportedPercents [scriptToStoryboard_report80]). reflexivity. }
  destruct (wp_record _ _ Hwp w) as (t & Ht & k & Hk & Hok & Hp).
  exists t, k. auto.
Qed.

Lemma voice_analysis_progress_witness :
  (1 <= totalStepCount (s2b_summary sampleStoryboardResult))%Z
  /\ (totalStepCount (s2b_summary sampleStoryboardResult) <= MAX_VALUE)%Z
  /\ exists t k,
       trace (scriptToStoryboard_persist sampleEnv sampleJob sampleStoryboardPrepared
                sampleStoryboardResult sampleWorld).2
       = (trace sampleWorld ++ t)%list
       /\ (k <= 2)%nat
       /\ (is_Ok (scriptToStoryboard_persist sampleEnv sampleJob sampleStoryboardPrepared
                    sampleStoryboardResult sampleWorld).1 = true -> (1 <= k)%nat)
       /\ reportedPercents t
          = (Fin 80 :: repeat (Fin 70) k
               ++ (if is_Ok (scriptToStoryboard_persist sampleEnv sampleJob
                               sampleStoryboardPrepared sampleStoryboardResult
                               sampleWorld).1
                   then [Fin 96] else []))%list.
Proof.
  split; [simpl; lia|]. split; [vm_compute; discriminate|].
  apply (voice_analysis_reports_70_after_80 sampleEnv sampleJob sampleStoryboardPrepared
           sampleStoryboardResult sampleWorld).
  - simpl. lia.
  - vm_compute. discriminate.
Defined.

(** ** The order of the progress reports of the story-to-script handler *)

Lemma lookup_reportedPercents (t : list Event) :
  forallb is_lookup t = true -> reportedPercents t = [].
Proof.
  induction t as [|ev t IH]; simpl; [reflexivity|].
  intros [Hev Ht]%andb_prop. rewrite IH by exact Ht.
  destruct ev; try discriminate Hev; reflexivity.
Qed.

Lemma stepProgress_within (i t : Z) :
  (0 <= i)%Z -> (i <= t)%Z -> (t <= MAX_VALUE)%Z -> within 15 70 (stepProgress i t).
Proof.
  intros Hi Hit Ht.
  destruct (stepProgress_between i i t Hi (Z.le_refl i) Hit Ht)
    as (x & y & Hx & Hy & Hlo & Hxy & Hhi).
  exists x. split; [exact Hx|]. rewrite Hx in Hy. injection Hy as <-. auto.
Qed.

Section StageOrder.

Context (E : Env).

Lemma rec_runOrch_within {R} L c (o : Orch R) (Q : outcome R -> list Event -> Prop) s :
  stepsWithinTotal o ->
  (forall r t,
      Forall (within 15 70) (reportedPercents t) ->
      List.length (reportedPercents t) = completions t ->
      Q r (s ++ t)%list) ->
  wp recordStep (runOrch (runStep E L c) o) Q s.
Proof.
  revert s Q. induction o as [r|e|meta prompt action n k IH]; intros s Q Hin H; simpl.
  - apply wp_ret. rewrite <- (app_nil_r s). apply H; [constructor | reflexivity].
  - apply wp_throw. rewrite <- (app_nil_r s). apply H; [constructor | reflexivity].
  - destruct Hin as (Hi & Hit & Ht & Hk).
    intros w.
    destruct (runStep_calls E L c meta prompt action n w) as (t1 & Ht1 & Hc).
    assert (Hp1 : Forall (within 15 70) (reportedPercents t1)
                  /\ List.length (reportedPercents t1) = completions t1).
    { pose proof (stepProgress_within _ _ Hi Hit Ht) as Hw.
      destruct Hc as [[-> _]|[[-> _]|[-> _]]].
      - split; [constructor | reflexivity].
      - unfold stepEvents. simpl. split; [|reflexivity].
        constructor; [exact Hw | constructor].
      - unfold stepEvents. simpl. split; [|reflexivity].
        constructor; [exact Hw | constructor]. }
    destruct Hp1 as [Hp1 Hn1].
    destruct (runStep E L c meta prompt action n w) as [r w1]; cbn [fst snd] in *.
    assert (Hwp : wp recordStep (runOrch (runStep E L c) (k r)) Q (s ++ t1)%list).
    { apply IH; [apply Hk|]. intros r' t Hp Hn. rewrite <- app_assoc. apply H.
      - rewrite reportedPercents_app. apply Forall_app. auto.
      - rewrite reportedPercents_app, length_app, completions_app. lia. }
    destruct (Hwp w1) as (t2 & s2 & Ht2 & Hs2 & Hq).
    exists (t1 ++ t2)%list, s2.
    rewrite Ht2, Ht1, scan_app, app_assoc.
    rewrite scan_recordStep in Hs2. injection Hs2 as <-.
    rewrite !scan_recordStep. rewrite <- !app_assoc. rewrite <- app_assoc in Hq. auto.
Qed.

Lemma rec_storyToScript_orchestrate_within job p
    (Q : outcome StoryToScriptResult -> list Event -> Prop) s :
  stepsWithinTotal (runStoryToScriptOrchestrator E (storyToScriptInput E job p)) ->
  (forall r body,
      (exists steps, reportedPercents body = Fin 10 :: steps
                     /\ Forall (within 15 70) steps
                     /\ List.length steps = completions body) ->
      Q r (s ++ body)%list) ->
  wp recordStep (storyToScript_orchestrate E job p) Q s.
Proof.
  intros Hin H. unfold storyToScript_orchestrate, reportTaskProgress, flush.
  apply wp_mbind. eapply wp_emit; [reflexivity|].
  apply wp_try_finally. apply rec_runOrch_within; [exact Hin|]. intros r steps Hsteps Hn.
  eapply wp_emit; [reflexivity|].
  rewrite <- !app_assoc. apply H.
  exists (reportedPercents steps). split; [|split].
  - cbn [app]. fold storyToScript_report10.
    rewrite reportedPercents_cons, reportedPercents_app.
    change (reportedPercents [EvFlush]) with (@nil number). rewrite app_nil_r.
    vm_compute (reportedPercents [storyToScript_report10]). reflexivity.
  - exact Hsteps.
  - rewrite Hn. cbn [app]. rewrite completions_cons, completions_app.
    change (completions [EvFlush]) with 0%nat.
    change (is_completion (EvReportTaskProgress _ _ _ _)) with false. cbv iota. lia.
Qed.

(** What follows the validation of a job that passes it. *)
Lemma storyToScript_after_validation job p w :
  (forall input, stepsWithinTotal (runStoryToScriptOrchestrator E input)) ->
  let run := (storyToScript_orchestrate E job p
                ≫= fun result => storyToScript_persist E p result) w in
  exists t,
    trace run.2 = (trace w ++ t)%list
    /\ exists steps tail,
         reportedPercents t = (Fin 10 :: steps ++ tail)%list
         /\ Forall (within 15 70) steps
         /\ List.length steps = completions t
         /\ (tail = [] \/ tail = [Fin 80] \/ tail = [Fin 80; Fin 96])
         /\ (is_Ok run.1 = true <-> tail = [Fin 80; Fin 96]).
Proof.
  intros Hin run. subst run.
  refine (wp_record _
            (fun r t =>
               exists steps tail,
                 reportedPercents t = (Fin 10 :: steps ++ tail)%list
                 /\ Forall (within 15 70) steps
                 /\ List.length steps = completions t
                 /\ (tail = [] \/ tail = [Fin 80] \/ tail = [Fin 80; Fin 96])
                 /\ (is_Ok r = true <-> tail = [Fin 80; Fin 96])) _ w).
  apply wp_mbind. apply rec_storyToScript_orchestrate_within; [apply Hin|].
  intros [result|e] body (steps & Hbody & Hsteps & Hn).
  2:{ exists steps, []. rewrite app_nil_r. cbn [app].
      split; [exact Hbody|]. split; [exact Hsteps|]. split; [exact Hn|].
      split; [auto|]. split; discriminate. }
  apply rec_storyToScript_persist. intros r persist Hpersist.
  exists steps. cbn [app].
  destruct Hpersist as [[-> Hr]|(rest & -> & Hrest)].
  - exists []. rewrite Hr. cbn [app]. rewrite !app_nil_r.
    split; [exact Hbody|]. split; [exact Hsteps|]. split; [exact Hn|].
    split; [auto|]. split; discriminate.
  - exists (Fin 80 :: (if is_Ok r then [Fin 96] else []))%list.
    split.
    { rewrite reportedPercents_app, Hbody. cbn [app].
      rewrite reportedPercents_cons, reportedPercents_app,
        (silent_reportedPercents rest Hrest).
      vm_compute (reportedPercents [storyToScript_report80]).
      destruct (is_Ok r); [vm_compute (reportedPercents [storyToScript_report96])|];
        rewrite <- ?app_assoc; reflexivity. }
    split; [exact Hsteps|].
    split.
    { rewrite Hn, completions_app. cbn [app].
      rewrite completions_cons, completions_app,
        (none_completions rest (silent_none_completion rest Hrest)).
      change (is_completion storyToScript_report80) with false. cbv iota.
      destruct (is_Ok r); cbn; lia. }
    destruct (is_Ok r); split; auto; split; auto; discriminate.
Qed.

End StageOrder.

(** X10. In the story-to-script handler the progress reports come in the
    order of the stages, provided each step of the orchestrator numbers
    itself within its total. A job that the validation rejects is thrown
    back with the error of the validation and reports nothing. A job that
    passes the validation first reports 10, then one value between 15 and
    70 for each step that reaches its completion call, as many values as
    the run makes completion calls, then 80 when the persistence starts
    and 96 when it is done. In both cases the handler returns normally
    exactly when it has reported 96. *)
Theorem storyToScript_reports_in_stage_order (E : Env) (job : TaskJobData) (w : World) :
  (forall input, stepsWithinTotal (runStoryToScriptOrchestrator E input)) ->
  exists t,
    trace (handleStoryToScriptTask E job w).2 = (trace w ++ t)%list
    /\ (is_Ok (handleStoryToScriptTask E job w).1 = true
        <-> In (Fin 96) (reportedPercents t))
    /\ match (storyToScript_prepare E job w).1 with
       | Throw e =>
           (handleStoryToScriptTask E job w).1 = Throw e
           /\ reportedPercents t = []
       | Ok _ =>
           exists steps tail,
             reportedPercents t = (Fin 10 :: steps ++ tail)%list
             /\ Forall (within 15 70) steps
             /\ List.length steps = completions t
             /\ (tail = [] \/ tail = [Fin 80] \/ tail = [Fin 80; Fin 96])
             /\ (is_Ok (handleStoryToScriptTask E job w).1 = true
                 <-> tail = [Fin 80; Fin 96])
       end.
Proof.
  intros Hin.
  destruct (storyToScript_prepare_calls E job w) as (lookups & Hl & Hlook & _).
  destruct (storyToScript_prepare E job w) as [[p|e] w1] eqn:Hprep; cbn [fst snd] in *.
  - assert (Hrun : handleStoryToScriptTask E job w
                   = (storyToScript_orchestrate E job p
                        ≫= fun result => storyToScript_persist E p result) w1).
    { unfold handleStoryToScriptTask.
      change ((storyToScript_prepare E job ≫= _) w)
        with (bind (storyToScript_prepare E job)
                (fun p => storyToScript_orchestrate E job p
                            ≫= fun result => storyToScript_persist E p result) w).
      unfold bind at 1. rewrite Hprep. reflexivity. }
    destruct (storyToScript_after_validation E job p w1 Hin)
      as (t & Ht & steps & tail & Hrep & Hsteps & Hn & Htail & Hok).
    rewrite <- Hrun in Ht, Hok.
    assert (Hall : reportedPercents (lookups ++ t) = (Fin 10 :: steps ++ tail)%list).
    { rewrite reportedPercents_app, (lookup_reportedPercents _ Hlook). exact Hrep. }
    exists (lookups ++ t)%list. split; [rewrite Ht, Hl, app_assoc; reflexivity|].
    split.
    + rewrite Hall, Hok. split.
      * intros ->. right. apply in_or_app. right. right. left. reflexivity.
      * intros [H10|H96]; [discriminate H10|].
        apply in_app_or in H96 as [Hs|Ht96].
        -- exfalso. rewrite Forall_forall in Hsteps.
           destruct (Hsteps (Fin 96)) as (q & Hq & _ & Hhi).
           { apply list_elem_of_In. exact Hs. }
           injection Hq as <-. revert Hhi. apply Qlt_not_le. reflexivity.
        -- destruct Htail as [-> | [-> | ->]]; [destruct Ht96 | | reflexivity].
           destruct Ht96 as [H|H]; [discriminate H | destruct H].
    + exists steps, tail. split; [exact Hall|]. split; [exact Hsteps|].
      split; [|auto].
      rewrite Hn, completions_app,
        (none_completions lookups (lookup_none_completion lookups Hlook)). reflexivity.
  - rewrite (handleStoryToScriptTask_rejected E job w e) by (rewrite Hprep; reflexivity).
    rewrite Hprep. cbn [fst snd].
    exists lookups. rewrite (lookup_reportedPercents _ Hlook).
    split; [exact Hl|]. split; [|auto].
    split; [discriminate | intros Hin96; destruct Hin96].
Qed.

Lemma storyToScript_stage_order_witness :
  exists t,
    trace (handleStoryToScriptTask sampleEnv sampleJob sampleWorld).2
    = (trace sampleWorld ++ t)%list
    /\ (is_Ok (handleStoryToScriptTask sampleEnv sampleJob sampleWorld).1 = true
        <-> In (Fin 96) (reportedPercents t))
    /\ match (storyToScript_prepare sampleEnv sampleJob sampleWorld).1 with
       | Throw e =>
           (handleStoryToScriptTask sampleEnv sampleJob sampleWorld).1 = Throw e
           /\ reportedPercents t = []
       | Ok _ =>
           exists steps tail,
             reportedPercents t = (Fin 10 :: steps ++ tail)%list
             /\ Forall (within 15 70) steps
             /\ List.length steps = completions t
             /\ (tail = [] \/ tail = [Fin 80] \/ tail = [Fin 80; Fin 96])
             /\ (is_Ok (handleStoryToScriptTask sampleEnv sampleJob sampleWorld).1 = true
                 <-> tail = [Fin 80; Fin 96])
       end.
Proof.
  apply (storyToScript_reports_in_stage_order sampleEnv sampleJob sampleWorld).
  intros input. simpl. repeat split; try lia. vm_compute. discriminate.
Defined.

(** ** What the script-to-storyboard handler returns *)

Lemma mbind_Ok {A B} (m : M A) (k : A -> M B) (w : World) (b : B) (w' : World) :
  (m ≫= k) w = (Ok b, w') ->
  exists a w1, m w = (Ok a, w1) /\ k a w1 = (Ok b, w').
Proof.
  unfold mbind, M_bind, bind. destruct (m w) as [[a|e] w1]; [|discriminate].
  intros H. exists a, w1. split; [reflexivity | exact H].
Qed.

(** X11. The number of voice lines that the script-to-storyboard handler
    returns is the number of voice lines that the episode has in the
    database when the handler returns: the rows created by the run, the
    earlier ones being deleted in the same transaction. Nothing follows
    the transaction but the last progress report, so that no write of
    others, which the model admits during a completion call, comes in
    between (lines 341-421). *)
Theorem returned_voice_line_count_is_stored (E : Env) (job : TaskJobData) (w : World)
    (out : ScriptToStoryboardReturn) (w' : World) :
  handleScriptToStoryboardTask E job w = (Ok out, w') ->
  out_voiceLineCount out
  = List.length (voiceLinesOf (out_episodeId out) (db w')).
Proof.
  unfold handleScriptToStoryboardTask. intros H.
  apply mbind_Ok in H as (p & w1 & _ & H).
  apply mbind_Ok in H as (result & w2 & _ & H).
  unfold scriptToStoryboard_persist in H.
  apply mbind_Ok in H as (persisted & w3 & _ & H).
  apply mbind_Ok in H as (voicePrompt & w4 & _ & H).
  apply mbind_Ok in H as (rows & w5 & _ & H).
  apply mbind_Ok in H as (ids & w6 & Hpersist & H).
  unfold reportTaskProgress in H. unfold_m. injection H as <- <-.
  cbn [out_voiceLineCount out_episodeId db].
  rewrite persistVoiceLines_unfold in Hpersist.
  destruct (taskTerminated E (trace w5)); [discriminate|].
  set (w5' := {| db := db w5; trace := _ |}) in Hpersist.
  pose proof (voiceLineTransaction_eval E (q_episodeId p)
                (panelIdByStoryboardPanel persisted) rows w5') as Heval.
  destruct (voiceLineDataList E (q_episodeId p) _ 0 rows) as [datas|e] eqn:Hd.
  2:{ destruct Heval as [Hthrow _]. rewrite Hpersist in Hthrow. discriminate. }
  destruct Heval as (ids' & Hids & Hlen & Hdb).
  rewrite Hpersist in Hids, Hdb. cbn [fst snd] in Hids, Hdb. injection Hids as <-.
  rewrite Hdb.
  destruct (voiceLineDataList_ok E _ _ _ _ _ Hd) as [_ Hep].
  rewrite <- (length_map vl_data), (voiceLinesOf_foldl_insert _ datas _ Hep),
    voiceLinesOf_delete. simpl. exact Hlen.
Qed.

Lemma returned_voice_line_count_witness :
  (handleScriptToStoryboardTask sampleEnv sampleJob sampleWorld).1
  = Ok {| out_episodeId := "episode-1"; out_storyboardCount := 1;
          out_panelCount := 1; out_voiceLineCount := 1 |}
  /\ 1%nat
     = List.length
         (voiceLinesOf "episode-1"
            (db (handleScriptToStoryboardTask sampleEnv sampleJob sampleWorld).2)).
Proof.
  split; [vm_compute; reflexivity|].
  apply (returned_voice_line_count_is_stored sampleEnv sampleJob sampleWorld
           {| out_episodeId := "episode-1"; out_storyboardCount := 1;
              out_panelCount := 1; out_voiceLineCount := 1 |}
           (handleScriptToStoryboardTask sampleEnv sampleJob sampleWorld).2).
  vm_compute. reflexivity.
Defined.

(** ** Trimming and lower-casing *)

Lemma rev_app_append (s acc : string) : str_rev_app s acc = str_rev s +:+ acc.
Proof.
  unfold str_rev. revert acc.
  induction s as [|a s IH]; intros acc; simpl; [reflexivity|].
  rewrite IH, (IH (String a "")), append_assoc. reflexivity.
Qed.

Lemma rev_rev_app (s1 s2 : string) : str_rev (str_rev_app s1 s2) = str_rev_app s2 s1.
Proof.
  revert s2. induction s1 as [|a s1 IH]; intros s2; simpl; [reflexivity|].
  rewrite IH. reflexivity.
Qed.

Lemma rev_involutive (s : string) : str_rev (str_rev s) = s.
Proof. unfold str_rev at 2. rewrite rev_rev_app. reflexivity. Qed.

Lemma rev_cons (a : codeUnit) (s : string) : str_rev (String a s) = str_rev s +:+ String a "".
Proof. unfold str_rev at 1. simpl. apply rev_app_append. Qed.

Lemma rev_snoc (s : string) (a : codeUnit) : str_rev (s +:+ String a "") = String a (str_rev s).
Proof.
  rewrite <- (rev_involutive s) at 1. rewrite <- rev_cons. apply rev_involutive.
Qed.

Lemma trimStart_clean (s : string) : untrimmedStart (trimStart s) = false.
Proof.
  induction s as [|c s IH]; simpl; [reflexivity|].
  destruct (is_whitespace c) eqn:Hc; [exact IH|]. simpl. exact Hc.
Qed.

Lemma trimStart_of_clean (s : string) : untrimmedStart s = false -> trimStart s = s.
Proof. destruct s as [|c s]; simpl; [reflexivity|]. intros ->. reflexivity. Qed.

Lemma trimStart_idempotent (s : string) : trimStart (trimStart s) = trimStart s.
Proof. apply trimStart_of_clean, trimStart_clean. Qed.

Lemma trimStart_before (u : string) (c : codeUnit) (v : string) :
  is_whitespace c = false ->
  trimStart (u +:+ String c v) = trimStart u +:+ String c v.
Proof.
  intros Hc. induction u as [|a u IH]; simpl.
  - rewrite Hc. reflexivity.
  - destruct (is_whitespace a); [exact IH | reflexivity].
Qed.

Lemma trimEnd_clean (s : string) : untrimmedStart s = false -> untrimmedStart (trimEnd s) = false.
Proof.
  destruct s as [|c s]; [reflexivity|]. simpl. intros Hc.
  unfold trimEnd. rewrite rev_cons, (trimStart_before _ _ _ Hc), rev_snoc.
  simpl. exact Hc.
Qed.

Lemma trimEnd_idempotent (s : string) : trimEnd (trimEnd s) = trimEnd s.
Proof. unfold trimEnd. rewrite rev_involutive, trimStart_idempotent. reflexivity. Qed.

Lemma trim_idempotent (s : string) : trim (trim s) = trim s.
Proof.
  unfold trim.
  rewrite (trimStart_of_clean (trimEnd (trimStart s)))
    by apply trimEnd_clean, trimStart_clean.
  apply trimEnd_idempotent.
Qed.

Lemma is_whitespace_spec (c : codeUnit) :
  is_whitespace c = true <->
  (9 <= c <= 13 \/ c = 32 \/ c = 160 \/ c = 5760 \/ 8192 <= c <= 8202 \/ c = 8232
   \/ c = 8233 \/ c = 8239 \/ c = 8287 \/ c = 12288 \/ c = 65279)%N.
Proof.
  unfold is_whitespace.
  rewrite !orb_true_iff, !andb_true_iff, !N.leb_le, !N.eqb_eq. tauto.
Qed.

Lemma lower_unit_spec (c : codeUnit) :
  (lower_unit c = (c + 32)%N /\ (65 <= c <= 90 \/ 192 <= c <= 222 /\ c <> 215)%N)
  \/ (lower_unit c = c /\ ~ (65 <= c <= 90 \/ 192 <= c <= 222 /\ c <> 215)%N).
Proof.
  unfold lower_unit.
  destruct (((65 <=? c) && (c <=? 90)) || ((192 <=? c) && (c <=? 222) && negb (c =? 215)))%N
    eqn:H.
  - left. split; [reflexivity|].
    rewrite orb_true_iff, !andb_true_iff, negb_true_iff, !N.leb_le, N.eqb_neq in H. tauto.
  - right. split; [reflexivity|]. intros Hc.
    apply not_true_iff_false in H. apply H.
    rewrite orb_true_iff, !andb_true_iff, negb_true_iff, !N.leb_le, N.eqb_neq. tauto.
Qed.

Lemma lower_unit_whitespace (c : codeUnit) : is_whitespace (lower_unit c) = is_whitespace c.
Proof.
  destruct (lower_unit_spec c) as [[-> Hc]|[-> _]]; [|reflexivity].
  transitivity false; [|symmetry];
    apply not_true_iff_false; rewrite is_whitespace_spec; lia.
Qed.

Lemma lower_unit_idempotent (c : codeUnit) : lower_unit (lower_unit c) = lower_unit c.
Proof.
  destruct (lower_unit_spec c) as [[Hl Hc]|[Hl _]]; rewrite Hl; [|exact Hl].
  destruct (lower_unit_spec (c + 32)%N) as [[_ Hc']|[Hl' _]]; [lia | exact Hl'].
Qed.

Lemma toLowerCase_idempotent (s : string) : toLowerCase (toLowerCase s) = toLowerCase s.
Proof.
  induction s as [|c s IH]; simpl; [reflexivity|].
  rewrite lower_unit_idempotent, IH. reflexivity.
Qed.

Lemma toLowerCase_append (a b : string) :
  toLowerCase (a +:+ b) = toLowerCase a +:+ toLowerCase b.
Proof. induction a as [|c a IH]; simpl; [reflexivity|]. rewrite IH. reflexivity. Qed.

Lemma toLowerCase_rev (s : string) : toLowerCase (str_rev s) = str_rev (toLowerCase s).
Proof.
  induction s as [|c s IH]; [reflexivity|].
  simpl toLowerCase at 2. rewrite !rev_cons, toLowerCase_append, IH. reflexivity.
Qed.

Lemma toLowerCase_trimStart (s : string) :
  toLowerCase (trimStart s) = trimStart (toLowerCase s).
Proof.
  induction s as [|c s IH]; simpl; [reflexivity|].
  rewrite lower_unit_whitespace.
  destruct (is_whitespace c); [exact IH | reflexivity].
Qed.

Lemma toLowerCase_trim (s : string) : toLowerCase (trim s) = trim (toLowerCase s).
Proof.
  unfold trim, trimEnd.
  rewrite toLowerCase_rev, toLowerCase_trimStart, toLowerCase_rev, toLowerCase_trimStart.
  reflexivity.
Qed.

(** ** The locale of a task *)

Section LocaleFacts.

Context (locales : list string).

Lemma normalizeCandidate_In (raw locale : string) :
  normalizeCandidate locales raw = Some locale -> In locale locales.
Proof.
  unfold normalizeCandidate.
  destruct (str_empty _); [discriminate|].
  intros H. apply List.find_some in H. exact (proj1 H).
Qed.

Lemma truthyLocale_Some (o : option string) (locale : string) :
  truthyLocale o = Some locale -> o = Some locale /\ locale <> "".
Proof.
  destruct o as [l|]; simpl; [|discriminate].
  unfold str_empty. case_bool_decide; [discriminate|].
  intros [= <-]. auto.
Qed.

Lemma truthyLocale_supported (raw : string) :
  ~ In "" locales ->
  truthyLocale (normalizeCandidate locales raw) = normalizeCandidate locales raw.
Proof.
  intros Hne. destruct (normalizeCandidate locales raw) as [l|] eqn:Hl; [|reflexivity].
  simpl. unfold str_empty. case_bool_decide as Hempty; [|reflexivity].
  subst l. destruct Hne. exact (normalizeCandidate_In _ _ Hl).
Qed.

Lemma normalizeCandidate_empty : normalizeCandidate locales "" = None.
Proof. reflexivity. Qed.

Lemma candidateLocale_In (candidate : JsValue) (locale : string) :
  candidateLocale locales candidate = Some locale -> In locale locales.
Proof.
  destruct candidate; simpl; try discriminate.
  intros [H _]%truthyLocale_Some. exact (normalizeCandidate_In _ _ H).
Qed.

Lemma readLocaleFromPayload_In (body : JsValue) (locale : string) :
  readLocaleFromPayload locales body = Some locale -> In locale locales.
Proof.
  unfold readLocaleFromPayload.
  destruct (candidateLocale locales (field (toObject (field (toObject body) "meta")) "locale"))
    eqn:H1.
  - intros [= <-]. exact (candidateLocale_In _ _ H1).
  - destruct (candidateLocale locales (field (toObject body) "locale")) eqn:H2; [|discriminate].
    intros [= <-]. exact (candidateLocale_In _ _ H2).
Qed.

Lemma headerLocale_In (value : option string) (locale : string) :
  (if str_empty (nullable_or_empty value) then None
   else truthyLocale (normalizeCandidate locales (nullable_or_empty value))) = Some locale ->
  In locale locales.
Proof.
  destruct (str_empty (nullable_or_empty value)); [discriminate|].
  intros [H _]%truthyLocale_Some. exact (normalizeCandidate_In _ _ H).
Qed.

Lemma readLocaleFromHeader_In (request : LocaleRequest) (locale : string) :
  readLocaleFromHeader locales request = Some locale -> In locale locales.
Proof.
  unfold readLocaleFromHeader.
  destruct (if str_empty (nullable_or_empty (header_x_app_locale request)) then None
            else truthyLocale (normalizeCandidate locales
                                 (nullable_or_empty (header_x_app_locale request)))) eqn:H1.
  { intros [= <-]. exact (headerLocale_In _ _ H1). }
  destruct (if str_empty (nullable_or_empty (cookie_NEXT_LOCALE request)) then None
            else truthyLocale (normalizeCandidate locales
                                 (nullable_or_empty (cookie_NEXT_LOCALE request)))) eqn:H2.
  { intros [= <-]. exact (headerLocale_In _ _ H2). }
  destruct (str_empty (nullable_or_empty (header_accept_language request))); [discriminate|].
  destruct (str_empty (trim _)); [discriminate|].
  apply normalizeCandidate_In.
Qed.

Lemma resolveTaskLocale_In (request : LocaleRequest) (body : JsValue) (locale : string) :
  resolveTaskLocale locales request body = Some locale -> In locale locales.
Proof.
  unfold resolveTaskLocale, resolveTaskLocaleFromBody.
  destruct (truthyLocale (readLocaleFromPayload locales body)) eqn:H1.
  - intros [= <-]. apply truthyLocale_Some in H1.
    exact (readLocaleFromPayload_In _ _ (proj1 H1)).
  - apply readLocaleFromHeader_In.
Qed.

Lemma candidateLocale_supported (candidate : JsValue) :
  ~ In "" locales ->
  candidateLocale locales candidate
  = match stringOf candidate with
    | Some raw => normalizeCandidate locales raw
    | None => None
    end.
Proof.
  intros Hne. destruct candidate; simpl; try reflexivity.
  apply truthyLocale_supported, Hne.
Qed.

Lemma headerLocale_supported (value : option string) :
  ~ In "" locales ->
  (if str_empty (nullable_or_empty value) then None
   else truthyLocale (normalizeCandidate locales (nullable_or_empty value)))
  = match value with
    | Some raw => normalizeCandidate locales raw
    | None => None
    end.
Proof.
  intros Hne. destruct value as [raw|]; simpl; [|reflexivity].
  unfold str_empty. case_bool_decide as Hraw.
  - subst raw. reflexivity.
  - apply truthyLocale_supported, Hne.
Qed.

(** Case and surrounding white space do not matter to the match. *)
Lemma normalizeCandidate_trim (raw : string) :
  normalizeCandidate locales (trim raw) = normalizeCandidate locales raw.
Proof. unfold normalizeCandidate. rewrite trim_idempotent. reflexivity. Qed.

Lemma normalizeCandidate_toLowerCase (raw : string) :
  normalizeCandidate locales (toLowerCase raw) = normalizeCandidate locales raw.
Proof.
  unfold normalizeCandidate.
  rewrite <- toLowerCase_trim, toLowerCase_idempotent. reflexivity.
Qed.

Lemma readLocaleFromHeader_supported (request : LocaleRequest) :
  ~ In "" locales ->
  readLocaleFromHeader locales request
  = firstSupported locales
      [ header_x_app_locale request; cookie_NEXT_LOCALE request;
        option_map (fun raw => trim (beforeComma raw)) (header_accept_language request) ].
Proof.
  intros Hne. unfold readLocaleFromHeader.
  rewrite !(headerLocale_supported _ Hne). cbn [firstSupported].
  assert (Hlast :
    (if str_empty (nullable_or_empty (header_accept_language request)) then None
     else if str_empty (trim (beforeComma (nullable_or_empty (header_accept_language request))))
          then None
          else normalizeCandidate locales
                 (trim (beforeComma (nullable_or_empty (header_accept_language request)))))
    = match option_map (fun raw => trim (beforeComma raw)) (header_accept_language request) with
      | Some raw => match normalizeCandidate locales raw with
                    | Some locale => Some locale
                    | None => None
                    end
      | None => None
      end).
  { destruct (header_accept_language request) as [raw|]; simpl; [|reflexivity].
    unfold str_empty. case_bool_decide as Hraw; [subst raw; reflexivity|].
    case_bool_decide as Hfirst.
    - rewrite Hfirst. reflexivity.
    - destruct (normalizeCandidate locales _); reflexivity. }
  rewrite Hlast.
  destruct (header_x_app_locale request) as [x|];
    [destruct (normalizeCandidate locales x); [reflexivity|]|];
    (destruct (cookie_NEXT_LOCALE request) as [c|];
       [destruct (normalizeCandidate locales c); reflexivity | reflexivity]).
Qed.

Lemma readLocaleFromPayload_supported (body : JsValue) :
  ~ In "" locales ->
  truthyLocale (readLocaleFromPayload locales body)
  = firstSupported locales
      [ stringOf (field (toObject (field (toObject body) "meta")) "locale");
        stringOf (field (toObject body) "locale") ].
Proof.
  intros Hne. unfold readLocaleFromPayload.
  rewrite !(candidateLocale_supported _ Hne). cbn [firstSupported].
  destruct (stringOf (field (toObject (field (toObject body) "meta")) "locale")) as [m|];
    [destruct (normalizeCandidate locales m) eqn:Hm;
       [rewrite <- Hm; apply truthyLocale_supported, Hne|]|];
    (destruct (stringOf (field (toObject body) "locale")) as [p|]; [|reflexivity];
     destruct (normalizeCandidate locales p) eqn:Hp; [|reflexivity];
     rewrite <- Hp; apply truthyLocale_supported, Hne).
Qed.

Lemma firstSupported_app (a b : list (option string)) :
  firstSupported locales (a ++ b)
  = match firstSupported locales a with
    | Some locale => Some locale
    | None => firstSupported locales b
    end.
Proof.
  induction a as [|[raw|] a IH]; simpl; [reflexivity| |exact IH].
  destruct (normalizeCandidate locales raw); [reflexivity | exact IH].
Qed.

Lemma toLowerCase_append_l (a b : string) :
  toLowerCase (a +:+ b) = a +:+ b -> toLowerCase a = a.
Proof.
  induction a as [|c a IH]; simpl; [reflexivity|].
  intros [= Hc Ha]. rewrite Hc, (IH Ha). reflexivity.
Qed.

Lemma prefix_starts_with (p s : string) : str_prefix p s = true -> starts_with s p.
Proof.
  revert s. induction p as [|a p IH]; intros s.
  - intros _. exists s. reflexivity.
  - destruct s as [|b s]; simpl; [discriminate|].
    destruct (N.eqb_spec a b) as [->|]; [|discriminate].
    intros [post ->]%IH. exists post. reflexivity.
Qed.

Lemma normalizeCandidate_match (raw locale : string) :
  normalizeCandidate locales raw = Some locale ->
  toLowerCase (trim raw) <> ""
  /\ (toLowerCase (trim raw) = locale
      \/ starts_with (toLowerCase (trim raw)) (locale +:+ "-")).
Proof.
  unfold normalizeCandidate, str_empty.
  case_bool_decide as Hempty; [discriminate|].
  intros [_ H]%List.find_some. split; [exact Hempty|].
  apply orb_prop in H as [H|H].
  - left. apply bool_decide_eq_true in H. exact H.
  - right. apply prefix_starts_with. exact H.
Qed.

End LocaleFacts.

(** X12. The locale resolved for a task is one of the supported locales,
    whatever the body, the headers and the cookie of the request hold; and
    when it is not the empty string, [resolveRequiredTaskLocale] returns it
    instead of throwing (lib/task/resolve-locale: resolveTaskLocale,
    resolveRequiredTaskLocale). *)
Theorem resolved_locale_is_supported (locales : list string)
    (request : LocaleRequest) (body : JsValue) (locale : string) :
  resolveTaskLocale locales request body = Some locale ->
  In locale locales
  /\ (locale <> "" -> resolveRequiredTaskLocale locales request body = inr locale).
Proof.
  intros H. split; [exact (resolveTaskLocale_In _ _ _ _ H)|].
  intros Hne. unfold resolveRequiredTaskLocale. rewrite H. simpl.
  unfold str_empty. case_bool_decide; [contradiction | reflexivity].
Qed.

Lemma resolved_locale_witness :
  resolveTaskLocale sampleLocales sampleLocaleRequest sampleBody = Some "zh"
  /\ In "zh" sampleLocales
  /\ ("zh" <> "" ->
      resolveRequiredTaskLocale sampleLocales sampleLocaleRequest sampleBody = inr "zh").
Proof.
  split; [vm_compute; reflexivity|].
  apply (resolved_locale_is_supported sampleLocales sampleLocaleRequest sampleBody "zh").
  vm_compute. reflexivity.
Defined.

(** X13. When the empty string is not a supported locale, the locale of a
    task is the first supported one among, in this order: [meta.locale]
    and [locale] of the body, the header x-app-locale, the cookie
    NEXT_LOCALE and the first language of the header accept-language;
    sources that are absent, not strings or unsupported are passed over
    (lib/task/resolve-locale: readLocaleFromPayload, readLocaleFromHeader,
    resolveTaskLocale). *)
Theorem locale_sources_in_order (locales : list string)
    (request : LocaleRequest) (body : JsValue) :
  ~ In "" locales ->
  resolveTaskLocale locales request body
  = firstSupported locales (localeCandidates request body).
Proof.
  intros Hne. unfold resolveTaskLocale, resolveTaskLocaleFromBody.
  rewrite (readLocaleFromPayload_supported locales body Hne),
    (readLocaleFromHeader_supported locales request Hne).
  symmetry.
  exact (firstSupported_app locales
           [ stringOf (field (toObject (field (toObject body) "meta")) "locale");
             stringOf (field (toObject body) "locale") ]
           [ header_x_app_locale request; cookie_NEXT_LOCALE request;
             option_map (fun raw => trim (beforeComma raw))
               (header_accept_language request) ]).
Qed.

Lemma locale_sources_witness :
  ~ In "" sampleLocales
  /\ resolveTaskLocale sampleLocales sampleLocaleRequest (JObj [("locale", JStr "fr")])
     = firstSupported sampleLocales
         (localeCandidates sampleLocaleRequest (JObj [("locale", JStr "fr")]))
  /\ resolveTaskLocale sampleLocales sampleLocaleRequest (JObj [("locale", JStr "fr")])
     = Some "en".
Proof.
  assert (Hne : ~ In "" sampleLocales).
  { intros [H|[H|[]]]; discriminate H. }
  split; [exact Hne|]. split.
  - exact (locale_sources_in_order sampleLocales sampleLocaleRequest
             (JObj [("locale", JStr "fr")]) Hne).
  - vm_compute. reflexivity.
Defined.

(** X14. The match of a candidate against the supported locales ignores
    its case and the white space around it, and it accepts a region
    subtag: a result is the lower-cased, trimmed candidate itself or what
    comes before one of its hyphens. A resolved locale is therefore in
    lower case: a supported locale that is written with a capital letter
    is never the locale of a task
    (lib/task/resolve-locale: normalizeCandidate). *)
Theorem locale_match_is_normalised (locales : list string) (raw : string) :
  normalizeCandidate locales (trim raw) = normalizeCandidate locales raw
  /\ normalizeCandidate locales (toLowerCase raw) = normalizeCandidate locales raw
  /\ forall locale,
       normalizeCandidate locales raw = Some locale ->
       (toLowerCase (trim raw) = locale
        \/ starts_with (toLowerCase (trim raw)) (locale +:+ "-"))
       /\ toLowerCase locale = locale.
Proof.
  split; [apply normalizeCandidate_trim|].
  split; [apply normalizeCandidate_toLowerCase|].
  intros locale H. destruct (normalizeCandidate_match locales raw locale H) as [_ Hm].
  split; [exact Hm|].
  destruct Hm as [<-|[post Hpost]].
  - apply toLowerCase_idempotent.
  - apply (toLowerCase_append_l locale ("-" +:+ post)).
    rewrite <- append_assoc, <- Hpost. apply toLowerCase_idempotent.
Qed.

(** ** The story-to-script route *)

Lemma assoc_setField_same (fields : JsonRecord) (key : string) (v : JsValue) :
  assoc key (setField fields key v) = Some v.
Proof.
  induction fields as [|[k x] rest IH]; simpl.
  - rewrite bool_decide_eq_true_2 by reflexivity. reflexivity.
  - case_bool_decide as Hk; simpl.
    + rewrite bool_decide_eq_true_2 by exact Hk. reflexivity.
    + rewrite bool_decide_eq_false_2 by exact Hk. exact IH.
Qed.

Lemma assoc_setField_other (fields : JsonRecord) (key other : string) (v : JsValue) :
  other <> key -> assoc other (setField fields key v) = assoc other fields.
Proof.
  intros Hne. induction fields as [|[k x] rest IH]; simpl.
  - rewrite bool_decide_eq_false_2 by (intros H; apply Hne; symmetry; exact H). reflexivity.
  - case_bool_decide as Hk; simpl.
    + subst k. rewrite !bool_decide_eq_false_2 by (intros H; apply Hne; symmetry; exact H).
      reflexivity.
    + case_bool_decide; [reflexivity | exact IH].
Qed.

Lemma trimmedField_object (body : JsValue) (key : string) :
  trimmedField body key <> "" ->
  exists fields raw,
    body = JObj fields /\ field fields key = JStr raw /\ trim raw = trimmedField body key
    /\ raw <> "".
Proof.
  unfold trimmedField. destruct body as [| |b|n|s|items|fields]; simpl; try congruence.
  destruct (field fields key) as [| |b|n|raw|items|fs] eqn:Hf; try congruence.
  intros Hne. exists fields, raw. repeat split; try reflexivity; [exact Hf|].
  intros ->. apply Hne. reflexivity.
Qed.

Section RouteFacts.

Context (locales : list string)
        (TASK_TYPE_STORY_TO_SCRIPT_RUN : string)
        (requireProjectAuth : string -> AuthResult)
        (maybeSubmitLLMTask : SubmitArgs -> option JsValue).

Lemma POST_blank (request : LocaleRequest) (projectId : string) (requestJson : option JsValue) :
  trimmedField (default (JObj []) requestJson) "episodeId" = ""
  \/ trimmedField (default (JObj []) requestJson) "content" = "" ->
  exists message,
    POST locales TASK_TYPE_STORY_TO_SCRIPT_RUN requireProjectAuth maybeSubmitLLMTask
       request projectId requestJson = (RouteThrow "INVALID_PARAMS", [RouteLog message]).
Proof.
  intros H. unfold POST, str_empty. eexists.
  case_bool_decide as He; [reflexivity|].
  case_bool_decide as Hc; [reflexivity|].
  destruct H; contradiction.
Qed.

Lemma POST_filled (request : LocaleRequest) (projectId : string) (requestJson : option JsValue) :
  trimmedField (default (JObj []) requestJson) "episodeId" <> "" ->
  trimmedField (default (JObj []) requestJson) "content" <> "" ->
  exists message rest,
    (POST locales TASK_TYPE_STORY_TO_SCRIPT_RUN requireProjectAuth maybeSubmitLLMTask
       request projectId requestJson).2 = RouteLog message :: RouteAuth projectId :: rest
    /\ forallb (fun call => negb (is_RouteAuth call)) rest = true
    /\ (forall args, In (RouteSubmit args) rest ->
        rest = [RouteSubmit args]
        /\ exists userId,
             requireProjectAuth projectId = AuthSession userId "novel-promotion"
             /\ args
                = {| sub_request := request;
                     sub_userId := userId;
                     sub_projectId := projectId;
                     sub_episodeId := trimmedField (default (JObj []) requestJson) "episodeId";
                     sub_type := TASK_TYPE_STORY_TO_SCRIPT_RUN;
                     sub_targetType := "NovelPromotionEpisode";
                     sub_targetId := trimmedField (default (JObj []) requestJson) "episodeId";
                     sub_routePath :=
                       "/api/novel-promotion/" +:+ projectId +:+ "/story-to-script-stream";
                     sub_body :=
                       JObj (setField (spread (default (JObj []) requestJson))
                               "displayMode" (JStr "detail"));
                     sub_dedupeKey :=
                       "story_to_script_run:"
                       +:+ trimmedField (default (JObj []) requestJson) "episodeId";
                     sub_priority := 2 |}
             /\ (POST locales TASK_TYPE_STORY_TO_SCRIPT_RUN requireProjectAuth maybeSubmitLLMTask
       request projectId requestJson).1
                = match maybeSubmitLLMTask args with
                  | Some asyncTaskResponse => RouteResponse asyncTaskResponse
                  | None => RouteThrow "INVALID_PARAMS"
                  end).
Proof.
  intros He Hc. unfold POST, str_empty.
  rewrite !bool_decide_eq_false_2 by assumption.
  eexists.
  destruct (requireProjectAuth projectId) as [response|userId projectMode] eqn:Hauth.
  { exists []. simpl. split; [reflexivity|]. split; [reflexivity|]. intros args []. }
  case_bool_decide as Hmode; simpl negb; cbv iota.
  2:{ exists []. simpl. split; [reflexivity|]. split; [reflexivity|]. intros args []. }
  subst projectMode.
  match goal with
  | |- context [maybeSubmitLLMTask ?a] => set (submittedArgs := a)
  end.
  exists [RouteSubmit submittedArgs].
  split; [destruct (maybeSubmitLLMTask submittedArgs); reflexivity|].
  split; [reflexivity|].
  intros args [[= <-]|[]]. split; [reflexivity|].
  exists userId. split; [reflexivity|]. split; [reflexivity|].
  destruct (maybeSubmitLLMTask submittedArgs); reflexivity.
Qed.

End RouteFacts.

Lemma POST_submitted (locales : list string)
    (TASK_TYPE_STORY_TO_SCRIPT_RUN : string)
    (requireProjectAuth : string -> AuthResult)
    (maybeSubmitLLMTask : SubmitArgs -> option JsValue)
    (request : LocaleRequest) (projectId : string) (requestJson : option JsValue)
    (args : SubmitArgs) :
  let body := default (JObj []) requestJson in
  let run := POST locales TASK_TYPE_STORY_TO_SCRIPT_RUN requireProjectAuth maybeSubmitLLMTask
                  request projectId requestJson in
  In (RouteSubmit args) run.2 ->
  (exists message, run.2 = [RouteLog message; RouteAuth projectId; RouteSubmit args])
  /\ requireProjectAuth projectId = AuthSession (sub_userId args) "novel-promotion"
  /\ sub_projectId args = projectId
  /\ sub_episodeId args = trimmedField body "episodeId"
  /\ sub_episodeId args <> ""
  /\ trimmedField body "content" <> ""
  /\ sub_targetType args = "NovelPromotionEpisode"
  /\ sub_targetId args = sub_episodeId args
  /\ sub_dedupeKey args = "story_to_script_run:" +:+ sub_episodeId args
  /\ prop (sub_body args) "displayMode" = JStr "detail"
  /\ (forall key, key <> "displayMode" -> prop (sub_body args) key = prop body key).
Proof.
  intros body run Hin.
  destruct (decide (trimmedField body "episodeId" = "")) as [He|He].
  { destruct (POST_blank locales TASK_TYPE_STORY_TO_SCRIPT_RUN requireProjectAuth
                maybeSubmitLLMTask request projectId requestJson (or_introl He))
      as [message Hrun].
    unfold run in Hin. rewrite Hrun in Hin. destruct Hin as [Hin|[]]. discriminate Hin. }
  destruct (decide (trimmedField body "content" = "")) as [Hc|Hc].
  { destruct (POST_blank locales TASK_TYPE_STORY_TO_SCRIPT_RUN requireProjectAuth
                maybeSubmitLLMTask request projectId requestJson (or_intror Hc))
      as [message Hrun].
    unfold run in Hin. rewrite Hrun in Hin. destruct Hin as [Hin|[]]. discriminate Hin. }
  destruct (POST_filled locales TASK_TYPE_STORY_TO_SCRIPT_RUN requireProjectAuth
              maybeSubmitLLMTask request projectId requestJson He Hc)
    as (message & rest & Hrun & _ & Hsubmit).
  unfold run in Hin. rewrite Hrun in Hin.
  destruct Hin as [Hin|[Hin|Hin]]; [discriminate Hin | discriminate Hin |].
  destruct (Hsubmit args Hin) as (Hrest & userId & Hauth & Hargs & _).
  destruct (trimmedField_object body "episodeId" He) as (fields & raw & Hbody & _).
  fold body in Hargs. rewrite Hbody in Hargs. simpl spread in Hargs.
  split; [exists message; unfold run; rewrite Hrun, Hrest; reflexivity|].
  rewrite Hargs. cbn [sub_userId sub_projectId sub_episodeId sub_targetType sub_targetId
                      sub_dedupeKey sub_body].
  rewrite <- Hbody.
  split; [exact Hauth|]. do 7 (split; [first [reflexivity | assumption]|]).
  rewrite Hbody. unfold prop, field. split.
  - rewrite assoc_setField_same. reflexivity.
  - intros key Hkey. rewrite (assoc_setField_other _ _ _ _ Hkey). reflexivity.
Qed.

(** X15. The route checks the request before it looks at the project: it
    makes no call of [requireProjectAuth] exactly when the trimmed
    [episodeId] or the trimmed [content] of the body is empty (absent, not
    a string, or blank; a body that is not JSON counts as empty), and then
    it throws INVALID_PARAMS having only logged the locale
    (story-to-script-stream/route.ts: POST). *)
Theorem validation_precedes_authorisation (locales : list string)
    (TASK_TYPE_STORY_TO_SCRIPT_RUN : string)
    (requireProjectAuth : string -> AuthResult)
    (maybeSubmitLLMTask : SubmitArgs -> option JsValue)
    (request : LocaleRequest) (projectId : string) (requestJson : option JsValue) :
  let body := default (JObj []) requestJson in
  let run := POST locales TASK_TYPE_STORY_TO_SCRIPT_RUN requireProjectAuth maybeSubmitLLMTask
                  request projectId requestJson in
  (forallb (fun call => negb (is_RouteAuth call)) run.2 = true
   <-> trimmedField body "episodeId" = "" \/ trimmedField body "content" = "")
  /\ (forallb (fun call => negb (is_RouteAuth call)) run.2 = true ->
      run.1 = RouteThrow "INVALID_PARAMS" /\ exists message, run.2 = [RouteLog message]).
Proof.
  intros body run.
  assert (Hblank : trimmedField body "episodeId" = "" \/ trimmedField body "content" = "" ->
                   run.1 = RouteThrow "INVALID_PARAMS"
                   /\ exists message, run.2 = [RouteLog message]).
  { intros H.
    destruct (POST_blank locales TASK_TYPE_STORY_TO_SCRIPT_RUN requireProjectAuth
                maybeSubmitLLMTask request projectId requestJson H) as [message Hrun].
    unfold run. rewrite Hrun. split; [reflexivity|]. exists message. reflexivity. }
  assert (Hiff : forallb (fun call => negb (is_RouteAuth call)) run.2 = true
                 <-> trimmedField body "episodeId" = "" \/ trimmedField body "content" = "").
  { split.
    - intros Hnone.
      destruct (decide (trimmedField body "episodeId" = "")) as [|He]; [left; assumption|].
      destruct (decide (trimmedField body "content" = "")) as [|Hc]; [right; assumption|].
      destruct (POST_filled locales TASK_TYPE_STORY_TO_SCRIPT_RUN requireProjectAuth
                  maybeSubmitLLMTask request projectId requestJson He Hc)
        as (message & rest & Hrun & _).
      unfold run in Hnone. rewrite Hrun in Hnone. simpl in Hnone. discriminate Hnone.
    - intros H. destruct (Hblank H) as [_ [message ->]]. reflexivity. }
  split; [exact Hiff|].
  intros Hnone. apply Hblank, Hiff, Hnone.
Qed.

(** X16. What the route submits: a task is submitted at most once, after
    the log and the authorisation, and only for a session on a project in
    mode novel-promotion and a body with a non-blank [episodeId] and
    [content]. The task is for the user of the session and the project of
    the URL; its episode and its target are the trimmed [episodeId], which
    also ends its deduplication key; its body is the body of the request,
    every property as it was sent (the [episodeId] and the [content]
    untrimmed), with [displayMode] set to 'detail'
    (story-to-script-stream/route.ts: POST). *)
Theorem route_submission (locales : list string)
    (TASK_TYPE_STORY_TO_SCRIPT_RUN : string)
    (requireProjectAuth : string -> AuthResult)
    (maybeSubmitLLMTask : SubmitArgs -> option JsValue)
    (request : LocaleRequest) (projectId : string) (requestJson : option JsValue)
    (args : SubmitArgs) :
  let body := default (JObj []) requestJson in
  let run := POST locales TASK_TYPE_STORY_TO_SCRIPT_RUN requireProjectAuth maybeSubmitLLMTask
                  request projectId requestJson in
  In (RouteSubmit args) run.2 ->
  (exists message, run.2 = [RouteLog message; RouteAuth projectId; RouteSubmit args])
  /\ requireProjectAuth projectId = AuthSession (sub_userId args) "novel-promotion"
  /\ sub_projectId args = projectId
  /\ sub_episodeId args = trimmedField body "episodeId"
  /\ sub_episodeId args <> ""
  /\ trimmedField body "content" <> ""
  /\ sub_targetType args = "NovelPromotionEpisode"
  /\ sub_targetId args = sub_episodeId args
  /\ sub_dedupeKey args = "story_to_script_run:" +:+ sub_episodeId args
  /\ prop (sub_body args) "displayMode" = JStr "detail"
  /\ (forall key, key <> "displayMode" -> prop (sub_body args) key = prop body key).
Proof.
  exact (POST_submitted locales TASK_TYPE_STORY_TO_SCRIPT_RUN requireProjectAuth
           maybeSubmitLLMTask request projectId requestJson args).
Qed.

Lemma route_submission_witness :
  In (RouteSubmit sampleArgs)
     (POST sampleLocales "story_to_script_run" sampleAuth sampleSubmit
           sampleLocaleRequest "project-1" (Some sampleBody)).2
  /\ sub_episodeId sampleArgs = trimmedField sampleBody "episodeId"
  /\ prop (sub_body sampleArgs) "content" = prop sampleBody "content".
Proof.
  assert (Hin : In (RouteSubmit sampleArgs)
                   (POST sampleLocales "story_to_script_run" sampleAuth sampleSubmit
                         sampleLocaleRequest "project-1" (Some sampleBody)).2).
  { vm_compute. right. right. left. reflexivity. }
  split; [exact Hin|].
  destruct (route_submission sampleLocales "story_to_script_run" sampleAuth sampleSubmit
              sampleLocaleRequest "project-1" (Some sampleBody) sampleArgs Hin)
    as (_ & _ & _ & He & _ & _ & _ & _ & _ & _ & Hbody).
  split; [exact He|]. apply Hbody. discriminate.
Defined.

(** X17. The route and the handler agree on a request. For a job whose
    payload is the body that the route submitted, and with an [asString]
    that returns a string as it is, the handler finds the episode
    identifier that the route put into the task, and its content check
    passes: it analyses the trimmed [content] of the request, cut at 30000
    code units, whatever novel text the episode has
    (story-to-script-stream/route.ts: POST; story-to-script.ts, lines
    36-37 and 104-109). *)
Theorem submitted_job_is_accepted (E : Env) (locales : list string)
    (TASK_TYPE_STORY_TO_SCRIPT_RUN : string)
    (requireProjectAuth : string -> AuthResult)
    (maybeSubmitLLMTask : SubmitArgs -> option JsValue)
    (request : LocaleRequest) (projectId : string) (requestJson : option JsValue)
    (args : SubmitArgs) (job : TaskJobData) :
  (forall s, asString E (JStr s) = s) ->
  In (RouteSubmit args)
     (POST locales TASK_TYPE_STORY_TO_SCRIPT_RUN requireProjectAuth maybeSubmitLLMTask
           request projectId requestJson).2 ->
  job_payload job = sub_body args ->
  storyToScript_episodeId E job = sub_episodeId args
  /\ forall episodeNovelText,
       analyzedContent (asString E (prop (payloadOf job) "content")) episodeNovelText
       = Ok (cutContent (trimmedField (default (JObj []) requestJson) "content")).
Proof.
  intros HasString Hin Hpayload.
  destruct (POST_submitted locales TASK_TYPE_STORY_TO_SCRIPT_RUN requireProjectAuth
              maybeSubmitLLMTask request projectId requestJson args Hin)
    as (_ & _ & _ & He & Hene & Hcne & _ & _ & _ & Hmode & Hbody).
  assert (Hpay : payloadOf job = sub_body args).
  { unfold payloadOf. rewrite Hpayload.
    destruct (sub_body args); try discriminate Hmode. reflexivity. }
  rewrite He in Hene.
  destruct (trimmedField_object _ _ Hene) as (fields & rawId & Hjson & HrawId & HtrimId & HidNe).
  destruct (trimmedField_object _ _ Hcne) as (fields' & rawC & Hjson' & HrawC & HtrimC & HcNe).
  rewrite Hjson in Hjson'. injection Hjson' as <-.
  split.
  - unfold storyToScript_episodeId. rewrite Hpay, (Hbody "episodeId") by discriminate.
    rewrite Hjson. simpl prop. rewrite HrawId.
    unfold js_or at 2. simpl truthy. unfold str_empty.
    rewrite bool_decide_eq_false_2 by exact HidNe. simpl negb. cbv iota.
    unfold js_or. simpl truthy. unfold str_empty.
    rewrite bool_decide_eq_false_2 by exact HidNe. simpl negb. cbv iota.
    rewrite HasString, He. exact HtrimId.
  - intros episodeNovelText.
    rewrite Hpay, (Hbody "content") by discriminate.
    rewrite <- HtrimC in Hcne |- *.
    rewrite Hjson. simpl prop. rewrite HrawC, HasString.
    unfold analyzedContent, str_or, str_empty.
    rewrite (bool_decide_eq_false_2 _ Hcne).
    rewrite trim_idempotent, (bool_decide_eq_false_2 _ Hcne).
    reflexivity.
Qed.

Lemma submitted_job_witness :
  storyToScript_episodeId sampleEnv (jobOf sampleArgs "task-1" "zh") = "episode-1"
  /\ forall episodeNovelText,
       analyzedContent
         (asString sampleEnv (prop (payloadOf (jobOf sampleArgs "task-1" "zh")) "content"))
         episodeNovelText
       = Ok (cutContent (trimmedField (default (JObj []) (Some sampleBody)) "content")).
Proof.
  apply (submitted_job_is_accepted sampleEnv sampleLocales "story_to_script_run" sampleAuth
           sampleSubmit sampleLocaleRequest "project-1" (Some sampleBody) sampleArgs
           (jobOf sampleArgs "task-1" "zh")).
  - intros s. reflexivity.
  - vm_compute. right. right. left. reflexivity.
  - reflexivity.
Defined.

(** ** The Range header of the media route *)

Lemma prefix_nil (s : string) : str_prefix "" s = true.
Proof. destruct s; reflexivity. Qed.

Lemma prefix_append_same (p s : string) : str_prefix p (p +:+ s) = true.
Proof.
  induction p as [|c p IH]; simpl; [reflexivity|].
  rewrite N.eqb_refl. exact IH.
Qed.

Lemma dropFirst_append (p s : string) : dropFirst (str_len p) (p +:+ s) = s.
Proof. induction p as [|c p IH]; simpl; [destruct s; reflexivity | exact IH]. Qed.

Lemma removeFirst_prefix (p s : string) : removeFirst p (p +:+ s) = s.
Proof.
  assert (H : removeFirst p (p +:+ s)
              = if str_prefix p (p +:+ s) then dropFirst (str_len p) (p +:+ s)
                else match p +:+ s with
                     | String c rest => String c (removeFirst p rest)
                     | EmptyString => EmptyString
                     end).
  { destruct (p +:+ s); reflexivity. }
  rewrite H, prefix_append_same. apply dropFirst_append.
Qed.

Lemma trimEnd_cons (c : codeUnit) (s : string) :
  is_whitespace c = false -> trimEnd (String c s) = String c (trimEnd s).
Proof.
  intros Hc. unfold trimEnd.
  rewrite rev_cons, (trimStart_before _ _ _ Hc), rev_snoc. reflexivity.
Qed.

Lemma isDigit_not_whitespace (c : codeUnit) : isDigit c = true -> is_whitespace c = false.
Proof.
  unfold isDigit. rewrite andb_true_iff, !N.leb_le. intros H.
  apply not_true_iff_false. rewrite is_whitespace_spec. lia.
Qed.

Lemma isDigit_not_sign (c : codeUnit) :
  isDigit c = true -> c <> unitOf "-" /\ c <> unitOf "+".
Proof. intros H. split; intros ->; discriminate H. Qed.

Lemma trimEnd_digits (s : string) : all_digits s = true -> trimEnd s = s.
Proof.
  induction s as [|c s IH]; [reflexivity|]. simpl.
  intros [Hc Hs]%andb_prop.
  rewrite (trimEnd_cons _ _ (isDigit_not_whitespace _ Hc)), (IH Hs). reflexivity.
Qed.

Lemma split_digits (s : string) : all_digits s = true -> split (unitOf "-") s = [s].
Proof.
  induction s as [|c s IH]; [reflexivity|]. simpl in *.
  intros [Hc Hs]%andb_prop.
  rewrite bool_decide_eq_false_2 by apply (isDigit_not_sign _ Hc).
  rewrite (IH Hs). reflexivity.
Qed.

Lemma digitsValue_nonneg (s : string) (acc : Z) : 0 <= acc -> 0 <= digitsValue acc s.
Proof.
  revert acc. induction s as [|c s IH]; intros acc Hacc; simpl; [exact Hacc|].
  destruct (isDigit c) eqn:Hc; [|exact Hacc].
  apply IH. unfold isDigit in Hc. apply andb_prop in Hc as [Hlo _].
  apply N.leb_le in Hlo. lia.
Qed.

Lemma parseInt_digits (s : string) :
  s <> "" -> all_digits s = true -> parseInt s = num_of_Z (digitsValue 0 s).
Proof.
  destruct s as [|c s]; [congruence|]. intros _. simpl all_digits.
  intros [Hc Hs]%andb_prop. unfold parseInt.
  simpl trimStart. rewrite (isDigit_not_whitespace _ Hc).
  destruct (isDigit_not_sign _ Hc) as [Hminus Hplus].
  rewrite (bool_decide_eq_false_2 _ Hminus), (bool_decide_eq_false_2 _ Hplus).
  simpl. rewrite Hc. reflexivity.
Qed.

Lemma num_of_Z_nonneg (z : Z) : 0 <= z -> num_leb (Fin 0) (num_of_Z z) = true.
Proof.
  intros Hz. unfold num_of_Z.
  rewrite <- (round64_zero 0) by reflexivity.
  apply round64_mono; [apply Qle_refl|].
  change 0%Q with (inject_Z 0). rewrite <- Zle_Qle. exact Hz.
Qed.

Lemma num_ltb_false (a b : number) : num_leb b a = true -> num_ltb a b = false.
Proof.
  intros H. unfold num_ltb.
  destruct a as [|sa|x], b as [|sb|y]; try reflexivity; rewrite H; reflexivity.
Qed.

(** The guard of line 22 on its own. *)
Lemma range_guard (start end_ : number) (t : Q) :
  num_isNaN start || num_ltb start (Fin 0) || num_ltb end_ start
  || num_leb (Fin t) end_ = false ->
  (exists s e, start = Fin s /\ end_ = Fin e /\ (0 <= s)%Q /\ (s <= e)%Q /\ (e < t)%Q)
  \/ (end_ = NaN /\ num_le (Fin 0) start).
Proof.
  intros H.
  apply orb_false_elim in H as [H Htotal].
  apply orb_false_elim in H as [H Hend].
  apply orb_false_elim in H as [Hnan Hneg].
  destruct start as [|[]|s]; simpl in Hnan, Hneg; try discriminate.
  - destruct end_ as [|[]|e]; simpl in Hend, Htotal; try discriminate.
    right. split; reflexivity.
  - apply negb_false_iff in Hneg.
    destruct end_ as [|[]|e]; simpl in Hend, Htotal; try discriminate.
    + right. split; [reflexivity | exact Hneg].
    + left. exists s, e. apply negb_false_iff in Hend.
      apply Qle_bool_iff in Hneg, Hend.
      assert (Ht : ~ (t <= e)%Q).
      { intros Hle. apply Qle_bool_iff in Hle. congruence. }
      repeat split; try assumption. lra.
Qed.

Lemma parseRange_Some (rangeHeader : option string) (totalLength start end_ : number) :
  parseRange rangeHeader totalLength = Some (start, end_) ->
  num_isNaN start || num_ltb start (Fin 0) || num_ltb end_ start
  || num_leb totalLength end_ = false.
Proof.
  unfold parseRange. destruct rangeHeader as [header|]; [|discriminate].
  destruct (negb (startsWith header "bytes=")); [discriminate|].
  cbv zeta.
  match goal with
  | |- (if ?c then _ else _) = _ -> _ => destruct c eqn:Hc; [discriminate|]
  end.
  intros [= <- <-]. exact Hc.
Qed.

(** X18. A range that [parseRange] accepts lies within the file, unless
    its end is not a number: either 0 <= start <= end < totalLength, or
    the end is NaN, which the guard of line 22 lets through because every
    comparison with NaN is false. The second case occurs: for the header
    'bytes=0-x' the range from 0 to NaN is accepted whatever the length of
    the file, even when it is empty (app/m/[publicId]/route.ts:
    parseRange). *)
Theorem accepted_range_is_within_the_file (rangeHeader : option string) (t : Q) :
  (forall start end_,
     parseRange rangeHeader (Fin t) = Some (start, end_) ->
     (exists s e, start = Fin s /\ end_ = Fin e /\ (0 <= s)%Q /\ (s <= e)%Q /\ (e < t)%Q)
     \/ (end_ = NaN /\ num_le (Fin 0) start))
  /\ parseRange (Some "bytes=0-x") (Fin t) = Some (Fin 0, NaN).
Proof.
  split.
  - intros start end_ H. apply range_guard, (parseRange_Some rangeHeader), H.
  - reflexivity.
Qed.

(** X19. A suffix range 'bytes=-N', with N a string of digits, is read as
    the range from 0 to N: it is refused when N is not below the length of
    the file, and otherwise the bytes 0 to N are what is served, not the
    last N bytes (app/m/[publicId]/route.ts: parseRange). *)
Theorem suffix_range_starts_at_zero (digits : string) (totalLength : number) :
  digits <> "" ->
  all_digits digits = true ->
  parseInt digits = num_of_Z (digitsValue 0 digits)
  /\ parseRange (Some ("bytes=-" +:+ digits)) totalLength
     = if num_leb totalLength (parseInt digits) then None
       else Some (Fin 0, parseInt digits).
Proof.
  intros Hne Hdigits.
  pose proof (parseInt_digits digits Hne Hdigits) as Hparse.
  split; [exact Hparse|].
  unfold parseRange.
  change ("bytes=-" +:+ digits) with ("bytes=" +:+ String (unitOf "-") digits).
  unfold startsWith. rewrite prefix_append_same, removeFirst_prefix. simpl negb. cbv iota.
  assert (Htrim : trim (String (unitOf "-") digits) = String (unitOf "-") digits).
  { unfold trim. simpl trimStart.
    rewrite trimEnd_cons by reflexivity. rewrite (trimEnd_digits _ Hdigits). reflexivity. }
  rewrite Htrim.
  change (split (unitOf "-") (String (unitOf "-") digits))
    with ("" :: split (unitOf "-") digits).
  rewrite (split_digits _ Hdigits).
  cbv zeta. unfold str_empty.
  rewrite (bool_decide_eq_false_2 _ Hne), (bool_decide_eq_true_2 ("" = "") eq_refl).
  assert (Hge : num_leb (Fin 0) (parseInt digits) = true).
  { rewrite Hparse. apply num_of_Z_nonneg, digitsValue_nonneg. lia. }
  rewrite (num_ltb_false _ _ Hge). reflexivity.
Qed.

Lemma suffix_range_witness :
  parseInt "5" = num_of_Z (digitsValue 0 "5")
  /\ parseRange (Some ("bytes=-" +:+ "5")) (num_of_Z 100)
     = if num_leb (num_of_Z 100) (parseInt "5") then None else Some (Fin 0, parseInt "5").
Proof.
  apply (suffix_range_starts_at_zero "5" (num_of_Z 100)).
  - discriminate.
  - reflexivity.
Defined.

(** ** Uploads with retries *)

Lemma putsOf_app (a b : list StorageCall) : putsOf (a ++ b) = (putsOf a ++ putsOf b)%list.
Proof. apply omap_app. Qed.

Lemma waitsOf_app (a b : list StorageCall) : waitsOf (a ++ b) = (waitsOf a ++ waitsOf b)%list.
Proof. apply omap_app. Qed.

Section UploadFacts.

Context (putObject : Z -> JsValue) (key : string) (maxRetries : Z).

Lemma uploadAttempts_calls (remaining : nat) (attempt : Z) (lastError : JsValue) :
  Z.of_nat remaining = Z.max 0 (maxRetries - attempt + 1) ->
  exists k : nat,
    (k <= remaining)%nat
    /\ putsOf (uploadAttempts putObject key maxRetries remaining attempt lastError).2
       = repeat key k
    /\ waitsOf (uploadAttempts putObject key maxRetries remaining attempt lastError).2
       = map retryDelay (seqZ attempt (Z.of_nat k - 1))
    /\ (forall a, attempt <= a < attempt + Z.of_nat k - 1 -> truthy (putObject a) = true)
    /\ match (uploadAttempts putObject key maxRetries remaining attempt lastError).1 with
       | inr stored =>
           stored = key /\ (1 <= k)%nat
           /\ truthy (putObject (attempt + Z.of_nat k - 1)) = false
       | inl e =>
           k = remaining
           /\ ((1 <= k)%nat -> truthy (putObject (attempt + Z.of_nat k - 1)) = true)
           /\ e = match k with
                  | O => if truthy lastError then PutObjectError lastError
                         else UploadFailed key
                  | S _ => PutObjectError (putObject (attempt + Z.of_nat k - 1))
                  end
       end.
Proof.
  revert attempt lastError.
  induction remaining as [|remaining' IH]; intros attempt lastError Hrem.
  - exists 0%nat. simpl. repeat split; try reflexivity; intros; lia.
  - simpl uploadAttempts. destruct (truthy (putObject attempt)) eqn:Herr.
    + destruct (IH (attempt + 1) (putObject attempt) ltac:(lia))
        as (k' & Hk' & Hputs & Hwaits & Hfailed & Hres).
      exists (S k'). cbn [fst snd].
      split; [lia|]. split.
      { change (CallPutObject key :: ?l) with ([CallPutObject key] ++ l)%list.
        rewrite !putsOf_app, Hputs. destruct (attempt <? maxRetries)%Z; reflexivity. }
      assert (Hlast : attempt + 1 + Z.of_nat k' - 1 = attempt + Z.of_nat (S k') - 1) by lia.
      split; [|split].
      * change (CallPutObject key :: ?l) with ([CallPutObject key] ++ l)%list.
        rewrite !waitsOf_app, Hwaits.
        replace (Z.of_nat (S k') - 1) with (Z.of_nat k') by lia.
        destruct (attempt <? maxRetries)%Z eqn:Hlt.
        -- apply Z.ltb_lt in Hlt.
           assert (1 <= k')%nat.
           { destruct (uploadAttempts putObject key maxRetries remaining'
                         (attempt + 1) (putObject attempt)).1;
               [destruct Hres as [-> _]; lia | lia]. }
           rewrite (seqZ_cons attempt (Z.of_nat k')) by lia.
           simpl. do 3 f_equal; lia.
        -- apply Z.ltb_ge in Hlt.
           assert (k' = 0)%nat as -> by lia. reflexivity.
      * intros a Ha. destruct (decide (a = attempt)) as [->|]; [exact Herr|].
        apply Hfailed. lia.
      * rewrite <- Hlast.
        destruct (uploadAttempts putObject key maxRetries remaining'
                    (attempt + 1) (putObject attempt)).1 as [e|stored].
        -- destruct Hres as (-> & Hlastfail & ->).
           split; [reflexivity|]. split.
           ++ intros _. destruct remaining' as [|r]; [|apply Hlastfail; lia].
              replace (attempt + 1 + Z.of_nat 0 - 1) with attempt by lia. exact Herr.
           ++ destruct remaining' as [|r].
              ** rewrite Herr.
                 replace (attempt + 1 + Z.of_nat 0 - 1) with attempt by lia. reflexivity.
              ** reflexivity.
        -- destruct Hres as (-> & Hk1 & Hok). repeat split; [lia | exact Hok].
    + exists 1%nat. cbn [fst snd]. split; [lia|]. split; [reflexivity|].
      split; [reflexivity|]. split; [intros a Ha; lia|].
      split; [reflexivity|]. split; [lia|].
      replace (attempt + Z.of_nat 1 - 1) with attempt by lia. exact Herr.
Qed.

End UploadFacts.
(** X20. In COS mode [uploadToCOS] tries at most [maxRetries] times, one
    [putObject] per attempt for the same key, and stops at the first
    attempt without an error, whose key it returns. It waits between two
    attempts only, [2000 * 2 ^ (attempt - 1)] milliseconds after the
    attempt (2000 and 4000 with the default of 3), never after the last
    one. When every attempt fails it throws the error of the last attempt;
    with [maxRetries <= 0] it calls nothing and throws the error of line
    251 (lib/cos.ts: uploadToCOS). *)
Theorem upload_retries_with_backoff (writeLocal : string -> LocalWrite)
    (putObject : Z -> JsValue) (key : string) (maxRetries : Z) :
  (exists k : nat,
     Z.of_nat k <= Z.max 0 maxRetries
     /\ putsOf (uploadToCOS false writeLocal putObject key maxRetries).2 = repeat key k
     /\ waitsOf (uploadToCOS false writeLocal putObject key maxRetries).2
        = map retryDelay (seqZ 1 (Z.of_nat k - 1))
     /\ (forall a, 1 <= a < Z.of_nat k -> truthy (putObject a) = true)
     /\ match (uploadToCOS false writeLocal putObject key maxRetries).1 with
        | inr stored =>
            stored = key /\ (1 <= k)%nat /\ truthy (putObject (Z.of_nat k)) = false
        | inl e =>
            Z.of_nat k = Z.max 0 maxRetries
            /\ ((1 <= k)%nat -> truthy (putObject (Z.of_nat k)) = true)
            /\ e = match k with
                   | O => UploadFailed key
                   | S _ => PutObjectError (putObject (Z.of_nat k))
                   end
        end)
  /\ retryDelay 1 = Fin 2000 /\ retryDelay 2 = Fin 4000.
Proof.
  split; [|split; vm_compute; reflexivity].
  unfold uploadToCOS.
  destruct (uploadAttempts_calls putObject key maxRetries (Z.to_nat maxRetries) 1 JNull
              ltac:(lia)) as (k & Hk & Hputs & Hwaits & Hfailed & Hres).
  exists k. split; [lia|]. split; [exact Hputs|]. split; [exact Hwaits|].
  split; [intros a Ha; apply Hfailed; lia|].
  replace (1 + Z.of_nat k - 1) with (Z.of_nat k) in Hres by lia.
  destruct (uploadAttempts putObject key maxRetries (Z.to_nat maxRetries) 1 JNull).1
    as [e|stored].
  - destruct Hres as (-> & Hlast & ->). split; [lia|]. split; [exact Hlast|].
    destruct (Z.to_nat maxRetries); reflexivity.
  - exact Hres.
Qed.

(** ** Deletion in batches *)

Section DeleteFacts.

Context (unlink : nat -> string -> UnlinkResult)
        (deleteMultipleObject : list string -> DeleteResponse).

Lemma unlinkAll_calls (keys : list string) (i : nat) (success failed : Z) :
  unlinkedOf (unlinkAll unlink i keys success failed).2 = keys
  /\ (unlinkAll unlink i keys success failed).1.1
     + (unlinkAll unlink i keys success failed).1.2
     = success + failed + Z.of_nat (List.length keys)
  /\ success <= (unlinkAll unlink i keys success failed).1.1
  /\ failed <= (unlinkAll unlink i keys success failed).1.2.
Proof.
  revert i success failed.
  induction keys as [|key rest IH]; intros i success failed.
  - simpl. repeat split; lia.
  - cbn [unlinkAll]. cbv zeta.
    match goal with
    | |- context [unlinkAll _ _ _ (fst ?c) _] => set (counted := c)
    end.
    destruct (IH (S i) counted.1 counted.2) as (Hkeys & Hsum & Hs & Hf).
    cbn [fst snd].
    assert (Hcons : forall calls,
              unlinkedOf (CallUnlink key :: calls) = key :: unlinkedOf calls) by reflexivity.
    rewrite Hcons, Hkeys.
    split; [reflexivity|].
    assert (Hc : counted.1 + counted.2 = success + failed + 1
                 /\ success <= counted.1 /\ failed <= counted.2).
    { unfold counted. destruct (unlink i key) as [|code]; [|case_bool_decide];
        cbn [fst snd]; lia. }
    simpl List.length. repeat split; lia.
Qed.

Lemma deleteBatches_calls (validKeys : list string) (remaining i : nat) (success failed : Z) :
  (List.length validKeys <= i + remaining)%nat ->
  concat (batchesOf (deleteBatches deleteMultipleObject validKeys remaining i
                       success failed).2)
  = drop i validKeys
  /\ Forall (fun batch => (1 <= List.length batch <= 1000)%nat)
       (batchesOf (deleteBatches deleteMultipleObject validKeys remaining i
                     success failed).2)
  /\ (accountsForEveryKey deleteMultipleObject ->
      (deleteBatches deleteMultipleObject validKeys remaining i success failed).1.1
      + (deleteBatches deleteMultipleObject validKeys remaining i success failed).1.2
      = success + failed + Z.of_nat (List.length (drop i validKeys))).
Proof.
  revert i success failed.
  induction remaining as [|remaining' IH]; intros i success failed Hlen.
  - simpl. rewrite drop_ge by lia. repeat split; [constructor | intros _; simpl; lia].
  - cbn [deleteBatches]. destruct (i <? List.length validKeys)%nat eqn:Hi.
    2:{ apply Nat.ltb_ge in Hi. rewrite drop_ge by lia. simpl.
        repeat split; [constructor | intros _; simpl; lia]. }
    apply Nat.ltb_lt in Hi. cbv zeta.
    set (batch := take 1000 (drop i validKeys)).
    match goal with
    | |- context [deleteBatches _ _ _ _ (fst ?c) _] => set (counted := c)
    end.
    destruct (IH (i + 1000)%nat counted.1 counted.2 ltac:(lia)) as (Hcat & Hall & Hsum).
    cbn [fst snd].
    assert (Hcons : forall calls,
              batchesOf (CallDeleteMultipleObject batch :: calls)
              = batch :: batchesOf calls) by reflexivity.
    rewrite Hcons.
    assert (Hbatch : (1 <= List.length batch <= 1000)%nat).
    { unfold batch. rewrite length_take, length_drop. lia. }
    split; [|split].
    + simpl. rewrite Hcat. unfold batch.
      rewrite <- (drop_drop validKeys 1000 i).
      apply take_drop.
    + constructor; [exact Hbatch | exact Hall].
    + intros Hacc. rewrite (Hsum Hacc).
      assert (Hdrop : List.length (drop i validKeys)
                      = (List.length batch + List.length (drop (i + 1000) validKeys))%nat).
      { unfold batch. rewrite length_take, !length_drop. lia. }
      rewrite Hdrop. unfold counted.
      destruct (deleteMultipleObject batch) as [|err deletedCount errorCount] eqn:Hresp;
        cbn [fst snd]; [lia|].
      destruct (truthy err) eqn:Herr; cbn [fst snd]; [lia|].
      pose proof (Hacc batch err deletedCount errorCount Hresp Herr). lia.
Qed.

End DeleteFacts.

(** X21. [deleteCOSObjects] drops the keys that are not non-blank strings
    and handles each of the others exactly once, in order. On local
    storage it unlinks them one by one and counts each as a success (also
    when the file is already gone) or as a failure, so that the two
    counts add up to the number of valid keys. On COS it sends them in
    consecutive batches of at least 1 and at most 1000 keys; a batch that
    is answered with an error counts as failed as a whole, and the counts
    add up to the number of valid keys when the client accounts for every
    key it was sent (lib/cos.ts: deleteCOSObjects). *)
Theorem deletion_handles_every_valid_key (unlink : nat -> string -> UnlinkResult)
    (deleteMultipleObject : list string -> DeleteResponse) (keys : list JsValue) :
  (unlinkedOf (deleteCOSObjects true unlink deleteMultipleObject keys).2 = omap validKey keys
   /\ (deleteCOSObjects true unlink deleteMultipleObject keys).1.1
      + (deleteCOSObjects true unlink deleteMultipleObject keys).1.2
      = Z.of_nat (List.length (omap validKey keys)))
  /\ (concat (batchesOf (deleteCOSObjects false unlink deleteMultipleObject keys).2)
      = omap validKey keys
      /\ Forall (fun batch => (1 <= List.length batch <= 1000)%nat)
           (batchesOf (deleteCOSObjects false unlink deleteMultipleObject keys).2)
      /\ (accountsForEveryKey deleteMultipleObject ->
          (deleteCOSObjects false unlink deleteMultipleObject keys).1.1
          + (deleteCOSObjects false unlink deleteMultipleObject keys).1.2
          = Z.of_nat (List.length (omap validKey keys)))).
Proof.
  unfold deleteCOSObjects.
  destruct (List.length keys =? 0)%nat eqn:Hkeys.
  { apply Nat.eqb_eq in Hkeys. destruct keys; [|discriminate Hkeys]. simpl.
    repeat split; try reflexivity. constructor. }
  destruct (List.length (omap validKey keys) =? 0)%nat eqn:Hvalid.
  { apply Nat.eqb_eq in Hvalid.
    destruct (omap validKey keys); [|discriminate Hvalid]. simpl.
    repeat split; try reflexivity. constructor. }
  split.
  - destruct (unlinkAll_calls unlink (omap validKey keys) 0 0 0) as (Hk & Hsum & _).
    split; [exact Hk | lia].
  - destruct (deleteBatches_calls deleteMultipleObject (omap validKey keys)
                (List.length (omap validKey keys)) 0 0 0 ltac:(lia)) as (Hcat & Hall & Hsum).
    split; [exact Hcat|]. split; [exact Hall|].
    intros Hacc. rewrite (Hsum Hacc). rewrite drop_0. lia.
Qed.

(** ** Fetchable URLs *)

Lemma baseUrlOf_nonempty (NEXTAUTH_URL : option string) : baseUrlOf NEXTAUTH_URL <> "".
Proof.
  unfold baseUrlOf, str_or, str_empty.
  case_bool_decide as H; [discriminate | exact H].
Qed.

Lemma length_append (a b : string) :
  str_len (a +:+ b) = (str_len a + str_len b)%nat.
Proof. induction a as [|c a IH]; simpl; [reflexivity|]. rewrite IH. reflexivity. Qed.

Lemma prefix_cons (a : codeUnit) (p : string) (b : codeUnit) (s : string) :
  str_prefix (String a p) (String b s)
  = (a =? b)%N && str_prefix p s.
Proof. reflexivity. Qed.

Lemma startsWith_slash (s : string) :
  startsWith s "/" = true -> exists rest, s = String (unitOf "/") rest.
Proof.
  unfold startsWith. destruct s as [|c s]; [discriminate|].
  rewrite prefix_cons. destruct (N.eqb_spec (unitOf "/") c) as [<-|Hc].
  - intros _. exists s. reflexivity.
  - apply N.eqb_neq in Hc. change (unitOf "/") with 47%N in Hc. rewrite Hc. discriminate.
Qed.

Lemma startsWith_slash_append (base s : string) :
  base <> "" -> startsWith (base +:+ s) "/" = startsWith base "/".
Proof.
  destruct base as [|c base]; [congruence|]. intros _.
  unfold startsWith. change (String c base +:+ s) with (String c (base +:+ s)).
  rewrite !prefix_cons. reflexivity.
Qed.

Lemma toFetchableUrl_path (NEXTAUTH_URL : option string) (rest : string) :
  toFetchableUrl NEXTAUTH_URL (String (unitOf "/") rest) = baseUrlOf NEXTAUTH_URL +:+ String (unitOf "/") rest.
Proof.
  reflexivity.
Qed.

(** X22. [toFetchableUrl] leaves absolute URLs (http, https, data) and
    strings that do not begin with a slash as they are, and puts the base
    URL before a path. Applying it twice, as the image cache does (to the
    URL it is given, and again before the fetch), is the same as applying
    it once exactly when the base URL, NEXTAUTH_URL or its default, does
    not itself begin with a slash (lib/cos.ts: toFetchableUrl). *)
Theorem toFetchableUrl_twice (NEXTAUTH_URL : option string) :
  (forall inputUrl,
     toFetchableUrl NEXTAUTH_URL (toFetchableUrl NEXTAUTH_URL inputUrl)
     = toFetchableUrl NEXTAUTH_URL inputUrl)
  <-> startsWith (baseUrlOf NEXTAUTH_URL) "/" = false.
Proof.
  pose proof (baseUrlOf_nonempty NEXTAUTH_URL) as Hne.
  split.
  - intros H. specialize (H "/").
    destruct (startsWith (baseUrlOf NEXTAUTH_URL) "/") eqn:Hbase; [|reflexivity].
    exfalso.
    change "/" with (String (unitOf "/") "") in H.
    rewrite (toFetchableUrl_path NEXTAUTH_URL "") in H.
    destruct (startsWith_slash _ Hbase) as [rest Hrest].
    rewrite Hrest in H.
    change (String (unitOf "/") rest +:+ String (unitOf "/") "")
      with (String (unitOf "/") (rest +:+ "/")) in H.
    rewrite (toFetchableUrl_path NEXTAUTH_URL (rest +:+ "/")), Hrest in H.
    apply (f_equal str_len) in H. simpl in H.
    rewrite !length_append in H. simpl in H. rewrite !length_append in H. simpl in H. lia.
  - intros Hbase inputUrl. unfold toFetchableUrl at 2 3.
    destruct (startsWith inputUrl "http://" || startsWith inputUrl "https://"
              || startsWith inputUrl "data:") eqn:Habs.
    { unfold toFetchableUrl. rewrite Habs. reflexivity. }
    destruct (startsWith inputUrl "/") eqn:Hslash.
    + unfold toFetchableUrl.
      rewrite (startsWith_slash_append _ inputUrl Hne), Hbase.
      match goal with |- (if ?c then _ else _) = _ => destruct c end; reflexivity.
    + unfold toFetchableUrl. rewrite Habs, Hslash. reflexivity.
Qed.

(** ** The sizes of the OpenAI-compatible generators *)

Lemma normalizeSize_Ok (rawSize field errorPrefix size : string) :
  normalizeSize rawSize field errorPrefix = Ok size ->
  size = toLowerCase (trim rawSize) /\ wellFormedSize size = true.
Proof.
  unfold normalizeSize, wellFormedSize.
  case_bool_decide as Hauto.
  - intros [= <-]. split; [symmetry; exact Hauto | reflexivity].
  - destruct (isPixelSize (toLowerCase (trim rawSize))) eqn:Hpixel; [|discriminate].
    intros [= <-]. split; [reflexivity|]. rewrite Hpixel. apply orb_true_r.
Qed.

Lemma normalizeSize_normal (rawSize field errorPrefix size field' errorPrefix' : string) :
  normalizeSize rawSize field errorPrefix = Ok size ->
  normalizeSize size field' errorPrefix' = Ok size.
Proof.
  intros H. destruct (normalizeSize_Ok _ _ _ _ H) as [Hsize Hwell].
  assert (Hfix : toLowerCase (trim size) = size).
  { rewrite Hsize, toLowerCase_trim, toLowerCase_idempotent, <- toLowerCase_trim,
      trim_idempotent. reflexivity. }
  unfold normalizeSize. rewrite Hfix.
  unfold wellFormedSize in Hwell.
  case_bool_decide as Hauto; [rewrite Hauto; reflexivity|].
  simpl in Hwell. rewrite Hwell. reflexivity.
Qed.

Lemma some_of_Ok (r : outcome string) (size : string) :
  some_of r = Ok (Some size) -> r = Ok size.
Proof. destruct r; simpl; congruence. Qed.

Lemma mapAspectRatioToImageSize_Ok (aspectRatio size : string) :
  mapAspectRatioToImageSize aspectRatio = Ok size ->
  wellFormedSize size = true /\ normalizeSize size "size" "OPENAI_COMPATIBLE_IMAGE" = Ok size.
Proof.
  unfold mapAspectRatioToImageSize.
  repeat case_bool_decide; intros [= <-]; split; reflexivity.
Qed.

Lemma mapAspectRatioToVideoSize_Ok (aspectRatio size : string) :
  mapAspectRatioToVideoSize aspectRatio = Ok size ->
  wellFormedSize size = true
  /\ normalizeSize size "resolution" "OPENAI_COMPATIBLE_VIDEO" = Ok size.
Proof.
  unfold mapAspectRatioToVideoSize.
  repeat case_bool_decide; intros [= <-]; split; reflexivity.
Qed.

(** X23. A size that the OpenAI-compatible generators put into a request
    is well formed, whatever the options hold: [resolveImageSize] and
    [resolveVideoSize] return nothing, throw, or return 'auto' or a width
    and a height of two to five digits joined by 'x', in lower case and
    trimmed, so that normalising it again gives it back. This holds for
    the sizes taken from [size] and [resolution] and for every entry of the
    two aspect-ratio tables (lib/generators/openai-compatible:
    normalizeSize, mapAspectRatioToImageSize, mapAspectRatioToVideoSize,
    resolveImageSize, resolveVideoSize). *)
Theorem resolved_sizes_are_well_formed (options : JsonRecord) :
  match resolveImageSize options with
  | Ok (Some size) =>
      wellFormedSize size = true
      /\ normalizeSize size "size" "OPENAI_COMPATIBLE_IMAGE" = Ok size
  | _ => True
  end
  /\ match resolveVideoSize options with
     | Ok (Some size) =>
         wellFormedSize size = true
         /\ normalizeSize size "resolution" "OPENAI_COMPATIBLE_VIDEO" = Ok size
     | _ => True
     end.
Proof.
  assert (Hnorm : forall raw f p f' p',
            match some_of (normalizeSize raw f p) with
            | Ok (Some size) => wellFormedSize size = true /\ normalizeSize size f' p' = Ok size
            | _ => True
            end).
  { intros raw f p f' p'. destruct (normalizeSize raw f p) as [size|e] eqn:H; simpl; [|exact I].
    split; [exact (proj2 (normalizeSize_Ok _ _ _ _ H)) | exact (normalizeSize_normal _ _ _ _ _ _ H)]. }
  split.
  - unfold resolveImageSize.
    destruct (stringOption options "size"); [apply Hnorm|].
    destruct (stringOption options "resolution"); [apply Hnorm|].
    destruct (stringOption options "aspectRatio") as [ratio|]; [|exact I].
    destruct (mapAspectRatioToImageSize ratio) as [size|e] eqn:H; simpl; [|exact I].
    exact (mapAspectRatioToImageSize_Ok _ _ H).
  - unfold resolveVideoSize.
    destruct (stringOption options "resolution"); [apply Hnorm|].
    destruct (stringOption options "aspectRatio") as [ratio|]; [|exact I].
    destruct (mapAspectRatioToVideoSize ratio) as [size|e] eqn:H; simpl; [|exact I].
    exact (mapAspectRatioToVideoSize_Ok _ _ H).
Qed.

Lemma isDigit_lower (c : codeUnit) : isDigit c = true -> lower_unit c = c.
Proof.
  unfold isDigit. rewrite andb_true_iff, !N.leb_le. intros H.
  destruct (lower_unit_spec c) as [[_ Hc]|[Hl _]]; [lia | exact Hl].
Qed.

Lemma toLowerCase_digits (s : string) : all_digits s = true -> toLowerCase s = s.
Proof.
  induction s as [|c s IH]; [reflexivity|]. simpl.
  intros [Hc Hs]%andb_prop. rewrite (isDigit_lower _ Hc), (IH Hs). reflexivity.
Qed.

Lemma trimEnd_digits_then (s : string) (c : codeUnit) :
  all_digits s = true -> is_whitespace c = false ->
  trimEnd (s +:+ String c "") = s +:+ String c "".
Proof.
  intros Hs Hc. induction s as [|d s IH].
  - change ("" +:+ String c "") with (String c "").
    rewrite (trimEnd_cons _ _ Hc). reflexivity.
  - simpl in Hs. apply andb_prop in Hs as [Hd Hs].
    change (String d s +:+ String c "") with (String d (s +:+ String c "")).
    rewrite (trimEnd_cons _ _ (isDigit_not_whitespace _ Hd)), (IH Hs). reflexivity.
Qed.

Lemma trimStart_digits_then (s : string) (c : codeUnit) :
  all_digits s = true -> is_whitespace c = false ->
  trimStart (s +:+ String c "") = s +:+ String c "".
Proof.
  intros Hs Hc. apply trimStart_of_clean.
  destruct s as [|d s]; simpl; [exact Hc|].
  simpl in Hs. apply andb_prop in Hs as [Hd _]. exact (isDigit_not_whitespace _ Hd).
Qed.

Lemma leadingDigits_then (s : string) (c : codeUnit) (rest : string) :
  all_digits s = true -> isDigit c = false ->
  leadingDigits (s +:+ String c rest) = (str_len s, String c rest).
Proof.
  intros Hs Hc. induction s as [|d s IH]; simpl.
  - rewrite Hc. reflexivity.
  - simpl in Hs. apply andb_prop in Hs as [Hd Hs]. rewrite Hd, (IH Hs). reflexivity.
Qed.

(** X24. [resolveVideoSize] rejects every resolution written as a number
    of lines followed by the letter p, the form in which [generateVideo]
    documents the option ('720p' | '1080p'): whatever else the options
    hold, also a valid aspect ratio, it throws
    OPENAI_COMPATIBLE_VIDEO_OPTION_VALUE_UNSUPPORTED for the resolution
    (lib/generators/openai-compatible: normalizeSize, resolveVideoSize). *)
Theorem line_count_resolution_is_rejected (options : JsonRecord) (digits : string) :
  all_digits digits = true ->
  field options "resolution" = JStr (digits +:+ "p") ->
  resolveVideoSize options
  = Throw (Error ("OPENAI_COMPATIBLE_VIDEO_OPTION_VALUE_UNSUPPORTED: resolution="
                  +:+ digits +:+ "p")).
Proof.
  intros Hdigits Hfield.
  assert (Hws : is_whitespace (unitOf "p") = false) by reflexivity.
  assert (Hp : isDigit (unitOf "p") = false) by reflexivity.
  let c := eval vm_compute in (unitOf "p") in change (unitOf "p") with c in Hws, Hp.
  assert (Hne : digits +:+ "p" <> "").
  { destruct digits; discriminate. }
  unfold resolveVideoSize, stringOption. rewrite Hfield.
  unfold str_empty. rewrite (bool_decide_eq_false_2 _ Hne).
  unfold normalizeSize.
  assert (Hsize : toLowerCase (trim (digits +:+ "p")) = digits +:+ "p").
  { unfold trim. rewrite (trimStart_digits_then _ _ Hdigits Hws),
      (trimEnd_digits_then _ _ Hdigits Hws), toLowerCase_append,
      (toLowerCase_digits _ Hdigits). reflexivity. }
  rewrite Hsize.
  assert (Hauto : digits +:+ "p" <> "auto").
  { destruct digits as [|d digits]; [discriminate|].
    simpl in Hdigits. apply andb_prop in Hdigits as [Hd _].
    intros [= -> _]. discriminate Hd. }
  rewrite (bool_decide_eq_false_2 _ Hauto).
  assert (Hpixel : isPixelSize (digits +:+ "p") = false).
  { unfold isPixelSize.
    rewrite (leadingDigits_then digits _ "" Hdigits Hp).
    cbn [fst snd]. rewrite !andb_false_r. reflexivity. }
  rewrite Hpixel. reflexivity.
Qed.

Lemma line_count_resolution_witness :
  resolveVideoSize [("aspectRatio", JStr "16:9"); ("resolution", JStr "720p")]
  = Throw (Error "OPENAI_COMPATIBLE_VIDEO_OPTION_VALUE_UNSUPPORTED: resolution=720p").
Proof.
  apply (line_count_resolution_is_rejected
           [("aspectRatio", JStr "16:9"); ("resolution", JStr "720p")] "720");
    reflexivity.
Defined.

(** ** The options handed to the OpenAI-compatible generators *)

Lemma is_undefined_false (value : JsValue) : is_undefined value = false <-> value <> JUndefined.
Proof. destruct value; simpl; split; congruence. Qed.

Lemma ensureAllowedOptionKeys_Ok (options : JsonRecord) (allowedKeys : list string)
    (errorPrefix : string) :
  ensureAllowedOptionKeys options allowedKeys errorPrefix = Ok tt
  <-> definedWithin allowedKeys options.
Proof.
  unfold definedWithin. induction options as [|[k v] rest IH]; simpl.
  - split; [intros _ key value [] | reflexivity].
  - destruct (is_undefined v) eqn:Hv.
    + rewrite IH. split.
      * intros H key value [[= <- <-]|Hin] Hdef; [|exact (H key value Hin Hdef)].
        destruct v; try discriminate Hv. congruence.
      * intros H key value Hin. apply H. right. exact Hin.
    + apply is_undefined_false in Hv. unfold has. case_bool_decide as Hk; simpl.
      * rewrite IH. apply list_elem_of_In in Hk. split.
        -- intros H key value [[= <- <-]|Hin] Hdef; [exact Hk | exact (H key value Hin Hdef)].
        -- intros H key value Hin. apply H. right. exact Hin.
      * split; [discriminate|]. intros H. exfalso. apply Hk, list_elem_of_In.
        apply (H k v); [left; reflexivity | exact Hv].
Qed.

Lemma ensureAllowedOptionKeys_Throw (options : JsonRecord) (allowedKeys : list string)
    (errorPrefix : string) (e : JsError) :
  ensureAllowedOptionKeys options allowedKeys errorPrefix = Throw e ->
  exists key value,
    In (key, value) options /\ value <> JUndefined /\ ~ In key allowedKeys
    /\ e = Error (errorPrefix +:+ "_OPTION_UNSUPPORTED: " +:+ key).
Proof.
  induction options as [|[k v] rest IH]; simpl; [discriminate|].
  destruct (is_undefined v) eqn:Hv.
  - intros H. destruct (IH H) as (key & value & Hin & Hrest).
    exists key, value. split; [right; exact Hin | exact Hrest].
  - apply is_undefined_false in Hv. unfold has. case_bool_decide as Hk; simpl.
    + intros H. destruct (IH H) as (key & value & Hin & Hrest).
      exists key, value. split; [right; exact Hin | exact Hrest].
    + intros [= <-]. exists k, v. split; [left; reflexivity|]. split; [exact Hv|].
      split; [|reflexivity]. intros Hin. apply Hk, list_elem_of_In, Hin.
Qed.

Lemma In_setField (fields : JsonRecord) (key : string) (x : JsValue) (k : string)
    (v : JsValue) :
  In (k, v) (setField fields key x) -> k = key \/ In (k, v) fields.
Proof.
  induction fields as [|[k' v'] rest IH]; simpl.
  - intros [[= <- <-]|[]]. left. reflexivity.
  - case_bool_decide as Hk.
    + subst k'. intros [[= <- <-]|Hin]; [left; reflexivity | right; right; exact Hin].
    + intros [[= <- <-]|Hin]; [right; left; reflexivity|].
      destruct (IH Hin) as [H|H]; [left; exact H | right; right; exact H].
Qed.

Lemma In_setField_other (fields : JsonRecord) (key : string) (x : JsValue) (k : string)
    (v : JsValue) :
  k <> key -> In (k, v) fields -> In (k, v) (setField fields key x).
Proof.
  intros Hne. induction fields as [|[k' v'] rest IH]; simpl; [intros []|].
  intros [[= -> ->]|Hin].
  - rewrite bool_decide_eq_false_2 by exact Hne. left. reflexivity.
  - case_bool_decide; right; [exact Hin | exact (IH Hin)].
Qed.

Lemma In_withoutField (key : string) (fields : JsonRecord) (k : string) (v : JsValue) :
  In (k, v) (withoutField key fields) <-> In (k, v) fields /\ k <> key.
Proof.
  unfold withoutField. rewrite List.filter_In. simpl.
  rewrite negb_true_iff, bool_decide_eq_false. reflexivity.
Qed.

Lemma In_withSelection (fields : JsonRecord) (selection : ModelSelection) (k : string)
    (v : JsValue) :
  In (k, v) (withSelection fields selection) ->
  In k ["provider"; "modelId"; "modelKey"] \/ In (k, v) fields.
Proof.
  unfold withSelection. intros H.
  apply In_setField in H as [->|H]; [left; simpl; auto|].
  apply In_setField in H as [->|H]; [left; simpl; auto|].
  apply In_setField in H as [->|H]; [left; simpl; auto|].
  right. exact H.
Qed.

Lemma In_withSelection_other (fields : JsonRecord) (selection : ModelSelection) (k : string)
    (v : JsValue) :
  ~ In k ["provider"; "modelId"; "modelKey"] ->
  In (k, v) fields -> In (k, v) (withSelection fields selection).
Proof.
  intros Hk Hin. unfold withSelection. simpl in Hk.
  repeat apply In_setField_other; try exact Hin; intros ->; apply Hk; auto.
Qed.

(** X25. The option check of the OpenAI-compatible generators against the
    options that [generateImage] and [generateVideo] build for a
    generator. Of the options that [generateImage] declares, exactly
    [keepOriginalAspectRatio] does not pass: the check of the image
    generator succeeds when that option is absent or undefined, and throws
    ..._OPTION_UNSUPPORTED for a key of the options otherwise. Every
    option that [generateVideo] declares passes the check of the video
    generator (lib/generator-api: generateImage, generateVideo;
    lib/generators/openai-compatible: ensureAllowedOptionKeys). *)
Theorem declared_options_and_the_option_check (options : option JsonRecord)
    (selection : ModelSelection) :
  (definedWithin generateImage_declared (default [] options) ->
   (ensureAllowedOptionKeys (imageGeneratorOptions options selection)
      IMAGE_ALLOWED_OPTION_KEYS "OPENAI_COMPATIBLE_IMAGE" = Ok tt
    <-> forall value, In ("keepOriginalAspectRatio", value) (default [] options) ->
                      value = JUndefined)
   /\ (forall e,
         ensureAllowedOptionKeys (imageGeneratorOptions options selection)
           IMAGE_ALLOWED_OPTION_KEYS "OPENAI_COMPATIBLE_IMAGE" = Throw e ->
         e = Error "OPENAI_COMPATIBLE_IMAGE_OPTION_UNSUPPORTED: keepOriginalAspectRatio"))
  /\ (definedWithin generateVideo_declared (default [] options) ->
      ensureAllowedOptionKeys (videoGeneratorOptions options selection)
        VIDEO_ALLOWED_OPTION_KEYS "OPENAI_COMPATIBLE_VIDEO" = Ok tt).
Proof.
  set (given := default [] options).
  split.
  - intros Hdeclared.
    assert (Hcases : forall key value,
              In (key, value) (imageGeneratorOptions options selection) ->
              value <> JUndefined ->
              In key IMAGE_ALLOWED_OPTION_KEYS
              \/ (key = "keepOriginalAspectRatio" /\ In (key, value) given)).
    { intros key value Hin Hdef. unfold imageGeneratorOptions in Hin. fold given in Hin.
      apply In_withSelection in Hin as [Hsel|Hin].
      - left. simpl in Hsel |- *. tauto.
      - apply In_withoutField in Hin as [Hin Hne].
        pose proof (Hdeclared key value Hin Hdef) as Hkey. simpl in Hkey |- *.
        destruct Hkey as [<-|[<-|[<-|[<-|[<-|[<-|[]]]]]]]; tauto. }
    split; [split|].
    + intros Hok value Hin.
      destruct (is_undefined value) eqn:Hdef;
        [destruct value; try discriminate Hdef; reflexivity|].
      apply is_undefined_false in Hdef. exfalso.
      apply ensureAllowedOptionKeys_Ok in Hok.
      assert (Hres : In ("keepOriginalAspectRatio", value)
                        (imageGeneratorOptions options selection)).
      { unfold imageGeneratorOptions. fold given.
        apply In_withSelection_other.
        - simpl. intros [H|[H|[H|[]]]]; discriminate H.
        - apply In_withoutField. split; [exact Hin | discriminate]. }
      pose proof (Hok _ _ Hres Hdef) as Hallowed. simpl in Hallowed.
      repeat destruct Hallowed as [Hallowed|Hallowed]; try discriminate Hallowed.
      exact Hallowed.
    + intros Hkeep. apply ensureAllowedOptionKeys_Ok. intros key value Hin Hdef.
      destruct (Hcases key value Hin Hdef) as [H|[-> Hgiven]]; [exact H|].
      exfalso. apply Hdef, Hkeep, Hgiven.
    + intros e He.
      destruct (ensureAllowedOptionKeys_Throw _ _ _ _ He)
        as (key & value & Hin & Hdef & Hnot & ->).
      destruct (Hcases key value Hin Hdef) as [H|[-> _]]; [contradiction | reflexivity].
  - intros Hdeclared. apply ensureAllowedOptionKeys_Ok. intros key value Hin Hdef.
    unfold videoGeneratorOptions in Hin. fold given in Hin.
    apply In_withSelection in Hin as [Hsel|Hin].
    + simpl in Hsel |- *. tauto.
    + apply In_withoutField in Hin as [Hin Hne].
      pose proof (Hdeclared key value Hin Hdef) as Hkey. simpl in Hkey |- *. tauto.
Qed.

(** ** The normalisation of capability selections *)

Lemma setField_fresh (fields : JsonRecord) (key : string) (v : JsValue) :
  ~ In key (keysOf fields) -> setField fields key v = (fields ++ [(key, v)])%list.
Proof.
  induction fields as [|[k x] rest IH]; simpl; [reflexivity|].
  intros Hfresh. rewrite bool_decide_eq_false_2 by (intros ->; apply Hfresh; left; reflexivity).
  rewrite IH by (intros H; apply Hfresh; right; exact H). reflexivity.
Qed.

Lemma keysOf_setField (fields : JsonRecord) (key : string) (v : JsValue) :
  keysOf (setField fields key v)
  = if bool_decide (key ∈ keysOf fields) then keysOf fields
    else (keysOf fields ++ [key])%list.
Proof.
  induction fields as [|[k x] rest IH].
  - cbn [setField keysOf map fst].
    rewrite bool_decide_eq_false_2 by (intros H; inversion H). reflexivity.
  - cbn [setField]. destruct (bool_decide_reflect (k = key)) as [Hk|Hk].
    + subst k. cbn [keysOf map fst].
      rewrite bool_decide_eq_true_2 by (left). reflexivity.
    + change (keysOf ((k, x) :: setField rest key v))
        with (k :: keysOf (setField rest key v)).
      change (keysOf ((k, x) :: rest)) with (k :: keysOf rest).
      rewrite IH. case_bool_decide as Hin.
      * rewrite bool_decide_eq_true_2 by (right; exact Hin). reflexivity.
      * rewrite bool_decide_eq_false_2; [reflexivity|].
        intros H. apply list_elem_of_In in H. destruct H as [H|H];
          [apply Hk; exact H | apply Hin, list_elem_of_In; exact H].
Qed.

Lemma NoDup_keysOf_setField (fields : JsonRecord) (key : string) (v : JsValue) :
  NoDup (keysOf fields) -> NoDup (keysOf (setField fields key v)).
Proof.
  intros H. rewrite keysOf_setField. case_bool_decide as Hin; [exact H|].
  apply NoDup_app. split; [exact H|]. split; [|apply NoDup_singleton].
  intros k Hk Hk'. apply list_elem_of_singleton in Hk'. subst k. apply Hin, Hk.
Qed.

Lemma Forall_setField (P : string * JsValue -> Prop) (fields : JsonRecord) (key : string)
    (v : JsValue) :
  P (key, v) -> Forall P fields -> Forall P (setField fields key v).
Proof.
  intros Hnew. induction fields as [|[k x] rest IH]; simpl; intros H.
  - constructor; [exact Hnew | constructor].
  - apply List.Forall_cons_iff in H as [Hhead Hrest].
    case_bool_decide as Hk.
    + subst k. constructor; [exact Hnew | exact Hrest].
    + constructor; [exact Hhead | exact (IH Hrest)].
Qed.

Lemma normalizeSelection_clean (allow : bool) (modelKey : string) (entries selection out
    : JsonRecord) :
  normalizeSelection allow modelKey entries selection = inr out ->
  NoDup (keysOf selection) -> Forall goodField selection ->
  NoDup (keysOf out) /\ Forall goodField out.
Proof.
  revert selection. induction entries as [|[field value] rest IH]; intros selection; simpl.
  - intros [= <-]. auto.
  - case_bool_decide as Haspect.
    + destruct allow; [apply IH | discriminate].
    + destruct (isPrimitive value) eqn:Hprim; simpl; [|discriminate].
      intros H Hnodup Hgood. unfold assign in H.
      destruct (bool_decide_reflect (field = "__proto__")) as [Hproto|Hproto];
        [exact (IH _ H Hnodup Hgood)|].
      apply (IH _ H).
      * apply NoDup_keysOf_setField, Hnodup.
      * apply Forall_setField; [|exact Hgood]. repeat split; assumption.
Qed.

Lemma normalizeSelection_rebuild (allow : bool) (modelKey : string) (selection acc
    : JsonRecord) :
  NoDup (keysOf acc ++ keysOf selection) -> Forall goodField selection ->
  normalizeSelection allow modelKey selection acc = inr (acc ++ selection)%list.
Proof.
  revert acc. induction selection as [|[field value] rest IH]; intros acc Hnodup Hgood; simpl.
  - rewrite app_nil_r. reflexivity.
  - apply List.Forall_cons_iff in Hgood as [(Haspect & Hproto & Hprim) Hrest].
    simpl in Haspect, Hproto, Hprim.
    rewrite (bool_decide_eq_false_2 _ Haspect), Hprim. simpl negb. cbv iota.
    unfold assign. rewrite (bool_decide_eq_false_2 _ Hproto).
    simpl in Hnodup.
    assert (Hfresh : ~ In field (keysOf acc)).
    { intros Hin. apply NoDup_app in Hnodup as (_ & Hdisj & _).
      apply (Hdisj field); [apply list_elem_of_In, Hin | left]. }
    rewrite (setField_fresh _ _ _ Hfresh), IH.
    + rewrite <- app_assoc. reflexivity.
    + unfold keysOf in *. rewrite map_app. simpl. rewrite <- app_assoc. exact Hnodup.
    + exact Hrest.
Qed.

Lemma normalizeSelection_legacy (modelKey : string) (entries selection out : JsonRecord) :
  normalizeSelection false modelKey entries selection = inr out ->
  normalizeSelection true modelKey entries selection = inr out.
Proof.
  revert selection. induction entries as [|[field value] rest IH]; intros selection; simpl;
    [auto|].
  case_bool_decide; [discriminate|].
  destruct (negb (isPrimitive value)); [discriminate | apply IH].
Qed.

Lemma normalizeSelections_clean (allow : bool) (entries normalized out : JsonRecord) :
  normalizeSelections allow entries normalized = inr out ->
  cleanSelections normalized -> cleanSelections out.
Proof.
  revert normalized. induction entries as [|[modelKey rawSelection] rest IH];
    intros normalized; simpl.
  - intros [= <-]. auto.
  - destruct rawSelection as [| |b|n|s|items|fields]; try discriminate.
    destruct (normalizeSelection allow modelKey fields []) as [e|selection] eqn:Hsel;
      [discriminate|].
    intros H Hclean. apply (IH _ H).
    destruct (0 <? List.length selection)%nat eqn:Hlen; [|exact Hclean].
    unfold assign.
    destruct (bool_decide_reflect (modelKey = "__proto__")) as [Hproto|Hproto];
      [exact Hclean|].
    destruct Hclean as [Hnodup Hall].
    destruct (normalizeSelection_clean _ _ _ _ _ Hsel) as [Hn Hg];
      [constructor | constructor |].
    split; [apply NoDup_keysOf_setField, Hnodup|].
    apply Forall_setField; [|exact Hall]. simpl. split; [exact Hproto|].
    exists selection. split; [reflexivity|]. split; [|split; assumption].
    intros ->. discriminate Hlen.
Qed.

Lemma normalizeSelections_rebuild (allow : bool) (normalized acc : JsonRecord) :
  NoDup (keysOf acc ++ keysOf normalized) -> Forall goodSelection normalized ->
  normalizeSelections allow normalized acc = inr (acc ++ normalized)%list.
Proof.
  revert acc. induction normalized as [|[modelKey value] rest IH]; intros acc Hnodup Hgood;
    simpl.
  - rewrite app_nil_r. reflexivity.
  - apply List.Forall_cons_iff in Hgood as [(Hproto & selection & Hvalue & Hclean) Hrest].
    simpl in Hproto, Hvalue. subst value.
    destruct Hclean as (Hne & Hn & Hg).
    rewrite (normalizeSelection_rebuild allow modelKey selection [] Hn Hg). simpl app.
    destruct selection as [|entry selection]; [congruence|].
    change (0 <? List.length (entry :: selection))%nat with true. cbv iota.
    unfold assign. rewrite (bool_decide_eq_false_2 _ Hproto).
    simpl in Hnodup.
    assert (Hfresh : ~ In modelKey (keysOf acc)).
    { intros Hin. apply NoDup_app in Hnodup as (_ & Hdisj & _).
      apply (Hdisj modelKey); [apply list_elem_of_In, Hin | left]. }
    rewrite (setField_fresh _ _ _ Hfresh), IH.
    + rewrite <- app_assoc. reflexivity.
    + unfold keysOf in *. rewrite map_app. simpl. rewrite <- app_assoc. exact Hnodup.
    + exact Hrest.
Qed.

Lemma normalizeSelections_legacy (entries normalized out : JsonRecord) :
  normalizeSelections false entries normalized = inr out ->
  normalizeSelections true entries normalized = inr out.
Proof.
  revert normalized. induction entries as [|[modelKey rawSelection] rest IH];
    intros normalized; simpl; [auto|].
  destruct rawSelection as [| |b|n|s|items|fields]; try discriminate.
  destruct (normalizeSelection false modelKey fields []) as [e|selection] eqn:Hsel;
    [discriminate|].
  rewrite (normalizeSelection_legacy _ _ _ _ Hsel). apply IH.
Qed.

(** X26. What [normalizeCapabilitySelectionsInput] returns is clean: no
    model key and no field twice, every selection with at least one field,
    every value a string, a number or a boolean, and no field
    [aspectRatio]. Normalising the result again gives it back, with or
    without the allowance for the legacy [aspectRatio], and an input that
    the strict mode accepts gives the same result in the legacy mode
    (app/api/novel-promotion/[projectId]/route.ts:
    normalizeCapabilitySelectionsInput). *)
Theorem normalized_selections_are_clean (raw : JsValue) (allowLegacyAspectRatio : bool)
    (normalized : JsonRecord) :
  normalizeCapabilitySelectionsInput raw allowLegacyAspectRatio = inr normalized ->
  cleanSelections normalized
  /\ (forall allow, normalizeCapabilitySelectionsInput (JObj normalized) allow = inr normalized)
  /\ (allowLegacyAspectRatio = false ->
      normalizeCapabilitySelectionsInput raw true = inr normalized).
Proof.
  intros H.
  assert (Hclean : cleanSelections normalized).
  { destruct raw as [| |b|n|s|items|entries]; simpl in H; try discriminate H.
    - injection H as <-. split; constructor.
    - injection H as <-. split; constructor.
    - apply (normalizeSelections_clean _ _ _ _ H). split; constructor. }
  split; [exact Hclean|]. split.
  - intros allow. simpl. destruct Hclean as [Hnodup Hall].
    exact (normalizeSelections_rebuild allow normalized [] Hnodup Hall).
  - intros ->. destruct raw as [| |b|n|s|items|entries]; simpl in H |- *; try discriminate H;
      try exact H.
    apply normalizeSelections_legacy, H.
Qed.

Lemma normalized_selections_witness :
  cleanSelections [("llm::m", JObj [("reasoningEffort", JStr "high")])]
  /\ (forall allow,
        normalizeCapabilitySelectionsInput
          (JObj [("llm::m", JObj [("reasoningEffort", JStr "high")])]) allow
        = inr [("llm::m", JObj [("reasoningEffort", JStr "high")])])
  /\ (false = false ->
      normalizeCapabilitySelectionsInput
        (JObj [("llm::m", JObj [("reasoningEffort", JStr "high")]);
               ("image::n", JObj [])]) true
      = inr [("llm::m", JObj [("reasoningEffort", JStr "high")])]).
Proof.
  apply (normalized_selections_are_clean
           (JObj [("llm::m", JObj [("reasoningEffort", JStr "high")]);
                  ("image::n", JObj [])]) false).
  reflexivity.
Defined.

(** ** The percentage of a step *)

Lemma between_num_le lo hi a b :
  between lo hi a b -> num_le (Fin lo) a /\ num_le a b /\ num_le b (Fin hi).
Proof.
  intros (x & y & -> & -> & H1 & H2 & H3). unfold num_le. simpl.
  rewrite !Qle_bool_iff. auto.
Qed.

(** X27. For integers 0 <= stepIndex <= stepTotal that a number can hold,
    the percentage that the [runStep] closures of the two handlers report
    is 15 + min(55, floor((stepIndex / max(1, stepTotal)) * 55)) on
    numbers; it is finite, also for stepTotal = 0, where it is 15, lies
    between 15 and 70, and does not decrease when stepIndex grows at a
    fixed stepTotal; it is the percentage of the progress report among
    the calls of a step (story-to-script.ts lines 125-190: runStep). *)
Theorem stepProgress_band_and_monotone (i j t : Z) :
  (0 <= i)%Z -> (i <= j)%Z -> (j <= t)%Z -> (t <= MAX_VALUE)%Z ->
  stepProgress i t
  = num_add (num_of_Z 15)
      (num_min (num_of_Z 55)
         (num_floor (num_mul (num_div (num_of_Z i) (num_max (num_of_Z 1) (num_of_Z t)))
                             (num_of_Z 55))))
  /\ between 15 70 (stepProgress i t) (stepProgress j t)
  /\ num_isFinite (stepProgress i t) = true
  /\ num_le (num_of_Z 15) (stepProgress i t)
  /\ num_le (stepProgress i t) (stepProgress j t)
  /\ num_le (stepProgress j t) (num_of_Z 70)
  /\ stepProgress 0 0 = Fin 15
  /\ (forall L c meta prompt action,
        In (EvReportTaskProgress (stepProgress (stepIndex meta) (stepTotal meta))
              (stepStage L) (stepStageLabel L) (Some (stepReportOf meta)))
           (stepEvents L c meta prompt action)).
Proof.
  intros Hi Hij Hjt Ht.
  pose proof (stepProgress_between i j t Hi Hij Hjt Ht) as Hb.
  destruct (between_num_le _ _ _ _ Hb) as (H1 & H2 & H3).
  destruct Hb as (x & y & Hx & Hy & Hlo & Hxy & Hhi).
  split; [reflexivity|].
  split; [exists x, y; auto|].
  split; [rewrite Hx; reflexivity|].
  split; [exact H1|]. split; [exact H2|]. split; [exact H3|].
  split; [vm_compute; reflexivity|].
  intros. unfold stepEvents. simpl. auto.
Qed.

Lemma stepProgress_band_witness :
  (0 <= 3)%Z /\ (3 <= 6)%Z /\ (6 <= 11)%Z /\ (11 <= MAX_VALUE)%Z
  /\ stepProgress 3 11
     = num_add (num_of_Z 15)
         (num_min (num_of_Z 55)
            (num_floor (num_mul (num_div (num_of_Z 3) (num_max (num_of_Z 1) (num_of_Z 11)))
                                (num_of_Z 55))))
  /\ between 15 70 (stepProgress 3 11) (stepProgress 6 11)
  /\ num_isFinite (stepProgress 3 11) = true
  /\ num_le (num_of_Z 15) (stepProgress 3 11)
  /\ num_le (stepProgress 3 11) (stepProgress 6 11)
  /\ num_le (stepProgress 6 11) (num_of_Z 70)
  /\ stepProgress 0 0 = Fin 15
  /\ (forall L c meta prompt action,
        In (EvReportTaskProgress (stepProgress (stepIndex meta) (stepTotal meta))
              (stepStage L) (stepStageLabel L) (Some (stepReportOf meta)))
           (stepEvents L c meta prompt action)).
Proof.
  split; [lia|]. split; [lia|]. split; [lia|]. split; [vm_compute; discriminate|].
  apply (stepProgress_band_and_monotone 3 6 11); [lia | lia | lia | vm_compute; discriminate].
Defined.
